(* ===== verification/_CoqProject ===== *)
-Q . S2P
Prelude.v
GoErrors.v
GoStrings.v
Sha256.v
Netip.v
Conn.v
Wrapper.v
Caddyfile.v
Json.v
Detector.v
Registry.v
Limits.v
Provision.v
NodeInfo.v
Policy.v
PrivateRanges.v
Dial.v
Arrival.v
Routing.v
Listener.v
Website.v
Session.v
Relay.v
Copy.v
Handler.v
