(* ===== verification/Prelude.v ===== *)
(** * caddy-anytls: a verification library

    caddy-anytls is a listener wrapper for Caddy that lets a website and the AnyTLS proxy
    protocol share one HTTPS port.  After the TLS handshake it looks at the first bytes of a
    connection: when they are the SHA-256 of an enabled user's password, it serves the
    connection itself; otherwise it gives it back to the website with no byte lost.  A served
    session opens streams to destinations, which a policy may refuse, through an outbound that
    depends on the user, under limits on connections and streams.  This library models the Go
    sources and proves what makes them correct.

    ** The program and its parts

    Configuration comes from a Caddyfile or from JSON (config.go), is completed by
    [Provision] and checked by [Validate] (anytls.go).  A connection then passes the parts in
    this order: [Accept] and the accept loop (listener.go), a probing goroutine each,
    classification of the first bytes (listener.go, detector.go, buffered_conn.go), and
    either the website (website_conn.go, anytls.go) or [acquire] (limits.go) and a session
    (listener.go, session_registry.go).  A stream of a session goes through the handler
    (handler.go, auth.go): a slot (limits.go), the policy (policy.go), the dial loop
    (handler.go) and a relay (relay.go, uot.go).

    ** Files and what they model

    - [Prelude]: notation, record update, tactics, hints, lists and counting, runs of
      transition systems ([run], with its induction principles [run_inv] and
      [run_measure]).
    - [GoErrors], [GoStrings], [Sha256], [Netip]: what the code uses of the Go library
      (error trees, strings and strconv, crypto/sha256, net/netip), executable; the error
      reasons of anytls.go ([probeFailureReason], [dialFailureReason]).
    - [Conn], [Arrival]: net.Conn with arrival times and read deadlines, bufio.Reader,
      [bufferedConn] and [prependConn].  The class [Reader] with [ReaderLaws] is the
      interface, the contract of io.Reader with an end: reading to the end gives what is
      pending, and the error may come with the last bytes.  Arrival.v says when a peek
      succeeds.
    - [Wrapper]: configuration, defaults, CIDR lists and [Validate].  [Caddyfile] and
      [Json]: the two ways to write a configuration.  [NodeInfo]: node_info.go, the
      anytls:// links logged at start, and provisioning with the HTTP server.
    - [Detector]: the class [Detector] with its laws and [PasswordHashDetector].
    - [Registry], [Limits]: the sessions as a map; the counters, with goroutines interleaved at
      atomic operations ([thread_step]); the goroutine of a connection that goes to the
      website ends after its classification.
    - [Provision]: the runtime fields of [ListenerWrapper] and the outbounds; loading a
      module zeroes its raw field.
    - [Policy], [PrivateRanges]: the destination policy; the table of private address blocks.
    - [Dial]: the happy-eyeballs loop and its goroutines as a transition system ([dial_step]), and
      the time budget of its dials ([dialResolved]).
    - [Routing]: one accepted connection, from its TLS handshake to the verdict, as a function
      from the arriving bytes to the effects in order.
    - [Listener]: Accept, Close, the accept loop and the probes interleaved
      ([listener_step]), which calls Routing.v for each classification.
    - [Website]: the map of TLS states, under the steps of Listener.v and of the HTTP
      server.
    - [Session]: the goroutine of a session and the idle timer; it performs the steps of
      Limits.v.
    - [Relay], [Copy]: the goroutines of a relay ([relay_step]), the packet relay with its cache;
      one direction of a copy with its byte counters, against the classes [Reader] and
      [Writer].
    - [Handler]: [NewConnectionEx] and [handleUDPOverTCP] in a state monad over the
      counters of Limits.v, with the functions of Policy.v, Dial.v and Relay.v.

    ** How the state is represented

    Structs are records with the names of the source, updated with [r <| f := v |>].  A
    configuration's int is a [Z]; the 64-bit counters wrap around ([wrap64]), ports and prefix
    lengths are bounded where they are parsed, addresses are 32- and 128-bit [Z].  Bytes are
    lists of [ascii].  Errors are values of [error]; a [(T, error)] result is a [result T].
    A Go map is a [gmap]; where iteration order matters the order is an argument.  Logging is
    an event with the fields that depend on the state, and is otherwise left out.

    Concurrent parts are partial functions from an action and a state to a state.  Actions
    name the goroutine that moves and what the environment decides (what a dial or a read
    returns, when the clock ticks, which case of a select is taken).  Mutexes and sync.Once
    show in the size of the steps; the compare-and-swap loops are not collapsed.

    ** What the theorems show

    - Admission (Routing.v, Detector.v): a session starts only behind the password hash of an
      enabled user; everybody else is closed, or reaches the website with the stream intact;
      classification refines a function of the first bytes and ends within four probe
      timeouts; each accepted connection is disposed of once.
    - Listener (Listener.v, Website.v): bounded probes, no connection lost or returned
      twice, shutdown that completes, one terminal error, of the first to stop; the website
      sees the TLS state of each connection.
    - Limits (Limits.v, Registry.v, Session.v): no interleaving exceeds a limit; counters
      return to zero; sessions are terminated when the configuration is unloaded; the idle
      timer closes exactly the connections on which no byte moves for the timeout.
    - Destinations (Policy.v, PrivateRanges.v, Dial.v, Relay.v): only addresses that passed
      the policy are dialled or sent to; the dial loop tries every address, ends and leaks
      no connection; the packet cache changes nothing while names keep their addresses.
    - Streams (Handler.v, Relay.v, Copy.v): however a stream ends, its slots, connections and
      close handler are released once; both directions are copied faithfully and counted.
    - Configuration (Wrapper.v, Provision.v, Caddyfile.v, Json.v, NodeInfo.v): [Validate]
      accepts exactly the well-formed configurations; users leave through the outbound
      they name; Caddyfile and the links of plain hosts survive a round trip, JSON all but
      two booleans; filling in the defaults is idempotent.

    ** Fuel and bounds

    Every fuel has a theorem or a measure behind it.  [bufio_fill] has the hundred attempts of
    Go's maxConsecutiveEmptyReads, and [bufio_Peek n] one turn per missing byte plus one,
    since a fill adds a byte or sets the error ([bufio_fill_spec]).
    [UnmarshalCaddyfile] needs one turn per directive line plus one
    ([caddyfile_roundtrip]); [io_Copy] one per read, of which there are at most [rd_work]
    plus one ([io_Copy_spec]); [interleave_loop] the number of addresses
    ([interleave_spec]); [parse_groups] the eight groups of an IPv6 address; [format_loop]
    the twenty digits of a 64-bit integer ([digits_format]).  Transition systems need no
    fuel: [dial_terminates], [relay_closes_once] and [listener_shutdown] bound the length of
    their runs.

    ** What is not under src/

    Caddy's dispenser, durations and module loader ([Dispenser], [Caddy], [Runtime]),
    outbound modules ([Outbound], [Dialer], [PacketOutbound]), the metadata and UDP-over-TCP code of
    sing ([SocksaddrMethods], [UoT], [OnceClose], [NetAddrs]), the Unicode tables of Go
    ([UnicodeTables], [SpaceTables]) and the text level of encoding/json ([JsonText]) are
    classes; their laws state documented behaviour, and every theorem that assumes one has
    a witness with a concrete instance.  The AnyTLS service is an argument of Session.v.

    ** Not modelled

    The JSON text below its values; the AnyTLS protocol inside a session; the methods of
    [DirectOutbound] that only call package net; zap_logger.go, which forwards to zap;
    module registration ([CaddyModule], [init]); data races on fields that are not
    atomic; [io.WriterTo] and [io.ReaderFrom] short cuts of third-party connections. *)

From stdpp Require Export base tactics option list gmap strings.
From Stdlib Require Export ZArith Lia.

#[export] Set Default Goal Selector "!".

(** ** Notations *)

Declare Scope anytls_scope.
Delimit Scope anytls_scope with anytls.

(** A Go byte slice is a list of 8-bit characters; a Go string is a
    [String.string] over the same characters. *)
Abbreviation bytes := (list Ascii.ascii).

(** [[]byte(s)] *)
Definition bytes_of_string (s : string) : bytes := String.list_ascii_of_string s.
(** [string(b)] *)
Definition string_of_bytes (b : bytes) : string := String.string_of_list_ascii b.

Lemma string_of_bytes_of_string s : string_of_bytes (bytes_of_string s) = s.
Proof. apply String.string_of_list_ascii_of_string. Qed.

Lemma bytes_of_string_of_bytes b : bytes_of_string (string_of_bytes b) = b.
Proof. apply String.list_ascii_of_string_of_list_ascii. Qed.

Lemma bytes_of_string_inj s t : bytes_of_string s = bytes_of_string t -> s = t.
Proof.
  intros H. rewrite <- (string_of_bytes_of_string s), H. apply string_of_bytes_of_string.
Qed.

Lemma length_bytes_of_string s : length (bytes_of_string s) = String.length s.
Proof. induction s as [|c s IH]; simpl; [done|]. by f_equal. Qed.

(** [string(preview) == lit] *)
Lemma string_of_bytes_eqb b s :
  String.eqb (string_of_bytes b) s = true <-> b = bytes_of_string s.
Proof.
  rewrite String.eqb_eq. split.
  - intros <-. by rewrite bytes_of_string_of_bytes.
  - intros ->. apply string_of_bytes_of_string.
Qed.

Lemma string_of_bytes_neqb b s :
  String.eqb (string_of_bytes b) s = false <-> b <> bytes_of_string s.
Proof.
  rewrite <- not_true_iff_false. by rewrite string_of_bytes_eqb.
Qed.

(** ** Automation *)

Create HintDb anytls discriminated.
#[export] Hint Constants Opaque : anytls.

(** Splits every match of the goal and the context, then cleans up. *)
Ltac cases := repeat (case_match; simplify_eq/=).

(** Splits the next match of a hypothesis. *)
Ltac split_match H :=
  match type of H with
  | context [match ?e with _ => _ end] =>
      lazymatch e with
      | context [match _ with _ => _ end] => fail
      | _ => destruct e eqn:?; simplify_eq
      end
  end.

(** Turns the boolean tests of the code into propositions. *)
Ltac bools :=
  repeat match goal with
  | H : andb _ _ = true |- _ => apply andb_true_iff in H; destruct H
  | H : orb _ _ = false |- _ => apply orb_false_iff in H; destruct H
  | H : negb _ = true |- _ => apply negb_true_iff in H
  | H : negb _ = false |- _ => apply negb_false_iff in H
  | H : bool_decide _ = true |- _ => apply bool_decide_eq_true in H
  | H : bool_decide _ = false |- _ => apply bool_decide_eq_false in H
  | H : Z.eqb _ _ = true |- _ => apply Z.eqb_eq in H
  | H : Z.eqb _ _ = false |- _ => apply Z.eqb_neq in H
  | H : Z.leb _ _ = true |- _ => apply Z.leb_le in H
  | H : Z.leb _ _ = false |- _ => apply Z.leb_gt in H
  | H : Z.ltb _ _ = true |- _ => apply Z.ltb_lt in H
  | H : Z.ltb _ _ = false |- _ => apply Z.ltb_ge in H
  | H : Nat.eqb _ _ = true |- _ => apply Nat.eqb_eq in H
  | H : Nat.eqb _ _ = false |- _ => apply Nat.eqb_neq in H
  | H : Nat.leb _ _ = true |- _ => apply Nat.leb_le in H
  | H : Nat.leb _ _ = false |- _ => apply Nat.leb_gt in H
  | H : Nat.ltb _ _ = true |- _ => apply Nat.ltb_lt in H
  | H : Nat.ltb _ _ = false |- _ => apply Nat.ltb_ge in H
  | H : String.eqb _ _ = true |- _ => apply String.eqb_eq in H
  | H : String.eqb _ _ = false |- _ => apply String.eqb_neq in H
  end.

(** ** Record update

    [r <| field := v |>].  A record type gets it from an [Eta] instance, the
    record rebuilt from its own projections; the updater replaces one of them. *)

Class Eta (R : Type) := mkEta { eta : R -> R; eta_id : forall r, eta r = r }.
Class Update {R E : Type} (proj : R -> E) := mkUpdate {
  update_field : E -> R -> R;
  update_field_get : forall v r, proj (update_field v r) = v
}.
Arguments mkUpdate {R E} proj update_field update_field_get.
Arguments update_field {R E} proj {_} v r /.

(** Closes [Eta T] for the record rebuilt by [f]. *)
Notation record_eta f :=
  {| eta := f; eta_id := fun r => ltac:(destruct r; reflexivity) |} (only parsing).

Ltac solve_update :=
  match goal with
  | |- @Update ?R ?E ?proj =>
      let upd := constr:(fun (v : E) (r : R) => ltac:(
        let e := constr:(@eta R _ r) in
        let h := match e with @eta _ ?inst _ => head_of inst end in
        let body := eval cbv beta iota delta [eta h] in e in
        let abstracted := eval pattern (proj r) in body in
        match abstracted with ?f _ => let t := eval cbv beta in (f v) in exact t end)) in
      exact (mkUpdate proj upd (fun v r => eq_refl))
  end
with head_of t :=
  match t with ?f _ => head_of f | _ => t end.

#[export] Hint Extern 1 (Update _) => solve_update : typeclass_instances.

Notation "r <| field := v |>" := (update_field field v r)
  (at level 12, left associativity, field constr at level 8,
   format "r  <| field  :=  v |>").

(** ** Booleans and lists *)

Lemma existsb_false {A} (f : A -> bool) l :
  existsb f l = false <-> forall x, x ∈ l -> f x = false.
Proof.
  split.
  - intros H x Hx. apply list_elem_of_In in Hx.
    destruct (f x) eqn:E; [|done].
    assert (existsb f l = true) by (apply existsb_exists; eauto). congruence.
  - intros H. destruct (existsb f l) eqn:E; [|done].
    apply existsb_exists in E as (x & Hx & Hf).
    rewrite H in Hf; [done|]. by apply list_elem_of_In.
Qed.

Lemma existsb_true {A} (f : A -> bool) l :
  existsb f l = true <-> exists x, x ∈ l /\ f x = true.
Proof.
  rewrite existsb_exists. setoid_rewrite list_elem_of_In. done.
Qed.

Lemma filter_nil_iff {A} (P : A -> Prop) `{!forall x, Decision (P x)} (l : list A) :
  filter P l = [] <-> forall x, x ∈ l -> ~ P x.
Proof.
  split.
  - intros Hf x Hx HP. by apply (filter_nil_not_elem_of P l x Hf HP).
  - induction l as [|x l IH]; intros Hno; [done|].
    rewrite filter_cons_False by (apply Hno; by left).
    apply IH. intros y Hy. apply Hno. by right.
Qed.

(** A key without duplicates identifies the element. *)
Lemma NoDup_fmap_inj {A B} (f : A -> B) (l : list A) x y :
  NoDup (f <$> l) -> x ∈ l -> y ∈ l -> f x = f y -> x = y.
Proof.
  induction l as [|z l IH]; [by intros _ ?%not_elem_of_nil|].
  rewrite fmap_cons, NoDup_cons. intros [Hz Hnd] Hx Hy Hf.
  apply elem_of_cons in Hx as [->|Hx]; apply elem_of_cons in Hy as [->|Hy]; [done| | |auto].
  - exfalso. apply Hz. rewrite Hf. by apply list_elem_of_fmap_2.
  - exfalso. apply Hz. rewrite <- Hf. by apply list_elem_of_fmap_2.
Qed.

(** The number of elements of [l] that satisfy [f], as a [Z]: the counting
    argument of the concurrency invariants. *)
Fixpoint countb {A} (f : A -> bool) (l : list A) : Z :=
  match l with
  | [] => 0
  | x :: l => (if f x then 1 else 0) + countb f l
  end%Z.

Lemma countb_nonneg {A} (f : A -> bool) l : (0 <= countb f l)%Z.
Proof. induction l; simpl; [lia|]. destruct (f a); lia. Qed.

Lemma countb_app {A} (f : A -> bool) l1 l2 :
  countb f (l1 ++ l2) = (countb f l1 + countb f l2)%Z.
Proof. induction l1; simpl; lia. Qed.

Lemma countb_insert {A} (f : A -> bool) l i x y :
  l !! i = Some x ->
  countb f (<[i:=y]> l) =
    (countb f l - (if f x then 1 else 0) + (if f y then 1 else 0))%Z.
Proof.
  revert i. induction l as [|a l IH]; intros [|i] H; simplify_eq/=; [lia|].
  rewrite (IH i H). lia.
Qed.

Lemma countb_lookup {A} (f : A -> bool) l i x :
  l !! i = Some x -> f x = true -> (1 <= countb f l)%Z.
Proof.
  revert i. induction l as [|a l IH]; intros [|i] H Hf; simplify_eq/=.
  - rewrite Hf. pose proof (countb_nonneg f l). lia.
  - specialize (IH i H Hf). destruct (f a); lia.
Qed.

Lemma countb_zero {A} (f : A -> bool) l :
  countb f l = 0%Z <-> forall x, x ∈ l -> f x = false.
Proof.
  split.
  - intros H x Hx. apply list_elem_of_lookup in Hx as [i Hi].
    destruct (f x) eqn:E; [|done].
    pose proof (countb_lookup f l i x Hi E). lia.
  - induction l as [|a l IH]; intros H; simpl; [done|].
    rewrite (H a) by set_solver. rewrite IH by set_solver. done.
Qed.

Lemma countb_le {A} (f g : A -> bool) l :
  (forall x, f x = true -> g x = true) -> (countb f l <= countb g l)%Z.
Proof.
  intros Hfg. induction l as [|x l IH]; simpl; [lia|].
  destruct (f x) eqn:Hf; [rewrite (Hfg x Hf); lia|]. destruct (g x); lia.
Qed.

Lemma countb_pos {A} (f : A -> bool) l :
  (0 < countb f l)%Z -> exists i x, l !! i = Some x /\ f x = true.
Proof.
  induction l as [|x l IH]; simpl; [lia|]. destruct (f x) eqn:Hx.
  - intros _. by exists 0, x.
  - intros (i & y & Hi & Hy)%IH. by exists (S i), y.
Qed.

Lemma countb_total {A} (f : A -> bool) l :
  (countb f l + countb (fun x => negb (f x)) l = Z.of_nat (length l))%Z.
Proof. induction l as [|x l IH]; cbn [countb length]; [done|]. destruct (f x); simpl; lia. Qed.

Lemma omap_insert_perm {A B} (f : A -> option B) l i x y :
  l !! i = Some x -> f x = None -> omap f (<[i:=y]> l) ≡ₚ omap f l ++ option_list (f y).
Proof.
  revert i. induction l as [|a l IH]; intros [|i] Hi Hx; simplify_eq/=.
  - rewrite Hx. destruct (f y); simpl; [apply Permutation_cons_append|by rewrite app_nil_r].
  - destruct (f a); [simpl; constructor|]; by apply (IH i).
Qed.

(** ** Runs

    A component with concurrent parts is a partial function [step act s] on its states:
    an action says who moves and what the environment does.  A run is a list of
    actions. *)

Fixpoint run {A S} (step : A -> S -> option S) (acts : list A) (s : S) : option S :=
  match acts with
  | [] => Some s
  | act :: acts => match step act s with Some s => run step acts s | None => None end
  end.

Lemma run_app {A S} (step : A -> S -> option S) acts1 acts2 s s2 :
  run step (acts1 ++ acts2) s = Some s2 <->
  exists s1, run step acts1 s = Some s1 /\ run step acts2 s1 = Some s2.
Proof.
  revert s. induction acts1 as [|act acts1 IH]; intros s; simpl; [naive_solver|].
  destruct (step act s); naive_solver.
Qed.

(** What every step with an admissible action preserves holds after every run. *)
Lemma run_inv {A S} (step : A -> S -> option S) (good : A -> Prop) (inv : S -> Prop) :
  (forall act s s', good act -> step act s = Some s' -> inv s -> inv s') ->
  forall acts s s', Forall good acts -> run step acts s = Some s' -> inv s -> inv s'.
Proof.
  intros Hstep acts. induction acts as [|act acts IH]; intros s s' Hg; simpl; [congruence|].
  apply Forall_cons in Hg as [Hg Hgs].
  destruct (step act s) as [s1|] eqn:Hs; [|done]. eauto.
Qed.

(** A run is no longer than the measure its steps use up. *)
Lemma run_measure {A S} (step : A -> S -> option S) (good : A -> Prop) (inv : S -> Prop)
    (measure : S -> nat) :
  (forall act s s', good act -> step act s = Some s' -> inv s -> inv s' /\ (measure s' < measure s)%nat) ->
  forall acts s s', Forall good acts -> run step acts s = Some s' -> inv s ->
    (length acts + measure s' <= measure s)%nat.
Proof.
  intros Hstep acts. induction acts as [|act acts IH]; intros s s' Hg; simpl; [intros [= <-]; lia|].
  apply Forall_cons in Hg as [Hg Hgs]. destruct (step act s) as [s1|] eqn:Hs; [|done]. intros Hr Hi.
  destruct (Hstep act s s1 Hg Hs Hi) as [Hi1 Hm]. specialize (IH s1 s' Hgs Hr Hi1). lia.
Qed.

#[export] Hint Resolve countb_nonneg : anytls.
