(* ===== verification/GoErrors.v ===== *)
(** * Error values

    Go errors as data: the package's sentinels and the ones of the standard
    library the source compares against, [fmt.Errorf] with its wrapped errors,
    [errors.Join], and [errors.Is], which walks that tree.  The two functions of
    anytls.go that map an error to the [reason] field of the audit log,
    [probeFailureReason] and [dialFailureReason], are defined on it. *)

From S2P Require Import Prelude.

(** The package-level error variables: detector.go (var block) and anytls.go
    (var block), then those of the standard library. *)
Inductive sentinel :=
| errShortPreview | errUnknownUserHash | errDisabledUserHash
| errInvalidDestination | errPrivateDestinationDenied | errDestinationPolicyDenied
| errInvalidUDPOverTCPRequest | errUnsupportedUDPOverTCP | errStreamLimitExceeded
| io_EOF | io_ErrNoProgress | net_ErrClosed | bufio_ErrBufferFull
| os_ErrDeadlineExceeded | context_Canceled | context_DeadlineExceeded.

#[export] Instance sentinel_eq_dec : EqDecision sentinel.
Proof. solve_decision. Defined.

(** [Sentinel s] is the variable itself; [errors_New] any other error without
    an [Unwrap] method; [Errorf format args wrapped] what [fmt.Errorf] builds from
    its string arguments and its [%w] operands, in order; [Join] what
    [errors.Join] builds. *)
Inductive error : Type :=
| Sentinel (s : sentinel)
| errors_New (text : string)
| Errorf (format : string) (args : list string) (wrapped : list error)
| Join (errs : list error).

(** [errors.Is(err, target)] for a sentinel [target]. *)
Fixpoint errors_Is (err : error) (target : sentinel) {struct err} : bool :=
  match err with
  | Sentinel s => bool_decide (s = target)
  | errors_New _ => false
  | Errorf _ _ wrapped => existsb (fun e => errors_Is e target) wrapped
  | Join errs => existsb (fun e => errors_Is e target) errs
  end.

(** [errors.Join(errs...)] on non-nil errors: nil when there is none. *)
Definition errors_Join (errs : list error) : option error :=
  match errs with
  | [] => None
  | _ => Some (Join errs)
  end.

(** A Go [(T, error)] pair whose value is meaningless when the error is set. *)
Inductive result (A : Type) : Type :=
| Ok (a : A)
| Err (e : error).
Arguments Ok {A} _.
Arguments Err {A} _.

Definition result_bind {A B} (r : result A) (k : A -> result B) : result B :=
  match r with
  | Ok a => k a
  | Err e => Err e
  end.

Notation "'let?' x ':=' r 'in' k" := (result_bind r (fun x => k))
  (at level 10, x pattern, r at level 100, k at level 200) : anytls_scope.

Definition is_Ok {A} (r : result A) : bool :=
  match r with Ok _ => true | Err _ => false end.

Lemma result_bind_Ok {A B} (r : result A) (k : A -> result B) b :
  result_bind r k = Ok b <-> exists a, r = Ok a /\ k a = Ok b.
Proof. destruct r; simpl; naive_solver. Qed.

Lemma result_bind_Err {A B} (r : result A) (k : A -> result B) e :
  result_bind r k = Err e <->
  r = Err e \/ exists a, r = Ok a /\ k a = Err e.
Proof. destruct r; simpl; naive_solver. Qed.

(** anytls.go, [probeFailureReason]. *)
Definition probeFailureReason (err : error) : string :=
  if errors_Is err errShortPreview then "short_preview"
  else if errors_Is err errUnknownUserHash then "unknown_user_hash"
  else if errors_Is err errDisabledUserHash then "disabled_user"
  else "probe_error".

(** anytls.go, [dialFailureReason]. *)
Definition dialFailureReason (err : error) : string :=
  if errors_Is err errInvalidDestination then "invalid_destination"
  else if errors_Is err errPrivateDestinationDenied then "private_target_denied"
  else if errors_Is err errDestinationPolicyDenied then "destination_policy_denied"
  else if errors_Is err errInvalidUDPOverTCPRequest then "invalid_udp_over_tcp_request"
  else if errors_Is err errUnsupportedUDPOverTCP then "udp_over_tcp_unsupported"
  else if errors_Is err errStreamLimitExceeded then "stream_limit_exceeded"
  else "dial_failed".
