(* ===== verification/GoStrings.v ===== *)
(** * Strings and numbers of the Go standard library

    The functions of [strings] and [strconv] the package calls, on
    [String.string] and on byte lists, with the lemmas about them the components
    share. *)

From S2P Require Import Prelude GoErrors.

Local Open Scope Z_scope.

(** ** Characters *)

Definition code (c : Ascii.ascii) : Z := Z.of_N (Ascii.N_of_ascii c).
Definition chr (z : Z) : Ascii.ascii := Ascii.ascii_of_N (Z.to_N z).

Definition is_digit (c : Ascii.ascii) : bool := (48 <=? code c) && (code c <=? 57).
Definition is_upper (c : Ascii.ascii) : bool := (65 <=? code c) && (code c <=? 90).
(** [c < utf8.RuneSelf] *)
Definition is_ascii (c : Ascii.ascii) : bool := code c <? 128.

Definition lower (c : Ascii.ascii) : Ascii.ascii :=
  if is_upper c then chr (code c + 32) else c.

Lemma code_bound c : 0 <= code c < 256.
Proof. unfold code. pose proof (Ascii.N_ascii_bounded c). lia. Qed.

Lemma lower_idemp c : lower (lower c) = lower c.
Proof. destruct c as [[] [] [] [] [] [] [] []]; vm_compute; reflexivity. Qed.

Lemma is_ascii_lower c : is_ascii (lower c) = is_ascii c.
Proof. destruct c as [[] [] [] [] [] [] [] []]; vm_compute; reflexivity. Qed.

(** ** [strings] *)

Module strings.

Fixpoint map_string (f : Ascii.ascii -> Ascii.ascii) (s : string) : string :=
  match s with
  | EmptyString => EmptyString
  | String c s => String (f c) (map_string f s)
  end.

Fixpoint forallb_string (f : Ascii.ascii -> bool) (s : string) : bool :=
  match s with
  | EmptyString => true
  | String c s => f c && forallb_string f s
  end.

(** [strings.HasPrefix(s, prefix)] *)
Definition HasPrefix (s prefix : string) : bool := String.prefix prefix s.

(** [strings.HasSuffix(s, suffix)] *)
Fixpoint HasSuffix (s suffix : string) : bool :=
  String.eqb s suffix ||
  match s with
  | EmptyString => false
  | String _ s => HasSuffix s suffix
  end.

(** [strings.TrimSuffix(s, suffix)] *)
Fixpoint TrimSuffix (s suffix : string) : string :=
  if String.eqb s suffix then EmptyString
  else match s with
       | EmptyString => EmptyString
       | String c s => String c (TrimSuffix s suffix)
       end.

(** [strings.TrimPrefix(s, prefix)] *)
Definition TrimPrefix (s prefix : string) : string :=
  if HasPrefix s prefix then String.substring (String.length prefix) (String.length s) s else s.

(** [strings.ToLower(s)]: byte by byte when [s] is ASCII.  The case tables of
    Unicode are data of the Go library: [Map_ToLower s] stands for
    [strings.Map(unicode.ToLower, s)], which the function returns for every other
    string. *)
Class UnicodeTables := { Map_ToLower : string -> string }.

Definition ToLower `{UnicodeTables} (s : string) : string :=
  if forallb_string is_ascii s then map_string lower s else Map_ToLower s.

Lemma app_String c s t : String c s +:+ t = String c (s +:+ t).
Proof. reflexivity. Qed.

Lemma app_EmptyString t : EmptyString +:+ t = t.
Proof. reflexivity. Qed.

Lemma length_app_string s t : String.length (s +:+ t) = (String.length s + String.length t)%nat.
Proof. induction s as [|c s IH]; [done|]. rewrite app_String. simpl. by rewrite IH. Qed.

Lemma TrimSuffix_app s suffix : TrimSuffix (s +:+ suffix) suffix = s.
Proof.
  induction s as [|c s IH].
  - rewrite app_EmptyString. destruct suffix as [|x suffix]; cbn [TrimSuffix]; by rewrite String.eqb_refl.
  - rewrite app_String. cbn [TrimSuffix].
    destruct (String.eqb_spec (String c (s +:+ suffix)) suffix) as [Heq|_]; [|by rewrite IH].
    apply (f_equal String.length) in Heq. simpl in Heq. rewrite length_app_string in Heq. lia.
Qed.

Lemma HasPrefix_spec s p : HasPrefix s p = true <-> exists t, s = p +:+ t.
Proof.
  unfold HasPrefix. revert s. induction p as [|c p IH]; intros [|d s]; simpl.
  - split; [by exists EmptyString|done].
  - split; [by exists (String d s)|done].
  - split; [done|]. intros (t & Ht). done.
  - setoid_rewrite app_String. destruct (Ascii.ascii_dec c d) as [->|Hne].
    + rewrite IH. split; intros (t & Ht); exists t; congruence.
    + split; [done|]. intros (t & Ht). congruence.
Qed.

(** [string(b[:len(p)]) == p] *)
Lemma HasPrefix_bytes b p :
  String.eqb (string_of_bytes (take (String.length p) b)) p = HasPrefix (string_of_bytes b) p.
Proof.
  unfold HasPrefix. revert b. induction p as [|x p IH]; intros b; [by destruct b|].
  destruct b as [|y b]; [done|]. simpl. destruct (Ascii.ascii_dec x y) as [->|Hne].
  - rewrite Ascii.eqb_refl. apply IH.
  - destruct (Ascii.eqb_spec y x); [congruence|done].
Qed.

Lemma HasPrefix_app s p q : HasPrefix s (p +:+ q) = true -> HasPrefix s p = true.
Proof.
  rewrite !HasPrefix_spec. intros (t & ->). exists (q +:+ t).
  induction p as [|x p IH]; [done|]. by rewrite !app_String, IH.
Qed.

Lemma HasSuffix_spec s p : HasSuffix s p = true <-> exists t, s = t +:+ p.
Proof.
  induction s as [|c s IH]; cbn [HasSuffix]; rewrite orb_true_iff, String.eqb_eq.
  - split.
    + intros [<-|[=]]; by exists EmptyString.
    + intros ([|d t] & Ht); [by left|]. rewrite app_String in Ht. done.
  - rewrite IH. split.
    + intros [<-|(t & ->)]; [by exists EmptyString|]. by exists (String c t).
    + intros ([|d t] & Ht); [by left|].
      rewrite app_String in Ht. right. exists t. congruence.
Qed.

Lemma length_map_string f s : String.length (map_string f s) = String.length s.
Proof. induction s; simpl; congruence. Qed.

Lemma forallb_map_lower s :
  forallb_string is_ascii (map_string lower s) = forallb_string is_ascii s.
Proof. induction s; simpl; [done|]. by rewrite is_ascii_lower, IHs. Qed.

Lemma map_lower_idemp s : map_string lower (map_string lower s) = map_string lower s.
Proof. induction s; simpl; [done|]. by rewrite lower_idemp, IHs. Qed.

Lemma ToLower_ascii `{UnicodeTables} s :
  forallb_string is_ascii s = true -> ToLower s = map_string lower s.
Proof. unfold ToLower. by intros ->. Qed.

Lemma ToLower_idemp `{UnicodeTables} s :
  forallb_string is_ascii s = true -> ToLower (ToLower s) = ToLower s.
Proof.
  intros Hs. rewrite (ToLower_ascii s Hs).
  rewrite ToLower_ascii by (by rewrite forallb_map_lower). apply map_lower_idemp.
Qed.

End strings.

(** ** [strconv] *)

Module strconv.

(** The digits of [s] in base 10 on top of [n]; [None] at another character. *)
Fixpoint digits (n : Z) (s : bytes) : option Z :=
  match s with
  | [] => Some n
  | c :: s => if is_digit c then digits (10 * n + (code c - 48)) s else None
  end.

Definition syntax_error (fn s : string) : error :=
  Errorf "strconv.%s: parsing %q: invalid syntax" [fn; s] [].
Definition range_error (fn s : string) : error :=
  Errorf "strconv.%s: parsing %q: value out of range" [fn; s] [].

(** The loop of [strconv.ParseUint] in base 10: it stops at the first value above
    [maxVal], so a range error hides a later syntax error. *)
Fixpoint parse_uint_loop (maxVal n : Z) (s0 : string) (s : bytes) : result Z :=
  match s with
  | [] => Ok n
  | c :: s =>
      if is_digit c then
        let n1 := 10 * n + (code c - 48) in
        if maxVal <? n1 then Err (range_error "ParseUint" s0)
        else parse_uint_loop maxVal n1 s0 s
      else Err (syntax_error "ParseUint" s0)
  end.

(** [strconv.ParseUint(s, 10, bitSize)] *)
Definition ParseUint (s : string) (bitSize : Z) : result Z :=
  match bytes_of_string s with
  | [] => Err (syntax_error "ParseUint" s)
  | bs => parse_uint_loop (2 ^ bitSize - 1) 0 s bs
  end.

(** [strconv.Atoi(s)] on a 64-bit machine: an optional sign, at least one digit,
    a value of the type int. *)
Definition Atoi (s : string) : result Z :=
  let bs := bytes_of_string s in
  let '(neg, ds) :=
    match bs with
    | c :: ds => if (code c =? 45) then (true, ds)
                 else if (code c =? 43) then (false, ds) else (false, bs)
    | [] => (false, bs)
    end in
  match ds with
  | [] => Err (syntax_error "Atoi" s)
  | _ =>
      match digits 0 ds with
      | None => Err (syntax_error "Atoi" s)
      | Some n =>
          let v := if neg then - n else n in
          if (v <? - 2 ^ 63) || (2 ^ 63 - 1 <? v) then Err (range_error "Atoi" s)
          else Ok v
      end
  end.

Lemma parse_uint_loop_bounds maxVal n s0 s v :
  0 <= n <= maxVal -> parse_uint_loop maxVal n s0 s = Ok v -> 0 <= v <= maxVal.
Proof.
  revert n. induction s as [|c s IH]; intros n Hn; simpl.
  - intros [= <-]. done.
  - destruct (is_digit c) eqn:Hd; [|done].
    destruct (maxVal <? _) eqn:Hm; [done|].
    unfold is_digit in Hd. bools. apply IH. lia.
Qed.

Lemma ParseUint_bounds s b v : 0 <= b -> ParseUint s b = Ok v -> 0 <= v < 2 ^ b.
Proof.
  intros Hb. unfold ParseUint. destruct (bytes_of_string s) eqn:Hs; [done|].
  intros H%parse_uint_loop_bounds; lia.
Qed.

(** [strconv.ParseBool(s)] *)
Definition ParseBool (s : string) : result bool :=
  if bool_decide (s ∈ ["1"; "t"; "T"; "true"; "TRUE"; "True"]%string) then Ok true
  else if bool_decide (s ∈ ["0"; "f"; "F"; "false"; "FALSE"; "False"]%string) then Ok false
  else Err (syntax_error "ParseBool" s).

(** [strconv.FormatInt(n, 10)] *)
Fixpoint format_loop (fuel : nat) (n : Z) (acc : bytes) : bytes :=
  match fuel with
  | O => acc
  | S fuel =>
      let acc := chr (48 + n mod 10) :: acc in
      if n <? 10 then acc else format_loop fuel (n / 10) acc
  end.

Definition FormatInt (n : Z) : string :=
  string_of_bytes (if n <? 0 then chr 45 :: format_loop 20 (- n) [] else format_loop 20 n []).

(** *** Numbers survive printing and parsing *)

Lemma code_chr z : 0 <= z < 256 -> code (chr z) = z.
Proof.
  intros Hz. unfold code, chr. rewrite Ascii.N_ascii_embedding by lia. lia.
Qed.

Lemma digit_chr d : 0 <= d < 10 -> is_digit (chr (48 + d)) = true /\ code (chr (48 + d)) = 48 + d.
Proof.
  intros Hd. rewrite code_chr by lia. unfold is_digit. rewrite code_chr by lia.
  split; [|done]. apply andb_true_intro. split; apply Z.leb_le; lia.
Qed.

Lemma digits_format fuel n acc :
  0 <= n < 10 ^ Z.of_nat fuel -> digits 0 (format_loop fuel n acc) = digits n acc.
Proof.
  revert n acc. induction fuel as [|fuel IH]; intros n acc Hn.
  { change (10 ^ Z.of_nat 0) with 1 in Hn. by replace n with 0 by lia. }
  cbn [format_loop]. pose proof (Z.mod_pos_bound n 10 ltac:(lia)) as Hm.
  pose proof (Z.div_mod n 10 ltac:(lia)) as Hdm.
  destruct (digit_chr _ Hm) as [Hd Hc]. destruct (Z.ltb_spec n 10) as [Hlt|Hge].
  - cbn [digits]. rewrite Hd, Hc. f_equal. rewrite Z.mod_small by lia. lia.
  - rewrite IH.
    + cbn [digits]. rewrite Hd, Hc. f_equal. lia.
    + split; [apply Z.div_pos; lia|]. rewrite Nat2Z.inj_succ, Z.pow_succ_r in Hn by lia.
      apply Z.div_lt_upper_bound; lia.
Qed.

(** What is printed first is a digit, not a sign. *)
Lemma format_loop_head fuel n acc :
  (0 < fuel)%nat -> 0 <= n ->
  exists d l, format_loop fuel n acc = chr (48 + d) :: l /\ 0 <= d < 10.
Proof.
  revert n acc. induction fuel as [|fuel IH]; intros n acc Hf Hn; [lia|].
  cbn [format_loop]. pose proof (Z.mod_pos_bound n 10 ltac:(lia)) as Hm.
  destruct (n <? 10); [by exists (n mod 10), acc|].
  destruct fuel as [|fuel]; [by exists (n mod 10), acc|].
  apply IH; [lia|]. apply Z.div_pos; lia.
Qed.

Lemma Atoi_FormatInt n : - 2 ^ 63 <= n < 2 ^ 63 -> Atoi (FormatInt n) = Ok n.
Proof.
  intros Hn. unfold Atoi, FormatInt. rewrite bytes_of_string_of_bytes.
  destruct (Z.ltb_spec n 0) as [Hneg|Hpos].
  - rewrite code_chr by lia. change (45 =? 45) with true. cbv iota.
    destruct (format_loop_head 20 (- n) [] ltac:(lia) ltac:(lia)) as (d & l & Hl & _).
    pose proof (digits_format 20 (- n) [] ltac:(lia)) as Hd. rewrite Hl in *. rewrite Hd. simpl digits.
    cbv iota. rewrite Z.opp_involutive. rewrite !(proj2 (Z.ltb_ge _ _)) by lia. done.
  - destruct (format_loop_head 20 n [] ltac:(lia) Hpos) as (d & l & Hl & Hdig).
    pose proof (digits_format 20 n [] ltac:(lia)) as Hd. rewrite Hl in *.
    destruct (digit_chr d Hdig) as [_ ->]. destruct (Z.eqb_spec (48 + d) 45); [lia|].
    destruct (Z.eqb_spec (48 + d) 43); [lia|]. rewrite Hd. simpl digits.
    cbv iota. rewrite !(proj2 (Z.ltb_ge _ _)) by lia. done.
Qed.

Lemma digits_le n s v : 0 <= n -> digits n s = Some v -> n <= v.
Proof.
  revert n. induction s as [|c s IH]; intros n Hn; simpl; [intros [= <-]; lia|].
  destruct (is_digit c) eqn:Hd; [|done]. unfold is_digit in Hd. bools. intros Hds. apply IH in Hds; lia.
Qed.

Lemma parse_uint_loop_digits maxVal n s0 s v :
  0 <= n -> digits n s = Some v -> v <= maxVal -> parse_uint_loop maxVal n s0 s = Ok v.
Proof.
  revert n. induction s as [|c s IH]; intros n Hn; simpl; [by intros [= ->]|].
  destruct (is_digit c) eqn:Hd; [|done]. unfold is_digit in Hd. bools. intros Hds Hv.
  pose proof (digits_le (10 * n + (code c - 48)) s v ltac:(lia) Hds). destruct (Z.ltb_spec maxVal (10 * n + (code c - 48))); [lia|].
  apply IH; [lia|done..].
Qed.

Lemma ParseUint_FormatInt n b : 0 <= n < 2 ^ b -> n < 2 ^ 63 -> ParseUint (FormatInt n) b = Ok n.
Proof.
  intros Hn H63. unfold ParseUint, FormatInt. rewrite bytes_of_string_of_bytes.
  destruct (Z.ltb_spec n 0); [lia|].
  destruct (format_loop_head 20 n [] ltac:(lia) ltac:(lia)) as (d & l & Hl & _).
  pose proof (digits_format 20 n [] ltac:(lia)) as Hd. rewrite Hl in *.
  apply parse_uint_loop_digits; [lia|done|lia].
Qed.

End strconv.
