(* ===== verification/Sha256.v ===== *)
(** * SHA-256

    [crypto/sha256.Sum256] of the Go standard library (FIPS 180-4), executable
    on byte lists.  The detector keys its table by this hash, and the checks of
    [Validate] compare it.  Words are [Z] values below 2^32 and every addition
    wraps around explicitly. *)

From S2P Require Import Prelude.

Local Open Scope Z_scope.

Module sha256.

Definition w32 (x : Z) : Z := Z.land x 0xffffffff.
Definition add32 (x y : Z) : Z := w32 (x + y).
Definition rotr (x n : Z) : Z :=
  Z.lor (Z.shiftr x n) (w32 (Z.shiftl x (32 - n))).
Definition not32 (x : Z) : Z := Z.lxor x 0xffffffff.

Definition Ch (x y z : Z) : Z := Z.lxor (Z.land x y) (Z.land (not32 x) z).
Definition Maj (x y z : Z) : Z :=
  Z.lxor (Z.lxor (Z.land x y) (Z.land x z)) (Z.land y z).
Definition Sigma0 (x : Z) : Z := Z.lxor (Z.lxor (rotr x 2) (rotr x 13)) (rotr x 22).
Definition Sigma1 (x : Z) : Z := Z.lxor (Z.lxor (rotr x 6) (rotr x 11)) (rotr x 25).
Definition sigma0 (x : Z) : Z := Z.lxor (Z.lxor (rotr x 7) (rotr x 18)) (Z.shiftr x 3).
Definition sigma1 (x : Z) : Z := Z.lxor (Z.lxor (rotr x 17) (rotr x 19)) (Z.shiftr x 10).

(** The largest [r] with [r ^ 3 <= n], among [acc] and the [bits] low bits. *)
Fixpoint cube_root (bits : nat) (n acc : Z) : Z :=
  match bits with
  | O => acc
  | S bits =>
      let r := acc + 2 ^ Z.of_nat bits in
      cube_root bits n (if r * r * r <=? n then r else acc)
  end.

(** The first 64 primes. *)
Definition primes : list Z :=
  Eval vm_compute in
    List.filter (fun n => forallb (fun d => negb (n mod d =? 0)) (seqZ 2 (Z.sqrt n - 1)))
      (seqZ 2 310).

(** The round constants: the first 32 bits of the fractional parts of the cube roots of the
    primes; the initial hash value comes from the square roots of the first eight. *)
Definition K : list Z :=
  Eval vm_compute in ((fun p => w32 (cube_root 40 (p * 2 ^ 96) 0)) <$> primes).

Definition initial_words : list Z :=
  Eval vm_compute in ((fun p => w32 (Z.sqrt (p * 2 ^ 64))) <$> take 8 primes).

(** The chaining value: the eight working variables a..h. *)
Record state := mkState { sa : Z; sb : Z; sc : Z; sd : Z; se : Z; sf : Z; sg : Z; sh : Z }.

Definition H0 : state :=
  match initial_words with
  | [a; b; c; d; e; f; g; h] => mkState a b c d e f g h
  | _ => mkState 0 0 0 0 0 0 0 0
  end.

Definition round (s : state) (kw : Z) : state :=
  let t1 := add32 (add32 (add32 (sh s) (Sigma1 (se s))) (Ch (se s) (sf s) (sg s))) kw in
  let t2 := add32 (Sigma0 (sa s)) (Maj (sa s) (sb s) (sc s)) in
  mkState (add32 t1 t2) (sa s) (sb s) (sc s) (add32 (sd s) t1) (se s) (sf s) (sg s).

(** The message schedule, kept reversed: [n] further words after those of
    [rev_w], whose head is W(t-1). *)
Fixpoint schedule (n : nat) (rev_w : list Z) : list Z :=
  match n with
  | O => rev rev_w
  | S n =>
      let w i := nth i rev_w 0 in
      schedule n (add32 (add32 (sigma1 (w 1%nat)) (w 6%nat))
                        (add32 (sigma0 (w 14%nat)) (w 15%nat)) :: rev_w)
  end.

Definition compress (s : state) (block : list Z) : state :=
  let ws := schedule 48 (rev block) in
  let r := foldl (fun s kw => round s (add32 (fst kw) (snd kw))) s (combine K ws) in
  mkState (add32 (sa s) (sa r)) (add32 (sb s) (sb r)) (add32 (sc s) (sc r))
          (add32 (sd s) (sd r)) (add32 (se s) (se r)) (add32 (sf s) (sf r))
          (add32 (sg s) (sg r)) (add32 (sh s) (sh r)).

Definition Z_of_byte (c : Ascii.ascii) : Z := Z.of_N (Ascii.N_of_ascii c).
Definition byte_of_Z (z : Z) : Ascii.ascii := Ascii.ascii_of_N (Z.to_N (Z.land z 0xff)).

(** The [n] bytes of [z], most significant first. *)
Fixpoint be_bytes (n : nat) (z : Z) : bytes :=
  match n with
  | O => []
  | S n => byte_of_Z (Z.shiftr z (8 * Z.of_nat n)) :: be_bytes n z
  end.

Fixpoint words (bs : bytes) : list Z :=
  match bs with
  | a :: b :: c :: d :: rest =>
      Z.lor (Z.lor (Z.shiftl (Z_of_byte a) 24) (Z.shiftl (Z_of_byte b) 16))
            (Z.lor (Z.shiftl (Z_of_byte c) 8) (Z_of_byte d)) :: words rest
  | _ => []
  end.

(** The message followed by 0x80, zeros and its bit length in 64 bits. *)
Definition pad (msg : bytes) : bytes :=
  let len := Z.of_nat (length msg) in
  let zeros := Z.to_nat ((55 - len) mod 64) in
  msg ++ byte_of_Z 0x80 :: replicate zeros (byte_of_Z 0) ++ be_bytes 8 (8 * len).

(** Folds [compress] over the 16-word blocks; [n] bounds their number. *)
Fixpoint blocks (n : nat) (s : state) (ws : list Z) : state :=
  match n with
  | O => s
  | S n => match ws with
           | [] => s
           | _ => blocks n (compress s (take 16 ws)) (drop 16 ws)
           end
  end.

(** [sha256.Sum256(data)]. *)
Definition Sum256 (data : bytes) : bytes :=
  let ws := words (pad data) in
  let s := blocks (length ws) H0 ws in
  be_bytes 4 (sa s) ++ be_bytes 4 (sb s) ++ be_bytes 4 (sc s) ++ be_bytes 4 (sd s) ++
  be_bytes 4 (se s) ++ be_bytes 4 (sf s) ++ be_bytes 4 (sg s) ++ be_bytes 4 (sh s).

Lemma length_be_bytes n z : length (be_bytes n z) = n.
Proof. induction n; simpl; congruence. Qed.

Lemma length_Sum256 data : length (Sum256 data) = 32%nat.
Proof. unfold Sum256. by rewrite !length_app, !length_be_bytes. Qed.

(** The test vectors of FIPS 180-4: "abc" (one block) and a 56-byte message
    (two blocks). *)

Example Sum256_abc :
  Sum256 (bytes_of_string "abc") =
  be_bytes 32 0xba7816bf8f01cfea414140de5dae2223b00361a396177a9cb410ff61f20015ad.
Proof. vm_compute. reflexivity. Qed.

Example Sum256_two_blocks :
  Sum256 (bytes_of_string "abcdbcdecdefdefgefghfghighijhijkijkljklmklmnlmnomnopnopq") =
  be_bytes 32 0x248d6a61d20638b8e5c026930c3e6039a33ce45964ff2167f6ecedd419db06c1.
Proof. vm_compute. reflexivity. Qed.

End sha256.
