(* ===== verification/Netip.v ===== *)
(** * IP addresses and prefixes

    The part of Go's [net/netip] the destination policy, the resolver and the
    node information use: addresses with their zones, the classification
    predicates, [Prefix.Contains], [ParseAddr], [ParsePrefix] and [Addr.String].
    An IPv4 address is a 32-bit [Z], an IPv6 address a 128-bit one. *)

From stdpp Require Import pretty.
From S2P Require Import Prelude GoErrors GoStrings.

Local Open Scope Z_scope.

Module netip.

(** The zero [Addr], an IPv4 address, an IPv6 address with its zone (the empty
    string for none). *)
Inductive Addr :=
| Addr_zero
| Addr_v4 (ip : Z)
| Addr_v6 (ip : Z) (zone : string).

#[export] Instance Addr_eq_dec : EqDecision Addr.
Proof. solve_decision. Defined.

Definition IsValid (a : Addr) : bool :=
  match a with Addr_zero => false | _ => true end.
Definition Is4 (a : Addr) : bool :=
  match a with Addr_v4 _ => true | _ => false end.
Definition Is6 (a : Addr) : bool :=
  match a with Addr_v6 _ _ => true | _ => false end.
Definition Zone (a : Addr) : string :=
  match a with Addr_v6 _ z => z | _ => "" end.
(** [::ffff:0:0/96] *)
Definition Is4In6 (a : Addr) : bool :=
  match a with Addr_v6 ip _ => Z.shiftr ip 32 =? 0xffff | _ => false end.
Definition Unmap (a : Addr) : Addr :=
  match a with
  | Addr_v6 ip _ => if Is4In6 a then Addr_v4 (Z.land ip 0xffffffff) else a
  | _ => a
  end.
Definition hasZone (a : Addr) : bool := negb (String.eqb (Zone a) "").

(** Byte [i] of an IPv4 address and of an IPv6 address; 16-bit group [i]. *)
Definition v4 (ip i : Z) : Z := Z.land (Z.shiftr ip (8 * (3 - i))) 0xff.
Definition v6 (ip i : Z) : Z := Z.land (Z.shiftr ip (8 * (15 - i))) 0xff.
Definition v6u16 (ip i : Z) : Z := Z.land (Z.shiftr ip (16 * (7 - i))) 0xffff.

(** The predicates unmap an IPv4-mapped address first. *)
Definition IsPrivate (a : Addr) : bool :=
  match Unmap a with
  | Addr_v4 ip =>
      (v4 ip 0 =? 10) ||
      ((v4 ip 0 =? 172) && (Z.land (v4 ip 1) 0xf0 =? 16)) ||
      ((v4 ip 0 =? 192) && (v4 ip 1 =? 168))
  | Addr_v6 ip _ => Z.land (v6 ip 0) 0xfe =? 0xfc
  | Addr_zero => false
  end.

Definition IsLoopback (a : Addr) : bool :=
  match Unmap a with
  | Addr_v4 ip => v4 ip 0 =? 127
  | Addr_v6 ip _ => ip =? 1
  | Addr_zero => false
  end.

Definition IsLinkLocalUnicast (a : Addr) : bool :=
  match Unmap a with
  | Addr_v4 ip => (v4 ip 0 =? 169) && (v4 ip 1 =? 254)
  | Addr_v6 ip _ => Z.land (v6u16 ip 0) 0xffc0 =? 0xfe80
  | Addr_zero => false
  end.

Definition IsLinkLocalMulticast (a : Addr) : bool :=
  match Unmap a with
  | Addr_v4 ip => (v4 ip 0 =? 224) && (v4 ip 1 =? 0) && (v4 ip 2 =? 0)
  | Addr_v6 ip _ => Z.land (v6u16 ip 0) 0xff0f =? 0xff02
  | Addr_zero => false
  end.

Definition IsMulticast (a : Addr) : bool :=
  match Unmap a with
  | Addr_v4 ip => Z.land (v4 ip 0) 0xf0 =? 0xe0
  | Addr_v6 ip _ => v6 ip 0 =? 0xff
  | Addr_zero => false
  end.

(** Equality with [0.0.0.0] or with [::] without a zone. *)
Definition IsUnspecified (a : Addr) : bool :=
  bool_decide (a = Addr_v4 0) || bool_decide (a = Addr_v6 0 "").

(** ** Prefixes *)

(** [bits = -1] is an invalid prefix. *)
Record Prefix := mkPrefix { p_ip : Addr; p_bits : Z }.

Definition Prefix_IsValid (p : Prefix) : bool := 0 <=? p_bits p.

(** The 128-bit mask with [n] leading ones. *)
Definition mask6 (n : Z) : Z := Z.land (Z.shiftl (Z.ones 128) (128 - n)) (Z.ones 128).

Definition Contains (p : Prefix) (ip : Addr) : bool :=
  if negb (Prefix_IsValid p) || hasZone ip then false
  else match p_ip p, ip with
       | Addr_v4 a, Addr_v4 b => Z.shiftr (Z.lxor b a) (Z.land (32 - p_bits p) 63) =? 0
       | Addr_v6 a _, Addr_v6 b _ => Z.land (Z.lxor b a) (mask6 (p_bits p)) =? 0
       | _, _ => false
       end.

(** ** Printing *)

Definition decimal (z : Z) : string := pretty z.

Definition hex_digit (z : Z) : Ascii.ascii := chr (if z <? 10 then 48 + z else 87 + z).

(** A 16-bit group without leading zeros. *)
Definition appendHex (x : Z) : string :=
  let d n := hex_digit (Z.land (Z.shiftr x (4 * n)) 0xf) in
  let tail0 := String (d 0) "" in
  let tail1 := String (d 1) tail0 in
  let tail2 := String (d 2) tail1 in
  if 0x1000 <=? x then String (d 3) tail2
  else if 0x100 <=? x then tail2
  else if 0x10 <=? x then tail1
  else tail0.

Definition String4 (ip : Z) : string :=
  decimal (v4 ip 0) +:+ "." +:+ decimal (v4 ip 1) +:+ "." +:+
  decimal (v4 ip 2) +:+ "." +:+ decimal (v4 ip 3).

(** The length of the run of zero groups at the head. *)
Fixpoint zero_run (gs : list Z) : nat :=
  match gs with
  | g :: gs => if g =? 0 then S (zero_run gs) else 0
  | [] => 0
  end.

(** The first longest run of at least two zero groups: its start and length. *)
Fixpoint best_run (i : nat) (gs : list Z) (best : nat * nat) : nat * nat :=
  match gs with
  | [] => best
  | _ :: gs' =>
      let l := zero_run gs in
      best_run (S i) gs' (if (2 <=? l)%nat && (snd best <? l)%nat then (i, l) else best)
  end.

Fixpoint join_hex (gs : list Z) : string :=
  match gs with
  | [] => ""
  | [g] => appendHex g
  | g :: gs => appendHex g +:+ ":" +:+ join_hex gs
  end.

Definition groups (ip : Z) : list Z := map (v6u16 ip) [0; 1; 2; 3; 4; 5; 6; 7].

Definition String6 (ip : Z) (zone : string) : string :=
  let gs := groups ip in
  let '(start, len) := best_run 0 gs (8%nat, 0%nat) in
  (if (len =? 0)%nat then join_hex gs
   else join_hex (take start gs) +:+ "::" +:+ join_hex (drop (start + len) gs)) +:+
  (if String.eqb zone "" then "" else "%" +:+ zone).

Definition Addr_String (a : Addr) : string :=
  match a with
  | Addr_zero => "invalid IP"
  | Addr_v4 ip => String4 ip
  | Addr_v6 ip zone =>
      if Is4In6 a then
        "::ffff:" +:+ String4 (Z.land ip 0xffffffff) +:+
        (if String.eqb zone "" then "" else "%" +:+ zone)
      else String6 ip zone
  end.

(** ** Parsing *)

Definition parse_error (in_ msg : string) : error :=
  Errorf "ParseAddr(%q): %s" [in_; msg] [].

(** [parseIPv4Fields]: [acc] holds the fields read so far, [val] and [digLen] the
    current octet, [first] whether the scan is at the first character and [dot]
    whether the previous one is a dot. *)
Fixpoint parseIPv4Fields (in_ : string) (s : bytes) (acc : list Z) (val digLen : Z)
    (first dot : bool) : result (list Z) :=
  match s with
  | [] =>
      if (length acc <? 3)%nat then Err (parse_error in_ "IPv4 address too short")
      else Ok (acc ++ [val])
  | c :: s' =>
      if is_digit c then
        if (digLen =? 1) && (val =? 0) then
          Err (parse_error in_ "IPv4 field has octet with leading zero")
        else
          let val := 10 * val + (code c - 48) in
          if 255 <? val then Err (parse_error in_ "IPv4 field has value >255")
          else parseIPv4Fields in_ s' acc val (digLen + 1) false false
      else if code c =? 46 then
        if first || (match s' with [] => true | _ => false end) || dot then
          Err (parse_error in_ "IPv4 field must have at least one digit")
        else if (length acc =? 3)%nat then Err (parse_error in_ "IPv4 address too long")
        else parseIPv4Fields in_ s' (acc ++ [val]) 0 0 false true
      else Err (parse_error in_ "unexpected character")
  end.

(** The bytes of a big-endian number. *)
Definition be_number (bs : list Z) : Z := foldl (fun n b => 256 * n + b) 0 bs.

Definition parseIPv4 (s : string) : result Addr :=
  match parseIPv4Fields s (bytes_of_string s) [] 0 0 true false with
  | Ok fields => Ok (Addr_v4 (be_number fields))
  | Err e => Err e
  end.

Definition hex_value (c : Ascii.ascii) : option Z :=
  let z := code c in
  if (48 <=? z) && (z <=? 57) then Some (z - 48)
  else if (97 <=? z) && (z <=? 102) then Some (z - 87)
  else if (65 <=? z) && (z <=? 70) then Some (z - 55)
  else None.

(** The hex digits at the head of [s]: their value, their number and the rest;
    more than four digits are an error (a group cannot then exceed 0xffff). *)
Fixpoint hex_group (in_ : string) (s : bytes) (acc : Z) (off : nat) : result (Z * nat * bytes) :=
  match s with
  | c :: s' =>
      match hex_value c with
      | Some d =>
          if (3 <? off)%nat then
            Err (parse_error in_ "each group must have 4 or less digits")
          else hex_group in_ s' (Z.shiftl acc 4 + d) (S off)
      | None => Ok (acc, off, s)
      end
  | [] => Ok (acc, off, s)
  end.

(** The group loop of [parseIPv6]: [ip] holds the bytes parsed so far, [ellipsis]
    the position of the double colon.  A loop turn consumes at least two bytes of the
    address, so eight units of fuel cover the sixteen of it. *)
Fixpoint parse_groups (fuel : nat) (in_ : string) (s : bytes) (ip : list Z)
    (ellipsis : option nat) : result (list Z * option nat * bytes) :=
  match fuel with
  | O => Ok (ip, ellipsis, s)
  | S fuel =>
      match hex_group in_ s 0 0 with
      | Err e => Err e
      | Ok (acc, off, rest) =>
          if (off =? 0)%nat then
            Err (parse_error in_ "each colon-separated field must have at least one digit")
          else match rest with
          | c :: rest' =>
              if code c =? 46 then
                if (match ellipsis with None => true | _ => false end) &&
                   negb (length ip =? 12)%nat then
                  Err (parse_error in_ "embedded IPv4 address must replace the final 2 fields of the address")
                else if (16 <? length ip + 4)%nat then
                  Err (parse_error in_ "too many hex fields to fit an embedded IPv4 at the end of the address")
                else match parseIPv4Fields in_ s [] 0 0 true false with
                     | Err e => Err e
                     | Ok fields => Ok (ip ++ fields, ellipsis, [])
                     end
              else
                let ip := ip ++ [Z.shiftr acc 8; Z.land acc 0xff] in
                if negb (code c =? 58) then
                  Err (parse_error in_ "unexpected character, want colon")
                else match rest' with
                | [] => Err (parse_error in_ "colon must be followed by more characters")
                | c2 :: rest'' =>
                    if code c2 =? 58 then
                      match ellipsis with
                      | Some _ => Err (parse_error in_ "multiple :: in address")
                      | None =>
                          match rest'' with
                          | [] => Ok (ip, Some (length ip), [])
                          | _ => if (16 <=? length ip)%nat then Ok (ip, Some (length ip), rest'')
                                 else parse_groups fuel in_ rest'' ip (Some (length ip))
                          end
                      end
                    else if (16 <=? length ip)%nat then Ok (ip, ellipsis, rest')
                    else parse_groups fuel in_ rest' ip ellipsis
                end
          | [] => Ok (ip ++ [Z.shiftr acc 8; Z.land acc 0xff], ellipsis, [])
          end
      end
  end.

(** [s] up to its first percent sign, and what follows it. *)
Fixpoint split_zone (s : bytes) : bytes * option bytes :=
  match s with
  | [] => ([], None)
  | c :: s => if code c =? 37 then ([], Some s)
              else let '(a, z) := split_zone s in (c :: a, z)
  end.

Definition parseIPv6 (in_ : string) : result Addr :=
  let '(s, zo) := split_zone (bytes_of_string in_) in
  match zo with
  | Some [] => Err (parse_error in_ "zone must be a non-empty string")
  | _ =>
      let zone := match zo with Some z => string_of_bytes z | None => "" end in
      let leading :=
        match s with
        | c1 :: c2 :: s' => if (code c1 =? 58) && (code c2 =? 58) then Some s' else None
        | _ => None
        end in
      match leading with
      | Some [] => Ok (Addr_v6 0 zone)
      | _ =>
          let '(s, ellipsis) :=
            match leading with Some s' => (s', Some 0%nat) | None => (s, None) end in
          match parse_groups 8 in_ s [] ellipsis with
          | Err e => Err e
          | Ok (_, _, _ :: _) => Err (parse_error in_ "trailing garbage after address")
          | Ok (ip, ellipsis, []) =>
              if (length ip <? 16)%nat then
                match ellipsis with
                | None => Err (parse_error in_ "address string too short")
                | Some e =>
                    Ok (Addr_v6 (be_number (take e ip ++ replicate (16 - length ip) 0 ++ drop e ip)) zone)
                end
              else match ellipsis with
                   | Some _ => Err (parse_error in_ "the :: must expand to at least one field of zeros")
                   | None => Ok (Addr_v6 (be_number ip) zone)
                   end
          end
      end
  end.

Fixpoint ParseAddr_scan (in_ : string) (s : bytes) : result Addr :=
  match s with
  | [] => Err (parse_error in_ "unable to parse IP")
  | c :: s =>
      if code c =? 46 then parseIPv4 in_
      else if code c =? 58 then parseIPv6 in_
      else if code c =? 37 then Err (parse_error in_ "missing IPv6 address")
      else ParseAddr_scan in_ s
  end.

Definition ParseAddr (s : string) : result Addr := ParseAddr_scan s (bytes_of_string s).

Definition prefix_error (in_ msg : string) : error :=
  Errorf "netip.ParsePrefix(%q): %s" [in_; msg] [].

(** [s] split at its last slash. *)
Fixpoint split_slash (s : bytes) : option (bytes * bytes) :=
  match s with
  | [] => None
  | c :: s' =>
      match split_slash s' with
      | Some (a, b) => Some (c :: a, b)
      | None => if code c =? 47 then Some ([], s') else None
      end
  end.

Definition ParsePrefix (s : string) : result Prefix :=
  match split_slash (bytes_of_string s) with
  | None => Err (prefix_error s "no '/'")
  | Some (a, b) =>
      match ParseAddr (string_of_bytes a) with
      | Err e => Err (prefix_error s "bad address")
      | Ok ip =>
          if Is6 ip && hasZone ip then
            Err (prefix_error s "IPv6 zones cannot be present in a prefix")
          else
            let bad := Err (prefix_error s "bad bits after slash") in
            let leading :=
              match b with
              | c :: _ :: _ => (code c <? 49) || (57 <? code c)
              | _ => false
              end in
            if leading then bad
            else match strconv.Atoi (string_of_bytes b) with
                 | Err _ => bad
                 | Ok bits =>
                     let maxBits := if Is6 ip then 128 else 32 in
                     if (bits <? 0) || (maxBits <? bits) then
                       Err (prefix_error s "prefix length out of range")
                     else Ok (mkPrefix ip bits)
                 end
      end
  end.

(** ** Arithmetic reading *)

Definition addr_wf (a : Addr) : Prop :=
  match a with
  | Addr_zero => True
  | Addr_v4 ip => 0 <= ip < 2 ^ 32
  | Addr_v6 ip _ => 0 <= ip < 2 ^ 128
  end.

Lemma shiftr_lxor_zero a b k : 0 <= k -> (Z.shiftr (Z.lxor b a) k =? 0) = (b / 2 ^ k =? a / 2 ^ k).
Proof.
  intros Hk. rewrite Z.shiftr_lxor, !Z.shiftr_div_pow2 by done.
  destruct (Z.eqb_spec (b / 2 ^ k) (a / 2 ^ k)) as [->|Hne].
  - by rewrite Z.lxor_nilpotent.
  - apply Z.eqb_neq. intros H%Z.lxor_eq. done.
Qed.

Lemma land_mask6_zero x n :
  0 <= n <= 128 -> 0 <= x < 2 ^ 128 ->
  (Z.land x (mask6 n) =? 0) = (Z.shiftr x (128 - n) =? 0).
Proof.
  intros Hn Hx. unfold mask6.
  rewrite (Z.land_comm (Z.shiftl _ _)), Z.land_assoc, Z.land_ones, Z.mod_small by lia.
  assert (Z.land x (Z.shiftl (Z.ones 128) (128 - n)) =
          Z.shiftl (Z.shiftr x (128 - n)) (128 - n)) as ->.
  { apply Z.bits_inj'. intros i Hi. rewrite Z.land_spec, !Z.shiftl_spec by lia.
    destruct (Z.ltb_spec i (128 - n)) as [Hlt|Hge].
    - rewrite !(Z.testbit_neg_r _ (i - (128 - n))) by lia. by rewrite andb_false_r.
    - rewrite Z.shiftr_spec by lia. replace (i - (128 - n) + (128 - n)) with i by lia.
      destruct (Z.ltb_spec (i - (128 - n)) 128) as [Hlow|Hhigh].
      + rewrite Z.ones_spec_low by lia. by rewrite andb_true_r.
      + rewrite <- (Z.mod_small x (2 ^ 128)) by done.
        by rewrite (Z.mod_pow2_bits_high x 128 i) by lia. }
  destruct (Z.eqb_spec (Z.shiftr x (128 - n)) 0) as [->|Hne]; [by rewrite Z.shiftl_0_l|].
  apply Z.eqb_neq. rewrite Z.shiftl_eq_0_iff by lia. done.
Qed.

Lemma lxor_bound a b n : 0 <= n -> 0 <= a < 2 ^ n -> 0 <= b < 2 ^ n -> 0 <= Z.lxor a b < 2 ^ n.
Proof.
  intros Hn Ha Hb. split; [apply Z.lxor_nonneg; lia|].
  destruct (Z.eq_dec (Z.lxor a b) 0) as [->|Hne]; [lia|].
  assert (0 <= Z.lxor a b) by (apply Z.lxor_nonneg; lia).
  apply Z.log2_lt_pow2; [lia|].
  pose proof (Z.log2_lxor a b ltac:(lia) ltac:(lia)).
  assert (forall x, 0 <= x < 2 ^ n -> Z.log2 x < n \/ x = 0) as Hlog.
  { intros x Hx. destruct (Z.eq_dec x 0); [by right|left]. apply Z.log2_lt_pow2; lia. }
  destruct (Hlog a Ha) as [?|Ha0], (Hlog b Hb) as [?|Hb0]; try lia; subst;
    rewrite ?Z.lxor_0_l, ?Z.lxor_0_r in *; lia.
Qed.

(** The two addresses share their first [bits] bits, counted in a word of [w] bits. *)
Definition same_block (w bits a b : Z) : bool := b / 2 ^ (w - bits) =? a / 2 ^ (w - bits).

Lemma Contains_v4 a bits ip :
  0 <= bits <= 32 -> Contains (mkPrefix (Addr_v4 a) bits) (Addr_v4 ip) = same_block 32 bits a ip.
Proof.
  intros Hb. unfold Contains, Prefix_IsValid, hasZone, same_block. simpl.
  rewrite (proj2 (Z.leb_le 0 bits)) by lia. simpl.
  change 63 with (Z.ones 6). rewrite Z.land_ones, Z.mod_small by lia.
  rewrite shiftr_lxor_zero by lia. done.
Qed.

Lemma Contains_v6 a z bits ip :
  0 <= bits <= 128 -> 0 <= a < 2 ^ 128 -> 0 <= ip < 2 ^ 128 ->
  Contains (mkPrefix (Addr_v6 a z) bits) (Addr_v6 ip "") = same_block 128 bits a ip.
Proof.
  intros Hb Ha Hip. unfold Contains, Prefix_IsValid, hasZone, same_block. simpl.
  rewrite (proj2 (Z.leb_le 0 bits)) by lia. cbn [orb negb].
  rewrite land_mask6_zero by (try apply lxor_bound; lia).
  rewrite shiftr_lxor_zero by lia. done.
Qed.

(** A decidable fact about all [k]-bit numbers, by computing its instances. *)
Fixpoint forall_bits (k : nat) (base : Z) (f : Z -> bool) : bool :=
  match k with
  | O => f base
  | S k => forall_bits k (2 * base) f && forall_bits k (2 * base + 1) f
  end.

Lemma forall_bits_spec k f base x :
  forall_bits k base f = true -> base * 2 ^ Z.of_nat k <= x < (base + 1) * 2 ^ Z.of_nat k ->
  f x = true.
Proof.
  revert base. induction k as [|k IH]; intros base; cbn [forall_bits].
  - intros Hf Hx. by replace x with base by lia.
  - intros [H0 H1]%andb_true_iff. rewrite Nat2Z.inj_succ, Z.pow_succ_r by lia. intros Hx.
    destruct (Z.ltb_spec x ((2 * base + 1) * 2 ^ Z.of_nat k)) as [Hlt|Hge].
    + apply (IH (2 * base)); [done|lia].
    + apply (IH (2 * base + 1)); [done|lia].
Qed.

(** Masks of the predicates, as divisions. *)
Lemma land_masks :
  (forall x, 0 <= x < 256 -> Z.land x 0xf0 = x / 16 * 16) /\
  (forall x, 0 <= x < 256 -> Z.land x 0xfe = x / 2 * 2) /\
  (forall x, 0 <= x < 65536 -> Z.land x 0xffc0 = x / 64 * 64) /\
  (forall x, 0 <= x < 65536 -> Z.land x 0xff0f = x / 256 * 256 + x mod 16).
Proof.
  split_and!; intros x Hx; apply Z.eqb_eq.
  - apply (forall_bits_spec 8 (fun x => Z.land x 0xf0 =? x / 16 * 16) 0); [by vm_compute|simpl; lia].
  - apply (forall_bits_spec 8 (fun x => Z.land x 0xfe =? x / 2 * 2) 0); [by vm_compute|simpl; lia].
  - apply (forall_bits_spec 16 (fun x => Z.land x 0xffc0 =? x / 64 * 64) 0);
      [by vm_compute|simpl; lia].
  - apply (forall_bits_spec 16 (fun x => Z.land x 0xff0f =? x / 256 * 256 + x mod 16) 0);
      [by vm_compute|simpl; lia].
Qed.

Lemma v4_div ip i : 0 <= i <= 3 -> v4 ip i = ip / 2 ^ (8 * (3 - i)) mod 256.
Proof.
  intros Hi. unfold v4. rewrite Z.shiftr_div_pow2 by lia.
  change 0xff with (Z.ones 8). by rewrite Z.land_ones by lia.
Qed.

Lemma v6_div ip i : 0 <= i <= 15 -> v6 ip i = ip / 2 ^ (8 * (15 - i)) mod 256.
Proof.
  intros Hi. unfold v6. rewrite Z.shiftr_div_pow2 by lia.
  change 0xff with (Z.ones 8). by rewrite Z.land_ones by lia.
Qed.

Lemma v6u16_div ip i : 0 <= i <= 7 -> v6u16 ip i = ip / 2 ^ (16 * (7 - i)) mod 65536.
Proof.
  intros Hi. unfold v6u16. rewrite Z.shiftr_div_pow2 by lia.
  change 0xffff with (Z.ones 16). by rewrite Z.land_ones by lia.
Qed.

Lemma Unmap_wf a : addr_wf a -> addr_wf (Unmap a).
Proof.
  destruct a as [|ip|ip z]; unfold Unmap; [auto..|]. intros Hip.
  destruct (Is4In6 _); [|exact Hip]. unfold addr_wf.
  change 0xffffffff with (Z.ones 32). rewrite Z.land_ones by lia.
  apply Z.mod_pos_bound. lia.
Qed.

Lemma Unmap_idemp a : Unmap (Unmap a) = Unmap a.
Proof.
  destruct a as [|ip|ip z]; [reflexivity..|]. unfold Unmap.
  destruct (Is4In6 (Addr_v6 ip z)) eqn:H; [reflexivity|by rewrite H].
Qed.

End netip.
