(* ===== verification/Conn.v ===== *)
(** * Connections

    The read side of a [net.Conn], the [bufio.Reader] of Go's library on it, and
    the package's wrappers: [bufferedConn] (buffered_conn.go) and [prependConn]
    (website_conn.go).  Every one of them implements the class [Reader]; its laws say
    that reading until an error delivers exactly the bytes still pending, so the theorem about
    the website's view of a connection is proved once, against the class. *)

From S2P Require Import Prelude GoErrors.

Local Open Scope Z_scope.

(** ** The connection underneath

    The peer's future is a list of segments with their arrival times, then a
    permanent error (end of stream, reset, or the connection closed by another
    goroutine).  The error has a read of its own, or comes with the last bytes, as
    [io.Reader] allows.  A read waits for the next segment and times out at the read
    deadline, after which the segment is still to be read. *)

Record Segment := mkSegment { seg_at : Z; seg_data : bytes }.

Record NetConn := mkNetConn {
  nc_now : Z;                       (** the clock when the last operation returned *)
  nc_segs : list Segment;
  nc_end_at : Z;
  nc_end_err : error;
  nc_end_with : bool;               (** whether the error comes with the last bytes *)
  nc_deadline : option Z;           (** the read deadline *)
  nc_deadline_fault : option error; (** what [SetReadDeadline] fails with, if it does *)
  nc_closed : bool
}.

#[export] Instance Eta_NetConn : Eta NetConn := record_eta (
  fun c => mkNetConn (nc_now c) (nc_segs c) (nc_end_at c) (nc_end_err c) (nc_end_with c)
    (nc_deadline c) (nc_deadline_fault c) (nc_closed c)).

(** When the next thing to read is there. *)
Definition net_ready_at (c : NetConn) : Z :=
  Z.max (nc_now c)
        (match nc_segs c with
         | s :: _ => seg_at s
         | [] => if nc_end_with c then nc_now c else nc_end_at c
         end).

Definition net_timed_out (c : NetConn) : bool :=
  match nc_deadline c with
  | Some d => d <=? net_ready_at c
  | None => false
  end.

(** [net.Conn.Read] with a buffer of [k] bytes. *)
Definition net_Read (k : nat) (c : NetConn) : bytes * option error * NetConn :=
  if nc_closed c then ([], Some (Sentinel net_ErrClosed), c)
  else if (k =? 0)%nat then ([], None, c)
  else if net_timed_out c then
    ([], Some (Sentinel os_ErrDeadlineExceeded),
     c <| nc_now := Z.max (nc_now c) (default 0 (nc_deadline c)) |>)
  else
    let c' := c <| nc_now := net_ready_at c |> in
    match nc_segs c with
    | [] => ([], Some (nc_end_err c), c')
    | s :: rest =>
        if (k <? length (seg_data s))%nat
        then (take k (seg_data s), None,
              c' <| nc_segs := mkSegment (seg_at s) (drop k (seg_data s)) :: rest |>)
        else (seg_data s,
              match rest with
              | [] => if nc_end_with c then Some (nc_end_err c) else None
              | _ => None
              end,
              c' <| nc_segs := rest |>)
    end.

(** [net.Conn.SetReadDeadline]; [None] is the zero time, no deadline. *)
Definition net_SetReadDeadline (t : option Z) (c : NetConn) : option error * NetConn :=
  if nc_closed c then (Some (Sentinel net_ErrClosed), c)
  else match nc_deadline_fault c with
       | Some e => (Some e, c)
       | None => (None, c <| nc_deadline := t |>)
       end.

(** [net.Conn.Close]. *)
Definition net_Close (c : NetConn) : NetConn := c <| nc_closed := true |>.

(** What the peer will have sent. *)
Definition net_pending (c : NetConn) : bytes := concat (seg_data <$> nc_segs c).

(** ** [bufferedConn]

    [bc_buf] is the unread part of the reader's buffer, [bc_err] its pending
    error. *)

Record bufferedConn := mkBufferedConn {
  bc_conn : NetConn;
  bc_buf : bytes;
  bc_err : option error
}.

#[export] Instance Eta_bufferedConn : Eta bufferedConn := record_eta (
  fun b => mkBufferedConn (bc_conn b) (bc_buf b) (bc_err b)).

(** [bufio.NewReader]'s buffer size. *)
Definition defaultBufSize : nat := 4096.

Lemma defaultBufSize_pos : (0 < defaultBufSize)%nat.
Proof. unfold defaultBufSize. lia. Qed.

(** No probe asks for more than 32 bytes. *)
Lemma defaultBufSize_probe n : (n <= 32)%nat -> (n <= defaultBufSize)%nat.
Proof. unfold defaultBufSize. lia. Qed.

#[global] Opaque defaultBufSize.

(** buffered_conn.go, [newBufferedConn]. *)
Definition newBufferedConn (conn : NetConn) : bufferedConn := mkBufferedConn conn [] None.

(** [bufio.Reader.fill]: reads until there is data or an error, giving up after
    100 empty reads. *)
Fixpoint bufio_fill_loop (i : nat) (b : bufferedConn) : bufferedConn :=
  match i with
  | O => b <| bc_err := Some (Sentinel io_ErrNoProgress) |>
  | S i =>
      let '(bs, err, c) := net_Read (defaultBufSize - length (bc_buf b)) (bc_conn b) in
      let b' := mkBufferedConn c (bc_buf b ++ bs) (bc_err b) in
      match err, bs with
      | Some e, _ => b' <| bc_err := Some e |>
      | None, _ :: _ => b'
      | None, [] => bufio_fill_loop i b'
      end
  end.

Definition bufio_fill (b : bufferedConn) : bufferedConn := bufio_fill_loop 100 b.
Arguments bufio_fill : simpl never.

(** The loop of [bufio.Reader.Peek]: every turn adds a byte or sets the error. *)
Fixpoint bufio_peek_loop (fuel : nat) (n : nat) (b : bufferedConn) : bufferedConn :=
  match fuel with
  | O => b
  | S fuel =>
      if (length (bc_buf b) <? n)%nat && (length (bc_buf b) <? defaultBufSize)%nat &&
         bool_decide (bc_err b = None)
      then bufio_peek_loop fuel n (bufio_fill b)
      else b
  end.

(** [bufio.Reader.Peek]. *)
Definition bufio_Peek (n : nat) (b : bufferedConn) : bytes * option error * bufferedConn :=
  let b := bufio_peek_loop (S n) n b in
  if (defaultBufSize <? n)%nat then (bc_buf b, Some (Sentinel bufio_ErrBufferFull), b)
  else if (length (bc_buf b) <? n)%nat then
    (bc_buf b,
     Some (default (Sentinel bufio_ErrBufferFull) (bc_err b)),
     b <| bc_err := None |>)
  else (take n (bc_buf b), None, b).

(** [bufio.Reader.Read] with a buffer of [k] bytes. *)
Definition bufio_Read (k : nat) (b : bufferedConn) : bytes * option error * bufferedConn :=
  if (k =? 0)%nat then
    match bc_buf b with
    | _ :: _ => ([], None, b)
    | [] => ([], bc_err b, b <| bc_err := None |>)
    end
  else match bc_buf b with
  | _ :: _ => (take k (bc_buf b), None, b <| bc_buf := drop k (bc_buf b) |>)
  | [] =>
      match bc_err b with
      | Some e => ([], Some e, b <| bc_err := None |>)
      | None =>
          if (defaultBufSize <=? k)%nat then
            let '(bs, err, c) := net_Read k (bc_conn b) in
            (bs, err, b <| bc_conn := c |>)
          else
            let '(bs, err, c) := net_Read defaultBufSize (bc_conn b) in
            match bs with
            | [] => ([], err, b <| bc_conn := c |>)
            | _ => (take k bs, None, mkBufferedConn c (drop k bs) err)
            end
      end
  end.

(** buffered_conn.go, [bufferedConn.Read]. *)
Definition bufferedConn_Read (k : nat) (bc : bufferedConn) : bytes * option error * bufferedConn :=
  bufio_Read k bc.

(** buffered_conn.go, [bufferedConn.Peek]; the deferred call clears the
    deadline on every path after it was set. *)
Definition bufferedConn_Peek (n : nat) (timeout : Z) (bc : bufferedConn)
    : bytes * option error * bufferedConn :=
  if 0 <? timeout then
    match net_SetReadDeadline (Some (nc_now (bc_conn bc) + timeout)) (bc_conn bc) with
    | (Some err, c) => ([], Some err, bc <| bc_conn := c |>)
    | (None, c) =>
        let '(preview, err, bc) := bufio_Peek n (bc <| bc_conn := c |>) in
        let '(_, c) := net_SetReadDeadline None (bc_conn bc) in
        (preview, err, bc <| bc_conn := c |>)
    end
  else bufio_Peek n bc.

(** buffered_conn.go, [bufferedConn.BufferedBytes]. *)
Definition bufferedConn_BufferedBytes (bc : bufferedConn)
    : result bytes * bufferedConn :=
  let buffered := length (bc_buf bc) in
  if (buffered =? 0)%nat then (Ok [], bc)
  else
    let '(preview, err, bc) := bufio_Peek buffered bc in
    match err with
    | Some e => (Err e, bc)
    | None => (Ok preview, bc)
    end.

(** ** [prependConn] *)

(** The readers of [io.MultiReader]: the prefix and the connection. *)
Inductive multi_part := PartPrefix (rest : bytes) | PartConn.

(** [pc_reader] is the connection itself, or a multi-reader with its remaining
    parts. *)
Inductive prepend_reader := ReaderConn | ReaderMulti (parts : list multi_part).

Record prependConn := mkPrependConn { pc_conn : NetConn; pc_reader : prepend_reader }.

#[export] Instance Eta_prependConn : Eta prependConn := record_eta (
  fun p => mkPrependConn (pc_conn p) (pc_reader p)).

(** website_conn.go, [newPrependConn]. *)
Definition newPrependConn (conn : NetConn) (prefix : bytes) : prependConn :=
  mkPrependConn conn
    (if (0 <? length prefix)%nat then ReaderMulti [PartPrefix prefix; PartConn] else ReaderConn).

(** One part of the multi-reader: [bytes.Reader.Read] or the connection's. *)
Definition part_Read (k : nat) (part : multi_part) (c : NetConn)
    : bytes * option error * multi_part * NetConn :=
  match part with
  | PartPrefix [] => ([], Some (Sentinel io_EOF), part, c)
  | PartPrefix rest => (take k rest, None, PartPrefix (drop k rest), c)
  | PartConn => let '(bs, err, c) := net_Read k c in (bs, err, part, c)
  end.

(** [err == io.EOF] *)
Definition is_EOF (err : option error) : bool :=
  match err with Some (Sentinel io_EOF) => true | _ => false end.

(** [io.multiReader.Read]. *)
Fixpoint multi_Read (k : nat) (parts : list multi_part) (c : NetConn)
    : bytes * option error * list multi_part * NetConn :=
  match parts with
  | [] => ([], Some (Sentinel io_EOF), [], c)
  | part :: rest =>
      let '(bs, err, part, c) := part_Read k part c in
      if is_EOF err then
        match bs, rest with
        | [], _ => multi_Read k rest c
        | _, _ :: _ => (bs, None, rest, c)
        | _, [] => (bs, err, rest, c)
        end
      else (bs, err, part :: rest, c)
  end.

(** website_conn.go, [prependConn.Read]. *)
Definition prependConn_Read (k : nat) (pc : prependConn) : bytes * option error * prependConn :=
  match pc_reader pc with
  | ReaderConn =>
      let '(bs, err, c) := net_Read k (pc_conn pc) in (bs, err, pc <| pc_conn := c |>)
  | ReaderMulti parts =>
      let '(bs, err, parts, c) := multi_Read k parts (pc_conn pc) in
      (bs, err, mkPrependConn c (ReaderMulti parts))
  end.

(** ** The interface every connection implements

    [rd_pending] is what reading will still deliver, [rd_open] that no deadline or
    close can interrupt it, [rd_final] the error it ends with and [rd_work] a
    bound on the reads it takes.  As in the contract of [io.Reader], the error may
    come with the last bytes. *)

Class Reader (C : Type) := {
  rd_Read : nat -> C -> bytes * option error * C;
  rd_pending : C -> bytes;
  rd_open : C -> Prop;
  rd_final : C -> error;
  rd_work : C -> nat
}.

Class ReaderLaws (C : Type) `{Reader C} : Prop := {
  rd_step : forall k c bs err c',
    (0 < k)%nat -> rd_open c -> rd_Read k c = (bs, err, c') ->
    rd_open c' /\ rd_final c' = rd_final c /\ rd_pending c = bs ++ rd_pending c' /\
    match err with
    | None => (rd_work c' < rd_work c)%nat
    | Some e => rd_pending c' = [] /\ e = rd_final c
    end
}.

(** Reads with a buffer of [k] bytes until the first error, like [io.ReadAll]. *)
Fixpoint ReadAll {C} `{Reader C} (fuel k : nat) (c : C) : bytes * option error :=
  match fuel with
  | O => ([], None)
  | S fuel =>
      let '(bs, err, c) := rd_Read k c in
      match err with
      | Some e => (bs, Some e)
      | None => let '(rest, e) := ReadAll fuel k c in (bs ++ rest, e)
      end
  end.

Lemma ReadAll_complete {C} `{ReaderLaws C} k fuel (c : C) :
  (0 < k)%nat -> rd_open c -> (rd_work c < fuel)%nat ->
  ReadAll fuel k c = (rd_pending c, Some (rd_final c)).
Proof.
  intros Hk. revert c. induction fuel as [|fuel IH]; intros c Ho Hw; [lia|]. simpl.
  destruct (rd_Read k c) as [[bs err] c'] eqn:Hr.
  destruct (rd_step k c bs err c' Hk Ho Hr) as (Ho' & Hf & Hp & He).
  destruct err as [e|].
  - destruct He as [Hnil ->]. by rewrite Hp, Hnil, app_nil_r.
  - rewrite (IH c' Ho') by lia. by rewrite Hp, Hf.
Qed.

(** *** The connection underneath *)

(** What reading leaves alone. *)
Definition net_stable (c c' : NetConn) : Prop :=
  nc_end_err c' = nc_end_err c /\ nc_end_with c' = nc_end_with c /\
  nc_deadline c' = nc_deadline c /\ nc_deadline_fault c' = nc_deadline_fault c /\ nc_closed c' = nc_closed c.

#[export] Instance net_stable_preorder : PreOrder net_stable.
Proof. unfold net_stable. split; [by intros c|]. intros c1 c2 c3 ? ?; intuition congruence. Qed.

Definition net_work (c : NetConn) : nat :=
  length (net_pending c) + length (nc_segs c).

(** An error is the permanent one, after which nothing is left, or comes alone. *)
Lemma net_Read_spec k c bs err c' :
  net_Read k c = (bs, err, c') ->
  net_stable c c' /\ net_pending c = bs ++ net_pending c' /\ (length bs <= k)%nat /\
  match err with
  | None => True
  | Some e => bs = [] \/ e = nc_end_err c' /\ nc_segs c' = []
  end.
Proof.
  unfold net_Read, net_stable, net_pending. intros Hr.
  destruct (nc_closed c) eqn:Hc; [simplify_eq/=; naive_solver lia|].
  destruct (k =? 0)%nat eqn:Hk; [simplify_eq/=; naive_solver lia|].
  destruct (net_timed_out c) eqn:Ht; [simplify_eq/=; naive_solver lia|].
  destruct (nc_segs c) as [|s rest] eqn:Hs; [simplify_eq/=; rewrite Hs; naive_solver lia|].
  destruct (k <? length (seg_data s))%nat eqn:Hl; simplify_eq/=; bools; rewrite ?Hc.
  - rewrite length_take, app_assoc, take_drop. split_and!; done || lia.
  - split_and!; [done..|]. destruct rest; [|done]. destruct (nc_end_with c); [by right|done].
Qed.

Lemma net_Read_work k c bs err c' :
  (0 < k)%nat -> net_Read k c = (bs, err, c') ->
  (length bs + net_work c' <= net_work c)%nat /\
  (err = None -> bs = [] -> (net_work c' < net_work c)%nat).
Proof.
  unfold net_Read, net_work, net_pending. intros Hk Hr.
  destruct (nc_closed c); [by simplify_eq/=|].
  destruct (k =? 0)%nat eqn:Hk'; [bools; lia|].
  destruct (net_timed_out c); [by simplify_eq/=|].
  destruct (nc_segs c) as [|s rest] eqn:Hs; [simplify_eq/=; by rewrite Hs|].
  destruct (k <? length (seg_data s))%nat eqn:Hl; simplify_eq/=; bools;
    rewrite ?length_app, ?length_take, ?length_drop; simpl.
  - split; [lia|]. intros _ Hb%(f_equal length). rewrite length_take in Hb. simpl in Hb. lia.
  - split; lia.
Qed.

#[export] Instance Reader_NetConn : Reader NetConn := {
  rd_Read := net_Read;
  rd_pending := net_pending;
  rd_open c := nc_closed c = false /\ nc_deadline c = None;
  rd_final := nc_end_err;
  rd_work := net_work
}.

(** Without a deadline and not closed, a read fails with the permanent error only. *)
Lemma net_Read_open k c bs err c' :
  (0 < k)%nat -> nc_closed c = false -> nc_deadline c = None -> net_Read k c = (bs, err, c') ->
  nc_closed c' = false /\ nc_deadline c' = None /\ nc_end_err c' = nc_end_err c /\
  net_pending c = bs ++ net_pending c' /\
  match err with
  | None => True
  | Some e => nc_segs c' = [] /\ e = nc_end_err c
  end.
Proof.
  intros Hk Hc Hd Hr.
  destruct (net_Read_spec _ _ _ _ _ Hr) as ((He & _ & Hd' & Hf & Hc') & Hp & _ & Herr).
  split_and!; [congruence..|]. destruct err as [e|]; [|done].
  destruct Herr as [->|[-> ?]]; [|by rewrite He].
  unfold net_Read, net_timed_out in Hr. rewrite Hc, Hd in Hr.
  destruct (Nat.eqb_spec k 0); [lia|]. destruct (nc_segs c) as [|s rest] eqn:Hs.
  - by simplify_eq/=.
  - destruct (k <? length (seg_data s))%nat; [done|]. simplify_eq/=.
    destruct rest; [|done]. by destruct (nc_end_with c); simplify_eq/=.
Qed.

Lemma net_pending_nil c : nc_segs c = [] -> net_pending c = [].
Proof. unfold net_pending. by intros ->. Qed.

#[export] Instance ReaderLaws_NetConn : ReaderLaws NetConn.
Proof.
  split. intros k c bs err c' Hk [Hc Hd] Hr. simpl in *.
  destruct (net_Read_open _ _ _ _ _ Hk Hc Hd Hr) as (? & ? & ? & ? & He).
  split_and!; [done..|]. destruct err; [naive_solver eauto using net_pending_nil|].
  destruct (net_Read_work _ _ _ _ _ Hk Hr). destruct bs; [auto|simpl in *; lia].
Qed.

(** *** The buffered connection *)

(** Between two calls the reader may keep an error that came with the last bytes. *)
Definition sticky (b : bufferedConn) : Prop :=
  bc_err b = None \/ bc_err b = Some (nc_end_err (bc_conn b)) /\ nc_segs (bc_conn b) = [].

(** The bytes the client sent and nobody consumed yet. *)
Definition bufio_stream (b : bufferedConn) : bytes := bc_buf b ++ net_pending (bc_conn b).

#[export] Instance Reader_bufferedConn : Reader bufferedConn := {
  rd_Read := bufferedConn_Read;
  rd_pending := bufio_stream;
  rd_open b := nc_closed (bc_conn b) = false /\ nc_deadline (bc_conn b) = None /\ sticky b;
  rd_final b := nc_end_err (bc_conn b);
  rd_work b := (length (bc_buf b) + net_work (bc_conn b))%nat
}.

#[export] Instance ReaderLaws_bufferedConn : ReaderLaws bufferedConn.
Proof.
  split. intros k [c buf perr] bs err b' Hk (Hc & Hd & Hst) Hr.
  unfold rd_Read, Reader_bufferedConn, bufferedConn_Read, bufio_Read in Hr. unfold sticky in *.
  simpl in *. destruct (k =? 0)%nat eqn:Hk0; [bools; lia|]. unfold bufio_stream; simpl.
  destruct buf as [|x buf].
  - destruct perr as [e|].
    { destruct Hst as [|[[= ->] Hs]]; [done|]. simplify_eq/=.
      split_and!; try done; [by left|by apply net_pending_nil]. }
    destruct (defaultBufSize <=? k)%nat eqn:Hbig.
    + destruct (net_Read k c) as [[bs1 err1] c1] eqn:Hn. simplify_eq/=.
      destruct (net_Read_open _ _ _ _ _ Hk Hc Hd Hn) as (? & ? & ? & ? & Hcase).
      destruct (net_Read_work _ _ _ _ _ Hk Hn) as [Hw Hw0].
      split_and!; try done; [by left|]. destruct err; [naive_solver eauto using net_pending_nil|].
      destruct bs; [auto|simpl in *; lia].
    + destruct (net_Read defaultBufSize c) as [[bs1 err1] c1] eqn:Hn.
      destruct (net_Read_work _ _ _ _ _ defaultBufSize_pos Hn) as [Hw Hw0].
      apply net_Read_open in Hn as (? & ? & ? & Hp & Hcase); [|apply defaultBufSize_pos|done..].
      destruct bs1 as [|y bs1]; simplify_eq/=.
      * split_and!; try done; [by left|]. destruct err; [naive_solver eauto using net_pending_nil|auto].
      * destruct k as [|k]; [lia|]. split_and!; try done.
        -- destruct err1 as [e|]; [|by left]. right. naive_solver congruence.
        -- rewrite Hp. simpl. by rewrite app_assoc, take_drop.
        -- simpl in *. rewrite length_drop. lia.
  - simplify_eq/=. destruct k as [|k]; [lia|]. split_and!; try done.
    + by rewrite app_assoc, take_drop.
    + simpl. rewrite length_drop. lia.
Qed.

(** *** The prepended connection *)

Definition part_pending (c : NetConn) (p : multi_part) : bytes :=
  match p with PartPrefix rest => rest | PartConn => net_pending c end.

Definition multi_pending (parts : list multi_part) (c : NetConn) : bytes :=
  concat (part_pending c <$> parts).

(** The parts [newPrependConn] starts with and the ones its reads leave. *)
Definition multi_shape (parts : list multi_part) (c : NetConn) : Prop :=
  match parts with
  | [PartPrefix _; PartConn] | [PartConn] => True
  | [] => nc_end_err c = Sentinel io_EOF
  | _ => False
  end.

(** What a law of [Reader] says of a read through the multi-reader. *)
Definition multi_Read_law (parts : list multi_part) (c : NetConn)
    (bs : bytes) (err : option error) (parts' : list multi_part) (c' : NetConn) : Prop :=
  nc_closed c' = false /\ nc_deadline c' = None /\ multi_shape parts' c' /\
  nc_end_err c' = nc_end_err c /\
  multi_pending parts c = bs ++ multi_pending parts' c' /\
  match err with
  | None => (length (multi_pending parts' c') + net_work c' <
             length (multi_pending parts c) + net_work c)%nat
  | Some e => multi_pending parts' c' = [] /\ e = nc_end_err c
  end.

Lemma multi_Read_conn k c bs err parts c' :
  (0 < k)%nat -> nc_closed c = false -> nc_deadline c = None ->
  multi_Read k [PartConn] c = (bs, err, parts, c') ->
  multi_Read_law [PartConn] c bs err parts c'.
Proof.
  intros Hk Hc Hd. simpl. destruct (net_Read k c) as [[bs1 err1] c1] eqn:Hn.
  destruct (net_Read_open _ _ _ _ _ Hk Hc Hd Hn) as (Hc1 & Hd1 & Hf & Hp & Hcase).
  destruct (net_Read_work _ _ _ _ _ Hk Hn) as [Hw Hw0].
  unfold multi_Read_law, multi_pending.
  destruct (is_EOF err1) eqn:HE.
  - destruct err1 as [[[]| | |]|]; try done. destruct Hcase as [Hs He].
    rewrite (net_pending_nil _ Hs), app_nil_r in Hp.
    destruct bs1; intros [= <- <- <- <-]; simpl; rewrite Hp, ?app_nil_r; split_and!; congruence || done.
  - intros [= <- <- <- <-]. simpl. rewrite ?app_nil_r. split_and!; try done.
    destruct err1; [naive_solver eauto using net_pending_nil|].
    rewrite Hp, length_app. destruct bs1; [naive_solver lia|]. simpl in *. lia.
Qed.

Lemma multi_Read_laws k parts c bs err parts' c' :
  (0 < k)%nat -> nc_closed c = false -> nc_deadline c = None -> multi_shape parts c ->
  multi_Read k parts c = (bs, err, parts', c') ->
  multi_Read_law parts c bs err parts' c'.
Proof.
  intros Hk Hc Hd Hsh.
  destruct parts as [|[[|x rest]|] [|[|] [|]]]; try done.
  - intros [= <- <- <- <-]. by unfold multi_Read_law.
  - (* the prefix is used up: the read goes to the connection *)
    intros Hr. change (multi_Read k [PartConn] c = (bs, err, parts', c')) in Hr.
    by apply multi_Read_conn in Hr.
  - simpl. intros [= <- <- <- <-]. destruct k as [|k]; [lia|].
    unfold multi_Read_law, multi_pending. simpl. rewrite ?app_nil_r. split_and!; try done.
    + by rewrite app_assoc, take_drop.
    + rewrite !length_app, length_drop. lia.
  - by apply multi_Read_conn.
Qed.

Definition prepend_pending (pc : prependConn) : bytes :=
  match pc_reader pc with
  | ReaderConn => net_pending (pc_conn pc)
  | ReaderMulti parts => multi_pending parts (pc_conn pc)
  end.

#[export] Instance Reader_prependConn : Reader prependConn := {
  rd_Read := prependConn_Read;
  rd_pending := prepend_pending;
  rd_open pc := nc_closed (pc_conn pc) = false /\ nc_deadline (pc_conn pc) = None /\
                match pc_reader pc with
                | ReaderConn => True
                | ReaderMulti parts => multi_shape parts (pc_conn pc)
                end;
  rd_final pc := nc_end_err (pc_conn pc);
  rd_work pc := (length (prepend_pending pc) + net_work (pc_conn pc))%nat
}.

#[export] Instance ReaderLaws_prependConn : ReaderLaws prependConn.
Proof.
  split. intros k [c r] bs err pc' Hk (Hc & Hd & Hsh) Hr.
  unfold rd_Read, Reader_prependConn, prependConn_Read in Hr. simpl in *.
  unfold prepend_pending; simpl in *. destruct r as [|parts].
  - destruct (net_Read k c) as [[bs1 err1] c1] eqn:Hn. simplify_eq/=.
    destruct (net_Read_open _ _ _ _ _ Hk Hc Hd Hn) as (? & ? & ? & Hp & Hcase).
    destruct (net_Read_work _ _ _ _ _ Hk Hn) as [Hw Hw0].
    split_and!; try done. destruct err; [naive_solver eauto using net_pending_nil|].
    rewrite Hp, length_app. destruct bs; [naive_solver lia|simpl in *; lia].
  - destruct (multi_Read k parts c) as [[[bs1 err1] parts1] c1] eqn:Hm. simplify_eq/=.
    apply multi_Read_laws in Hm as (? & ? & ? & ? & ? & ?); try done.
Qed.

(** ** Peeking

    [probing b] is the state of a connection between two peeks: no error of a peek is
    pending, no deadline.  [peeked b b'] says that nothing a later reader could see has changed. *)

Definition probing (b : bufferedConn) : Prop :=
  sticky b /\ nc_deadline (bc_conn b) = None.

Lemma probing_new conn : nc_deadline conn = None -> probing (newBufferedConn conn).
Proof. intros Hd. split; [by left|done]. Qed.

Definition peeked (b b' : bufferedConn) : Prop :=
  probing b ->
  probing b' /\ bufio_stream b' = bufio_stream b /\
  nc_closed (bc_conn b') = nc_closed (bc_conn b) /\
  nc_end_err (bc_conn b') = nc_end_err (bc_conn b).

#[export] Instance peeked_preorder : PreOrder peeked.
Proof.
  unfold peeked. split; [by intros b|]. intros b1 b2 b3 H12 H23 H1.
  destruct (H12 H1) as (H2 & ? & ? & ?). destruct (H23 H2) as (? & ? & ? & ?).
  split_and!; congruence || done.
Qed.

(** What [fill] and the peek loop do to the buffer. *)
Definition filled (b b' : bufferedConn) (added : bytes) : Prop :=
  bc_buf b' = bc_buf b ++ added /\
  net_pending (bc_conn b) = added ++ net_pending (bc_conn b') /\
  net_stable (bc_conn b) (bc_conn b').

Lemma filled_stream b b' added : filled b b' added -> bufio_stream b' = bufio_stream b.
Proof. intros (Hb & Hp & _). unfold bufio_stream. by rewrite Hb, Hp, app_assoc. Qed.

Lemma filled_trans b1 b2 b3 a1 a2 :
  filled b1 b2 a1 -> filled b2 b3 a2 -> filled b1 b3 (a1 ++ a2).
Proof.
  intros (Hb1 & Hp1 & Hs1) (Hb2 & Hp2 & Hs2). split_and!.
  - by rewrite Hb2, Hb1, app_assoc.
  - by rewrite Hp1, Hp2, app_assoc.
  - by etrans.
Qed.

(** [fill] adds bytes, perhaps with the permanent error, or sets an error. *)
Definition fill_outcome (b b' : bufferedConn) : Prop :=
  exists added, filled b b' added /\
    (added <> [] /\ sticky b' \/ added = [] /\ is_Some (bc_err b')).

Lemma bufio_fill_loop_spec i b : bc_err b = None -> fill_outcome b (bufio_fill_loop i b).
Proof.
  unfold fill_outcome, filled, sticky. revert b. induction i as [|i IH]; intros b He; simpl.
  - exists []. rewrite app_nil_r. naive_solver.
  - destruct (net_Read _ _) as [[bs err] c] eqn:Hr.
    apply net_Read_spec in Hr as (Hst & Hp & _ & Herr). destruct err as [e|].
    + exists bs. simpl. destruct bs; naive_solver.
    + destruct bs as [|x bs].
      * rewrite app_nil_r. destruct (IH (mkBufferedConn c (bc_buf b) (bc_err b)) He)
          as (added & Hf & Ha). exists added. split; [|done].
        apply (filled_trans b (mkBufferedConn c (bc_buf b) (bc_err b)) _ [] added); [|done].
        unfold filled; simpl. by rewrite app_nil_r.
      * exists (x :: bs). simpl. naive_solver.
Qed.

Lemma bufio_fill_spec b : bc_err b = None -> fill_outcome b (bufio_fill b).
Proof. apply bufio_fill_loop_spec. Qed.

(** Enough fuel: the loop stops with [n] bytes, a full buffer or an error, and
    an error leaves fewer than [n] bytes. *)
Lemma bufio_peek_loop_spec fuel n b :
  sticky b -> (n - length (bc_buf b) < fuel)%nat ->
  let b' := bufio_peek_loop fuel n b in
  exists added, filled b b' added /\
    (sticky b' /\ (n <= length (bc_buf b') \/ defaultBufSize <= length (bc_buf b'))%nat \/
     is_Some (bc_err b') /\ (length (bc_buf b') < n)%nat).
Proof.
  revert b. induction fuel as [|fuel IH]; intros b Hst Hfuel; [lia|]. simpl.
  destruct (_ && _ && _) eqn:Hc.
  - bools. destruct (bufio_fill_spec b) as (a1 & Hf1 & Hcase); [done|].
    destruct Hcase as [[Ha1 Hst1]|[-> Herr]].
    + destruct (IH (bufio_fill b)) as (a2 & Hf2 & Hend); [done| |].
      * destruct Hf1 as (-> & _). rewrite length_app. destruct a1; [done|simpl; lia].
      * exists (a1 ++ a2). split; [by eapply filled_trans|done].
    + (* the error ends the loop at its next turn *)
      exists []. assert (Hstop : bufio_peek_loop fuel n (bufio_fill b) = bufio_fill b).
      { destruct fuel; [done|]. simpl. rewrite (bool_decide_eq_false_2 (bc_err _ = None)).
        - by rewrite andb_false_r.
        - destruct Herr; congruence. }
      rewrite Hstop. split; [done|]. right. split; [done|].
      destruct Hf1 as (-> & _). by rewrite app_nil_r.
  - exists []. split; [unfold filled; by rewrite app_nil_r|].
    destruct (Nat.ltb_spec (length (bc_buf b)) n) as [Hlt|]; [|by auto].
    destruct (Nat.ltb_spec (length (bc_buf b)) defaultBufSize); [|by auto].
    simpl in Hc. bools. right. split; [by apply not_eq_None_Some|done].
Qed.

(** [bufio.Reader.Peek]: it returns the next [n] bytes, or an error and fewer
    bytes, and consumes nothing. *)
Lemma bufio_Peek_spec n b p err b' :
  sticky b -> (n <= defaultBufSize)%nat -> bufio_Peek n b = (p, err, b') ->
  bufio_stream b' = bufio_stream b /\ sticky b' /\
  net_stable (bc_conn b) (bc_conn b') /\
  p = take (length p) (bufio_stream b) /\
  (if err then (length p < n)%nat else length p = n).
Proof.
  intros He Hn. unfold bufio_Peek.
  destruct (bufio_peek_loop_spec (S n) n b He ltac:(lia)) as (added & Hf & Hend).
  set (b1 := bufio_peek_loop (S n) n b) in *. clearbody b1.
  pose proof (filled_stream _ _ _ Hf) as Hs. destruct Hf as (_ & _ & Hst).
  destruct (defaultBufSize <? n)%nat eqn:Hbig; [bools; lia|].
  destruct (length (bc_buf b1) <? n)%nat eqn:Hshort; bools; intros [= <- <- <-]; simpl.
  - split_and!; try done; [by left|]. rewrite <- Hs. unfold bufio_stream. by rewrite take_app_length.
  - destruct Hend as [[Hst' _]|[_ Hlt]]; [|lia].
    rewrite length_take, Nat.min_l by done. split_and!; try done.
    rewrite <- Hs. unfold bufio_stream. by rewrite take_app_le.
Qed.

(** [bufferedConn.Peek] leaves the connection as a reader sees it, and returns
    the next [n] bytes of it or an error. *)
Lemma bufferedConn_Peek_spec n timeout b p err b' :
  (n <= defaultBufSize)%nat -> bufferedConn_Peek n timeout b = (p, err, b') ->
  peeked b b' /\
  (probing b -> p = take (length p) (bufio_stream b) /\
   (if err then (length p < n)%nat \/ p = [] else length p = n)).
Proof.
  intros Hn. unfold bufferedConn_Peek, peeked, probing. destruct (0 <? timeout).
  - unfold net_SetReadDeadline at 1. destruct (nc_closed (bc_conn b)) eqn:Hc.
    { intros [= <- <- <-]; simpl. unfold bufio_stream. naive_solver. }
    destruct (nc_deadline_fault (bc_conn b)) as [e|] eqn:Hfault.
    { intros [= <- <- <-]; simpl. unfold bufio_stream. naive_solver. }
    destruct (bufio_Peek n _) as [[p1 err1] b1] eqn:Hp. intros Hr.
    assert (sticky b -> bufio_stream b1 = bufio_stream b /\ sticky b1 /\
      net_stable (bc_conn b) (bc_conn b1 <| nc_deadline := nc_deadline (bc_conn b) |>) /\
      p1 = take (length p1) (bufio_stream b) /\
      (if err1 then (length p1 < n)%nat else length p1 = n)) as Hpeek.
    { intros He. apply bufio_Peek_spec in Hp as (? & ? & (? & ? & ? & ? & ?) & ? & ?); [|done..].
      unfold net_stable. simpl in *. done. }
    unfold net_SetReadDeadline in Hr.
    split; intros [He Hd]; destruct (Hpeek He) as (Hs & He1 & (? & ? & ? & Hf & Hc1) & Hp1 & Hlen);
      simpl in *; rewrite Hc1, Hc, Hf, Hfault in Hr; simplify_eq/=.
    + unfold bufio_stream in *. simpl. split_and!; done.
    + split; [done|]. destruct err; [by left|done].
  - intros Hp. split; intros [He Hd];
      apply bufio_Peek_spec in Hp as (? & ? & (? & ? & ? & ? & ?) & ? & ?); try done.
    + split_and!; congruence || done.
    + split; [done|]. destruct err; [by left|done].
Qed.
