(* ===== verification/Wrapper.v ===== *)
(** * The configuration of the listener wrapper

    The configuration fields of [ListenerWrapper] and [User] (anytls.go), the
    defaults [Provision] fills in, the parsing of the CIDR lists (policy.go), the
    static checks of [Validate] and the user list handed to the AnyTLS service. *)

From S2P Require Import Prelude GoErrors GoStrings Sha256 Netip.
Import netip.

Local Open Scope Z_scope.

(** ** Data *)

Record User := mkUser {
  user_Name : string;
  user_Password : string;
  user_Enabled : bool;
  user_Outbound : string
}.

#[export] Instance User_eq_dec : EqDecision User.
Proof. solve_decision. Defined.

(** The exported fields of [ListenerWrapper].  Durations are nanoseconds, ints
    64-bit values; a [json.RawMessage] is its text, a missing one the empty text. *)
Record Config := mkConfig {
  Users : list User;
  ProbeTimeout : Z;
  IdleTimeout : Z;
  ConnectTimeout : Z;
  MaxConcurrent : Z;
  MaxPendingProbes : Z;
  MaxStreamsPerSession : Z;
  MaxConcurrentStreams : Z;
  Fallback : bool;
  AllowPrivateTargets : bool;
  AllowCIDRs : list string;
  DenyCIDRs : list string;
  AllowPorts : list Z;
  DenyPorts : list Z;
  AllowDomains : list string;
  DenyDomains : list string;
  PaddingScheme : string;
  LogNodeInfo : bool;
  NodeHosts : list string;
  NodePort : Z;
  NodeSNI : string;
  NodeInsecure : bool;
  OutboundRaw : string;
  OutboundsRaw : gmap string string;
  DefaultOutbound : string
}.

#[export] Instance Eta_Config : Eta Config := record_eta (
  fun c => mkConfig (Users c) (ProbeTimeout c) (IdleTimeout c) (ConnectTimeout c) (MaxConcurrent c)
    (MaxPendingProbes c) (MaxStreamsPerSession c) (MaxConcurrentStreams c) (Fallback c)
    (AllowPrivateTargets c) (AllowCIDRs c) (DenyCIDRs c) (AllowPorts c) (DenyPorts c)
    (AllowDomains c) (DenyDomains c) (PaddingScheme c) (LogNodeInfo c) (NodeHosts c)
    (NodePort c) (NodeSNI c) (NodeInsecure c) (OutboundRaw c) (OutboundsRaw c)
    (DefaultOutbound c)).

(** [new(ListenerWrapper)]. *)
Definition zero_Config : Config :=
  mkConfig [] 0 0 0 0 0 0 0 false false [] [] [] [] [] [] "" false [] 0 "" false "" ∅ "".

Definition second : Z := 1000000000.
Definition millisecond : Z := 1000000.

(** The head of [Provision]: the defaults.  [fallbackSet] is the wrapper's field of
    that name, [DefaultPaddingScheme] the constant of sing-anytls. *)
Definition provision_defaults (DefaultPaddingScheme : string) (fallbackSet : bool)
    (c : Config) : Config :=
  let c := if ProbeTimeout c =? 0 then c <| ProbeTimeout := 5 * second |> else c in
  let c := if IdleTimeout c =? 0 then c <| IdleTimeout := 120 * second |> else c in
  let c := if ConnectTimeout c =? 0 then c <| ConnectTimeout := 10 * second |> else c in
  let c := if MaxConcurrent c =? 0 then c <| MaxConcurrent := 128 |> else c in
  let c := if MaxPendingProbes c =? 0 then c <| MaxPendingProbes := 256 |> else c in
  let c := if MaxStreamsPerSession c =? 0 then c <| MaxStreamsPerSession := 256 |> else c in
  let c := if MaxConcurrentStreams c =? 0 then c <| MaxConcurrentStreams := 1024 |> else c in
  let c := if fallbackSet then c else c <| Fallback := true |> in
  if String.eqb (PaddingScheme c) "" then c <| PaddingScheme := DefaultPaddingScheme |> else c.

(** ** CIDR lists *)

(** policy.go, [parseCIDRPrefixes]. *)
Fixpoint parseCIDRPrefixes (name : string) (cidrs : list string) : result (list Prefix) :=
  match cidrs with
  | [] => Ok []
  | cidr :: cidrs =>
      match ParsePrefix cidr with
      | Err e => Err (Errorf "invalid %s %q: %w" [name; cidr] [e])
      | Ok prefix =>
          match parseCIDRPrefixes name cidrs with
          | Err e => Err e
          | Ok prefixes => Ok (prefix :: prefixes)
          end
      end
  end.

(** policy.go, [compileCIDRPolicies]: the values it stores in
    [allowCIDRPrefixes] and [denyCIDRPrefixes]; an error stores nothing. *)
Definition compileCIDRPolicies (c : Config) : result (list Prefix * list Prefix) :=
  match parseCIDRPrefixes "allow_cidr" (AllowCIDRs c) with
  | Err e => Err e
  | Ok allow =>
      match parseCIDRPrefixes "deny_cidr" (DenyCIDRs c) with
      | Err e => Err e
      | Ok deny => Ok (allow, deny)
      end
  end.

(** ** [Validate] *)

Definition plain_error (text : string) : option error := Some (Errorf text [] []).

(** The loop over the users: [seen] holds their names, [passwords] the hashes
    of their passwords. *)
Fixpoint validate_users (seen : list string) (passwords : gmap bytes string)
    (users : list User) : option error :=
  match users with
  | [] => None
  | user :: users =>
      if String.eqb (user_Name user) "" then plain_error "user name must not be empty"
      else if String.eqb (user_Password user) "" then
        Some (Errorf "user %q password must not be empty" [user_Name user] [])
      else if bool_decide (user_Name user ∈ seen) then
        Some (Errorf "duplicate user %q" [user_Name user] [])
      else
        let passwordHash := sha256.Sum256 (bytes_of_string (user_Password user)) in
        match passwords !! passwordHash with
        | Some existing =>
            Some (Errorf "users %q and %q must not share a password"
                         [existing; user_Name user] [])
        | None =>
            validate_users (seen ++ [user_Name user])
              (<[passwordHash := user_Name user]> passwords) users
        end
  end.

(** anytls.go, [Validate]. *)
Definition Validate (c : Config) : option error :=
  if MaxConcurrent c <? 0 then plain_error "max_concurrent must be positive"
  else if MaxPendingProbes c <? 0 then plain_error "max_pending_probes must be positive"
  else if MaxStreamsPerSession c <? 0 then plain_error "max_streams_per_session must be positive"
  else if MaxConcurrentStreams c <? 0 then plain_error "max_concurrent_streams must be positive"
  else if ProbeTimeout c <? 0 then plain_error "probe_timeout must be non-negative"
  else if IdleTimeout c <? 0 then plain_error "idle_timeout must be non-negative"
  else if ConnectTimeout c <? 0 then plain_error "connect_timeout must be non-negative"
  else match compileCIDRPolicies c with
  | Err e => Some e
  | Ok _ =>
      if existsb (fun domain => String.eqb domain "") (AllowDomains c ++ DenyDomains c)
      then plain_error "domain policy entry must not be empty"
      else validate_users [] ∅ (Users c)
  end.

(** ** The users of the AnyTLS service *)

(** [singanytls.User] *)
Record ServiceUser := mkServiceUser { su_Name : string; su_Password : string }.

(** anytls.go, [anyTLSUsers]. *)
Fixpoint anyTLSUsers (users : list User) : list ServiceUser :=
  match users with
  | [] => []
  | user :: users =>
      if negb (user_Enabled user) then anyTLSUsers users
      else mkServiceUser (user_Name user) (user_Password user) :: anyTLSUsers users
  end.

(** ** Properties *)

Definition password_hash (u : User) : bytes :=
  sha256.Sum256 (bytes_of_string (user_Password u)).

(** What an accepted configuration promises the rest of the package. *)
Record well_formed (c : Config) : Prop := {
  wf_limits : 0 <= MaxConcurrent c /\ 0 <= MaxPendingProbes c /\
              0 <= MaxStreamsPerSession c /\ 0 <= MaxConcurrentStreams c;
  wf_timeouts : 0 <= ProbeTimeout c /\ 0 <= IdleTimeout c /\ 0 <= ConnectTimeout c;
  wf_cidrs : forall s, s ∈ AllowCIDRs c ++ DenyCIDRs c -> is_Ok (ParsePrefix s) = true;
  wf_domains : "" ∉ AllowDomains c ++ DenyDomains c;
  wf_credentials : forall u, u ∈ Users c -> user_Name u <> "" /\ user_Password u <> "";
  wf_names : NoDup (user_Name <$> Users c);
  wf_passwords : NoDup (password_hash <$> Users c)
}.

(** *** The defaults, field by field *)

Definition or_default (d x : Z) : Z := if x =? 0 then d else x.

Lemma or_default_pos d x : 0 < d -> 0 <= or_default d x -> 0 < or_default d x.
Proof. unfold or_default. destruct (Z.eqb_spec x 0); lia. Qed.

Lemma or_default_idem d x : 0 < d -> or_default d (or_default d x) = or_default d x.
Proof. unfold or_default. destruct (Z.eqb_spec x 0) as [->|?]; case_match; bools; lia. Qed.

Lemma if_same {A} (b : bool) (x : A) : (if b then x else x) = x.
Proof. by destruct b. Qed.

Lemma if_Config (b : bool) (f g : Config) :
  (if b then f else g) =
  let sel {A} (p : Config -> A) := if b then p f else p g in
  mkConfig (sel Users) (sel ProbeTimeout) (sel IdleTimeout) (sel ConnectTimeout) (sel MaxConcurrent)
    (sel MaxPendingProbes) (sel MaxStreamsPerSession) (sel MaxConcurrentStreams) (sel Fallback)
    (sel AllowPrivateTargets) (sel AllowCIDRs) (sel DenyCIDRs) (sel AllowPorts) (sel DenyPorts)
    (sel AllowDomains) (sel DenyDomains) (sel PaddingScheme) (sel LogNodeInfo) (sel NodeHosts)
    (sel NodePort) (sel NodeSNI) (sel NodeInsecure) (sel OutboundRaw) (sel OutboundsRaw)
    (sel DefaultOutbound).
Proof. destruct b; [by destruct f|by destruct g]. Qed.

(** Normalises the first [let] of a goal. *)
Ltac default_step :=
  lazymatch goal with
  | |- (let x := ?e in @?b x) = ?r =>
      refine ((fun H : forall y, e = y -> b y = r => H e eq_refl) _);
      let y := fresh in let Hy := fresh in
      intros y Hy; rewrite if_Config in Hy; cbn -[Z.eqb Z.mul String.eqb second] in Hy;
      rewrite ?if_same in Hy; subst y; cbv beta
  end.
Lemma provision_defaults_fields d set c :
  provision_defaults d set c =
  mkConfig (Users c) (or_default (5 * second) (ProbeTimeout c))
    (or_default (120 * second) (IdleTimeout c)) (or_default (10 * second) (ConnectTimeout c))
    (or_default 128 (MaxConcurrent c)) (or_default 256 (MaxPendingProbes c))
    (or_default 256 (MaxStreamsPerSession c)) (or_default 1024 (MaxConcurrentStreams c))
    (if set then Fallback c else true) (AllowPrivateTargets c) (AllowCIDRs c) (DenyCIDRs c)
    (AllowPorts c) (DenyPorts c) (AllowDomains c) (DenyDomains c)
    (if String.eqb (PaddingScheme c) "" then d else PaddingScheme c) (LogNodeInfo c) (NodeHosts c)
    (NodePort c) (NodeSNI c) (NodeInsecure c) (OutboundRaw c) (OutboundsRaw c)
    (DefaultOutbound c).
Proof.
  destruct c. cbv delta [provision_defaults or_default]; cbv beta.
  do 8 default_step. rewrite if_Config. cbn -[Z.eqb Z.mul String.eqb second]. by rewrite ?if_same.
Qed.

Lemma parseCIDRPrefixes_Ok name cidrs ps :
  parseCIDRPrefixes name cidrs = Ok ps <-> Forall2 (fun s p => ParsePrefix s = Ok p) cidrs ps.
Proof.
  revert ps. induction cidrs as [|s cidrs IH]; intros ps; simpl.
  - split; [intros [= <-]; constructor|]. by intros ->%Forall2_nil_inv_l.
  - split.
    + destruct (ParsePrefix s) eqn:Hs; [|done].
      destruct (parseCIDRPrefixes name cidrs) eqn:Hc; [|done].
      intros [= <-]. constructor; [done|]. by apply IH.
    + intros (p & ps' & Hp & Hps & ->)%Forall2_cons_inv_l.
      rewrite Hp. apply IH in Hps. by rewrite Hps.
Qed.

Lemma parseCIDRPrefixes_is_Ok name cidrs :
  is_Ok (parseCIDRPrefixes name cidrs) = true <->
  forall s, s ∈ cidrs -> is_Ok (ParsePrefix s) = true.
Proof.
  induction cidrs as [|s cidrs IH]; simpl; [split; [set_solver|done]|].
  destruct (ParsePrefix s) as [p|e] eqn:Hs; simpl.
  - assert (Hiff : is_Ok (match parseCIDRPrefixes name cidrs with
      | Ok prefixes => Ok (p :: prefixes) | Err e => Err e end) =
      is_Ok (parseCIDRPrefixes name cidrs)) by by destruct (parseCIDRPrefixes name cidrs).
    rewrite Hiff, IH. split.
    + intros H s' [->|Hs']%elem_of_cons; [by rewrite Hs|by apply H].
    + intros H s' Hs'. apply H. by right.
  - split; [done|]. intros H. specialize (H s ltac:(by left)). by rewrite Hs in H.
Qed.

Lemma compileCIDRPolicies_is_Ok c :
  is_Ok (compileCIDRPolicies c) = true <->
  forall s, s ∈ AllowCIDRs c ++ DenyCIDRs c -> is_Ok (ParsePrefix s) = true.
Proof.
  unfold compileCIDRPolicies. setoid_rewrite elem_of_app.
  pose proof (parseCIDRPrefixes_is_Ok "allow_cidr" (AllowCIDRs c)) as Ha.
  pose proof (parseCIDRPrefixes_is_Ok "deny_cidr" (DenyCIDRs c)) as Hd.
  destruct (parseCIDRPrefixes "allow_cidr" _); simpl in *;
    destruct (parseCIDRPrefixes "deny_cidr" _); simpl in *; naive_solver.
Qed.

(** The user loop accepts exactly lists without empty fields and without repeated
    names or hashes, given what earlier turns recorded. *)
Lemma validate_users_None seen passwords users :
  validate_users seen passwords users = None <->
  (forall u, u ∈ users -> user_Name u <> "" /\ user_Password u <> "") /\
  NoDup (user_Name <$> users) /\ (forall u, u ∈ users -> user_Name u ∉ seen) /\
  NoDup (password_hash <$> users) /\
  (forall u, u ∈ users -> passwords !! password_hash u = None).
Proof.
  revert seen passwords.
  induction users as [|u users IH]; intros seen passwords; simpl.
  { split; [|done]. intros _. split_and!; try (by apply NoDup_nil_2);
    intros u Hu; by apply not_elem_of_nil in Hu. }
  fold (password_hash u).
  destruct (String.eqb_spec (user_Name u) "") as [Hn|Hn].
  { split; [done|]. intros (H & _). destruct (H u); set_solver. }
  destruct (String.eqb_spec (user_Password u) "") as [Hp|Hp].
  { split; [done|]. intros (H & _). destruct (H u); set_solver. }
  case_bool_decide as Hseen.
  { split; [done|]. intros (_ & _ & H & _). destruct (H u); set_solver. }
  destruct (passwords !! password_hash u) eqn:Hpw.
  { split; [done|]. intros (_ & _ & _ & _ & H). rewrite H in Hpw; set_solver. }
  rewrite IH, !NoDup_cons. split.
  - intros (H1 & H2 & H3 & H4 & H5). split_and!; try done.
    + intros v [->|Hv]%elem_of_cons; auto.
    + intros (v & Heq & Hv)%list_elem_of_fmap. specialize (H3 v Hv). set_solver.
    + intros v [->|Hv]%elem_of_cons; [done|]. specialize (H3 v Hv). set_solver.
    + intros (v & Heq & Hv)%list_elem_of_fmap. specialize (H5 v Hv).
      by rewrite <- Heq, lookup_insert_eq in H5.
    + intros v [->|Hv]%elem_of_cons; [done|]. specialize (H5 v Hv).
      by apply lookup_insert_None in H5 as [? _].
  - intros (H1 & (H2 & H2') & H3 & (H4 & H4') & H5). split_and!; try done.
    + set_solver.
    + intros v Hv [Hs|Hs]%elem_of_app; [set_solver|].
      apply list_elem_of_singleton in Hs. apply H2. rewrite <- Hs. by apply list_elem_of_fmap_2.
    + intros v Hv. apply lookup_insert_None. split; [set_solver|].
      intros Heq. apply H4. rewrite Heq. by apply list_elem_of_fmap_2.
Qed.

Lemma anyTLSUsers_elem users s :
  s ∈ anyTLSUsers users <->
  exists u, u ∈ users /\ user_Enabled u = true /\
            s = mkServiceUser (user_Name u) (user_Password u).
Proof.
  induction users as [|u users IH]; simpl; [set_solver|].
  destruct (user_Enabled u) eqn:He; simpl; rewrite ?elem_of_cons, IH.
  - split; [intros [->|(v & Hv & ? & ->)]|intros (v & [->|Hv]%elem_of_cons & ? & ->)];
      eauto 7 using elem_of_cons, list_elem_of_here, list_elem_of_further.
  - split; [intros (v & Hv & ? & ->)|intros (v & [->|Hv]%elem_of_cons & ? & ->)];
      [|congruence|]; eauto 7 using list_elem_of_further.
Qed.

Lemma Validate_users c : Validate c = None -> validate_users [] ∅ (Users c) = None.
Proof. unfold Validate. intros H. by cases. Qed.

Lemma Validate_passwords c : Validate c = None -> NoDup (password_hash <$> Users c).
Proof. intros H%Validate_users. by apply validate_users_None in H as (_ & _ & _ & ? & _). Qed.

Lemma Validate_names c : Validate c = None -> NoDup (user_Name <$> Users c).
Proof. intros H%Validate_users. by apply validate_users_None in H as (_ & ? & _). Qed.

Lemma Validate_bounds c :
  Validate c = None ->
  0 <= MaxConcurrent c /\ 0 <= MaxPendingProbes c /\ 0 <= MaxStreamsPerSession c /\
  0 <= MaxConcurrentStreams c /\ 0 <= ProbeTimeout c /\ 0 <= IdleTimeout c /\ 0 <= ConnectTimeout c.
Proof. unfold Validate. intros H. cases; bools. lia. Qed.

(** C36.  [Validate] accepts exactly the well-formed configurations: no negative limit or
    timeout, every CIDR parses, no empty domain pattern, and users with a name and a
    password, no two of which share a name or a password hash. *)
Theorem Validate_well_formed c : Validate c = None <-> well_formed c.
Proof.
  pose proof (compileCIDRPolicies_is_Ok c) as Hcidr.
  pose proof (validate_users_None [] ∅ (Users c)) as Hus.
  assert (Hdom : existsb (fun d => String.eqb d "") (AllowDomains c ++ DenyDomains c) = false <->
                 "" ∉ AllowDomains c ++ DenyDomains c).
  { rewrite existsb_false. setoid_rewrite String.eqb_neq. set_solver. }
  unfold Validate. split.
  - intros H. cases; bools. split; try lia.
    + by apply Hcidr.
    + by apply Hdom.
    + by apply Hus.
    + by apply Hus.
    + by apply Hus.
  - intros [(?&?&?&?) (?&?&?) Hc Hd ? ? ?].
    repeat match goal with
    | |- context [?x <? 0] => destruct (Z.ltb_spec x 0); [lia|]
    end.
    apply Hcidr in Hc. destruct (compileCIDRPolicies c); [|done].
    rewrite (proj2 Hdom Hd). apply Hus. split_and!; try done; set_solver.
Qed.

(** C37.  A configuration that validates once its defaults are filled in leaves no limit and no timeout
    switched off: every counter has a positive bound and every wait a positive
    deadline.  Filling in the defaults of a configuration that has them changes nothing. *)
Theorem provisioned_limits d set c :
  d <> "" -> Validate (provision_defaults d set c) = None ->
  let c' := provision_defaults d set c in
  0 < MaxConcurrent c' /\ 0 < MaxPendingProbes c' /\ 0 < MaxStreamsPerSession c' /\
  0 < MaxConcurrentStreams c' /\ 0 < ProbeTimeout c' /\ 0 < IdleTimeout c' /\
  0 < ConnectTimeout c' /\ Users c' = Users c /\ provision_defaults d set c' = c'.
Proof.
  intros Hd Hval. pose proof (Validate_bounds _ Hval) as Hb. revert Hb.
  cbv zeta. rewrite !provision_defaults_fields. simpl. unfold second. intros Hb.
  rewrite !or_default_idem by lia. split_and!; try (apply or_default_pos; lia); [done|].
  f_equal; [by destruct set|]. destruct (String.eqb_spec (PaddingScheme c) "") as [_|Hp].
  - by rewrite (proj2 (String.eqb_neq _ _) Hd).
  - by rewrite (proj2 (String.eqb_neq _ _) Hp).
Qed.

Lemma provisioned_limits_witness :
  Validate (provision_defaults "stop=8" false zero_Config) = None /\
  let c' := provision_defaults "stop=8" false zero_Config in
  0 < MaxConcurrent c' /\ 0 < MaxPendingProbes c' /\ 0 < MaxStreamsPerSession c' /\
  0 < MaxConcurrentStreams c' /\ 0 < ProbeTimeout c' /\ 0 < IdleTimeout c' /\
  0 < ConnectTimeout c' /\ Users c' = [] /\ provision_defaults "stop=8" false c' = c'.
Proof.
  split; [vm_compute; reflexivity|].
  apply (provisioned_limits "stop=8" false zero_Config); [done|vm_compute; reflexivity].
Defined.
