(* ===== verification/Caddyfile.v ===== *)
(** * The Caddyfile

    config.go, [UnmarshalCaddyfile]: the directives of the listener wrapper, read from
    Caddy's token dispenser.  The dispenser, Caddy's durations and its module loader
    are classes; the parser threads the dispenser through a state and error monad. *)

From S2P Require Import Prelude GoErrors GoStrings Wrapper.

Local Open Scope Z_scope.

(** ** What the parser calls *)

(** [caddyfile.Dispenser]; [Errf] takes a format, its strings and its errors. *)
Class Dispenser (Ds : Type) := {
  d_Next : Ds -> bool * Ds;
  d_NextArg : Ds -> bool * Ds;
  d_NextBlock : Z -> Ds -> bool * Ds;
  d_Val : Ds -> string;
  d_RemainingArgs : Ds -> list string * Ds;
  d_ArgErr : Ds -> error;
  d_Errf : Ds -> string -> list string -> list error -> error
}.

(** [caddy.ParseDuration]; [caddyfile.UnmarshalModule], which consumes the segment of the
    module, whether its result implements [Outbound], and
    [caddyconfig.JSONModuleObject] on it. *)
Class Caddy (Ds : Type) := {
  Module : Type;
  ParseDuration : string -> result Z;
  UnmarshalModule : string -> Ds -> result Module * Ds;
  is_Outbound : Module -> bool;
  JSONModuleObject : Module -> string -> string -> string
}.

(** Where a dispenser is: the current token, the rest of its line, and the lines up to the
    end of the block. *)
Record cursor := mkCursor { cu_val : string; cu_args : list string; cu_lines : list (list string) }.

(** The documented behaviour of the dispenser in a block without nested blocks; [at_start]: before
    the first token of a segment. *)
Class DispenserLaws (Ds : Type) `{Dispenser Ds} := {
  at_start : Ds -> string -> list (list string) -> Prop;
  at_cursor : Ds -> cursor -> Prop;
  law_Next : forall d name lines, at_start d name lines ->
    exists d', d_Next d = (true, d') /\ at_cursor d' (mkCursor name [] lines);
  law_Val : forall d k, at_cursor d k -> d_Val d = cu_val k;
  law_NextArg : forall d v a args lines, at_cursor d (mkCursor v (a :: args) lines) ->
    exists d', d_NextArg d = (true, d') /\ at_cursor d' (mkCursor a args lines);
  law_NextArg_end : forall d v lines, at_cursor d (mkCursor v [] lines) ->
    exists d', d_NextArg d = (false, d') /\ at_cursor d' (mkCursor v [] lines);
  law_RemainingArgs : forall d v args lines, at_cursor d (mkCursor v args lines) ->
    exists d' v', d_RemainingArgs d = (args, d') /\ at_cursor d' (mkCursor v' [] lines);
  law_NextBlock : forall d v t ts lines, at_cursor d (mkCursor v [] ((t :: ts) :: lines)) ->
    exists d', d_NextBlock 0 d = (true, d') /\ at_cursor d' (mkCursor t ts lines);
  law_NextBlock_end : forall d v, at_cursor d (mkCursor v [] []) ->
    exists d', d_NextBlock 0 d = (false, d')
}.

(** ** The monad *)

Definition P (Ds A : Type) : Type := Ds -> result A * Ds.
#[export] Instance P_ret Ds : MRet (P Ds) := fun A a d => (Ok a, d).
#[export] Instance P_bind Ds : MBind (P Ds) := fun A B k m d =>
  match m d with
  | (Ok a, d) => k a d
  | (Err err, d) => (Err err, d)
  end.

Section Caddyfile.
Context {Ds : Type} `{Dispenser Ds} `{!Caddy Ds}.
Notation Parse := (P Ds).

Definition NextArg : Parse bool := fun d => let '(ok, d) := d_NextArg d in (Ok ok, d).
Definition Val : Parse string := fun d => (Ok (d_Val d), d).
Definition RemainingArgs : Parse (list string) := fun d => let '(args, d) := d_RemainingArgs d in (Ok args, d).
Definition ArgErr {A} : Parse A := fun d => (Err (d_ArgErr d), d).
Definition Errf {A} (format : string) (args : list string) (errs : list error) : Parse A :=
  fun d => (Err (d_Errf d format args errs), d).

(** ** Arguments *)

(** [if !d.NextArg() { return d.ArgErr() }] followed by [d.Val()]. *)
Definition one_arg : Parse string :=
  ok ← NextArg; if negb ok then ArgErr else Val.

(** config.go, [parseDurationDirective]. *)
Definition parseDurationDirective (name : string) : Parse Z :=
  v ← one_arg;
  match ParseDuration v with
  | Err err => Errf "parsing %s duration: %v" [name] [err]
  | Ok dur => mret dur
  end.

(** config.go, [parseBoolDirective]. *)
Definition parseBoolDirective (name : string) : Parse bool :=
  v ← one_arg;
  match strconv.ParseBool v with
  | Err err => Errf "parsing %s boolean: %v" [name] [err]
  | Ok value => mret value
  end.

(** The four directives with an int. *)
Definition int_directive (name : string) : Parse Z :=
  v ← one_arg;
  match strconv.Atoi v with
  | Err err => Errf ("parsing " +:+ name +:+ ": %v") [] [err]
  | Ok value => mret value
  end.

(** The loop of [parsePortListDirective]. *)
Fixpoint parse_ports (name : string) (args : list string) : Parse (list Z) :=
  match args with
  | [] => mret []
  | arg :: args =>
      match strconv.ParseUint arg 16 with
      | Err _ => Errf "parsing %s port %q: must be between 1 and 65535" [name; arg] []
      | Ok value =>
          if value =? 0 then Errf "parsing %s port %q: must be between 1 and 65535" [name; arg] []
          else ports ← parse_ports name args; mret (value :: ports)
      end
  end.

(** config.go, [parsePortListDirective]. *)
Definition parsePortListDirective (name : string) : Parse (list Z) :=
  args ← RemainingArgs;
  match args with [] => ArgErr | _ => parse_ports name args end.

(** The directives with one or more strings. *)
Definition values_directive : Parse (list string) :=
  values ← RemainingArgs;
  match values with [] => ArgErr | _ => mret values end.

(** config.go, [unmarshalOutboundModule]. *)
Definition unmarshalOutboundModule (moduleName : string) : Parse string := fun d =>
  let modID := "caddy.listeners.anytls.outbounds." +:+ moduleName in
  match UnmarshalModule modID d with
  | (Err err, d) => (Err err, d)
  | (Ok unm, d) =>
      if negb (is_Outbound unm)
      then Errf "module %s is not an anytls outbound" [modID] [] d
      else (Ok (JSONModuleObject unm "dialer" moduleName), d)
  end.

(** ** Directives

    The cases of the switch on [d.Val()], in groups; each changes the configuration and the
    field [fallbackSet]. *)

Definition parsed : Type := Config * bool.

(** Timeouts and limits. *)
Definition limit_directive (v : string) (st : parsed) : option (Parse parsed) :=
  let '(c, set) := st in
  if String.eqb v "probe_timeout" then
    Some (dur ← parseDurationDirective "probe_timeout"; mret (c <| ProbeTimeout := dur |>, set))
  else if String.eqb v "idle_timeout" then
    Some (dur ← parseDurationDirective "idle_timeout"; mret (c <| IdleTimeout := dur |>, set))
  else if String.eqb v "connect_timeout" then
    Some (dur ← parseDurationDirective "connect_timeout"; mret (c <| ConnectTimeout := dur |>, set))
  else if String.eqb v "max_concurrent" then
    Some (value ← int_directive "max_concurrent"; mret (c <| MaxConcurrent := value |>, set))
  else if String.eqb v "max_pending_probes" then
    Some (value ← int_directive "max_pending_probes"; mret (c <| MaxPendingProbes := value |>, set))
  else if String.eqb v "max_streams_per_session" then
    Some (value ← int_directive "max_streams_per_session"; mret (c <| MaxStreamsPerSession := value |>, set))
  else if String.eqb v "max_concurrent_streams" then
    Some (value ← int_directive "max_concurrent_streams"; mret (c <| MaxConcurrentStreams := value |>, set))
  else None.

(** Fallback and destination policy. *)
Definition policy_directive (v : string) (st : parsed) : option (Parse parsed) :=
  let '(c, set) := st in
  if String.eqb v "fallback" then
    Some (value ← parseBoolDirective "fallback"; mret (c <| Fallback := value |>, true))
  else if String.eqb v "allow_private_targets" then
    Some (value ← parseBoolDirective "allow_private_targets"; mret (c <| AllowPrivateTargets := value |>, set))
  else if String.eqb v "allow_cidr" then
    Some (values ← values_directive; mret (c <| AllowCIDRs := AllowCIDRs c ++ values |>, set))
  else if String.eqb v "deny_cidr" then
    Some (values ← values_directive; mret (c <| DenyCIDRs := DenyCIDRs c ++ values |>, set))
  else if String.eqb v "allow_port" then
    Some (values ← parsePortListDirective "allow_port"; mret (c <| AllowPorts := AllowPorts c ++ values |>, set))
  else if String.eqb v "deny_port" then
    Some (values ← parsePortListDirective "deny_port"; mret (c <| DenyPorts := DenyPorts c ++ values |>, set))
  else if String.eqb v "allow_domain" then
    Some (values ← values_directive; mret (c <| AllowDomains := AllowDomains c ++ values |>, set))
  else if String.eqb v "deny_domain" then
    Some (values ← values_directive; mret (c <| DenyDomains := DenyDomains c ++ values |>, set))
  else None.

(** Padding and node information. *)
Definition node_directive (v : string) (st : parsed) : option (Parse parsed) :=
  let '(c, set) := st in
  if String.eqb v "padding_scheme" then
    Some (value ← one_arg; mret (c <| PaddingScheme := value |>, set))
  else if String.eqb v "log_node_info" then
    Some (value ← parseBoolDirective "log_node_info"; mret (c <| LogNodeInfo := value |>, set))
  else if String.eqb v "node_host" then
    Some (values ← values_directive; mret (c <| NodeHosts := NodeHosts c ++ values |>, set))
  else if String.eqb v "node_port" then
    Some (values ← parsePortListDirective "node_port";
          match values with
          | [value] => mret (c <| NodePort := value |>, set)
          | _ => Errf "node_port expects exactly one port" [] []
          end)
  else if String.eqb v "node_sni" then
    Some (value ← one_arg; mret (c <| NodeSNI := value |>, set))
  else if String.eqb v "node_insecure" then
    Some (value ← parseBoolDirective "node_insecure"; mret (c <| NodeInsecure := value |>, set))
  else None.

(** [case "user"] *)
Definition user_directive (c : Config) : Parse Config :=
  args ← RemainingArgs;
  match args with
  | [name; password] => mret (c <| Users := Users c ++ [mkUser name password true ""] |>)
  | [name; password; outbound] =>
      mret (c <| Users := Users c ++ [mkUser name password true outbound] |>)
  | _ => ArgErr
  end.

(** [case "outbound"] *)
Definition outbound_directive (c : Config) : Parse Config :=
  firstArg ← one_arg;
  named ← NextArg;
  if (named : bool) then
    let outboundName := firstArg in
    moduleName ← Val;
    if String.eqb outboundName "" then Errf "named outbound must not have an empty name" [] []
    else if bool_decide (is_Some (OutboundsRaw c !! outboundName))
    then Errf "outbound %q may only be declared once" [outboundName] []
    else raw ← unmarshalOutboundModule moduleName;
         mret (c <| OutboundsRaw := <[outboundName := raw]> (OutboundsRaw c) |>)
  else if negb (String.eqb (OutboundRaw c) "") then Errf "outbound may only be specified once" [] []
  else raw ← unmarshalOutboundModule firstArg; mret (c <| OutboundRaw := raw |>).

(** [case "default_outbound"] *)
Definition default_outbound_directive (c : Config) : Parse Config :=
  if negb (String.eqb (DefaultOutbound c) "")
  then Errf "default_outbound may only be specified once" [] []
  else
    value ← one_arg;
    if String.eqb value "" then Errf "default_outbound must not be empty" [] []
    else more ← NextArg;
         if (more : bool) then ArgErr else mret (c <| DefaultOutbound := value |>).

Definition outbound_directives (v : string) (st : parsed) : option (Parse parsed) :=
  let '(c, set) := st in
  if String.eqb v "user" then Some (c ← user_directive c; mret (c, set))
  else if String.eqb v "outbound" then Some (c ← outbound_directive c; mret (c, set))
  else if String.eqb v "default_outbound" then Some (c ← default_outbound_directive c; mret (c, set))
  else None.

(** The switch. *)
Definition directive (st : parsed) : Parse parsed :=
  v ← Val;
  match limit_directive v st with
  | Some m => m
  | None =>
      match policy_directive v st with
      | Some m => m
      | None =>
          match node_directive v st with
          | Some m => m
          | None => match outbound_directives v st with Some m => m | None => ArgErr end
          end
      end
  end.

(** [for d.NextBlock(0)]; [None]: out of fuel. *)
Fixpoint directives_loop (fuel : nat) (st : parsed) (d : Ds) : option (result parsed * Ds) :=
  match fuel with
  | O => None
  | S fuel =>
      let '(more, d) := d_NextBlock 0 d in
      if more then
        match directive st d with
        | (Ok st, d) => directives_loop fuel st d
        | (Err err, d) => Some (Err err, d)
        end
      else Some (Ok st, d)
  end.

(** config.go, [UnmarshalCaddyfile]. *)
Definition UnmarshalCaddyfile (fuel : nat) (st : parsed) (d : Ds) : option (result parsed * Ds) :=
  let '(_, d) := d_Next d in
  let '(more, d) := d_NextArg d in
  if more then Some (Err (d_ArgErr d), d) else directives_loop fuel st d.

(** outbound.go, [DirectOutbound.UnmarshalCaddyfile]: no argument and no block; the loop over
    the block returns in its first turn. *)
Definition DirectOutbound_UnmarshalCaddyfile (d : Ds) : option error :=
  let '(_, d) := d_Next d in
  let '(more, d) := d_NextArg d in
  if more then Some (d_ArgErr d)
  else
    let '(more, d) := d_NextBlock 0 d in
    if more then Some (d_Errf d "unrecognized direct outbound option %q" [d_Val d] []) else None.

End Caddyfile.

(** The direct outbound accepts its bare name and nothing else. *)
Lemma DirectOutbound_bare `{DispenserLaws Ds} d name lines :
  at_start d name lines -> Forall (fun l => l <> []) lines ->
  (DirectOutbound_UnmarshalCaddyfile d = None <-> lines = []).
Proof.
  intros Hd Hl. unfold DirectOutbound_UnmarshalCaddyfile.
  destruct (law_Next d name lines Hd) as (d1 & -> & H1).
  destruct (law_NextArg_end d1 name lines H1) as (d2 & -> & H2).
  destruct lines as [|[|t ts] lines]; [|by apply Forall_cons_1 in Hl as [? _]|].
  - by destruct (law_NextBlock_end d2 name H2) as (d3 & ->).
  - by destruct (law_NextBlock d2 name t ts lines H2) as (d3 & -> & _).
Qed.

(** ** Writing a configuration as directives

    A configuration without outbound modules, whose bodies are the modules' own; a field
    with its zero value needs no directive. *)

Definition line_if (b : bool) (line : list string) : list (list string) := if b then [line] else [].

Definition print_duration (n : Z) : string := strconv.FormatInt n +:+ "ns".
Definition print_bool (b : bool) : string := if b then "true" else "false".

Definition duration_line (name : string) (n : Z) := line_if (negb (n =? 0)) [name; print_duration n].
Definition int_line (name : string) (n : Z) := line_if (negb (n =? 0)) [name; strconv.FormatInt n].
Definition bool_line (name : string) (b : bool) := line_if b [name; print_bool b].
Definition string_line (name s : string) := line_if (negb (String.eqb s "")) [name; s].
Definition values_line (name : string) (l : list string) :=
  line_if (negb (bool_decide (l = []))) (name :: l).
Definition user_line (u : User) : list string :=
  ["user"; user_Name u; user_Password u] ++
  (if String.eqb (user_Outbound u) "" then [] else [user_Outbound u]).

Definition limit_lines (c : Config) : list (list string) :=
  duration_line "probe_timeout" (ProbeTimeout c) ++ duration_line "idle_timeout" (IdleTimeout c) ++
  duration_line "connect_timeout" (ConnectTimeout c) ++ int_line "max_concurrent" (MaxConcurrent c) ++
  int_line "max_pending_probes" (MaxPendingProbes c) ++
  int_line "max_streams_per_session" (MaxStreamsPerSession c) ++
  int_line "max_concurrent_streams" (MaxConcurrentStreams c).

Definition policy_lines (c : Config) : list (list string) :=
  [["fallback"%string; print_bool (Fallback c)]] ++
  bool_line "allow_private_targets" (AllowPrivateTargets c) ++
  values_line "allow_cidr" (AllowCIDRs c) ++ values_line "deny_cidr" (DenyCIDRs c) ++
  values_line "allow_port" (strconv.FormatInt <$> AllowPorts c) ++
  values_line "deny_port" (strconv.FormatInt <$> DenyPorts c) ++
  values_line "allow_domain" (AllowDomains c) ++ values_line "deny_domain" (DenyDomains c).

Definition node_lines (c : Config) : list (list string) :=
  string_line "padding_scheme" (PaddingScheme c) ++ bool_line "log_node_info" (LogNodeInfo c) ++
  values_line "node_host" (NodeHosts c) ++ int_line "node_port" (NodePort c) ++
  string_line "node_sni" (NodeSNI c) ++ bool_line "node_insecure" (NodeInsecure c).

Definition directives (c : Config) : list (list string) :=
  limit_lines c ++ policy_lines c ++ node_lines c ++ (user_line <$> Users c) ++
  string_line "default_outbound" (DefaultOutbound c).

(** What a Caddyfile can say: users are enabled, numbers fit their types. *)
Record expressible (c : Config) : Prop := {
  ex_durations : Forall (fun n => 0 <= n < 2 ^ 63) [ProbeTimeout c; IdleTimeout c; ConnectTimeout c];
  ex_ints : Forall (fun n => - 2 ^ 63 <= n < 2 ^ 63)
    [MaxConcurrent c; MaxPendingProbes c; MaxStreamsPerSession c; MaxConcurrentStreams c];
  ex_ports : Forall (fun p => 0 < p < 65536) (AllowPorts c ++ DenyPorts c);
  ex_node_port : 0 <= NodePort c < 65536;
  ex_users : Forall (fun u => user_Enabled u = true) (Users c);
  ex_raw : OutboundRaw c = "" /\ OutboundsRaw c = ∅
}.

(** ** Lemmas *)

Section Roundtrip.
Context {Ds : Type} `{DispenserLaws Ds} `{!Caddy Ds}.
(** Go writes a duration of [n] nanoseconds, and reads it, as [n]ns. *)
Hypothesis ParseDuration_ns : forall n, 0 <= n < 2 ^ 63 -> ParseDuration (print_duration n) = Ok n.

(** The loop reads the lines and has changed the configuration. *)
Definition parses (lines : list (list string)) (st st' : parsed) : Prop :=
  forall fuel d v rest, at_cursor d (mkCursor v [] (lines ++ rest)) ->
  exists d' v', at_cursor d' (mkCursor v' [] rest) /\
    directives_loop (length lines + fuel) st d = directives_loop fuel st' d'.

Lemma parses_nil st : parses [] st st.
Proof. intros fuel d v rest Hd. by exists d, v. Qed.

Lemma parses_app l1 l2 st1 st2 st3 :
  parses l1 st1 st2 -> parses l2 st2 st3 -> parses (l1 ++ l2) st1 st3.
Proof.
  intros H1 H2 fuel d v rest Hd. rewrite <- app_assoc in Hd.
  destruct (H1 (length l2 + fuel)%nat _ _ _ Hd) as (d1 & v1 & Hd1 & Hl1).
  destruct (H2 fuel _ _ _ Hd1) as (d2 & v2 & Hd2 & Hl2).
  exists d2, v2. split; [done|]. rewrite length_app, <- Nat.add_assoc. congruence.
Qed.

Lemma parses_eq lines st st1 st2 : parses lines st st1 -> st1 = st2 -> parses lines st st2.
Proof. by intros ? <-. Qed.

(** One line, from the switch. *)
Lemma parses_line t ts st st' :
  (forall d lines, at_cursor d (mkCursor t ts lines) ->
     exists d' v', directive st d = (Ok st', d') /\ at_cursor d' (mkCursor v' [] lines)) ->
  parses [t :: ts] st st'.
Proof.
  intros Hdir fuel d v rest Hd. destruct (law_NextBlock _ _ _ _ _ Hd) as (d1 & Hn & Hd1).
  destruct (Hdir _ _ Hd1) as (d2 & v2 & Hr & Hd2). exists d2, v2. split; [done|].
  simpl. by rewrite Hn, Hr.
Qed.

Lemma parses_if (b : bool) line st st' :
  (b = true -> parses [line] st st') -> (b = false -> st = st') -> parses (line_if b line) st st'.
Proof. destruct b; simpl; intros H1 H2; [by apply H1|rewrite H2 by done; apply parses_nil]. Qed.

(** Single arguments and lists of them. *)
Lemma one_arg_Ok d v a args lines :
  at_cursor d (mkCursor v (a :: args) lines) ->
  exists d', one_arg d = (Ok a, d') /\ at_cursor d' (mkCursor a args lines).
Proof.
  intros (d' & Hn & Hd')%law_NextArg. exists d'. split; [|done].
  unfold one_arg, mbind, P_bind, NextArg, Val. rewrite Hn. simpl. by rewrite (law_Val _ _ Hd').
Qed.

Lemma RemainingArgs_Ok d v args lines :
  at_cursor d (mkCursor v args lines) ->
  exists d' v', RemainingArgs d = (Ok args, d') /\ at_cursor d' (mkCursor v' [] lines).
Proof.
  intros (d' & v' & Hr & Hd')%law_RemainingArgs. exists d', v'. split; [|done].
  unfold RemainingArgs. by rewrite Hr.
Qed.

Lemma values_directive_Ok d v a args lines :
  at_cursor d (mkCursor v (a :: args) lines) ->
  exists d' v', values_directive d = (Ok (a :: args), d') /\ at_cursor d' (mkCursor v' [] lines).
Proof.
  intros (d' & v' & Hr & Hd')%RemainingArgs_Ok. exists d', v'. split; [|done].
  unfold values_directive, mbind, P_bind. by rewrite Hr.
Qed.

Lemma parse_ports_Ok name ports (d : Ds) :
  Forall (fun p => 0 < p < 65536) ports -> parse_ports name (strconv.FormatInt <$> ports) d = (Ok ports, d).
Proof.
  induction 1 as [|p ports Hp _ IH]; [done|]. cbn [fmap list_fmap parse_ports].
  rewrite strconv.ParseUint_FormatInt by lia. destruct (Z.eqb_spec p 0); [lia|].
  unfold mbind, P_bind. by rewrite IH.
Qed.

Lemma parsePortListDirective_Ok name d v p ports lines :
  Forall (fun p => 0 < p < 65536) (p :: ports) ->
  at_cursor d (mkCursor v (strconv.FormatInt <$> p :: ports) lines) ->
  exists d' v', parsePortListDirective name d = (Ok (p :: ports), d') /\ at_cursor d' (mkCursor v' [] lines).
Proof.
  intros Hp (d' & v' & Hr & Hd')%RemainingArgs_Ok. exists d', v'. split; [|done].
  unfold parsePortListDirective, mbind, P_bind. rewrite Hr. by apply parse_ports_Ok.
Qed.

(** What the switch selects for a directive. *)
Definition dispatches (name : string) (st : parsed) (m : P Ds parsed) : Prop :=
  forall d, d_Val d = name -> directive st d = m d.

Lemma dispatches_line name args st st' m :
  dispatches name st m ->
  (forall d lines, at_cursor d (mkCursor name args lines) ->
     exists d' v', m d = (Ok st', d') /\ at_cursor d' (mkCursor v' [] lines)) ->
  parses [name :: args] st st'.
Proof.
  intros Hm Hok. apply parses_line. intros d lines Hd.
  rewrite (Hm d) by (by rewrite (law_Val _ _ Hd)). by apply Hok.
Qed.

(** A directive with one argument, read by [arg]. *)
Lemma one_arg_line {A} name s (a : A) (arg : string -> P Ds A) st (f : A -> parsed) :
  dispatches name st (a ← (v ← one_arg; arg v); mret (f a)) ->
  (forall d, arg s d = (Ok a, d)) -> parses [[name; s]] st (f a).
Proof.
  intros Hm Harg. eapply dispatches_line; [exact Hm|]. intros d lines Hd.
  destruct (one_arg_Ok _ _ _ _ _ Hd) as (d' & Ho & Hd'). exists d', s. split; [|done].
  unfold mbind, P_bind. by rewrite Ho, Harg.
Qed.

Lemma duration_parses name n st (f : Z -> parsed) :
  dispatches name st (dur ← parseDurationDirective name; mret (f dur)) ->
  0 <= n < 2 ^ 63 -> (n = 0 -> st = f n) -> parses (duration_line name n) st (f n).
Proof.
  intros Hm Hn Hz. apply parses_if; intros Hb; bools; [|auto].
  eapply (one_arg_line _ _ _ _ _ _ Hm). intros d. by rewrite ParseDuration_ns.
Qed.

Lemma int_parses name n st (f : Z -> parsed) :
  dispatches name st (v ← int_directive name; mret (f v)) ->
  - 2 ^ 63 <= n < 2 ^ 63 -> (n = 0 -> st = f n) -> parses (int_line name n) st (f n).
Proof.
  intros Hm Hn Hz. apply parses_if; intros Hb; bools; [|auto].
  eapply (one_arg_line _ _ _ _ _ _ Hm). intros d. by rewrite strconv.Atoi_FormatInt.
Qed.

Lemma ParseBool_print b : strconv.ParseBool (print_bool b) = Ok b.
Proof. by destruct b. Qed.

Lemma fallback_parses name b st (f : bool -> parsed) :
  dispatches name st (v ← parseBoolDirective name; mret (f v)) -> parses [[name; print_bool b]] st (f b).
Proof.
  intros Hm. eapply (one_arg_line _ _ _ _ _ _ Hm). intros d. by rewrite ParseBool_print.
Qed.

Lemma bool_parses name b st (f : bool -> parsed) :
  dispatches name st (v ← parseBoolDirective name; mret (f v)) ->
  (b = false -> st = f b) -> parses (bool_line name b) st (f b).
Proof. intros Hm Hz. apply parses_if; intros Hb; [by apply fallback_parses|auto]. Qed.

Lemma string_parses name s st (f : string -> parsed) :
  dispatches name st (v ← one_arg; mret (f v)) ->
  (s = "" -> st = f s) -> parses (string_line name s) st (f s).
Proof.
  intros Hm Hz. apply parses_if; intros Hb; bools; [|auto].
  eapply dispatches_line; [exact Hm|]. intros d lines Hd.
  destruct (one_arg_Ok _ _ _ _ _ Hd) as (d' & Ho & Hd'). exists d', s. split; [|done].
  unfold mbind, P_bind. by rewrite Ho.
Qed.

Lemma values_parses name l st (f : list string -> parsed) :
  dispatches name st (v ← values_directive; mret (f v)) ->
  (l = [] -> st = f l) -> parses (values_line name l) st (f l).
Proof.
  intros Hm Hz. apply parses_if; intros Hb; bools; [|auto].
  destruct l as [|a l]; [done|]. eapply dispatches_line; [exact Hm|]. intros d lines Hd.
  destruct (values_directive_Ok _ _ _ _ _ Hd) as (d' & v' & Ho & Hd'). exists d', v'. split; [|done].
  unfold mbind, P_bind. by rewrite Ho.
Qed.

Lemma ports_parses name l st (f : list Z -> parsed) :
  dispatches name st (v ← parsePortListDirective name; mret (f v)) ->
  Forall (fun p => 0 < p < 65536) l -> (l = [] -> st = f l) ->
  parses (values_line name (strconv.FormatInt <$> l)) st (f l).
Proof.
  intros Hm Hl Hz. apply parses_if; intros Hb; bools; [|apply Hz; by apply fmap_nil_inv in Hb].
  destruct l as [|a l]; [done|]. eapply dispatches_line; [exact Hm|]. intros d lines Hd.
  destruct (parsePortListDirective_Ok name _ _ _ _ _ Hl Hd) as (d' & v' & Ho & Hd').
  exists d', v'. split; [|done]. unfold mbind, P_bind. by rewrite Ho.
Qed.

(** Solves [dispatches] for a literal name, by evaluating the switch. *)
Ltac dispatch :=
  let d := fresh "d" in let Hv := fresh "Hv" in
  intros d Hv; unfold directive; unfold mbind at 1, P_bind at 1, Val; rewrite Hv; reflexivity.

(** The fields of [c] a group of directives sets. *)
Definition with_limits (c c0 : Config) : Config :=
  c0 <| ProbeTimeout := ProbeTimeout c |> <| IdleTimeout := IdleTimeout c |>
     <| ConnectTimeout := ConnectTimeout c |> <| MaxConcurrent := MaxConcurrent c |>
     <| MaxPendingProbes := MaxPendingProbes c |> <| MaxStreamsPerSession := MaxStreamsPerSession c |>
     <| MaxConcurrentStreams := MaxConcurrentStreams c |>.

Definition with_policy (c c0 : Config) : Config :=
  c0 <| Fallback := Fallback c |> <| AllowPrivateTargets := AllowPrivateTargets c |>
     <| AllowCIDRs := AllowCIDRs c |> <| DenyCIDRs := DenyCIDRs c |>
     <| AllowPorts := AllowPorts c |> <| DenyPorts := DenyPorts c |>
     <| AllowDomains := AllowDomains c |> <| DenyDomains := DenyDomains c |>.

Definition with_node (c c0 : Config) : Config :=
  c0 <| PaddingScheme := PaddingScheme c |> <| LogNodeInfo := LogNodeInfo c |>
     <| NodeHosts := NodeHosts c |> <| NodePort := NodePort c |> <| NodeSNI := NodeSNI c |>
     <| NodeInsecure := NodeInsecure c |>.

(** Reads the lines one after the other. *)
Ltac line lem := eapply lem; [dispatch|try done; try by intros ->..].
Ltac next_line lem := eapply parses_app; [line lem|cbv beta].
Ltac last_line lem := eapply parses_eq; [line lem|reflexivity].

Lemma limit_lines_parse c set :
  expressible c ->
  parses (limit_lines c) (zero_Config, set) (with_limits c zero_Config, set).
Proof.
  intros [Hd Hi _ _ _ _]. repeat rewrite Forall_cons in Hd; repeat rewrite Forall_cons in Hi.
  destruct Hd as (Hd1 & Hd2 & Hd3 & _), Hi as (Hi1 & Hi2 & Hi3 & Hi4 & _).
  unfold limit_lines. do 3 next_line duration_parses. do 3 next_line int_parses. last_line int_parses.
Qed.

Lemma policy_lines_parse c set :
  expressible c -> let c0 := with_limits c zero_Config in
  parses (policy_lines c) (c0, set) (with_policy c c0, true).
Proof.
  intros [_ _ Hp _ _ _] c0. apply Forall_app in Hp as [Hp1 Hp2]. unfold policy_lines.
  next_line fallback_parses. next_line bool_parses. do 2 next_line values_parses.
  do 2 next_line ports_parses. next_line values_parses. last_line values_parses.
Qed.

(** A port list of one. *)
Lemma node_port_parses p st (f : Z -> parsed) :
  dispatches "node_port" st (values ← parsePortListDirective "node_port";
    match values with
    | [value] => mret (f value)
    | _ => Errf "node_port expects exactly one port" [] []
    end) ->
  0 <= p < 65536 -> (p = 0 -> st = f p) -> parses (int_line "node_port" p) st (f p).
Proof.
  intros Hm Hp Hz. apply parses_if; intros Hb; bools; [|auto].
  eapply dispatches_line; [exact Hm|]. intros d lines Hd.
  destruct (parsePortListDirective_Ok "node_port" d "node_port" p [] lines) as (d' & v' & Ho & Hd');
    [by repeat constructor; lia|done|].
  exists d', v'. split; [|done]. unfold mbind, P_bind. by rewrite Ho.
Qed.

Lemma node_lines_parse c set :
  expressible c -> let c0 := with_policy c (with_limits c zero_Config) in
  parses (node_lines c) (c0, set) (with_node c c0, set).
Proof.
  intros [_ _ _ Hp _ _] c0. unfold node_lines.
  next_line string_parses. next_line bool_parses. next_line values_parses.
  eapply parses_app; [eapply (node_port_parses (NodePort c)); [dispatch|done|by intros ->]|cbv beta].
  next_line string_parses. last_line bool_parses.
Qed.

Lemma user_line_parses u c set :
  user_Enabled u = true ->
  parses [user_line u] (c, set) (c <| Users := Users c ++ [u] |>, set).
Proof.
  intros He. destruct u as [name password enabled outbound]. simpl in He. subst enabled.
  unfold user_line. cbn [user_Name user_Password user_Outbound app].
  apply (dispatches_line "user" _ _ _ (c ← user_directive c; mret (c, set))); [dispatch|].
  intros d lines Hd.
  destruct (RemainingArgs_Ok _ _ _ _ Hd) as (d' & v' & Hr & Hd'). exists d', v'. split; [|done].
  unfold user_directive, mbind, P_bind. rewrite Hr.
  by destruct (String.eqb_spec outbound "") as [->|].
Qed.

Lemma user_lines_parse us c set :
  Forall (fun u => user_Enabled u = true) us ->
  parses (user_line <$> us) (c, set) (c <| Users := Users c ++ us |>, set).
Proof.
  intros Hus. revert c. induction Hus as [|u us Hu _ IH]; intros c.
  - eapply parses_eq; [apply parses_nil|]. destruct c. simpl. by rewrite app_nil_r.
  - change (user_line <$> u :: us) with ([user_line u] ++ (user_line <$> us)).
    eapply parses_app; [by apply user_line_parses|]. eapply parses_eq; [apply IH|].
    destruct c. simpl. by rewrite <- app_assoc.
Qed.

Lemma default_outbound_parses s c set :
  DefaultOutbound c = "" ->
  parses (string_line "default_outbound" s) (c, set) (c <| DefaultOutbound := s |>, set).
Proof.
  intros Hno. apply parses_if; intros Hb; bools.
  - apply (dispatches_line "default_outbound" _ _ _ (c ← default_outbound_directive c; mret (c, set)));
      [dispatch|]. intros d lines Hd.
    destruct (one_arg_Ok _ _ _ _ _ Hd) as (d1 & Ho & Hd1).
    destruct (law_NextArg_end _ _ _ Hd1) as (d2 & Hn & Hd2). exists d2, s. split; [|done].
    unfold default_outbound_directive. rewrite Hno. cbn [String.eqb negb].
    unfold mbind, P_bind. rewrite Ho. destruct (String.eqb_spec s ""); [done|].
    unfold NextArg. by rewrite Hn.
  - destruct c. simpl in *. by subst.
Qed.

(** ** Properties *)

(** C16.  What can be written as directives is read back: the parser, on the directives of a
    configuration in this order, ends without an error, within one turn of its loop per
    line and one more, with exactly that configuration, and knows that [fallback] was
    given. *)
Theorem caddyfile_roundtrip c d :
  expressible c -> at_start d "anytls" (directives c) ->
  exists d', UnmarshalCaddyfile (S (length (directives c))) (zero_Config, false) d
    = Some (Ok (c, true), d').
Proof.
  intros Hex Hstart. destruct (law_Next _ _ _ Hstart) as (d1 & Hn & Hd1).
  destruct (law_NextArg_end _ _ _ Hd1) as (d2 & Ha & Hd2).
  assert (Hall : parses (directives c) (zero_Config, false) (c, true)).
  { unfold directives. eapply parses_app; [by apply limit_lines_parse|].
    eapply parses_app; [by apply policy_lines_parse|].
    eapply parses_app; [by apply node_lines_parse|].
    destruct Hex as [_ _ _ _ Hu [Hr Hrs]].
    eapply parses_app; [by apply user_lines_parse|].
    eapply parses_eq; [by apply default_outbound_parses|].
    destruct c. simpl in *. by subst. }
  rewrite <- (app_nil_r (directives c)) in Hd2.
  destruct (Hall 1%nat _ _ _ Hd2) as (d3 & v3 & Hd3 & Hl).
  destruct (law_NextBlock_end _ _ Hd3) as (d4 & Hb). exists d4.
  unfold UnmarshalCaddyfile. rewrite Hn, Ha. replace (S (length (directives c))) with (length (directives c) + 1)%nat by lia.
  rewrite Hl. simpl. by rewrite Hb.
Qed.

End Roundtrip.

(** *** Witness *)

(** A dispenser over the lines of one block. *)
#[local] Instance lines_dispenser : Dispenser (bool * cursor) := {
  d_Next d := (true, (true, snd d));
  d_NextArg d :=
    match cu_args (snd d) with
    | [] => (false, d)
    | a :: args => (true, (true, mkCursor a args (cu_lines (snd d))))
    end;
  d_NextBlock _ d :=
    match cu_args (snd d), cu_lines (snd d) with
    | a :: args, lines => (true, (true, mkCursor a args lines))
    | [], (t :: ts) :: lines => (true, (true, mkCursor t ts lines))
    | [], _ => (false, d)
    end;
  d_Val d := cu_val (snd d);
  d_RemainingArgs d := (cu_args (snd d), (true, mkCursor (cu_val (snd d)) [] (cu_lines (snd d))));
  d_ArgErr d := errors_New "wrong argument count or unexpected line ending";
  d_Errf d format args errs := Errorf format args []
}.

#[local] Program Instance lines_laws : DispenserLaws (bool * cursor) := {|
  at_start d name lines := snd d = mkCursor name [] lines;
  at_cursor d k := snd d = k
|}.
Solve All Obligations with (intros [b k] **; simpl in *; subst; simpl; eauto).

#[local] Instance lines_caddy : Caddy (bool * cursor) := {
  Module := string;
  ParseDuration s := strconv.Atoi (strings.TrimSuffix s "ns");
  UnmarshalModule id d := (Ok id, (true, mkCursor (cu_val (snd d)) [] (cu_lines (snd d))));
  is_Outbound _ := true;
  JSONModuleObject m key name := name
}.

Lemma lines_durations n : 0 <= n < 2 ^ 63 -> ParseDuration (Ds := bool * cursor) (print_duration n) = Ok n.
Proof.
  intros Hn. unfold ParseDuration, print_duration. simpl. rewrite strings.TrimSuffix_app.
  apply strconv.Atoi_FormatInt. lia.
Qed.

Definition example_Config : Config :=
  zero_Config <| Users := [mkUser "alice" "secret" true "warp"; mkUser "bob" "hunter2" true ""] |>
    <| ProbeTimeout := 3000000000 |> <| MaxConcurrent := -1 |> <| DenyPorts := [25; 465] |>
    <| AllowDomains := [".example.com"]%string |> <| NodePort := 8443 |> <| DefaultOutbound := "direct" |>.

Lemma caddyfile_roundtrip_witness :
  length (directives example_Config) = 9%nat /\
  exists d', UnmarshalCaddyfile 10 (zero_Config, false)
    (false, mkCursor "anytls" [] (directives example_Config)) = Some (Ok (example_Config, true), d').
Proof.
  split; [reflexivity|].
  apply (caddyfile_roundtrip lines_durations example_Config
    (false, mkCursor "anytls" [] (directives example_Config))); [|reflexivity].
  split; simpl; repeat constructor; lia.
Defined.
