(* ===== verification/Json.v ===== *)
(** * The JSON configuration

    config.go, the two [UnmarshalJSON] methods, with [encoding/json] of the Go library on JSON
    values: struct fields are matched by name up to the case of letters, a field that
    is missing keeps its zero value, and encoding leaves out empty fields.  How values and
    strings are written as text is below this level. *)

From S2P Require Import Prelude GoErrors GoStrings Wrapper.

Local Open Scope Z_scope.

(** ** JSON values *)

(** A number is its text, an object the list of its members. *)
Inductive json : Type :=
| JNull
| JBool (b : bool)
| JNumber (text : string)
| JString (s : string)
| JArray (l : list json)
| JObject (members : list (string * json)).

(** A value as the text a [json.RawMessage] keeps, and back; [UnmarshalJSON] of
    [caddy.Duration]. *)
Class JsonText := {
  raw_text : json -> string;
  raw_value : string -> json;
  Duration_UnmarshalJSON : json -> result Z
}.

(** [foldName] of encoding/json, as far as it can make a key equal to an ASCII name: ASCII
    letters, the long s (U+017F) and the Kelvin sign (U+212A). *)
Fixpoint fold_bytes (b : bytes) : bytes :=
  match b with
  | [] => []
  | x :: b' =>
      match b' with
      | y :: b'' =>
          if (code x =? 0xC5) && (code y =? 0xBF) then chr 115 :: fold_bytes b''
          else match b'' with
               | z :: b''' =>
                   if (code x =? 0xE2) && (code y =? 0x84) && (code z =? 0xAA)
                   then chr 107 :: fold_bytes b''' else lower x :: fold_bytes b'
               | [] => lower x :: fold_bytes b'
               end
      | [] => [lower x]
      end
  end.

Definition foldName (key : string) : string := string_of_bytes (fold_bytes (bytes_of_string key)).

(** ** Decoding *)

Definition type_error (goType : string) : error :=
  Errorf "json: cannot unmarshal into Go value of type %s" [goType] [].

Definition decode_string (old : string) (v : json) : result string :=
  match v with JNull => Ok old | JString s => Ok s | _ => Err (type_error "string") end.

Definition decode_bool (old : bool) (v : json) : result bool :=
  match v with JNull => Ok old | JBool b => Ok b | _ => Err (type_error "bool") end.

Definition decode_int (old : Z) (v : json) : result Z :=
  match v with
  | JNull => Ok old
  | JNumber text => match strconv.Atoi text with Ok n => Ok n | Err _ => Err (type_error "int") end
  | _ => Err (type_error "int")
  end.

Definition decode_uint16 (old : Z) (v : json) : result Z :=
  match v with
  | JNull => Ok old
  | JNumber text =>
      match strconv.ParseUint text 16 with Ok n => Ok n | Err _ => Err (type_error "uint16") end
  | _ => Err (type_error "uint16")
  end.

Fixpoint decode_all {A} (decode : json -> result A) (l : list json) : result (list A) :=
  match l with
  | [] => Ok []
  | v :: l =>
      match decode v with
      | Err err => Err err
      | Ok a => match decode_all decode l with Err err => Err err | Ok as' => Ok (a :: as') end
      end
  end.

(** A slice; the elements of a new one are zero values. *)
Definition decode_slice {A} (goType : string) (decode : json -> result A) (v : json) : result (list A) :=
  match v with
  | JNull => Ok []
  | JArray l => decode_all decode l
  | _ => Err (type_error goType)
  end.

(** An object into a struct: each member in order into the field of its name; members of
    other names are ignored. *)
Fixpoint decode_members {A} (field : string -> json -> A -> result A)
    (members : list (string * json)) (a : A) : result A :=
  match members with
  | [] => Ok a
  | (key, v) :: members =>
      match field (foldName key) v a with
      | Err err => Err err
      | Ok a => decode_members field members a
      end
  end.

Definition decode_struct {A} (goType : string) (field : string -> json -> A -> result A)
    (v : json) (a : A) : result A :=
  match v with
  | JNull => Ok a
  | JObject members => decode_members field members a
  | _ => Err (type_error goType)
  end.

(** [_, ok := raw[key]], where [raw] is the object decoded into a map. *)
Definition has_key (key : string) (v : json) : bool :=
  match v with
  | JObject members => existsb (fun m => String.eqb (fst m) key) members
  | _ => false
  end.

(** Stores a decoded value. *)
Definition store {A B} (r : result A) (f : A -> B) : result B :=
  match r with Ok a => Ok (f a) | Err err => Err err end.

Section Json.
Context `{JsonText}.

Definition user_field (name : string) (v : json) (u : User) : result User :=
  let '(mkUser uname password enabled outbound) := u in
  if String.eqb name "name" then store (decode_string uname v) (fun s => mkUser s password enabled outbound)
  else if String.eqb name "password" then
    store (decode_string password v) (fun s => mkUser uname s enabled outbound)
  else if String.eqb name "enabled" then
    store (decode_bool enabled v) (fun b => mkUser uname password b outbound)
  else if String.eqb name "outbound" then
    store (decode_string outbound v) (fun s => mkUser uname password enabled s)
  else Ok u.

(** config.go, [UnmarshalJSON] of [User]. *)
Definition User_UnmarshalJSON (v : json) : result User :=
  match decode_struct "anytls.userAlias" user_field v (mkUser "" "" false "") with
  | Err err => Err err
  | Ok (mkUser name password enabled outbound) =>
      Ok (mkUser name password (if negb (has_key "enabled" v) then true else enabled) outbound)
  end.

(** [map[string]json.RawMessage]: the members go into the map there is. *)
Definition decode_raws (old : gmap string string) (v : json) : result (gmap string string) :=
  match v with
  | JNull => Ok ∅
  | JObject members => Ok (foldl (fun m member => <[fst member := raw_text (snd member)]> m) old members)
  | _ => Err (type_error "map[string]json.RawMessage")
  end.

(** The fields of the struct [config] in [UnmarshalJSON]. *)
Definition config_field (name : string) (v : json) (c : Config) : result Config :=
  let named := String.eqb name in
  let strings := decode_slice "[]string" (decode_string "") in
  let ports := decode_slice "[]uint16" (decode_uint16 0) in
  if named "users" then store (decode_slice "[]anytls.User" User_UnmarshalJSON v) (fun x => c <| Users := x |>)
  else if named "probe_timeout" then store (Duration_UnmarshalJSON v) (fun x => c <| ProbeTimeout := x |>)
  else if named "idle_timeout" then store (Duration_UnmarshalJSON v) (fun x => c <| IdleTimeout := x |>)
  else if named "connect_timeout" then store (Duration_UnmarshalJSON v) (fun x => c <| ConnectTimeout := x |>)
  else if named "max_concurrent" then store (decode_int (MaxConcurrent c) v) (fun x => c <| MaxConcurrent := x |>)
  else if named "max_pending_probes" then
    store (decode_int (MaxPendingProbes c) v) (fun x => c <| MaxPendingProbes := x |>)
  else if named "max_streams_per_session" then
    store (decode_int (MaxStreamsPerSession c) v) (fun x => c <| MaxStreamsPerSession := x |>)
  else if named "max_concurrent_streams" then
    store (decode_int (MaxConcurrentStreams c) v) (fun x => c <| MaxConcurrentStreams := x |>)
  else if named "fallback" then store (decode_bool (Fallback c) v) (fun x => c <| Fallback := x |>)
  else if named "allow_private_targets" then
    store (decode_bool (AllowPrivateTargets c) v) (fun x => c <| AllowPrivateTargets := x |>)
  else if named "allow_cidrs" then store (strings v) (fun x => c <| AllowCIDRs := x |>)
  else if named "deny_cidrs" then store (strings v) (fun x => c <| DenyCIDRs := x |>)
  else if named "allow_ports" then store (ports v) (fun x => c <| AllowPorts := x |>)
  else if named "deny_ports" then store (ports v) (fun x => c <| DenyPorts := x |>)
  else if named "allow_domains" then store (strings v) (fun x => c <| AllowDomains := x |>)
  else if named "deny_domains" then store (strings v) (fun x => c <| DenyDomains := x |>)
  else if named "padding_scheme" then store (decode_string (PaddingScheme c) v) (fun x => c <| PaddingScheme := x |>)
  else if named "log_node_info" then store (decode_bool (LogNodeInfo c) v) (fun x => c <| LogNodeInfo := x |>)
  else if named "node_hosts" then store (strings v) (fun x => c <| NodeHosts := x |>)
  else if named "node_port" then store (decode_uint16 (NodePort c) v) (fun x => c <| NodePort := x |>)
  else if named "node_sni" then store (decode_string (NodeSNI c) v) (fun x => c <| NodeSNI := x |>)
  else if named "node_insecure" then store (decode_bool (NodeInsecure c) v) (fun x => c <| NodeInsecure := x |>)
  else if named "outbound" then Ok (c <| OutboundRaw := raw_text v |>)
  else if named "outbounds" then store (decode_raws (OutboundsRaw c) v) (fun x => c <| OutboundsRaw := x |>)
  else if named "default_outbound" then
    store (decode_string (DefaultOutbound c) v) (fun x => c <| DefaultOutbound := x |>)
  else Ok c.

(** config.go, [UnmarshalJSON] of [ListenerWrapper]: the configuration and the field
    [fallbackSet], which was [fallbackSet] before. *)
Definition UnmarshalJSON (fallbackSet : bool) (v : json) : result (Config * bool) :=
  match decode_struct "anytls.config" config_field v zero_Config with
  | Err err => Err err
  | Ok config =>
      if has_key "fallback" v then Ok (config, true)
      else Ok (config <| Fallback := true |>, fallbackSet)
  end.

(** ** Encoding

    [json.Marshal] of the struct, whose fields all have [omitempty]: what Caddy does with a
    configuration read from a Caddyfile. *)

Definition member_if (b : bool) (key : string) (v : json) : list (string * json) :=
  if b then [(key, v)] else [].

Definition string_member (key s : string) := member_if (negb (String.eqb s "")) key (JString s).
Definition bool_member (key : string) (b : bool) := member_if b key (JBool b).
Definition int_member (key : string) (n : Z) := member_if (negb (n =? 0)) key (JNumber (strconv.FormatInt n)).
Definition slice_member {A} (key : string) (f : A -> json) (l : list A) :=
  member_if (negb (length l =? 0)%nat) key (JArray (f <$> l)).

Definition MarshalUser (u : User) : json :=
  JObject (string_member "name" (user_Name u) ++ string_member "password" (user_Password u) ++
           bool_member "enabled" (user_Enabled u) ++ string_member "outbound" (user_Outbound u)).

Definition MarshalJSON (c : Config) : json :=
  let number n := JNumber (strconv.FormatInt n) in
  JObject (
    slice_member "users" MarshalUser (Users c) ++
    int_member "probe_timeout" (ProbeTimeout c) ++ int_member "idle_timeout" (IdleTimeout c) ++
    int_member "connect_timeout" (ConnectTimeout c) ++ int_member "max_concurrent" (MaxConcurrent c) ++
    int_member "max_pending_probes" (MaxPendingProbes c) ++
    int_member "max_streams_per_session" (MaxStreamsPerSession c) ++
    int_member "max_concurrent_streams" (MaxConcurrentStreams c) ++
    bool_member "fallback" (Fallback c) ++ bool_member "allow_private_targets" (AllowPrivateTargets c) ++
    slice_member "allow_cidrs" JString (AllowCIDRs c) ++ slice_member "deny_cidrs" JString (DenyCIDRs c) ++
    slice_member "allow_ports" number (AllowPorts c) ++ slice_member "deny_ports" number (DenyPorts c) ++
    slice_member "allow_domains" JString (AllowDomains c) ++ slice_member "deny_domains" JString (DenyDomains c) ++
    string_member "padding_scheme" (PaddingScheme c) ++ bool_member "log_node_info" (LogNodeInfo c) ++
    slice_member "node_hosts" JString (NodeHosts c) ++ int_member "node_port" (NodePort c) ++
    string_member "node_sni" (NodeSNI c) ++ bool_member "node_insecure" (NodeInsecure c) ++
    member_if (negb (String.eqb (OutboundRaw c) "")) "outbound" (raw_value (OutboundRaw c)) ++
    member_if (negb (size (OutboundsRaw c) =? 0)%nat) "outbounds"
      (JObject (prod_map id raw_value <$> map_to_list (OutboundsRaw c))) ++
    string_member "default_outbound" (DefaultOutbound c)).

(** ** Lemmas *)

(** Decoding the members [l] changes the configuration from [c0] to [c1]. *)
Definition decodes {A} (field : string -> json -> A -> result A) (l : list (string * json)) (a b : A) : Prop :=
  decode_members field l a = Ok b.

Lemma decodes_app {A} (field : string -> json -> A -> result A) l1 l2 a1 a2 a3 :
  decodes field l1 a1 a2 -> decodes field l2 a2 a3 -> decodes field (l1 ++ l2) a1 a3.
Proof.
  unfold decodes. revert a1. induction l1 as [|[key v] l1 IH]; intros a1; simpl; [by intros [= ->]|].
  destruct (field (foldName key) v a1); [|done]. apply IH.
Qed.

Lemma decodes_if {A} (field : string -> json -> A -> result A) (b : bool) key v a a' :
  (b = true -> field (foldName key) v a = Ok a') -> (b = false -> a = a') ->
  decodes field (member_if b key v) a a'.
Proof.
  unfold decodes. destruct b; simpl; intros H1 H2; [by rewrite H1|by rewrite H2].
Qed.

Lemma has_key_app key l1 l2 :
  has_key key (JObject (l1 ++ l2)) = has_key key (JObject l1) || has_key key (JObject l2).
Proof. apply existsb_app. Qed.

Lemma has_key_if key b key' v : has_key key (JObject (member_if b key' v)) = b && String.eqb key' key.
Proof. destruct b; simpl; [apply orb_false_r|done]. Qed.

Lemma decode_all_map {A B} (decode : json -> result B) (f : A -> json) (g : A -> B) l :
  Forall (fun a => decode (f a) = Ok (g a)) l -> decode_all decode (f <$> l) = Ok (g <$> l).
Proof. induction 1 as [|a l Ha _ IH]; [done|]. cbn [fmap list_fmap decode_all]. by rewrite Ha, IH. Qed.

(** What a user is after it was written and read. *)
Definition enable (u : User) : User := mkUser (user_Name u) (user_Password u) true (user_Outbound u).

Lemma User_roundtrip u : User_UnmarshalJSON (MarshalUser u) = Ok (enable u).
Proof.
  destruct u as [name password enabled outbound]. unfold User_UnmarshalJSON, MarshalUser, enable. simpl.
  unfold string_member, bool_member.
  destruct (String.eqb_spec name "") as [->|], (String.eqb_spec password "") as [->|], enabled,
    (String.eqb_spec outbound "") as [->|]; reflexivity.
Qed.

(** The numbers of a configuration fit their types; a raw message is compact JSON. *)
Record encodable (c : Config) : Prop := {
  en_durations : Forall (fun n => Duration_UnmarshalJSON (JNumber (strconv.FormatInt n)) = Ok n)
    [ProbeTimeout c; IdleTimeout c; ConnectTimeout c];
  en_ints : Forall (fun n => - 2 ^ 63 <= n < 2 ^ 63)
    [MaxConcurrent c; MaxPendingProbes c; MaxStreamsPerSession c; MaxConcurrentStreams c];
  en_ports : Forall (fun p => 0 <= p < 2 ^ 16) (AllowPorts c ++ DenyPorts c);
  en_node_port : 0 <= NodePort c < 2 ^ 16;
  en_raw : OutboundRaw c <> "" -> raw_text (raw_value (OutboundRaw c)) = OutboundRaw c;
  en_raws : map_Forall (fun _ raw => raw_text (raw_value raw) = raw) (OutboundsRaw c)
}.

Lemma foldl_insert_list {A} (l : list (string * A)) (m : gmap string A) :
  NoDup l.*1 -> foldl (fun m x => <[x.1 := x.2]> m) m l = list_to_map l ∪ m.
Proof.
  revert m. induction l as [|[k x] l IH]; intros m Hnd; simpl; [by rewrite (left_id_L ∅ _)|].
  apply NoDup_cons in Hnd as [Hk Hnd]. rewrite IH by done. rewrite <- insert_union_l.
  symmetry. apply insert_union_r. by apply not_elem_of_list_to_map.
Qed.

Lemma decode_raws_roundtrip m :
  map_Forall (fun _ raw => raw_text (raw_value raw) = raw) m ->
  decode_raws ∅ (JObject (prod_map id raw_value <$> map_to_list m)) = Ok m.
Proof.
  intros Hm. unfold decode_raws. f_equal. rewrite foldl_fmap.
  assert (Hall : forall (l : list (string * string)) (m0 : gmap string string),
    (forall k x, (k, x) ∈ l -> raw_text (raw_value x) = x) ->
    foldl (fun acc (y : string * string) => <[(prod_map id raw_value y).1 := raw_text (prod_map id raw_value y).2]> acc) m0 l
    = foldl (fun acc x => <[x.1 := x.2]> acc) m0 l).
  { induction l as [|[k x] l IH]; intros m0 Hl; simpl; [done|]. rewrite (Hl k x) by by left.
    apply IH. intros k' x' Hx. apply (Hl k'). by right. }
  rewrite Hall, foldl_insert_list, (right_id_L ∅ _), list_to_map_to_list; [done|apply NoDup_fst_map_to_list|].
  intros k x Hx%elem_of_map_to_list. by apply (Hm k).
Qed.

(** One member of each kind; [f] stores its value. *)
Section Members.
Context (name : string) (c : Config) (Hname : foldName name = name).

Lemma member_decodes {B} (b : bool) v (decode : json -> result B) (x : B) (f : B -> Config) :
  (forall v, config_field name v c = store (decode v) f) ->
  (b = true -> decode v = Ok x) -> (b = false -> c = f x) ->
  decodes config_field (member_if b name v) c (f x).
Proof.
  intros Hf Hx H0. apply decodes_if; [|done]. intros Hb. rewrite Hname, Hf, Hx by done. done.
Qed.

Lemma duration_decodes n f :
  (forall v, config_field name v c = store (Duration_UnmarshalJSON v) f) ->
  Duration_UnmarshalJSON (JNumber (strconv.FormatInt n)) = Ok n -> (n = 0 -> c = f n) ->
  decodes config_field (int_member name n) c (f n).
Proof. intros Hf Hn H0. eapply member_decodes; [exact Hf|done|]. intros Hb. bools. auto. Qed.

Lemma int_decodes n old f :
  (forall v, config_field name v c = store (decode_int old v) f) ->
  - 2 ^ 63 <= n < 2 ^ 63 -> (n = 0 -> c = f n) ->
  decodes config_field (int_member name n) c (f n).
Proof.
  intros Hf Hn H0. eapply member_decodes; [exact Hf| |].
  - intros _. cbn [decode_int]. by rewrite strconv.Atoi_FormatInt.
  - intros Hb. bools. auto.
Qed.

Lemma decode_uint16_format old n : 0 <= n < 2 ^ 16 -> decode_uint16 old (JNumber (strconv.FormatInt n)) = Ok n.
Proof. intros Hn. cbn [decode_uint16]. rewrite strconv.ParseUint_FormatInt; [done|lia|lia]. Qed.

Lemma uint16_decodes n old f :
  (forall v, config_field name v c = store (decode_uint16 old v) f) ->
  0 <= n < 2 ^ 16 -> (n = 0 -> c = f n) -> decodes config_field (int_member name n) c (f n).
Proof.
  intros Hf Hn H0. eapply member_decodes; [exact Hf| |].
  - intros _. by apply decode_uint16_format.
  - intros Hb. bools. auto.
Qed.

Lemma bool_decodes b old f :
  (forall v, config_field name v c = store (decode_bool old v) f) ->
  (b = false -> c = f b) -> decodes config_field (bool_member name b) c (f b).
Proof. intros Hf H0. eapply member_decodes; [exact Hf|by intros ->|done]. Qed.

Lemma string_decodes s old f :
  (forall v, config_field name v c = store (decode_string old v) f) ->
  (s = "" -> c = f s) -> decodes config_field (string_member name s) c (f s).
Proof. intros Hf H0. eapply member_decodes; [exact Hf|done|]. intros Hb. bools. auto. Qed.

Lemma slice_decodes {A B} goType (decode : json -> result B) (enc : A -> json) (g : A -> B) l f :
  (forall v, config_field name v c = store (decode_slice goType decode v) f) ->
  Forall (fun a => decode (enc a) = Ok (g a)) l -> (l = [] -> c = f []) ->
  decodes config_field (slice_member name enc l) c (f (g <$> l)).
Proof.
  intros Hf Hl H0. eapply member_decodes; [exact Hf| |].
  - intros _. cbn [decode_slice]. by apply decode_all_map.
  - intros Hb. destruct l; [by apply H0|done].
Qed.

End Members.

Lemma strings_decode l : Forall (fun s => decode_string "" (JString s) = Ok (id s)) l.
Proof. by apply Forall_true. Qed.

Lemma ports_decode l :
  Forall (fun p => 0 <= p < 2 ^ 16) l ->
  Forall (fun p => decode_uint16 0 (JNumber (strconv.FormatInt p)) = Ok (id p)) l.
Proof.
  intros Hl. eapply Forall_impl; [exact Hl|]. intros p. apply decode_uint16_format.
Qed.

Lemma raw_decodes raw c :
  OutboundRaw c = "" -> (raw <> "" -> raw_text (raw_value raw) = raw) ->
  decodes config_field (member_if (negb (String.eqb raw "")) "outbound" (raw_value raw)) c
    (c <| OutboundRaw := raw |>).
Proof.
  intros Hno Hraw. apply decodes_if; intros Hb; bools; [|destruct c; simpl in *; by subst].
  by rewrite <- (Hraw Hb) at 2.
Qed.

Lemma raws_decodes raws c :
  OutboundsRaw c = ∅ -> map_Forall (fun _ raw => raw_text (raw_value raw) = raw) raws ->
  decodes config_field (member_if (negb (size raws =? 0)%nat) "outbounds"
    (JObject (prod_map id raw_value <$> map_to_list raws))) c (c <| OutboundsRaw := raws |>).
Proof.
  intros Hno Hraws. apply decodes_if; intros Hb; bools.
  - change (config_field _ ?v c) with (store (decode_raws (OutboundsRaw c) v) (fun x => c <| OutboundsRaw := x |>)).
    by rewrite Hno, decode_raws_roundtrip.
  - apply map_size_empty_inv in Hb. destruct c; simpl in *. by subst.
Qed.

(** Reads the next member. *)
Ltac next_member lem :=
  eapply decodes_app;
  [eapply lem; [reflexivity|intros v; reflexivity|try done; try (by intros ->)..]|cbv beta].

Lemma members_roundtrip c :
  encodable c ->
  decode_struct "anytls.config" config_field (MarshalJSON c) zero_Config
    = Ok (c <| Users := enable <$> Users c |>).
Proof.
  intros [Hd Hi Hp Hnp Hraw Hraws].
  repeat rewrite Forall_cons in Hd; repeat rewrite Forall_cons in Hi.
  destruct Hd as (Hd1 & Hd2 & Hd3 & _), Hi as (Hi1 & Hi2 & Hi3 & Hi4 & _).
  apply Forall_app in Hp as [Hp1 Hp2]. cbn [decode_struct MarshalJSON].
  match goal with |- decode_members ?f ?l ?a = Ok ?b => change (decodes f l a b) end.
  next_member (@slice_decodes); [apply Forall_true; intros u; apply User_roundtrip|].
  do 3 next_member duration_decodes. do 4 next_member int_decodes. do 2 next_member bool_decodes.
  do 2 (next_member (@slice_decodes); [apply strings_decode|rewrite list_fmap_id]).
  do 2 (next_member (@slice_decodes); [by apply ports_decode|rewrite list_fmap_id]).
  do 2 (next_member (@slice_decodes); [apply strings_decode|rewrite list_fmap_id]).
  next_member string_decodes. next_member bool_decodes.
  next_member (@slice_decodes); [apply strings_decode|rewrite list_fmap_id].
  next_member uint16_decodes. next_member string_decodes. next_member bool_decodes.
  eapply decodes_app; [by apply raw_decodes|]. eapply decodes_app; [by apply raws_decodes|].
  unfold decodes. rewrite <- (app_nil_r (string_member _ _)).
  match goal with |- decode_members ?f ?l ?a = Ok ?b => change (decodes f l a b) end.
  next_member string_decodes. unfold decodes. destruct c. reflexivity.
Qed.

(** ** Properties *)

(** C17.  A configuration survives being written and read as JSON, except for what [omitempty]
    cannot express: [fallback] comes back on, and so do disabled users; [fallbackSet]
    tells whether [fallback] was written, that is, whether it was on. *)
Theorem json_roundtrip c :
  encodable c ->
  UnmarshalJSON false (MarshalJSON c)
    = Ok (c <| Fallback := true |> <| Users := enable <$> Users c |>, Fallback c).
Proof.
  intros Hen. unfold UnmarshalJSON. rewrite members_roundtrip by done.
  assert (Hkey : has_key "fallback" (MarshalJSON c) = Fallback c).
  { unfold MarshalJSON, slice_member, int_member, bool_member, string_member.
    rewrite !has_key_app, !has_key_if. cbn. rewrite !andb_false_r, !orb_false_r. cbn. by rewrite andb_true_r. }
  rewrite Hkey. destruct c as [???????? []]; done.
Qed.

End Json.

(** *** Witness and examples *)

#[local] Instance example_text : JsonText := {
  raw_text v := match v with JString s => s | _ => "null" end;
  raw_value s := JString s;
  Duration_UnmarshalJSON v := decode_int 0 v
}.

(** Fallback is off, one user is disabled, and there are two outbounds. *)
Definition written_Config : Config :=
  zero_Config <| Users := [mkUser "alice" "secret" true "warp"; mkUser "bob" "hunter2" false ""] |>
    <| IdleTimeout := 60000000000 |> <| MaxConcurrentStreams := 64 |> <| AllowPorts := [80; 443] |>
    <| NodeHosts := ["example.com"]%string |> <| NodePort := 8443 |>
    <| OutboundRaw := "{dialer: direct}" |> <| OutboundsRaw := {["warp"%string := "{dialer: wireguard}"%string]} |>.

Lemma json_roundtrip_witness :
  encodable written_Config /\
  UnmarshalJSON false (MarshalJSON written_Config)
    = Ok (written_Config <| Fallback := true |>
            <| Users := [mkUser "alice" "secret" true "warp"; mkUser "bob" "hunter2" true ""] |>, false).
Proof.
  assert (Hen : encodable written_Config).
  { split; simpl; try (repeat constructor; lia); try done. }
  split; [exact Hen|]. exact (json_roundtrip written_Config Hen).
Defined.

(** The key is looked up as written although the field is matched whatever its letters'
    case: a capitalised [false] is decoded and then overwritten with [true]. *)
Lemma capitalised_key_ignored :
  UnmarshalJSON false (JObject [("Fallback", JBool false);
    ("users", JArray [JObject [("name", JString "bob"); ("Enabled", JBool false)]])])
    = Ok (zero_Config <| Fallback := true |> <| Users := [mkUser "bob" "" true ""] |>, false).
Proof. vm_compute. reflexivity. Qed.
