(* ===== verification/Detector.v ===== *)
(** * Protocol detection

    detector.go: the decision on the first bytes of a decrypted connection.  The class
    [Detector] is the interface the listener calls; [PasswordHashDetector] is the
    implementation [Provision] installs. *)

From S2P Require Import Prelude GoErrors Sha256 Wrapper.

(** The constants [DecisionFallback], [DecisionAnyTLS] and [DecisionReject]. *)
Inductive Decision := DecisionFallback | DecisionAnyTLS | DecisionReject.

#[export] Instance Decision_eq_dec : EqDecision Decision.
Proof. solve_decision. Defined.

(** The interface [Detector]. *)
Class Detector (D : Type) := Detect : D -> bytes -> Decision * option error.

(** What the listener relies on: a verdict for AnyTLS comes without an error and
    needs the 32 bytes of a hash, and no byte after those matters. *)
Class DetectorLaws (D : Type) `{Detector D} : Prop := {
  detect_anytls_no_error : forall d preview err,
    Detect d preview = (DecisionAnyTLS, err) -> err = None /\ (32 <= length preview)%nat;
  detect_prefix : forall d preview,
    (32 <= length preview)%nat -> Detect d preview = Detect d (take 32 preview)
}.

(** The struct [PasswordHashDetector]. *)
Record PasswordHashDetector := mkPasswordHashDetector { users : gmap bytes bool }.

(** [NewPasswordHashDetector]: a later user with the same hash wins. *)
Definition NewPasswordHashDetector (us : list User) : PasswordHashDetector :=
  mkPasswordHashDetector
    (foldl (fun m user =>
              <[sha256.Sum256 (bytes_of_string (user_Password user)) := user_Enabled user]> m)
           ∅ us).

(** [PasswordHashDetector.Detect]. *)
Definition PasswordHashDetector_Detect (d : PasswordHashDetector) (preview : bytes)
    : Decision * option error :=
  if (length preview <? 32)%nat then
    (DecisionFallback, Some (Errorf "%w: need at least 32 bytes" [] [Sentinel errShortPreview]))
  else
    let passwordSha256 := take 32 preview in
    match users d !! passwordSha256 with
    | None =>
        (DecisionFallback,
         Some (Errorf "%w: password hash did not match any configured user" []
                      [Sentinel errUnknownUserHash]))
    | Some enabled =>
        if negb enabled then
          (DecisionReject,
           Some (Errorf "%w: password hash matched a disabled user" []
                        [Sentinel errDisabledUserHash]))
        else (DecisionAnyTLS, None)
    end.

#[export] Instance Detector_PasswordHashDetector : Detector PasswordHashDetector :=
  PasswordHashDetector_Detect.

#[export] Instance DetectorLaws_PasswordHashDetector : DetectorLaws PasswordHashDetector.
Proof.
  split; unfold Detect, Detector_PasswordHashDetector, PasswordHashDetector_Detect.
  - intros d preview err. destruct (length preview <? 32)%nat eqn:Hl; [done|].
    bools. intros H. cases; done.
  - intros d preview Hl. rewrite length_take, Nat.min_l by done.
    rewrite take_take, Nat.min_id. by destruct (Nat.ltb_spec (length preview) 32); [lia|].
Qed.

(** The table holds the hashes of the users; with distinct hashes, each user's own
    flag. *)
Lemma detector_lookup_fold (m : gmap bytes bool) us h :
  foldl (fun m user => <[password_hash user := user_Enabled user]> m) m us !! h =
  match last (filter (fun u => password_hash u = h) us) with
  | Some u => Some (user_Enabled u)
  | None => m !! h
  end.
Proof.
  revert m. induction us as [|u us IH]; intros m; simpl; [done|]. rewrite IH, filter_cons.
  destruct (decide (password_hash u = h)) as [<-|Hne].
  - destruct (filter _ us) as [|v vs] eqn:Hf; simpl; [by rewrite lookup_insert_eq|].
    by destruct (last (v :: vs)) eqn:Hlast; [|apply last_None in Hlast].
  - destruct (last _); [done|]. by rewrite lookup_insert_ne.
Qed.

Lemma detector_lookup us h :
  users (NewPasswordHashDetector us) !! h =
  user_Enabled <$> last (filter (fun u => password_hash u = h) us).
Proof.
  unfold NewPasswordHashDetector; simpl. fold password_hash.
  rewrite (detector_lookup_fold ∅ us h). by destruct (last _).
Qed.

Lemma filter_password_unique us u :
  NoDup (password_hash <$> us) -> u ∈ us ->
  filter (fun v => password_hash v = password_hash u) us = [u].
Proof.
  induction us as [|v us IH]; intros Hnd Hu; [by apply not_elem_of_nil in Hu|].
  rewrite filter_cons. rewrite fmap_cons, NoDup_cons in Hnd. destruct Hnd as [Hv Hnd].
  apply elem_of_cons in Hu as [->|Hu].
  - rewrite decide_True by done. f_equal.
    apply filter_nil_iff. intros w Hw Heq.
    apply Hv. rewrite <- Heq. by apply list_elem_of_fmap_2.
  - rewrite decide_False; [by apply IH|].
    intros Heq. apply Hv. rewrite Heq. by apply list_elem_of_fmap_2.
Qed.

Lemma detector_lookup_unique us u :
  NoDup (password_hash <$> us) -> u ∈ us ->
  users (NewPasswordHashDetector us) !! password_hash u = Some (user_Enabled u).
Proof. intros Hnd Hu. by rewrite detector_lookup, (filter_password_unique us u). Qed.

Lemma detector_lookup_None us h :
  users (NewPasswordHashDetector us) !! h = None <-> forall u, u ∈ us -> password_hash u <> h.
Proof.
  rewrite detector_lookup, fmap_None, last_None, filter_nil_iff. done.
Qed.

(** The detector lets in only owners of enabled passwords. *)
Lemma detector_anytls us p err :
  Detect (NewPasswordHashDetector us) p = (DecisionAnyTLS, err) ->
  exists u, u ∈ us /\ user_Enabled u = true /\ take 32 p = password_hash u.
Proof.
  unfold Detect, Detector_PasswordHashDetector, PasswordHashDetector_Detect.
  destruct (_ <? 32)%nat; [done|]. rewrite detector_lookup.
  destruct (last _) as [u|] eqn:Hlast; simpl; [|done].
  apply last_Some_elem_of, list_elem_of_filter in Hlast as [Hhash Hu].
  destruct (user_Enabled u) eqn:He; [|done]. intros _. by exists u.
Qed.
