(* ===== verification/Registry.v ===== *)
(** * The session registry

    session_registry.go: the map from connection ids to active sessions.  Every
    method holds the registry's mutex for its whole body, so each is one function on
    the map; the loop of [closeActiveSessions] runs on a snapshot, outside of it. *)

From S2P Require Import Prelude.

Local Open Scope Z_scope.

(** The struct [activeSession]; [as_conn] names its connection, [as_cancel] its context. *)
Record activeSession := mkActiveSession {
  as_cancel : Z;
  as_conn : Z;
  as_startedAt : Z;
  as_user : string;
  as_activeStreams : Z
}.

#[export] Instance Eta_activeSession : Eta activeSession := record_eta (
  fun s => mkActiveSession (as_cancel s) (as_conn s) (as_startedAt s) (as_user s) (as_activeStreams s)).

(** The field [sessions] of [sessionRegistry]. *)
Abbreviation registry := (gmap Z activeSession).

Definition newSessionRegistry : registry := ∅.

Definition registerSession (connectionID conn cancel now : Z) (r : registry) : registry :=
  <[connectionID := mkActiveSession cancel conn now "" 0]> r.

Definition updateSessionUser (connectionID : Z) (user : string) (r : registry) : registry :=
  match r !! connectionID with
  | None => r
  | Some session => <[connectionID := session <| as_user := user |>]> r
  end.

Definition unregisterSession (connectionID : Z) (r : registry) : registry :=
  delete connectionID r.

Definition activeSessionCount (r : registry) : Z := Z.of_nat (size r).

Definition acquireSessionStream (MaxStreamsPerSession connectionID : Z) (r : registry)
    : bool * registry :=
  match r !! connectionID with
  | None => (false, r)
  | Some session =>
      if (0 <? MaxStreamsPerSession) && (MaxStreamsPerSession <=? as_activeStreams session)
      then (false, r)
      else (true,
            <[connectionID := session <| as_activeStreams := as_activeStreams session + 1 |>]> r)
  end.

Definition releaseSessionStream (connectionID : Z) (r : registry) : registry :=
  match r !! connectionID with
  | Some session =>
      if 0 <? as_activeStreams session
      then <[connectionID := session <| as_activeStreams := as_activeStreams session - 1 |>]> r
      else r
  | None => r
  end.

(** What [closeActiveSessions] does to each session of its snapshot, in order.  The
    snapshot holds pointers: the user logged is the field at that time,
    [user_at connectionID], which [updateSessionUser] may have changed since. *)
Inductive close_event :=
| EvCancel (cancel : Z)
| EvCloseConn (conn : Z)
| EvLogTerminated (connectionID : Z) (reason user : string) (duration : Z).

Definition close_session (reason : string) (now : Z) (user_at : Z -> string)
    (item : Z * activeSession) : list close_event :=
  let '(connectionID, session) := item in
  [EvCancel (as_cancel session);
   EvCloseConn (as_conn session);
   EvLogTerminated connectionID reason (user_at connectionID) (now - as_startedAt session)].

(** The loop that takes the snapshot; [order] lists the keys as Go's [range] visits them. *)
Fixpoint snapshots (order : list Z) (r : registry) : list (Z * activeSession) :=
  match order with
  | [] => []
  | connectionID :: order =>
      match r !! connectionID with
      | Some session => (connectionID, session) :: snapshots order r
      | None => snapshots order r
      end
  end.

Definition closeActiveSessions (reason : string) (now : Z) (user_at : Z -> string)
    (order : list Z) (r : registry) : list close_event :=
  concat (close_session reason now user_at <$> snapshots order r).

(** Go's [range] visits each key once, in some order. *)
Definition visits (order : list Z) (r : registry) : Prop := order ≡ₚ (map_to_list r).*1.

(** ** Lemmas *)

(** The stream count of a session, 0 when it is not registered. *)
Definition session_streams (r : registry) (connectionID : Z) : Z :=
  match r !! connectionID with Some s => as_activeStreams s | None => 0 end.

Lemma acquireSessionStream_spec limit id r ok r' :
  acquireSessionStream limit id r = (ok, r') ->
  if ok then
    exists s, r !! id = Some s /\ (0 < limit -> as_activeStreams s < limit) /\
      r' = <[id := s <| as_activeStreams := as_activeStreams s + 1 |>]> r
  else r' = r /\
    (r !! id = None \/ exists s, r !! id = Some s /\ 0 < limit <= as_activeStreams s).
Proof.
  unfold acquireSessionStream. destruct (r !! id) as [s|] eqn:Hs.
  - destruct ((0 <? limit) && _) eqn:Hc; intros [= <- <-].
    + bools. naive_solver.
    + exists s. split_and!; try done. apply andb_false_iff in Hc as [?|?]; bools; lia.
  - intros [= <- <-]. auto.
Qed.

(** A stream that comes and goes leaves the registry as it was. *)
Lemma acquire_release_session limit id r r' :
  (forall s, r !! id = Some s -> 0 <= as_activeStreams s) ->
  acquireSessionStream limit id r = (true, r') -> releaseSessionStream id r' = r.
Proof.
  intros Hpos (s & Hs & _ & ->)%acquireSessionStream_spec.
  unfold releaseSessionStream. rewrite lookup_insert_eq. simpl.
  specialize (Hpos s Hs). destruct (Z.ltb_spec 0 (as_activeStreams s + 1)); [|lia].
  rewrite insert_insert_eq. apply insert_id. rewrite Hs. f_equal.
  destruct s; simpl. f_equal. lia.
Qed.

(** ** Properties *)

Definition is_close (e : close_event) : bool :=
  match e with EvCloseConn _ => true | _ => false end.

Lemma close_sessions_count reason now user_at l :
  countb is_close (concat (close_session reason now user_at <$> l)) = Z.of_nat (length l).
Proof.
  induction l as [|[id s] l IH]; [done|].
  rewrite fmap_cons. cbn [concat]. rewrite countb_app, IH. simpl. lia.
Qed.

(** The snapshot holds exactly the registered sessions, each once. *)
Lemma snapshots_elem order r id s :
  visits order r -> (id, s) ∈ snapshots order r <-> r !! id = Some s.
Proof.
  intros Hv. assert (Hin : (id, s) ∈ snapshots order r <-> id ∈ order /\ r !! id = Some s).
  { clear Hv. induction order as [|k order IH]; simpl; [set_solver|].
    destruct (r !! k) as [t|] eqn:Hk; rewrite ?elem_of_cons, IH; naive_solver. }
  rewrite Hin. split; [by intros [_ ?]|]. intros Hs. split; [|done].
  red in Hv. rewrite Hv. apply list_elem_of_fmap. exists (id, s). split; [done|].
  by apply elem_of_map_to_list.
Qed.

Lemma snapshots_length order r : visits order r -> length (snapshots order r) = size r.
Proof.
  intros Hv. red in Hv. rewrite <- length_map_to_list, <- (length_fmap fst (map_to_list r)), <- Hv.
  assert (Hkeys : Forall (fun id => is_Some (r !! id)) order).
  { rewrite Hv. apply Forall_fmap, Forall_forall. intros [k t] Hk%elem_of_map_to_list. by eexists. }
  clear Hv. induction Hkeys as [|k order [t Hk] _ IH]; simpl; [done|]. rewrite Hk. simpl. by rewrite IH.
Qed.

(** C21.  Unloading the configuration terminates every active session: in whatever order the
    registry is visited, each registered session has its context cancelled, its
    connection closed and its end logged, and nothing else is closed. *)
Theorem closeActiveSessions_complete reason now user_at order r :
  visits order r ->
  let events := closeActiveSessions reason now user_at order r in
  (forall id s, r !! id = Some s ->
     EvCancel (as_cancel s) ∈ events /\ EvCloseConn (as_conn s) ∈ events /\
     EvLogTerminated id reason (user_at id) (now - as_startedAt s) ∈ events) /\
  countb is_close events = activeSessionCount r.
Proof.
  intros Hv events. split.
  - intros id s Hs. apply (snapshots_elem order r id s Hv) in Hs.
    assert (Hin : forall e, e ∈ close_session reason now user_at (id, s) -> e ∈ events).
    { intros e He. unfold events, closeActiveSessions. apply list_elem_of_In, List.in_concat.
      eexists. split; [|by apply list_elem_of_In].
      apply list_elem_of_In. by apply list_elem_of_fmap_2. }
    split_and!; apply Hin; simpl; set_solver.
  - unfold events, closeActiveSessions, activeSessionCount.
    by rewrite close_sessions_count, snapshots_length.
Qed.

Definition two_sessions : registry :=
  updateSessionUser 2 "alice" (registerSession 2 12 22 5 (registerSession 1 11 21 3 newSessionRegistry)).

Lemma closeActiveSessions_complete_witness :
  visits [2; 1] two_sessions /\
  let events := closeActiveSessions "config_unload" 9 (fun _ => "alice") [2; 1] two_sessions in
  (forall id s, two_sessions !! id = Some s ->
     EvCancel (as_cancel s) ∈ events /\ EvCloseConn (as_conn s) ∈ events /\
     EvLogTerminated id "config_unload" "alice" (9 - as_startedAt s) ∈ events) /\
  countb is_close events = activeSessionCount two_sessions /\ activeSessionCount two_sessions = 2.
Proof.
  assert (Hv : visits [2; 1] two_sessions).
  { unfold visits. vm_compute (map_to_list two_sessions).*1. solve [reflexivity|apply Permutation_swap]. }
  split; [exact Hv|]. intros events.
  destruct (closeActiveSessions_complete "config_unload" 9 (fun _ => "alice") [2; 1] two_sessions Hv)
    as [H1 H2].
  split; [exact H1|]. split; [exact H2|]. reflexivity.
Defined.
