(* ===== verification/Limits.v ===== *)
(** * Concurrency limits

    limits.go and its use of the session registry, as goroutines that interleave at
    the atomic operations of the source: the load and the compare-and-swap of the
    counter loops, the atomic additions and the critical sections of the registry. *)

From S2P Require Import Prelude Wrapper Registry.

Local Open Scope Z_scope.

(** Two's-complement wrap-around of the 64-bit counters. *)
Definition wrap64 (x : Z) : Z := (x + 2 ^ 63) mod 2 ^ 64 - 2 ^ 63.

Lemma wrap64_small x : - 2 ^ 63 <= x < 2 ^ 63 -> wrap64 x = x.
Proof. intros H. unfold wrap64. rewrite Z.mod_small by lia. lia. Qed.

(** ** The compare-and-swap loop *)

(** Where a goroutine is in [for { load; compare; CompareAndSwap }]. *)
Inductive cas_pc := CasLoad | CasSwap (current : Z) | CasDone (ok : bool).

(** One atomic operation of the loop, against the counter's value at that time. *)
Definition cas_step (limit : Z) (pc : cas_pc) (counter : Z) : cas_pc * Z :=
  match pc with
  | CasLoad =>
      if limit <=? counter then (CasDone false, counter) else (CasSwap counter, counter)
  | CasSwap current =>
      if counter =? current then (CasDone true, wrap64 (current + 1)) else (CasLoad, counter)
  | CasDone ok => (CasDone ok, counter)
  end.

Fixpoint cas_run (fuel : nat) (limit : Z) (pc : cas_pc) (counter : Z) : bool * Z :=
  match pc, fuel with
  | CasDone ok, _ => (ok, counter)
  | _, O => (false, counter)
  | _, S fuel => let '(pc, counter) := cas_step limit pc counter in cas_run fuel limit pc counter
  end.

(** limits.go, [acquireCounter] without interference: the first turn of the loop
    returns, after two atomic operations. *)
Definition acquireCounter (counter limit : Z) : bool * Z :=
  if limit <=? 0 then (true, counter) else cas_run 2 limit CasLoad counter.

(** limits.go, [acquire] and [release], on the counter [active]. *)
Definition acquire (MaxConcurrent active : Z) : bool * Z :=
  if MaxConcurrent <=? 0 then (true, active) else cas_run 2 MaxConcurrent CasLoad active.

Definition release (MaxConcurrent active : Z) : Z :=
  if MaxConcurrent <=? 0 then active else wrap64 (active - 1).

(** limits.go, [acquireStream] and [releaseStream], without interference. *)
Definition acquireStream (c : Config) (connectionID : Z) (activeStreams : Z) (r : registry)
    : bool * Z * registry :=
  let '(ok, r) := acquireSessionStream (MaxStreamsPerSession c) connectionID r in
  if negb ok then (false, activeStreams, r)
  else
    let '(ok, activeStreams) := acquireCounter activeStreams (MaxConcurrentStreams c) in
    if negb ok then (false, activeStreams, releaseSessionStream connectionID r)
    else (true, activeStreams, r).

Definition releaseStream (c : Config) (connectionID : Z) (activeStreams : Z) (r : registry)
    : Z * registry :=
  let activeStreams :=
    if 0 <? MaxConcurrentStreams c then wrap64 (activeStreams - 1) else activeStreams in
  (activeStreams, releaseSessionStream connectionID r).

(** anytls.go, [nextConnectionID]: the new value of [connSeq] is the id. *)
Definition nextConnectionID (connSeq : Z) : Z := (connSeq + 1) mod 2 ^ 64.

(** ** Goroutines *)

(** The state all goroutines share. *)
Record Shared := mkShared {
  sh_active : Z;
  sh_activeStreams : Z;
  sh_connSeq : Z;
  sh_sessions : registry
}.

#[export] Instance Eta_Shared : Eta Shared := record_eta (
  fun s => mkShared (sh_active s) (sh_activeStreams s) (sh_connSeq s) (sh_sessions s)).

(** Where a goroutine is.  A connection: [processAcceptedConn] takes an id and classifies the
    connection, which may send it away; for an AnyTLS connection [routeBufferedConn] acquires, [serveAnyTLS] registers, serves, unregisters and
    releases.  A stream: [NewConnectionEx] acquires its session's slot and the
    global one, rolling the first back if the second fails, and its close handler
    releases both. *)
Inductive pc :=
| ConnStart
| ConnClassify (id : Z)
| ConnAcquire (id : Z) (p : cas_pc)
| ConnServing (id : Z)
| ConnRegistered (id : Z)
| ConnUnregistered (id : Z)
| StreamStart (id : Z)
| StreamAcquire (id : Z) (p : cas_pc)
| StreamRollback (id : Z)
| StreamOpen (id : Z)
| StreamReleasing (id : Z)
| Done.

(** The next atomic operation of a goroutine; a connection under classification goes on as
    an AnyTLS connection, see [step_route_away] for the others. *)
Definition thread_step (c : Config) (s : Shared) (p : pc) : option (Shared * pc) :=
  match p with
  | ConnStart =>
      let id := nextConnectionID (sh_connSeq s) in
      Some (s <| sh_connSeq := id |>, ConnClassify id)
  | ConnClassify id => Some (s, ConnAcquire id CasLoad)
  | ConnAcquire id (CasDone false) => Some (s, Done)
  | ConnAcquire id (CasDone true) => Some (s, ConnServing id)
  | ConnAcquire id q =>
      if MaxConcurrent c <=? 0 then Some (s, ConnServing id)
      else let '(q, active) := cas_step (MaxConcurrent c) q (sh_active s) in
           Some (s <| sh_active := active |>, ConnAcquire id q)
  | ConnServing id =>
      Some (s <| sh_sessions := registerSession id id id 0 (sh_sessions s) |>, ConnRegistered id)
  | ConnRegistered id =>
      Some (s <| sh_sessions := unregisterSession id (sh_sessions s) |>, ConnUnregistered id)
  | ConnUnregistered id =>
      Some (s <| sh_active := release (MaxConcurrent c) (sh_active s) |>, Done)
  | StreamStart id =>
      let '(ok, r) := acquireSessionStream (MaxStreamsPerSession c) id (sh_sessions s) in
      Some (s <| sh_sessions := r |>, if ok then StreamAcquire id CasLoad else Done)
  | StreamAcquire id (CasDone false) => Some (s, StreamRollback id)
  | StreamAcquire id (CasDone true) => Some (s, StreamOpen id)
  | StreamAcquire id q =>
      if MaxConcurrentStreams c <=? 0 then Some (s, StreamOpen id)
      else let '(q, n) := cas_step (MaxConcurrentStreams c) q (sh_activeStreams s) in
           Some (s <| sh_activeStreams := n |>, StreamAcquire id q)
  | StreamRollback id =>
      Some (s <| sh_sessions := releaseSessionStream id (sh_sessions s) |>, Done)
  | StreamOpen id =>
      Some ((if 0 <? MaxConcurrentStreams c
             then s <| sh_activeStreams := wrap64 (sh_activeStreams s - 1) |> else s),
            StreamReleasing id)
  | StreamReleasing id =>
      Some (s <| sh_sessions := releaseSessionStream id (sh_sessions s) |>, Done)
  | Done => None
  end.

Record System := mkSystem { sys_shared : Shared; sys_threads : list pc }.

(** Any goroutine moves; a connection is closed or handed to the website without asking for
    a slot; the listener accepts a connection; the AnyTLS service opens a stream on some
    connection id; a handler records the user of a session. *)
Inductive step (c : Config) : System -> System -> Prop :=
| step_thread s ts i p s' p' :
    ts !! i = Some p -> thread_step c s p = Some (s', p') ->
    step c (mkSystem s ts) (mkSystem s' (<[i := p']> ts))
| step_route_away s ts i id :
    ts !! i = Some (ConnClassify id) ->
    step c (mkSystem s ts) (mkSystem s (<[i := Done]> ts))
| step_accept s ts :
    step c (mkSystem s ts) (mkSystem s (ts ++ [ConnStart]))
| step_open_stream s ts id :
    step c (mkSystem s ts) (mkSystem s (ts ++ [StreamStart id]))
| step_update_user s ts id user :
    step c (mkSystem s ts)
           (mkSystem (s <| sh_sessions := updateSessionUser id user (sh_sessions s) |>) ts).

Definition initial : System := mkSystem (mkShared 0 0 0 newSessionRegistry) [].

(** ** Undisturbed runs *)

Lemma cas_run_load limit counter :
  limit < 2 ^ 63 -> - 2 ^ 63 <= counter ->
  cas_run 2 limit CasLoad counter =
  if limit <=? counter then (false, counter) else (true, counter + 1).
Proof.
  intros H1 H2. simpl. destruct (Z.leb_spec limit counter); [done|].
  simpl. rewrite Z.eqb_refl. simpl. by rewrite wrap64_small by lia.
Qed.

(** ** A counting semaphore

    What each of the two counters has to be: goroutines acquire and release one
    slot, a slot is taken only below the limit, and the counter is the number of
    holders. *)

Inductive role := Free | Swapping (current : Z) | Holding.

Definition is_holding (r : role) : bool := match r with Holding => true | _ => false end.

Inductive sem_step (limit : Z) : Z -> role -> Z -> role -> Prop :=
| sem_stay n r : sem_step limit n r n r
| sem_load n r : r <> Holding -> n < limit -> sem_step limit n r n (Swapping n)
| sem_give_up n r : r <> Holding -> sem_step limit n r n Free
| sem_swap n : sem_step limit n (Swapping n) (wrap64 (n + 1)) Holding
| sem_release n : sem_step limit n Holding (wrap64 (n - 1)) Free.

Record sem_inv (limit n : Z) (roles : list role) : Prop := {
  sem_count : n = countb is_holding roles;
  sem_bound : n <= limit;
  sem_pending : forall current, Swapping current ∈ roles -> current < limit
}.

Lemma sem_inv_step limit n roles i r n' r' :
  0 < limit < 2 ^ 63 -> roles !! i = Some r -> sem_step limit n r n' r' ->
  sem_inv limit n roles -> sem_inv limit n' (<[i := r']> roles).
Proof.
  intros Hlim Hi Hstep [Hc Hb Hp].
  pose proof (countb_nonneg is_holding roles) as Hnn.
  assert (Hhold : r = Holding -> 1 <= countb is_holding roles).
  { intros ->. by eapply (countb_lookup is_holding). }
  assert (Hpend : forall current, Swapping current ∈ <[i:=r']> roles ->
    r' = Swapping current \/ current < limit).
  { intros current [j Hj]%list_elem_of_lookup.
    apply list_lookup_insert_Some in Hj as [(_ & -> & _)|(_ & Hj)]; [by left|].
    right. by eapply Hp, list_elem_of_lookup_2. }
  pose proof (list_elem_of_lookup_2 _ _ _ Hi) as Hin.
  split; [rewrite (countb_insert _ _ _ _ r' Hi)|..]; destruct Hstep; simpl in *;
    try (specialize (Hp _ Hin)); try (specialize (Hhold eq_refl));
    rewrite ?wrap64_small by lia; try lia.
  all: try (destruct r; simpl; lia || done).
  all: intros current Hcur; destruct (Hpend current Hcur) as [[=]|?]; subst; eauto.
Qed.

Lemma sem_inv_snoc limit n roles :
  sem_inv limit n roles -> sem_inv limit n (roles ++ [Free]).
Proof.
  intros [Hc Hb Hp]. split; [rewrite countb_app; simpl; lia|done|].
  intros current [H|H]%elem_of_app; [auto|]. by apply list_elem_of_singleton in H.
Qed.

(** ** The two counters are semaphores *)

Definition cas_role (p : cas_pc) : role :=
  match p with CasSwap current => Swapping current | CasDone true => Holding | _ => Free end.

Definition conn_role (p : pc) : role :=
  match p with
  | ConnAcquire _ q => cas_role q
  | ConnServing _ | ConnRegistered _ | ConnUnregistered _ => Holding
  | _ => Free
  end.

Definition stream_role (p : pc) : role :=
  match p with
  | StreamAcquire _ q => cas_role q
  | StreamOpen _ => Holding
  | _ => Free
  end.

Lemma cas_step_sem limit q n q' n' :
  (forall ok, q <> CasDone ok) -> cas_step limit q n = (q', n') ->
  sem_step limit n (cas_role q) n' (cas_role q').
Proof.
  intros Hq. unfold cas_step. destruct q as [|current|ok]; [..|by destruct (Hq ok)];
    case_match; intros [= <- <-]; bools; simpl; subst; by constructor.
Qed.

(** Closes a transition that leaves a semaphore alone. *)
Ltac sem_same := simplify_eq/=; first [apply sem_stay | by apply sem_give_up | apply sem_release].

Lemma thread_step_conn c s p s' p' :
  0 < MaxConcurrent c -> thread_step c s p = Some (s', p') ->
  sem_step (MaxConcurrent c) (sh_active s) (conn_role p) (sh_active s') (conn_role p').
Proof.
  intros Hlim. unfold thread_step, release.
  destruct (Z.leb_spec (MaxConcurrent c) 0); [lia|].
  destruct p as [|id|id q| | | |id|id q| |id| |]; intros Hp; try (by sem_same).
  - destruct q as [| |[]]; try (by sem_same);
      destruct (cas_step _ _ _) as [q' n'] eqn:Hq; injection Hp as <- <-;
      by eapply cas_step_sem in Hq.
  - destruct (acquireSessionStream _ _ _) as [[] r]; sem_same.
  - destruct q as [| |[]]; repeat case_match; sem_same.
  - case_match; sem_same.
Qed.

Lemma thread_step_stream c s p s' p' :
  0 < MaxConcurrentStreams c -> thread_step c s p = Some (s', p') ->
  sem_step (MaxConcurrentStreams c) (sh_activeStreams s) (stream_role p)
           (sh_activeStreams s') (stream_role p').
Proof.
  intros Hlim. unfold thread_step.
  destruct (Z.leb_spec (MaxConcurrentStreams c) 0); [lia|].
  destruct (Z.ltb_spec 0 (MaxConcurrentStreams c)); [|lia].
  destruct p as [|id|id q| | | |id|id q| |id| |]; intros Hp; try (by sem_same).
  - destruct q as [| |[]]; repeat case_match; sem_same.
  - destruct (acquireSessionStream _ _ _) as [[] r]; sem_same.
  - destruct q as [| |[]]; try (by sem_same);
      destruct (cas_step _ _ _) as [q' n'] eqn:Hq; injection Hp as <- <-;
      by eapply cas_step_sem in Hq.
Qed.

Definition conn_inv (c : Config) (x : System) : Prop :=
  0 < MaxConcurrent c ->
  sem_inv (MaxConcurrent c) (sh_active (sys_shared x)) (conn_role <$> sys_threads x).

Definition stream_inv (c : Config) (x : System) : Prop :=
  0 < MaxConcurrentStreams c ->
  sem_inv (MaxConcurrentStreams c) (sh_activeStreams (sys_shared x))
          (stream_role <$> sys_threads x).

(** The limits are Go ints. *)
Definition int_limits (c : Config) : Prop :=
  MaxConcurrent c < 2 ^ 63 /\ MaxConcurrentStreams c < 2 ^ 63.

Lemma conn_inv_step c x y :
  int_limits c -> step c x y -> conn_inv c x -> conn_inv c y.
Proof.
  intros [Hmax _] Hstep Hinv Hlim. specialize (Hinv Hlim).
  destruct Hstep as [s ts i p s' p' Hi Hp|s ts i id Hi|s ts|s ts id|s ts id user]; simpl in *;
    rewrite ?fmap_app; try (by apply sem_inv_snoc); [| |done];
    rewrite list_fmap_insert; (eapply sem_inv_step; [lia|by rewrite list_lookup_fmap, Hi| |done]);
    [by apply thread_step_conn|apply sem_stay].
Qed.

Lemma stream_inv_step c x y :
  int_limits c -> step c x y -> stream_inv c x -> stream_inv c y.
Proof.
  intros [_ Hmax] Hstep Hinv Hlim. specialize (Hinv Hlim).
  destruct Hstep as [s ts i p s' p' Hi Hp|s ts i id Hi|s ts|s ts id|s ts id user]; simpl in *;
    rewrite ?fmap_app; try (by apply sem_inv_snoc); [| |done];
    rewrite list_fmap_insert; (eapply sem_inv_step; [lia|by rewrite list_lookup_fmap, Hi| |done]);
    [by apply thread_step_stream|apply sem_stay].
Qed.

(** ** The stream counts of the sessions

    Per connection id: how many goroutines are about to register it, have it
    registered, and hold one of its stream slots. *)

Definition unregistered_yet (id : Z) (p : pc) : bool :=
  match p with ConnClassify id' | ConnAcquire id' _ | ConnServing id' => id' =? id | _ => false end.

Definition registered (id : Z) (p : pc) : bool :=
  match p with ConnRegistered id' => id' =? id | _ => false end.

Definition holds_session (id : Z) (p : pc) : bool :=
  match p with
  | StreamAcquire id' _ | StreamRollback id' | StreamOpen id' | StreamReleasing id' => id' =? id
  | _ => false
  end.

Record session_inv (c : Config) (x : System) (id : Z) : Prop := {
  si_fresh : sh_connSeq (sys_shared x) < id ->
    countb (unregistered_yet id) (sys_threads x) = 0 /\
    countb (registered id) (sys_threads x) = 0 /\
    countb (holds_session id) (sys_threads x) = 0;
  si_unique :
    countb (unregistered_yet id) (sys_threads x) + countb (registered id) (sys_threads x) <= 1;
  si_early : 1 <= countb (unregistered_yet id) (sys_threads x) ->
    countb (holds_session id) (sys_threads x) = 0;
  si_session : forall s, sh_sessions (sys_shared x) !! id = Some s ->
    1 <= countb (registered id) (sys_threads x) /\
    as_activeStreams s = countb (holds_session id) (sys_threads x) /\
    (0 < MaxStreamsPerSession c -> as_activeStreams s <= MaxStreamsPerSession c)
}.

(** The registry entry of [id] after a step on the entry of [id']. *)
Lemma updateSessionUser_lookup r id' id user s :
  updateSessionUser id' user r !! id = Some s ->
  exists s0, r !! id = Some s0 /\ as_activeStreams s = as_activeStreams s0.
Proof.
  unfold updateSessionUser. destruct (r !! id') as [s1|] eqn:H1; [|eauto].
  rewrite lookup_insert. case_decide; [|eauto]. intros [= <-]. subst. eauto.
Qed.

Lemma acquireSessionStream_lookup limit r r' id' id s :
  acquireSessionStream limit id' r = (true, r') -> r' !! id = Some s ->
  exists s0, r !! id = Some s0 /\
    as_activeStreams s = as_activeStreams s0 + (if id' =? id then 1 else 0) /\
    (id' = id -> 0 < limit -> as_activeStreams s0 < limit).
Proof.
  intros (s1 & Hs1 & Hlt & ->)%acquireSessionStream_spec.
  rewrite lookup_insert. case_decide; subst.
  - intros [= <-]. rewrite Z.eqb_refl. eauto.
  - intros Hs. exists s. destruct (Z.eqb_spec id' id); [done|]. split_and!; lia || done.
Qed.

Lemma releaseSessionStream_lookup r id' id s :
  releaseSessionStream id' r !! id = Some s ->
  exists s0, r !! id = Some s0 /\
    (as_activeStreams s = as_activeStreams s0 - (if id' =? id then 1 else 0) \/
     as_activeStreams s0 <= 0 /\ s = s0).
Proof.
  unfold releaseSessionStream. destruct (r !! id') as [s1|] eqn:H1.
  - destruct (Z.ltb_spec 0 (as_activeStreams s1)).
    + rewrite lookup_insert. case_decide; subst.
      * intros [= <-]. rewrite Z.eqb_refl. eauto.
      * intros Hs. exists s. destruct (Z.eqb_spec id' id); [done|]. split; [done|]. left. lia.
    + intros Hs. exists s. split; [done|]. destruct (Z.eqb_spec id' id); subst; [|left; lia].
      right. naive_solver.
  - intros Hs. exists s. split; [done|]. destruct (Z.eqb_spec id' id); [|left; lia]. congruence.
Qed.

(** The counts after a goroutine moved from [p] to [p']. *)
Lemma session_counts ts i p p' id :
  ts !! i = Some p ->
  let b2z (b : bool) := if b then 1 else 0 in
  countb (unregistered_yet id) (<[i:=p']> ts) = countb (unregistered_yet id) ts
    - b2z (unregistered_yet id p) + b2z (unregistered_yet id p') /\
  countb (registered id) (<[i:=p']> ts) = countb (registered id) ts
    - b2z (registered id p) + b2z (registered id p') /\
  countb (holds_session id) (<[i:=p']> ts) = countb (holds_session id) ts
    - b2z (holds_session id p) + b2z (holds_session id p') /\
  (unregistered_yet id p = true -> 1 <= countb (unregistered_yet id) ts) /\
  (registered id p = true -> 1 <= countb (registered id) ts) /\
  (holds_session id p = true -> 1 <= countb (holds_session id) ts).
Proof.
  intros Hi b2z. rewrite !(countb_insert _ _ _ _ p' Hi).
  split_and!; try done; intros; by eapply countb_lookup.
Qed.

(** The fields of [session_inv] that are arithmetic; the entry of an untouched
    session; the entry of one that lost a stream. *)
Local Ltac arith := split; simpl in *; [lia..|].
Local Ltac sess Hsess :=
  let s := fresh "s" in let Hs := fresh "Hs" in
  intros s Hs; destruct (Hsess s Hs) as (? & ? & ?); lia.
Local Ltac release_sess Hsess :=
  let s := fresh "s" in let Hs := fresh "Hs" in
  let s0 := fresh "s" in let Hs0 := fresh "Hs" in let Hn := fresh "Hn" in
  intros s Hs;
  destruct (releaseSessionStream_lookup _ _ _ _ Hs) as (s0 & Hs0 & Hn);
  destruct (Hsess s0 Hs0) as (? & ? & ?);
  repeat match type of Hn with context [Z.eqb ?a ?b] =>
    destruct (Z.eqb_spec a b); [try done|try done] end;
  destruct Hn as [?|[? ->]]; lia.

(** The facts every case of the two lemmas below starts from. *)
Local Ltac session_setup :=
  intros Hseq Hi Hp [Hfresh Huniq Hearly Hsess]; simpl in *;
  match goal with
  | Hi : ?ts !! ?i = Some ?p, Hp : thread_step _ ?s ?p = Some (_, ?p') |- session_inv _ _ ?id =>
      destruct (session_counts ts i p p' id Hi) as (HU & HR & HH & HpU & HpR & HpH);
      pose proof (countb_nonneg (unregistered_yet id) ts);
      pose proof (countb_nonneg (registered id) ts);
      pose proof (countb_nonneg (holds_session id) ts);
      assert (Hnext : nextConnectionID (sh_connSeq s) = sh_connSeq s + 1)
        by (unfold nextConnectionID; rewrite Z.mod_small; lia);
      destruct p as [|id1|id1 q|id1|id1|id1|id1|id1 q|id1|id1|id1|]; simpl in *; try done
  end.

Definition is_conn (p : pc) : bool :=
  match p with
  | ConnStart | ConnClassify _ | ConnAcquire _ _ | ConnServing _ | ConnRegistered _ | ConnUnregistered _ => true
  | _ => false
  end.

Lemma session_inv_conn c s ts i p s' p' id :
  is_conn p = true ->
  0 <= sh_connSeq s < 2 ^ 64 - 1 ->
  ts !! i = Some p -> thread_step c s p = Some (s', p') ->
  session_inv c (mkSystem s ts) id -> session_inv c (mkSystem s' (<[i:=p']> ts)) id.
Proof.
  intros Hconn. session_setup.
  - rewrite Hnext in *. simplify_eq/=. destruct (Z.eqb_spec (sh_connSeq s + 1) id); subst.
    + destruct (Hfresh ltac:(lia)) as (? & ? & ?). arith. sess Hsess.
    + arith. sess Hsess.
  - simplify_eq/=. destruct (id1 =? id); arith; sess Hsess.
  - assert (Hsame : sh_sessions s' = sh_sessions s /\ sh_connSeq s' = sh_connSeq s /\
      (p' = Done \/ p' = ConnServing id1 \/ exists q', p' = ConnAcquire id1 q')).
    { repeat case_match; simplify_eq/=; naive_solver. }
    destruct Hsame as (HS & HQ & Hcases).
    destruct Hcases as [->|[->|[q' ->]]]; simpl in *; destruct (id1 =? id);
      try specialize (HpU eq_refl); arith; rewrite HS; sess Hsess.
  - simplify_eq/=. destruct (Z.eqb_spec id1 id); subst.
    + specialize (HpU eq_refl). arith. unfold registerSession.
      rewrite lookup_insert_eq. intros s1 [= <-]. simpl. lia.
    + arith. unfold registerSession. rewrite lookup_insert_ne by done. sess Hsess.
  - simplify_eq/=. unfold unregisterSession. destruct (Z.eqb_spec id1 id); subst.
    + specialize (HpR eq_refl). arith. by rewrite lookup_delete_eq.
    + arith. rewrite lookup_delete_ne by done. sess Hsess.
  - simplify_eq/=. arith. sess Hsess.
Qed.

Lemma session_inv_stream c s ts i p s' p' id :
  is_conn p = false ->
  0 <= sh_connSeq s < 2 ^ 64 - 1 ->
  ts !! i = Some p -> thread_step c s p = Some (s', p') ->
  session_inv c (mkSystem s ts) id -> session_inv c (mkSystem s' (<[i:=p']> ts)) id.
Proof.
  intros Hconn. session_setup.
  - destruct (acquireSessionStream _ id1 _) as [[] r] eqn:Hacq; simplify_eq/=.
    + assert (Hreg : id1 = id -> exists s0, sh_sessions s !! id = Some s0).
      { intros ->. apply acquireSessionStream_spec in Hacq as (s0 & ? & _). eauto. }
      destruct (Z.eqb_spec id1 id) as [->|].
      * destruct (Hreg eq_refl) as [s0 Hs0]. destruct (Hsess s0 Hs0) as (? & ? & ?).
        arith. intros s1 Hs1.
        destruct (acquireSessionStream_lookup _ _ _ _ _ _ Hacq Hs1) as (s2 & ? & Hn & Hlt).
        rewrite Z.eqb_refl in Hn. simplify_eq. lia.
      * arith. intros s1 Hs1.
        destruct (acquireSessionStream_lookup _ _ _ _ _ _ Hacq Hs1) as (s2 & Hs2 & Hn & _).
        destruct (Z.eqb_spec id1 id); [done|]. destruct (Hsess s2 Hs2). lia.
    + apply acquireSessionStream_spec in Hacq as [-> _]. arith. sess Hsess.
  - assert (Hsame : sh_sessions s' = sh_sessions s /\ sh_connSeq s' = sh_connSeq s /\
      holds_session id p' = (id1 =? id) /\ unregistered_yet id p' = false /\
      registered id p' = false).
    { repeat case_match; simplify_eq/=; naive_solver. }
    destruct Hsame as (HS & HQ & Hh & Hu & Hr). rewrite Hh, Hu, Hr in *.
    arith. rewrite HS. sess Hsess.
  - simplify_eq/=. destruct (Z.eqb_spec id1 id); subst; try specialize (HpH eq_refl);
      arith; release_sess Hsess.
  - assert (Hsame : sh_sessions s' = sh_sessions s /\ sh_connSeq s' = sh_connSeq s /\
      p' = StreamReleasing id1) by (repeat case_match; simplify_eq/=; naive_solver).
    destruct Hsame as (HS & HQ & ->). simpl in *. arith. rewrite HS. sess Hsess.
  - simplify_eq/=. destruct (Z.eqb_spec id1 id); subst; try specialize (HpH eq_refl);
      arith; release_sess Hsess.
Qed.

Lemma session_inv_route_away c s ts i id' id :
  ts !! i = Some (ConnClassify id') ->
  session_inv c (mkSystem s ts) id -> session_inv c (mkSystem s (<[i:=Done]> ts)) id.
Proof.
  intros Hi [Hfresh Huniq Hearly Hsess]; simpl in *.
  destruct (session_counts ts i _ Done id Hi) as (HU & HR & HH & HpU & _ & _); simpl in *.
  pose proof (countb_nonneg (unregistered_yet id) ts). pose proof (countb_nonneg (registered id) ts).
  pose proof (countb_nonneg (holds_session id) ts).
  destruct (id' =? id); [specialize (HpU eq_refl)|]; arith; sess Hsess.
Qed.

Lemma session_inv_snoc c s ts p id :
  unregistered_yet id p = false -> registered id p = false -> holds_session id p = false ->
  session_inv c (mkSystem s ts) id -> session_inv c (mkSystem s (ts ++ [p])) id.
Proof.
  intros Hu Hr Hh [? ? ? ?]; simpl in *.
  split; simpl; rewrite !countb_app; simpl; rewrite ?Hu, ?Hr, ?Hh, !Z.add_0_r; done.
Qed.

(** ** Reachable states

    [nextConnectionID] wraps around after 2^64 connections, so the invariant is
    stated for runs shorter than that. *)

Definition reachable (c : Config) (n : nat) (x : System) : Prop :=
  nsteps (step c) n initial x.

Lemma connSeq_step c x y :
  step c x y -> 0 <= sh_connSeq (sys_shared x) < 2 ^ 64 - 1 ->
  0 <= sh_connSeq (sys_shared y) <= sh_connSeq (sys_shared x) + 1.
Proof.
  intros Hstep Hx. destruct Hstep as [s ts i p s' p' Hi Hp|s ts i id Hi|s ts|s ts id|s ts id user];
    simpl in *; try lia.
  unfold thread_step, nextConnectionID in Hp.
  repeat case_match; simplify_eq/=; try lia. rewrite Z.mod_small; lia.
Qed.

Record inv (c : Config) (n : nat) (x : System) : Prop := {
  inv_conn : conn_inv c x;
  inv_stream : stream_inv c x;
  inv_session : forall id, session_inv c x id;
  inv_connSeq : 0 <= sh_connSeq (sys_shared x) <= Z.of_nat n
}.

Lemma inv_step c n x y :
  int_limits c -> Z.of_nat (S n) < 2 ^ 64 -> step c x y -> inv c n x -> inv c (S n) y.
Proof.
  intros Hlim Hn Hstep [Hc Hs Hse Hq]. split.
  - by eapply conn_inv_step.
  - by eapply stream_inv_step.
  - intros id. specialize (Hse id).
    destruct Hstep as [s ts i p s' p' Hi Hp|s ts i id' Hi|s ts|s ts id'|s ts id' user]; simpl in *.
    + destruct (is_conn p) eqn:Hconn;
        [eapply session_inv_conn|eapply session_inv_stream]; eauto; lia.
    + by eapply session_inv_route_away.
    + by apply session_inv_snoc.
    + by apply session_inv_snoc.
    + destruct Hse as [? ? ? Hsess]. split; simpl in *; try done.
      intros s1 (s0 & Hs0 & ->)%updateSessionUser_lookup. by apply Hsess.
  - pose proof (connSeq_step _ _ _ Hstep). lia.
Qed.

Lemma inv_initial c : inv c 0 initial.
Proof.
  split; simpl; [| | |lia].
  - intros Hlim. split; simpl; [done|lia|]. intros ? H. by apply not_elem_of_nil in H.
  - intros Hlim. split; simpl; [done|lia|]. intros ? H. by apply not_elem_of_nil in H.
  - intros id. split; simpl; [done|lia|done|done].
Qed.

Lemma reachable_inv c n x :
  int_limits c -> Z.of_nat n < 2 ^ 64 -> reachable c n x -> inv c n x.
Proof.
  intros Hlim. revert x. induction n as [|n IH]; intros x Hn Hr.
  - inversion Hr; subst. apply inv_initial.
  - apply nsteps_inv_r in Hr as (y & Hr & Hstep).
    eapply inv_step; eauto. apply IH; [lia|done].
Qed.

(** A schedule as data, so that runs can be computed. *)
Inductive action :=
| Move (i : nat)
| RouteAway (i : nat)
| AcceptConn
| OpenStream (id : Z)
| RecordUser (id : Z) (user : string).

Definition perform (c : Config) (a : action) (x : System) : option System :=
  match a with
  | Move i =>
      match sys_threads x !! i with
      | Some p =>
          match thread_step c (sys_shared x) p with
          | Some (s', p') => Some (mkSystem s' (<[i := p']> (sys_threads x)))
          | None => None
          end
      | None => None
      end
  | RouteAway i =>
      match sys_threads x !! i with
      | Some (ConnClassify _) => Some (mkSystem (sys_shared x) (<[i := Done]> (sys_threads x)))
      | _ => None
      end
  | AcceptConn => Some (mkSystem (sys_shared x) (sys_threads x ++ [ConnStart]))
  | OpenStream id => Some (mkSystem (sys_shared x) (sys_threads x ++ [StreamStart id]))
  | RecordUser id user =>
      Some (mkSystem (sys_shared x <| sh_sessions := updateSessionUser id user
                                        (sh_sessions (sys_shared x)) |>) (sys_threads x))
  end.

Fixpoint perform_all (c : Config) (acts : list action) (x : System) : option System :=
  match acts with
  | [] => Some x
  | a :: acts =>
      match perform c a x with
      | Some y => perform_all c acts y
      | None => None
      end
  end.

Lemma perform_step c a x y : perform c a x = Some y -> step c x y.
Proof.
  destruct x as [s ts]. destruct a; simpl; intros H; repeat case_match; simplify_eq/=;
    by econstructor.
Qed.

Lemma perform_all_reachable c acts x y n :
  reachable c n x -> perform_all c acts x = Some y -> reachable c (n + length acts) y.
Proof.
  revert x n. induction acts as [|a acts IH]; intros x n Hx; simpl.
  - intros [= <-]. by rewrite Nat.add_0_r.
  - destruct (perform c a x) as [z|] eqn:Ha; [|done]. intros Hy.
    replace (n + S (length acts))%nat with (S n + length acts)%nat by lia.
    eapply IH; [|done]. eapply nsteps_r; [done|by eapply perform_step].
Qed.

Lemma perform_all_initial c acts y :
  perform_all c acts initial = Some y -> reachable c (length acts) y.
Proof. apply (perform_all_reachable c acts initial y 0). constructor. Qed.

(** ** Properties *)

Definition holds_conn (p : pc) : bool := is_holding (conn_role p).
Definition holds_global (p : pc) : bool := is_holding (stream_role p).

Lemma countb_fmap {A B} (f : B -> bool) (g : A -> B) l :
  countb f (g <$> l) = countb (fun x => f (g x)) l.
Proof. induction l as [|x l IH]; [done|]. rewrite fmap_cons. cbn [countb]. by rewrite IH. Qed.

(** One user, two connections and two streams allowed. *)
Definition small_limits : Config :=
  zero_Config <| MaxConcurrent := 1 |> <| MaxStreamsPerSession := 1 |>
              <| MaxConcurrentStreams := 2 |>.

(** Two connections race for one slot: both load the counter before either swaps. *)
Definition race : list action :=
  [AcceptConn; AcceptConn; Move 0; Move 0; Move 1; Move 1; Move 0; Move 1; Move 1; Move 0; Move 0; Move 0;
   Move 1; Move 1].

(** C7.  In every interleaving of the connections' goroutines, the counter [active] is
    the number of connections that hold a slot, and never exceeds [MaxConcurrent]:
    the compare-and-swap loop of [acquire] neither loses nor duplicates a slot, and
    [release] never makes the counter negative. *)
Theorem connection_limit c n x :
  int_limits c -> Z.of_nat n < 2 ^ 64 -> reachable c n x -> 0 < MaxConcurrent c ->
  sh_active (sys_shared x) = countb holds_conn (sys_threads x) /\
  0 <= sh_active (sys_shared x) <= MaxConcurrent c.
Proof.
  intros Hl Hn Hr Hlim.
  destruct (inv_conn _ _ _ (reachable_inv c n x Hl Hn Hr) Hlim) as [Hc Hb _].
  rewrite countb_fmap in Hc. pose proof (countb_nonneg holds_conn (sys_threads x)).
  unfold holds_conn in *. lia.
Qed.

Lemma connection_limit_witness :
  exists x, perform_all small_limits race initial = Some x /\
    sys_threads x = [Done; ConnRegistered 2] /\
    sh_active (sys_shared x) = countb holds_conn (sys_threads x) /\
    0 <= sh_active (sys_shared x) <= MaxConcurrent small_limits.
Proof.
  eexists. split; [vm_compute; reflexivity|]. split; [reflexivity|].
  apply (connection_limit small_limits (length race));
    [by vm_compute|by vm_compute|by apply perform_all_initial; vm_compute|by vm_compute].
Defined.

(** C8.  In every interleaving of the streams' goroutines, [activeStreams] is the number of
    streams that hold a global slot and never exceeds [MaxConcurrentStreams]; the
    count of each registered session is the number of its streams that hold one of
    its slots, and never exceeds [MaxStreamsPerSession].  The rollback of a stream
    the global limit refuses is what keeps the second equality. *)
Theorem stream_limits c n x :
  int_limits c -> Z.of_nat n < 2 ^ 64 -> reachable c n x ->
  (0 < MaxConcurrentStreams c ->
   sh_activeStreams (sys_shared x) = countb holds_global (sys_threads x) /\
   0 <= sh_activeStreams (sys_shared x) <= MaxConcurrentStreams c) /\
  (forall id s, sh_sessions (sys_shared x) !! id = Some s ->
   as_activeStreams s = countb (holds_session id) (sys_threads x) /\ 0 <= as_activeStreams s /\
   (0 < MaxStreamsPerSession c -> as_activeStreams s <= MaxStreamsPerSession c)).
Proof.
  intros Hl Hn Hr. destruct (reachable_inv c n x Hl Hn Hr) as [_ Hs Hse _]. split.
  - intros Hlim. destruct (Hs Hlim) as [Hc Hb _]. rewrite countb_fmap in Hc.
    pose proof (countb_nonneg holds_global (sys_threads x)). unfold holds_global in *. lia.
  - intros id s Hid. destruct (si_session _ _ _ (Hse id) s Hid) as (_ & -> & Hb).
    split_and!; [done|apply countb_nonneg|done].
Qed.

(** A connection for the website, and a session of two streams with room for one: the second
    stream is refused. *)
Definition crowded : list action :=
  [AcceptConn; AcceptConn; Move 0; Move 1; RouteAway 1; Move 0; Move 0; Move 0; Move 0; Move 0;
   OpenStream 1; OpenStream 1; Move 2; Move 3; Move 2; Move 2; Move 2].

Lemma stream_limits_witness :
  exists x, perform_all small_limits crowded initial = Some x /\
    sys_threads x = [ConnRegistered 1; Done; StreamOpen 1; Done] /\
    (0 < MaxConcurrentStreams small_limits ->
     sh_activeStreams (sys_shared x) = countb holds_global (sys_threads x) /\
     0 <= sh_activeStreams (sys_shared x) <= MaxConcurrentStreams small_limits) /\
    (forall id s, sh_sessions (sys_shared x) !! id = Some s ->
     as_activeStreams s = countb (holds_session id) (sys_threads x) /\ 0 <= as_activeStreams s /\
     (0 < MaxStreamsPerSession small_limits ->
      as_activeStreams s <= MaxStreamsPerSession small_limits)).
Proof.
  eexists. split; [vm_compute; reflexivity|]. split; [reflexivity|].
  apply (stream_limits small_limits (length crowded));
    [by vm_compute|by vm_compute|by apply perform_all_initial; vm_compute].
Defined.

(** C20.  Nothing leaks: once every goroutine has finished, whatever the interleaving and
    whichever acquisitions were refused, both counters are back to zero and no session
    is registered. *)
Theorem counters_return_to_zero c n x :
  int_limits c -> Z.of_nat n < 2 ^ 64 -> reachable c n x ->
  (forall p, p ∈ sys_threads x -> p = Done) ->
  (0 < MaxConcurrent c -> sh_active (sys_shared x) = 0) /\
  (0 < MaxConcurrentStreams c -> sh_activeStreams (sys_shared x) = 0) /\
  sh_sessions (sys_shared x) = ∅.
Proof.
  intros Hl Hn Hr Hdone. destruct (reachable_inv c n x Hl Hn Hr) as [Hc Hs Hse _].
  assert (Hzero : forall f : pc -> bool, f Done = false -> countb f (sys_threads x) = 0).
  { intros f Hf. apply countb_zero. intros p Hp. by rewrite (Hdone p Hp). }
  split_and!.
  - intros Hlim. destruct (Hc Hlim) as [-> _ _]. rewrite countb_fmap. by apply Hzero.
  - intros Hlim. destruct (Hs Hlim) as [-> _ _]. rewrite countb_fmap. by apply Hzero.
  - apply map_eq. intros id. rewrite lookup_empty.
    destruct (sh_sessions (sys_shared x) !! id) as [s|] eqn:Hid; [|done].
    destruct (si_session _ _ _ (Hse id) s Hid) as (Hreg & _).
    rewrite Hzero in Hreg by done. lia.
Qed.

Definition drained : list action :=
  crowded ++ [Move 2; Move 2; Move 0; Move 0].

Lemma counters_return_to_zero_witness :
  exists x, perform_all small_limits drained initial = Some x /\
    sys_threads x = [Done; Done; Done; Done] /\
    (0 < MaxConcurrent small_limits -> sh_active (sys_shared x) = 0) /\
    (0 < MaxConcurrentStreams small_limits -> sh_activeStreams (sys_shared x) = 0) /\
    sh_sessions (sys_shared x) = ∅.
Proof.
  eexists. split; [vm_compute; reflexivity|]. split; [reflexivity|].
  apply (counters_return_to_zero small_limits (length drained));
    [by vm_compute|by vm_compute|by apply perform_all_initial; vm_compute|].
  simpl. intros p Hp. repeat (apply elem_of_cons in Hp as [->|Hp]; [done|]).
  by apply not_elem_of_nil in Hp.
Defined.

(** One goroutine alone, until it has its slot or has finished. *)
Definition settled (p : pc) : bool :=
  match p with StreamOpen _ | Done => true | _ => false end.

Fixpoint solo (c : Config) (fuel : nat) (s : Shared) (p : pc) : Shared * pc :=
  match fuel with
  | O => (s, p)
  | S fuel =>
      if settled p then (s, p)
      else match thread_step c s p with
           | Some (s', p') => solo c fuel s' p'
           | None => (s, p)
           end
  end.

Lemma solo_settled c fuel s p : settled p = true -> solo c fuel s p = (s, p).
Proof. destruct fuel; simpl; [done|]. by intros ->. Qed.

Lemma solo_move c fuel s p s' p' :
  settled p = false -> thread_step c s p = Some (s', p') ->
  solo c (S fuel) s p = solo c fuel s' p'.
Proof. simpl. by intros -> ->. Qed.

Lemma acquireCounter_refused n limit n' :
  limit < 2 ^ 63 -> - 2 ^ 63 <= n -> acquireCounter n limit = (false, n') -> n' = n.
Proof.
  intros Hl Hn. unfold acquireCounter. destruct (limit <=? 0); [done|].
  rewrite cas_run_load by done. destruct (limit <=? n); congruence.
Qed.

(** The part of a stream's acquisition after its session's slot is taken. *)
Lemma solo_acquire_global c s id :
  MaxConcurrentStreams c < 2 ^ 63 -> 0 <= sh_activeStreams s < 2 ^ 63 ->
  let '(ok, n) := acquireCounter (sh_activeStreams s) (MaxConcurrentStreams c) in
  solo c 5 s (StreamAcquire id CasLoad) =
    if ok then (s <| sh_activeStreams := n |>, StreamOpen id)
    else (s <| sh_sessions := releaseSessionStream id (sh_sessions s) |>, Done).
Proof.
  intros Hl Hn. unfold acquireCounter. destruct (MaxConcurrentStreams c <=? 0) eqn:Hlim.
  - erewrite solo_move; [|done|cbn [thread_step]; by rewrite Hlim].
    rewrite solo_settled by done. by destruct s.
  - rewrite cas_run_load by lia.
    destruct (MaxConcurrentStreams c <=? sh_activeStreams s) eqn:Hfull.
    + erewrite solo_move; [|done|cbn [thread_step cas_step]; by rewrite Hlim, Hfull].
      erewrite solo_move; [|done|done]. erewrite solo_move; [|done|done].
      rewrite solo_settled by done. by destruct s.
    + erewrite solo_move; [|done|cbn [thread_step cas_step]; by rewrite Hlim, Hfull].
      erewrite solo_move; [|done|cbn -[wrap64]; by rewrite Hlim, Z.eqb_refl].
      erewrite solo_move; [|done|done]. rewrite solo_settled by done.
      cbn -[wrap64]. rewrite wrap64_small by (bools; lia). done.
Qed.

(** C35.  Refinement of [acquireStream]: a stream's goroutine that runs undisturbed reaches,
    in at most six atomic steps, exactly the state the sequential function computes
    (slots taken on success, nothing taken on a refusal at either limit) and it
    holds its slots precisely when the function returns true. *)
Theorem acquireStream_refines c s id :
  int_limits c -> 0 <= sh_activeStreams s < 2 ^ 63 ->
  let '(ok, n, r) := acquireStream c id (sh_activeStreams s) (sh_sessions s) in
  solo c 6 s (StreamStart id) =
    (s <| sh_activeStreams := n |> <| sh_sessions := r |>, if ok then StreamOpen id else Done).
Proof.
  intros [_ Hl] Hn. unfold acquireStream.
  destruct (acquireSessionStream _ id _) as [ok r'] eqn:Hacq.
  erewrite solo_move; [|done|cbn [thread_step]; by rewrite Hacq].
  destruct ok; simpl negb; cbv iota.
  - pose proof (solo_acquire_global c (s <| sh_sessions := r' |>) id Hl Hn) as Hglobal.
    simpl sh_activeStreams in Hglobal.
    pose proof (acquireCounter_refused (sh_activeStreams s) (MaxConcurrentStreams c)) as Hsame.
    destruct (acquireCounter _ _) as [[] n'];
      cbv beta iota delta [negb] in Hglobal |- *; (etrans; [exact Hglobal|]); [done|].
    rewrite (Hsame n' Hl ltac:(lia) eq_refl). by destruct s.
  - rewrite solo_settled by done. by destruct s.
Qed.

(** A wrapper serving connection 1, which is registered and has no stream yet. *)
Definition one_session : Shared := mkShared 1 0 1 (registerSession 1 1 1 0 ∅).

Lemma acquireStream_refines_witness :
  exists n r, acquireStream small_limits 1 0 (sh_sessions one_session) = (true, n, r) /\
  solo small_limits 6 one_session (StreamStart 1) =
    (one_session <| sh_activeStreams := n |> <| sh_sessions := r |>, StreamOpen 1).
Proof.
  do 2 eexists. split; [vm_compute; reflexivity|].
  apply (acquireStream_refines small_limits one_session 1); by vm_compute.
Defined.

(** [releaseStream] undoes [acquireStream]: after a successful acquisition it
    restores the global counter and the registry, and a refused acquisition changed
    neither, so there is nothing to undo. *)
Lemma releaseStream_acquireStream c id n r :
  int_limits c -> 0 <= n < 2 ^ 63 -> (forall s, r !! id = Some s -> 0 <= as_activeStreams s) ->
  let '(ok, n', r') := acquireStream c id n r in
  if ok then releaseStream c id n' r' = (n, r) else (n', r') = (n, r).
Proof.
  intros [_ Hl] Hn Hpos. unfold acquireStream, acquireCounter, releaseStream.
  destruct (acquireSessionStream _ id r) as [ok r'] eqn:Hacq.
  destruct ok; simpl; [|by apply acquireSessionStream_spec in Hacq as [-> _]].
  pose proof (acquire_release_session _ _ _ _ Hpos Hacq) as Hback.
  destruct (Z.leb_spec (MaxConcurrentStreams c) 0); simpl.
  { destruct (Z.ltb_spec 0 (MaxConcurrentStreams c)); [lia|]. by rewrite Hback. }
  destruct (Z.leb_spec (MaxConcurrentStreams c) n); simpl; [by rewrite Hback|].
  rewrite Z.eqb_refl; simpl. destruct (Z.ltb_spec 0 (MaxConcurrentStreams c)); [|lia].
  rewrite Hback, (wrap64_small (n + 1)), wrap64_small by lia. f_equal. lia.
Qed.

Lemma releaseStream_acquireStream_witness :
  exists n r, acquireStream small_limits 1 1 (sh_sessions one_session) = (true, n, r) /\
  releaseStream small_limits 1 n r = (1, sh_sessions one_session).
Proof.
  do 2 eexists. split; [vm_compute; reflexivity|].
  apply (releaseStream_acquireStream small_limits 1 1 (sh_sessions one_session));
    [by vm_compute|lia|].
  intros s Hs. vm_compute in Hs. injection Hs as <-. simpl. lia.
Defined.
