(* ===== verification/Provision.v ===== *)
(** * Provisioning

    anytls.go, [Provision]: the runtime fields of [ListenerWrapper], the
    outbounds a user's traffic can leave through ([provisionNamedOutbounds],
    [resolveDefaultOutbound], and [outboundForUser] of handler.go).  Caddy's module
    loader, the AnyTLS service and the outbound modules are other people's code:
    they are classes. *)

From S2P Require Import Prelude GoErrors GoStrings Netip Wrapper Detector Registry.
Import netip.

(** ** What provisioning calls *)

(** The interface [Outbound] (outbound.go), as far as one call of a resolver goes,
    and its built-in implementation. *)
Class Outbound (Ob : Type) := {
  DirectOutbound : Ob;
  LookupNetIP : Ob -> string -> string -> result (list Addr)
}.

(** Caddy's [ctx.LoadModule] on the field [OutboundRaw] and on the map [OutboundsRaw]; a
    loaded module that does not implement [Outbound] is [None].  [range_modules] is the
    order in which Go's [range] visits the loaded map.  [NewService] is the
    constructor of sing-anytls. *)
Class Runtime (Ob Sv : Type) := {
  LoadModule : string -> result (option Ob);
  LoadModuleMap : gmap string string -> result (gmap string (option Ob));
  range_names : gmap string string -> list string;
  range_modules : gmap string (option Ob) -> list (string * option Ob);
  NewService : string -> list ServiceUser -> result Sv;
  DefaultPaddingScheme : string
}.

(** A loaded map has the keys of the raw one; [range] visits each entry once. *)
Class RuntimeLaws (Ob Sv : Type) `{Runtime Ob Sv} : Prop := {
  LoadModuleMap_keys : forall raw mods, LoadModuleMap raw = Ok mods -> dom mods = dom raw;
  range_names_perm : forall raw, range_names raw ≡ₚ (map_to_list raw).*1;
  range_modules_perm : forall mods, range_modules mods ≡ₚ map_to_list mods
}.

(** The struct [ListenerWrapper]: its configuration and its unexported fields
    (the counters are in Limits.v, the website states in Website.v). *)
Record ListenerWrapper (Ob Sv : Type) := mkListenerWrapper {
  config : Config;
  outbound : option Ob;
  namedOutbounds : gmap string Ob;
  defaultOutbound : option Ob;
  defaultOutboundName : string;
  userOutbound : gmap string Ob;
  userOutboundName : gmap string string;
  fallbackSet : bool;
  sessions : option registry;
  detector : option PasswordHashDetector;
  service : option Sv;
  allowCIDRPrefixes : list Prefix;
  denyCIDRPrefixes : list Prefix;
  resolveFunc : option (string -> string -> result (list Addr))
}.
Arguments mkListenerWrapper {Ob Sv}.
Arguments config {Ob Sv} _.
Arguments outbound {Ob Sv} _.
Arguments namedOutbounds {Ob Sv} _.
Arguments defaultOutbound {Ob Sv} _.
Arguments defaultOutboundName {Ob Sv} _.
Arguments userOutbound {Ob Sv} _.
Arguments userOutboundName {Ob Sv} _.
Arguments fallbackSet {Ob Sv} _.
Arguments sessions {Ob Sv} _.
Arguments detector {Ob Sv} _.
Arguments service {Ob Sv} _.
Arguments allowCIDRPrefixes {Ob Sv} _.
Arguments denyCIDRPrefixes {Ob Sv} _.
Arguments resolveFunc {Ob Sv} _.

#[export] Instance Eta_ListenerWrapper Ob Sv : Eta (ListenerWrapper Ob Sv) := record_eta (
  fun w : ListenerWrapper Ob Sv => mkListenerWrapper (config w) (outbound w) (namedOutbounds w) (defaultOutbound w)
    (defaultOutboundName w) (userOutbound w) (userOutboundName w) (fallbackSet w) (sessions w)
    (detector w) (service w) (allowCIDRPrefixes w) (denyCIDRPrefixes w) (resolveFunc w)).

Definition reservedOutboundDirect : string := "direct".
Definition reservedOutboundDefault : string := "default".

Section Provision.
Context {Ob Sv : Type} `{!Outbound Ob} `{!Runtime Ob Sv}.
Implicit Types (lw : ListenerWrapper Ob Sv).

(** ** Named outbounds *)

(** The loop over the declared names. *)
Fixpoint check_names (names : list string) : option error :=
  match names with
  | [] => None
  | name :: names =>
      if String.eqb name "" then Some (errors_New "named outbound must not have an empty name")
      else if String.eqb name reservedOutboundDirect || String.eqb name reservedOutboundDefault
      then Some (Errorf "outbound name %q is reserved" [name] [])
      else check_names names
  end.

(** The loop over the loaded modules. *)
Fixpoint store_modules (mods : list (string * option Ob)) (named : gmap string Ob)
    : result (gmap string Ob) :=
  match mods with
  | [] => Ok named
  | (name, Some o) :: mods => store_modules mods (<[name := o]> named)
  | (name, None) :: _ =>
      Err (Errorf "named outbound %q: configured module %T is not an anytls outbound" [name] [])
  end.

(** The loop over the users. *)
Fixpoint assign_users (named : gmap string Ob) (us : list User)
    (uo : gmap string Ob) (un : gmap string string)
    : result (gmap string Ob * gmap string string) :=
  match us with
  | [] => Ok (uo, un)
  | user :: us =>
      if String.eqb (user_Outbound user) "" then assign_users named us uo un
      else match named !! user_Outbound user with
      | None =>
          Err (Errorf "user %q references an undeclared outbound %q"
                 [user_Name user; user_Outbound user] [])
      | Some o =>
          assign_users named us (<[user_Name user := o]> uo)
            (<[user_Name user := user_Outbound user]> un)
      end
  end.

(** anytls.go, [provisionNamedOutbounds].  A successful [LoadModule] zeroes the raw field;
    if there was nothing to load the field was empty. *)
Definition provisionNamedOutbounds (hasSingleOutbound : bool) (lw : ListenerWrapper Ob Sv)
    : result (ListenerWrapper Ob Sv) :=
  let c := config lw in
  match check_names (range_names (OutboundsRaw c)) with
  | Some e => Err e
  | None =>
      let loaded :=
        if (0 <? size (OutboundsRaw c))%nat then
          match LoadModuleMap (OutboundsRaw c) with
          | Err err => Err (Errorf "load named outbound modules: %w" [] [err])
          | Ok mods => store_modules (range_modules mods) ∅
          end
        else Ok ∅ in
      match loaded with
      | Err e => Err e
      | Ok named =>
          let named := <[reservedOutboundDirect := DirectOutbound]> named in
          let lw := lw <| config := c <| OutboundsRaw := ∅ |> |> <| namedOutbounds := named |> in
          let default :=
            if negb (String.eqb (DefaultOutbound c) "") then
              match named !! DefaultOutbound c with
              | None =>
                  Err (Errorf "default_outbound %q references an undeclared outbound"
                         [DefaultOutbound c] [])
              | Some o => Ok (Some o, DefaultOutbound c)
              end
            else if hasSingleOutbound then Ok (outbound lw, reservedOutboundDefault)
            else Ok (outbound lw, reservedOutboundDirect) in
          match default with
          | Err e => Err e
          | Ok (o, name) =>
              let lw := lw <| defaultOutbound := o |> <| defaultOutboundName := name |> in
              match assign_users named (Users c) ∅ ∅ with
              | Err e => Err e
              | Ok (uo, un) => Ok (lw <| userOutbound := uo |> <| userOutboundName := un |>)
              end
          end
      end
  end.

(** anytls.go, [resolveDefaultOutbound]. *)
Definition resolveDefaultOutbound (lw : ListenerWrapper Ob Sv) : Ob * string :=
  match defaultOutbound lw with
  | Some o => (o, defaultOutboundName lw)
  | None =>
      match outbound lw with
      | Some o => (o, reservedOutboundDefault)
      | None => (DirectOutbound, reservedOutboundDirect)
      end
  end.

(** handler.go, [outboundForUser]; [user] is what [userFromContext] returns. *)
Definition outboundForUser (lw : ListenerWrapper Ob Sv) (user : string) : Ob * string :=
  match userOutbound lw !! user with
  | Some o => (o, default "" (userOutboundName lw !! user))
  | None => resolveDefaultOutbound lw
  end.

(** ** [Provision] *)

(** anytls.go, [Provision], without its calls on the logger and on the HTTP server of
    the context, which leave the wrapper alone.  [LoadModule] zeroes the raw field it has
    loaded. *)
Definition Provision (lw : ListenerWrapper Ob Sv) : result (ListenerWrapper Ob Sv) :=
  let lw := lw <| config := provision_defaults DefaultPaddingScheme (fallbackSet lw) (config lw) |> in
  let lw := match sessions lw with
            | None => lw <| sessions := Some newSessionRegistry |>
            | Some _ => lw
            end in
  match compileCIDRPolicies (config lw) with
  | Err err => Err err
  | Ok (allow, deny) =>
      let lw := lw <| allowCIDRPrefixes := allow |> <| denyCIDRPrefixes := deny |> in
      let raw := OutboundRaw (config lw) in
      let hasSingleOutbound := negb (String.eqb raw "") && negb (String.eqb raw "null") in
      let loaded :=
        if hasSingleOutbound then
          match LoadModule raw with
          | Err err => Err (Errorf "load outbound module: %w" [] [err])
          | Ok None => Err (Errorf "configured outbound %T is not an anytls outbound" [] [])
          | Ok (Some o) =>
              Ok (lw <| config := config lw <| OutboundRaw := "" |> |> <| outbound := Some o |>)
          end
        else Ok lw in
      match loaded with
      | Err e => Err e
      | Ok lw =>
          let lw := match outbound lw with
                    | None => lw <| outbound := Some DirectOutbound |>
                    | Some _ => lw
                    end in
          match provisionNamedOutbounds hasSingleOutbound lw with
          | Err err => Err err
          | Ok lw =>
              let lw := lw <| detector := Some (NewPasswordHashDetector (Users (config lw))) |> in
              match NewService (PaddingScheme (config lw)) (anyTLSUsers (Users (config lw))) with
              | Err err => Err (Errorf "create sing-anytls service: %w" [] [err])
              | Ok s => Ok (lw <| service := Some s |>)
              end
          end
      end
  end.

(** anytls.go, [Cleanup]: what it does to the sessions; [order] is the order in which
    the registry is visited, [user_at] as in Registry.v. *)
Definition Cleanup (now : Z) (user_at : Z -> string) (order : list Z)
    (lw : ListenerWrapper Ob Sv) : list close_event :=
  match sessions lw with
  | Some r => closeActiveSessions "config_unload" now user_at order r
  | None => []
  end.

(** [new(ListenerWrapper)] with a configuration unmarshalled into it. *)
Definition configured (c : Config) (set : bool) : ListenerWrapper Ob Sv :=
  mkListenerWrapper c None ∅ None "" ∅ ∅ set None None None [] [] None.


(** ** Lemmas *)

Definition reserved (name : string) : Prop :=
  name = "" \/ name = reservedOutboundDirect \/ name = reservedOutboundDefault.

Lemma check_names_None names :
  check_names names = None <-> forall name, name ∈ names -> ~ reserved name.
Proof.
  unfold reserved. induction names as [|n names IH]; cbn [check_names]; [set_solver|].
  destruct (String.eqb_spec n ""); [|destruct (String.eqb_spec n reservedOutboundDirect);
    [|destruct (String.eqb_spec n reservedOutboundDefault)]]; cbn [orb]; try set_solver.
Qed.

Lemma store_modules_spec mods named named' :
  NoDup mods.*1 -> store_modules mods named = Ok named' ->
  forall name, named' !! name =
    match (list_to_map mods : gmap string (option Ob)) !! name with
    | Some loaded => loaded
    | None => named !! name
    end.
Proof.
  revert named. induction mods as [|[n [o|]] mods IH]; intros named Hnd; cbn [store_modules]; [|..].
  - intros [= <-] name. done.
  - apply NoDup_cons in Hnd as [Hn Hnd]. intros Hs name. rewrite (IH _ Hnd Hs).
    cbn [list_to_map foldr uncurry]. destruct (decide (name = n)) as [->|Hne].
    + rewrite (not_elem_of_list_to_map_1 mods n Hn). by rewrite !lookup_insert_eq.
    + by rewrite !lookup_insert_ne.
  - done.
Qed.

Lemma store_modules_is_Ok mods named :
  is_Ok (store_modules mods named) = true <-> forall name, (name, None) ∉ mods.
Proof.
  revert named. induction mods as [|[n [o|]] mods IH]; intros named; cbn [store_modules].
  - split; [set_solver|done].
  - rewrite IH. set_solver.
  - split; [done|]. intros H. exfalso. apply (H n). by left.
Qed.

Lemma range_modules_map `{!RuntimeLaws Ob Sv} (mods : gmap string (option Ob)) :
  NoDup (range_modules mods).*1 /\ list_to_map (range_modules mods) = mods.
Proof.
  pose proof (range_modules_perm mods) as Hp.
  assert (Hnd : NoDup (range_modules mods).*1) by (rewrite Hp; apply NoDup_fst_map_to_list).
  split; [done|]. rewrite (list_to_map_proper _ _ Hnd Hp). apply list_to_map_to_list.
Qed.

Lemma assign_users_other named us uo un uo' un' name :
  assign_users named us uo un = Ok (uo', un') ->
  (forall u, u ∈ us -> user_Name u = name -> user_Outbound u = "") ->
  uo' !! name = uo !! name /\ un' !! name = un !! name.
Proof.
  revert uo un. induction us as [|u us IH]; intros uo un; cbn [assign_users];
    [by intros [= <- <-]|].
  destruct (String.eqb_spec (user_Outbound u) "") as [He|He].
  { intros Ha Hno. apply (IH _ _ Ha). set_solver. }
  destruct (named !! user_Outbound u); [|done]. intros Ha Hno.
  destruct (IH _ _ Ha) as [-> ->]; [set_solver|].
  assert (user_Name u <> name) by set_solver. by rewrite !lookup_insert_ne.
Qed.

Lemma assign_users_spec named us uo un uo' un' u :
  NoDup (user_Name <$> us) -> assign_users named us uo un = Ok (uo', un') ->
  u ∈ us -> user_Outbound u <> "" ->
  exists o, named !! user_Outbound u = Some o /\ uo' !! user_Name u = Some o /\
            un' !! user_Name u = Some (user_Outbound u).
Proof.
  revert uo un. induction us as [|v us IH]; intros uo un Hnd Ha Hu He;
    [by apply not_elem_of_nil in Hu|].
  rewrite fmap_cons, NoDup_cons in Hnd. destruct Hnd as [Hv Hnd].
  cbn [assign_users] in Ha. apply elem_of_cons in Hu as [<-|Hu].
  - destruct (String.eqb_spec (user_Outbound u) ""); [done|].
    destruct (named !! user_Outbound u) as [o|]; [|done]. exists o. split; [done|].
    destruct (assign_users_other _ _ _ _ _ _ (user_Name u) Ha) as [-> ->].
    + intros w Hw Heq. exfalso. apply Hv. rewrite <- Heq. by apply list_elem_of_fmap_2.
    + by rewrite !lookup_insert_eq.
  - repeat case_match; try done; eauto.
Qed.

Lemma assign_users_is_Ok named us uo un :
  is_Ok (assign_users named us uo un) = true <->
  forall u, u ∈ us -> user_Outbound u <> "" -> is_Some (named !! user_Outbound u).
Proof.
  revert uo un. induction us as [|u us IH]; intros uo un; cbn [assign_users]; [set_solver|].
  destruct (String.eqb_spec (user_Outbound u) "") as [He|He].
  { rewrite IH. set_solver. }
  destruct (named !! user_Outbound u) eqn:Hn; [rewrite IH; set_solver|].
  split; [done|]. intros H. destruct (H u) as [? ?]; [by left|done|]. congruence.
Qed.

Lemma assign_users_dom named us uo un uo' un' :
  dom uo = dom un -> assign_users named us uo un = Ok (uo', un') -> dom uo' = dom un'.
Proof.
  revert uo un. induction us as [|u us IH]; intros uo un Hd; cbn [assign_users];
    [by intros [= <- <-]|].
  repeat case_match; try done; apply IH; [done|]. by rewrite !dom_insert_L, Hd.
Qed.


(** ** Specification

    What the configuration says about a name and about a user. *)

Definition declared (c : Config) (name : string) : option Ob :=
  if String.eqb name reservedOutboundDirect then Some DirectOutbound
  else match LoadModuleMap (OutboundsRaw c) with
       | Ok mods => match mods !! name with Some o => o | None => None end
       | Err _ => None
       end.

Definition single_outbound (c : Config) : bool :=
  negb (String.eqb (OutboundRaw c) "") && negb (String.eqb (OutboundRaw c) "null").

(** [single] is the module the single [outbound] object loads, [has] whether there is one. *)
Definition default_choice (has : bool) (c : Config) (single : Ob) : option (Ob * string) :=
  if negb (String.eqb (DefaultOutbound c) "") then
    (fun o => (o, DefaultOutbound c)) <$> declared c (DefaultOutbound c)
  else Some (single, if has then reservedOutboundDefault else reservedOutboundDirect).

Definition default_spec (c : Config) (single : Ob) : option (Ob * string) :=
  default_choice (single_outbound c) c single.

(** A configuration once its modules are loaded: their raw fields are zero. *)
Definition loaded_config (c : Config) : Config :=
  c <| OutboundRaw := if single_outbound c then "" else OutboundRaw c |> <| OutboundsRaw := ∅ |>.

Definition outbound_spec (c : Config) (single : Ob) (u : User) : option (Ob * string) :=
  if String.eqb (user_Outbound u) "" then default_spec c single
  else (fun o => (o, user_Outbound u)) <$> declared c (user_Outbound u).

(** What [provisionNamedOutbounds] requires. *)
Record declarations_ok (c : Config) : Prop := {
  dok_names : forall name, is_Some (OutboundsRaw c !! name) -> ~ reserved name;
  dok_load : OutboundsRaw c <> ∅ -> exists mods, LoadModuleMap (OutboundsRaw c) = Ok mods /\
               forall name, mods !! name <> Some None;
  dok_default : DefaultOutbound c <> "" -> is_Some (declared c (DefaultOutbound c));
  dok_users : forall u, u ∈ Users c -> user_Outbound u <> "" ->
                is_Some (declared c (user_Outbound u))
}.

Lemma range_names_elem `{!RuntimeLaws Ob Sv} raw name :
  name ∈ range_names raw <-> is_Some (raw !! name).
Proof.
  rewrite (range_names_perm raw). rewrite list_elem_of_fmap. split.
  - intros ([k v] & -> & Hk%elem_of_map_to_list). simpl. eauto.
  - intros [v Hv]. exists (name, v). split; [done|]. by apply elem_of_map_to_list.
Qed.

(** The map [namedOutbounds], once loaded, is [declared]. *)
Lemma loaded_named `{!RuntimeLaws Ob Sv} c named :
  (if (0 <? size (OutboundsRaw c))%nat then
     match LoadModuleMap (OutboundsRaw c) with
     | Err err => Err (Errorf "load named outbound modules: %w" [] [err])
     | Ok mods => store_modules (range_modules mods) ∅
     end
   else Ok ∅) = Ok named ->
  forall name, <[reservedOutboundDirect := DirectOutbound]> named !! name = declared c name.
Proof.
  intros Hload name. unfold declared. destruct (String.eqb_spec name reservedOutboundDirect) as [->|Hne].
  { by rewrite lookup_insert_eq. }
  rewrite lookup_insert_ne by done. destruct (Nat.ltb_spec 0 (size (OutboundsRaw c))) as [_|H0].
  - destruct (LoadModuleMap (OutboundsRaw c)) as [mods|e]; [|done].
    destruct (range_modules_map mods) as [Hnd Hmap].
    rewrite (store_modules_spec _ _ _ Hnd Hload), Hmap, lookup_empty.
    by destruct (mods !! name).
  - injection Hload as <-. rewrite lookup_empty.
    destruct (LoadModuleMap (OutboundsRaw c)) as [mods|e] eqn:Hm; [|done].
    apply LoadModuleMap_keys in Hm.
    assert (OutboundsRaw c = ∅) as He by (apply map_size_empty_inv; lia).
    rewrite He, dom_empty_L in Hm. apply dom_empty_inv_L in Hm as ->. by rewrite lookup_empty.
Qed.

(** A successful run, taken apart. *)
Lemma provisionNamedOutbounds_Ok `{!RuntimeLaws Ob Sv} has lw lw' single :
  outbound lw = Some single ->
  provisionNamedOutbounds has lw = Ok lw' ->
  config lw' = config lw <| OutboundsRaw := ∅ |> /\ outbound lw' = outbound lw /\
  (forall name, namedOutbounds lw' !! name = declared (config lw) name) /\
  default_choice has (config lw) single = (fun o => (o, defaultOutboundName lw')) <$> defaultOutbound lw' /\
  is_Some (defaultOutbound lw') /\
  (allowCIDRPrefixes lw', denyCIDRPrefixes lw', resolveFunc lw') =
    (allowCIDRPrefixes lw, denyCIDRPrefixes lw, resolveFunc lw) /\
  assign_users (namedOutbounds lw') (Users (config lw)) ∅ ∅ =
    Ok (userOutbound lw', userOutboundName lw').
Proof.
  intros Hout. unfold provisionNamedOutbounds, default_choice.
  destruct (check_names _) as [e|]; [done|].
  destruct (if (0 <? _)%nat then _ else _) as [named|e] eqn:Hload; [|done].
  pose proof (loaded_named _ _ Hload) as Hnamed.
  destruct (String.eqb_spec (DefaultOutbound (config lw)) "") as [Hd|Hd]; simpl negb; cbv iota.
  - destruct has; simpl;
      destruct (assign_users _ _ _ _) as [[uo un]|e] eqn:Ha; [|done| |done];
      intros [= <-]; simpl; rewrite Hout; split_and!; done.
  - rewrite Hnamed. destruct (declared _ _) as [o|]; [|done]. simpl.
    destruct (assign_users _ _ _ _) as [[uo un]|e] eqn:Ha; [|done].
    intros [= <-]; simpl; split_and!; done.
Qed.


Lemma load_is_Ok `{!RuntimeLaws Ob Sv} c :
  is_Ok (if (0 <? size (OutboundsRaw c))%nat then
     match LoadModuleMap (OutboundsRaw c) with
     | Err err => Err (Errorf "load named outbound modules: %w" [] [err])
     | Ok mods => store_modules (range_modules mods) ∅
     end
   else Ok ∅) = true <->
  (OutboundsRaw c <> ∅ -> exists mods, LoadModuleMap (OutboundsRaw c) = Ok mods /\
     forall name, mods !! name <> Some None).
Proof.
  destruct (Nat.ltb_spec 0 (size (OutboundsRaw c))) as [Hsize|Hsize].
  - assert (OutboundsRaw c <> ∅) as Hne by (intros He; rewrite He, map_size_empty in Hsize; lia).
    destruct (LoadModuleMap (OutboundsRaw c)) as [mods|e]; simpl; [|naive_solver].
    rewrite store_modules_is_Ok. setoid_rewrite (range_modules_perm mods).
    setoid_rewrite elem_of_map_to_list. naive_solver.
  - assert (OutboundsRaw c = ∅) as He by (apply map_size_empty_inv; lia).
    split; [by intros _ ?|done].
Qed.

(** C38.  [provisionNamedOutbounds] accepts exactly the configurations whose outbound names
    are not empty or reserved, whose modules load and are outbounds, and whose
    [default_outbound] and user references are declared (or the built-in
    "direct"), with or without a single [outbound] module. *)
Theorem provisionNamedOutbounds_accepts `{!RuntimeLaws Ob Sv} hasSingleOutbound lw :
  is_Ok (provisionNamedOutbounds hasSingleOutbound lw) = true <->
  declarations_ok (config lw).
Proof.
  pose proof (check_names_None (range_names (OutboundsRaw (config lw)))) as Hnames.
  setoid_rewrite range_names_elem in Hnames. pose proof (load_is_Ok (config lw)) as Hload.
  unfold provisionNamedOutbounds. split.
  - destruct (check_names _) as [e|]; [done|].
    destruct (if (0 <? _)%nat then _ else _) as [named|e] eqn:Hl; [|done].
    pose proof (loaded_named _ _ Hl) as Hnamed. intros Hok.
    assert (Hus : is_Ok (assign_users (<[reservedOutboundDirect:=DirectOutbound]> named)
                           (Users (config lw)) ∅ ∅) = true).
    { repeat split_match Hok; done. }
    rewrite assign_users_is_Ok in Hus. split; [by apply Hnames|by apply Hload| |].
    + intros Hd. rewrite <- Hnamed. apply String.eqb_neq in Hd. rewrite Hd in Hok. simpl in Hok.
      by destruct (<[_ := _]> named !! DefaultOutbound (config lw)).
    + intros u Hu He. rewrite <- Hnamed. by apply Hus.
  - intros [Hn Hl Hd Hu]. apply Hnames in Hn as ->. apply Hload in Hl.
    destruct (if (0 <? _)%nat then _ else _) as [named|e] eqn:Hld; [|done].
    pose proof (loaded_named _ _ Hld) as Hnamed. setoid_rewrite <- Hnamed in Hu.
    rewrite <- (assign_users_is_Ok _ _ ∅ ∅) in Hu.
    destruct (assign_users _ _ _ _) as [[uo un]|e]; [|done].
    destruct (String.eqb_spec (DefaultOutbound (config lw)) "") as [He|He]; simpl.
    + by destruct hasSingleOutbound.
    + rewrite Hnamed. destruct (Hd He) as [o ->]. done.
Qed.

(** The end of [Provision], after the single outbound is loaded. *)
Definition provision_end (has : bool) (lw : ListenerWrapper Ob Sv) : result (ListenerWrapper Ob Sv) :=
  match provisionNamedOutbounds has lw with
  | Err err => Err err
  | Ok lw =>
      let lw := lw <| detector := Some (NewPasswordHashDetector (Users (config lw))) |> in
      match NewService (PaddingScheme (config lw)) (anyTLSUsers (Users (config lw))) with
      | Err err => Err (Errorf "create sing-anytls service: %w" [] [err])
      | Ok s => Ok (lw <| service := Some s |>)
      end
  end.

(** What it leaves in the wrapper. *)
Record Provisioned (c : Config) (single : Ob) (allow deny : list Prefix)
    (lw : ListenerWrapper Ob Sv) : Prop := {
  pv_config : config lw = loaded_config c;
  pv_named : forall name, namedOutbounds lw !! name = declared c name;
  pv_default : default_spec c single = (fun o => (o, defaultOutboundName lw)) <$> defaultOutbound lw;
  pv_default_some : is_Some (defaultOutbound lw);
  pv_users : assign_users (namedOutbounds lw) (Users c) ∅ ∅ =
             Ok (userOutbound lw, userOutboundName lw);
  pv_detector : detector lw = Some (NewPasswordHashDetector (Users c));
  pv_policies : (allowCIDRPrefixes lw, denyCIDRPrefixes lw, resolveFunc lw) = (allow, deny, None)
}.

Lemma Provision_inv `{!RuntimeLaws Ob Sv} c set lw :
  Provision (configured c set) = Ok lw ->
  exists single allow deny,
  (if single_outbound c then LoadModule (OutboundRaw c) = Ok (Some single)
   else single = DirectOutbound) /\
  compileCIDRPolicies c = Ok (allow, deny) /\
  Provisioned (provision_defaults DefaultPaddingScheme set c) single allow deny lw.
Proof.
  assert (Hc : exists c', c' = provision_defaults DefaultPaddingScheme set c) by eauto.
  destruct Hc as [c' Hc']. unfold Provision. simpl. rewrite <- Hc'.
  assert (Users c' = Users c /\ OutboundRaw c' = OutboundRaw c /\
    OutboundsRaw c' = OutboundsRaw c /\ DefaultOutbound c' = DefaultOutbound c /\
    AllowCIDRs c' = AllowCIDRs c /\ DenyCIDRs c' = DenyCIDRs c) as (HU & HR & HRs & HD & HA & HDn)
    by (rewrite Hc', provision_defaults_fields; done).
  assert (compileCIDRPolicies c = compileCIDRPolicies c' /\ single_outbound c = single_outbound c')
    as [-> ->] by (unfold single_outbound, compileCIDRPolicies; by rewrite HA, HDn, HR).
  rewrite <- HR. clear Hc' HA HDn HU HR HRs HD.
  fold (single_outbound c').
  destruct (compileCIDRPolicies c') as [[allow deny]|e]; [|done].
  assert (Hend : forall single lw1,
    config lw1 = c' <| OutboundRaw := if single_outbound c' then "" else OutboundRaw c' |> ->
    outbound lw1 = Some single ->
    (allowCIDRPrefixes lw1, denyCIDRPrefixes lw1, resolveFunc lw1) = (allow, deny, None) ->
    provision_end (single_outbound c') lw1 = Ok lw -> Provisioned c' single allow deny lw).
  { intros single lw1 Hcf1 Hout Hpol. unfold provision_end. intros Hp. repeat split_match Hp.
    match goal with H : provisionNamedOutbounds _ _ = _ |- _ =>
      destruct (provisionNamedOutbounds_Ok _ _ _ _ Hout H) as (Hcf & _ & Hn & Hd & ? & Hpol' & Hu) end.
    simplify_eq. rewrite Hcf1 in *. split; simpl; rewrite ?Hcf; congruence || done. }
  revert Hend. destruct (single_outbound c') eqn:Hsingle; intros Hend.
  - destruct (LoadModule (OutboundRaw c')) as [[o|]|e] eqn:Hl; [|done..]. intros Hp.
    exists o, allow, deny. split_and!; [done..|].
    eapply (Hend _ (mkListenerWrapper (c' <| OutboundRaw := "" |>) (Some o) ∅ None "" ∅ ∅ set
      (Some newSessionRegistry) None None allow deny None)); [done..|exact Hp].
  - intros Hp. exists DirectOutbound, allow, deny. split_and!; [done..|].
    eapply (Hend _ (mkListenerWrapper c' (Some DirectOutbound) ∅ None "" ∅ ∅ set
      (Some newSessionRegistry) None None allow deny None)); [by destruct c'|done..|exact Hp].
Qed.


(** C15.  Egress selection: once provisioned and validated, a user with an [outbound] reference
    leaves through exactly the declared outbound of that name ("direct" being the
    built-in one), everybody else through the default: [default_outbound] if set, else
    the single [outbound] module, else direct.  The name logged is the name used. *)
Theorem outbound_selection `{!RuntimeLaws Ob Sv} c set lw :
  Provision (configured c set) = Ok lw -> Validate (config lw) = None ->
  exists single,
    (if single_outbound c then LoadModule (OutboundRaw c) = Ok (Some single)
     else single = DirectOutbound) /\
    (forall u, u ∈ Users c -> Some (outboundForUser lw (user_Name u)) = outbound_spec c single u) /\
    (forall name, name ∉ user_Name <$> Users c ->
       Some (outboundForUser lw name) = default_spec c single).
Proof.
  intros Hp Hval. destruct (Provision_inv c set lw Hp) as (single & allow & deny & Hs & _ & Hpv).
  exists single. split; [done|]. destruct Hpv as [Hc Hn Hd [o Ho] Hu _ _].
  rewrite Hc in Hval. apply Validate_names in Hval.
  revert Hn Hd Hu Hval. unfold outbound_spec, default_spec, default_choice, single_outbound, declared.
  rewrite provision_defaults_fields. simpl. rewrite Ho. intros Hn Hd Hu Hnames.
  assert (Hdefault : forall name,
    (forall u, u ∈ Users c -> user_Name u = name -> user_Outbound u = "") ->
    outboundForUser lw name = (o, defaultOutboundName lw)).
  { intros name Hname. unfold outboundForUser, resolveDefaultOutbound.
    destruct (assign_users_other _ _ _ _ _ _ name Hu Hname) as [-> _].
    by rewrite lookup_empty, Ho. }
  split.
  - intros u Hin. destruct (String.eqb_spec (user_Outbound u) "") as [He|He].
    + rewrite Hdefault, Hd; [done|]. intros v Hv Heq. by rewrite (NoDup_fmap_inj _ _ v u Hnames Hv Hin Heq).
    + destruct (assign_users_spec _ _ _ _ _ _ u Hnames Hu Hin He) as (o' & Hnamed & Hou & Hna).
      rewrite <- Hn, Hnamed. unfold outboundForUser. by rewrite Hou, Hna.
  - intros name Hname. rewrite Hdefault, Hd; [done|].
    intros v Hv <-. exfalso. apply Hname. by apply list_elem_of_fmap_2.
Qed.

(** The invariants the comments of anytls.go claim for a provisioned wrapper: the two
    per-user maps have the same keys, those of users with a reference; the name "direct"
    is bound to the built-in outbound; the default is set, so the fallback tiers of
    [resolveDefaultOutbound] are never reached; and the raw fields of the modules are zero,
    so that only the loaded map tells the declared names. *)
Lemma provisioned_outbounds `{!RuntimeLaws Ob Sv} c set lw :
  Provision (configured c set) = Ok lw ->
  dom (userOutbound lw) = dom (userOutboundName lw) /\
  (forall name, name ∈ dom (userOutbound lw) ->
     exists u, u ∈ Users c /\ user_Name u = name /\ user_Outbound u <> "") /\
  namedOutbounds lw !! reservedOutboundDirect = Some DirectOutbound /\
  exists o, defaultOutbound lw = Some o /\
            resolveDefaultOutbound lw = (o, defaultOutboundName lw) /\
            single_outbound (config lw) = false /\ OutboundsRaw (config lw) = ∅.
Proof.
  intros Hp. destruct (Provision_inv c set lw Hp) as (single & allow & deny & _ & _ & Hpv).
  destruct Hpv as [Hc Hn _ [o Ho] Hu _ _]. rewrite provision_defaults_fields in Hu. simpl in Hu.
  split_and!; [by eapply assign_users_dom in Hu| |by rewrite Hn|].
  - intros name [o' Ho']%elem_of_dom.
    destruct (List.existsb (fun u => String.eqb (user_Name u) name &&
                negb (String.eqb (user_Outbound u) "")) (Users c)) eqn:Hex.
    + apply existsb_true in Hex as (u & Hin & Hb). bools. eauto.
    + destruct (assign_users_other _ _ _ _ _ _ name Hu) as [Hnone _].
      * intros u Hin Hname. rewrite existsb_false in Hex. specialize (Hex u Hin).
        rewrite Hname, String.eqb_refl in Hex. simpl in Hex. by bools.
      * by rewrite Hnone, lookup_empty in Ho'.
  - exists o. unfold resolveDefaultOutbound. rewrite Ho, Hc. split_and!; [done|done| |done].
    unfold loaded_config. destruct (single_outbound (provision_defaults _ _ c)) eqn:Hsingle; [done|].
    exact Hsingle.
Qed.

End Provision.

(** ** Witnesses

    Outbounds are names; a module's text is its outbound. *)

#[local] Instance named_outbound : Outbound string := {
  DirectOutbound := "direct";
  LookupNetIP _ _ host := match ParseAddr host with Ok a => Ok [a] | Err e => Err e end
}.

#[local] Instance named_runtime : Runtime string unit := {
  LoadModule raw := Ok (Some raw);
  LoadModuleMap raw := Ok (Some <$> raw);
  range_names raw := (map_to_list raw).*1;
  range_modules mods := map_to_list mods;
  NewService _ _ := Ok tt;
  DefaultPaddingScheme := "stop=8"
}.

#[local] Instance named_runtime_laws : RuntimeLaws string unit.
Proof. split; simpl; [|done..]. intros raw mods [= <-]. by rewrite dom_fmap_L. Qed.

Definition two_exits : Config :=
  zero_Config <| Users := [mkUser "alice" "secret" true "exit"; mkUser "bob" "hunter2" true ""] |>
              <| OutboundsRaw := {[ "exit" := "wireguard" ]} |>
              <| OutboundRaw := "socks" |>.

Lemma provisionNamedOutbounds_accepts_witness :
  is_Ok (provisionNamedOutbounds true (configured (Sv := unit) two_exits false)) = true /\
  declarations_ok (Sv := unit) two_exits.
Proof.
  split; [vm_compute; reflexivity|].
  apply (provisionNamedOutbounds_accepts true (configured (Sv := unit) two_exits false)).
  vm_compute. reflexivity.
Defined.

Definition two_exits_wrapper : ListenerWrapper string unit :=
  match Provision (configured two_exits false) with
  | Ok lw => lw
  | Err _ => configured two_exits false
  end.

Lemma two_exits_provisioned : Provision (configured two_exits false) = Ok two_exits_wrapper.
Proof. vm_compute. reflexivity. Qed.

Lemma two_exits_valid : Validate (config two_exits_wrapper) = None.
Proof. vm_compute. reflexivity. Qed.

Lemma outbound_selection_witness :
  Provision (configured two_exits false) = Ok two_exits_wrapper /\
  exists single : string,
    (if single_outbound two_exits then LoadModule (OutboundRaw two_exits) = Ok (Some single)
     else single = DirectOutbound) /\
    (forall u, u ∈ Users two_exits ->
       Some (outboundForUser two_exits_wrapper (user_Name u)) =
       outbound_spec (Sv := unit) two_exits single u) /\
    (forall name, name ∉ user_Name <$> Users two_exits ->
       Some (outboundForUser two_exits_wrapper name) = default_spec (Sv := unit) two_exits single).
Proof.
  split; [exact two_exits_provisioned|].
  exact (outbound_selection two_exits false _ two_exits_provisioned two_exits_valid).
Defined.

Lemma alice_leaves_by_wireguard :
  outboundForUser two_exits_wrapper "alice" = ("wireguard", "exit") /\
  outboundForUser two_exits_wrapper "bob" = ("socks", "default").
Proof. vm_compute. by split. Qed.

Lemma provisioned_outbounds_witness :
  outboundForUser two_exits_wrapper "alice" = ("wireguard", "exit") /\
  dom (userOutbound two_exits_wrapper) = dom (userOutboundName two_exits_wrapper) /\
  (forall name, name ∈ dom (userOutbound two_exits_wrapper) ->
     exists u, u ∈ Users two_exits /\ user_Name u = name /\ user_Outbound u <> "") /\
  namedOutbounds two_exits_wrapper !! reservedOutboundDirect = Some DirectOutbound /\
  exists o, defaultOutbound two_exits_wrapper = Some o /\
            resolveDefaultOutbound two_exits_wrapper = (o, defaultOutboundName two_exits_wrapper) /\
            single_outbound (config two_exits_wrapper) = false /\
            OutboundsRaw (config two_exits_wrapper) = ∅.
Proof.
  split; [exact (proj1 alice_leaves_by_wireguard)|].
  exact (provisioned_outbounds two_exits false _ two_exits_provisioned).
Defined.
