(* ===== verification/NodeInfo.v ===== *)
(** * Node information

    node_info.go: the hosts and the port of the server's site, and the anytls:// link of
    each enabled user that is logged when the configuration is loaded; with the
    functions of strings, net and net/url it uses. *)

From S2P Require Import Prelude GoErrors GoStrings Netip Wrapper Provision.
Import netip strings.

Local Open Scope Z_scope.

(** ** The Go library *)

(** [strings.TrimSpace] on ASCII; [TrimFunc_IsSpace] is what it does to other strings. *)
Class SpaceTables := { TrimFunc_IsSpace : string -> string }.

Definition is_space (c : Ascii.ascii) : bool := (code c =? 32) || ((9 <=? code c) && (code c <=? 13)).

Fixpoint drop_while (f : Ascii.ascii -> bool) (b : bytes) : bytes :=
  match b with [] => [] | x :: b' => if f x then drop_while f b' else b end.

Definition trim (f : Ascii.ascii -> bool) (s : string) : string :=
  string_of_bytes (rev (drop_while f (rev (drop_while f (bytes_of_string s))))).

Definition TrimSpace `{SpaceTables} (s : string) : string :=
  if forallb_string is_ascii s then trim is_space s else TrimFunc_IsSpace s.

(** [strings.ContainsAny(s, chars)] and [strings.Trim(s, cutset)] for ASCII sets. *)
Definition in_set (chars : string) (c : Ascii.ascii) : bool := bool_decide (c ∈ bytes_of_string chars).
Definition ContainsAny (s chars : string) : bool := existsb (in_set chars) (bytes_of_string s).
Definition Trim (s cutset : string) : string := trim (in_set cutset) s.

(** [bytealg.IndexByte] and [LastIndexByte]. *)
Fixpoint IndexByte (b : bytes) (c : Z) : option nat :=
  match b with
  | [] => None
  | x :: b => if code x =? c then Some 0%nat else S <$> IndexByte b c
  end.

Definition LastIndexByte (b : bytes) (c : Z) : option nat :=
  match IndexByte (rev b) c with Some i => Some (length b - 1 - i)%nat | None => None end.

Definition addr_error (why hostport : string) : error := Errorf "address %s: %s" [hostport; why] [].

(** [net.SplitHostPort]; 58, 91 and 93 are the colon and the square brackets. *)
Definition SplitHostPort (hostport : string) : result (string * string) :=
  let b := bytes_of_string hostport in
  let fail why := Err (addr_error why hostport) in
  match LastIndexByte b 58 with
  | None => fail "missing port in address"
  | Some i =>
      let finish host j k :=
        if bool_decide (is_Some (IndexByte (drop j b) 91)) then fail "unexpected '[' in address"
        else if bool_decide (is_Some (IndexByte (drop k b) 93)) then fail "unexpected ']' in address"
        else Ok (string_of_bytes host, string_of_bytes (drop (i + 1) b)) in
      if match b with x :: _ => code x =? 91 | [] => false end then
        match IndexByte b 93 with
        | None => fail "missing ']' in address"
        | Some e =>
            if (e + 1 =? length b)%nat then fail "missing port in address"
            else if (e + 1 =? i)%nat then finish (drop 1 (take e b)) 1%nat (e + 1)%nat
            else if match b !! (e + 1)%nat with Some x => code x =? 58 | None => false end
            then fail "too many colons in address" else fail "missing port in address"
        end
      else
        let host := take i b in
        if bool_decide (is_Some (IndexByte host 58)) then fail "too many colons in address"
        else finish host 0%nat 0%nat
  end.

(** [net.JoinHostPort] *)
Definition JoinHostPort (host port : string) : string :=
  if bool_decide (is_Some (IndexByte (bytes_of_string host) 58))
  then "[" +:+ host +:+ "]:" +:+ port else host +:+ ":" +:+ port.

(** The escaping of net/url: letters, digits and [-_.~] are unreserved; [keep] are the
    other bytes a mode leaves alone. *)
Definition unreserved (c : Ascii.ascii) : bool :=
  is_digit c || is_upper c || ((97 <=? code c) && (code c <=? 122)) || in_set "-_.~" c.

Definition upperhex (d : Z) : Ascii.ascii := if d <? 10 then chr (48 + d) else chr (55 + d).

Definition percent (c : Ascii.ascii) : bytes :=
  [chr 37; upperhex (code c / 16); upperhex (code c mod 16)].

(** [url.User(s).String()]: mode encodeUserPassword. *)
Definition user_keeps (c : Ascii.ascii) : bool := unreserved c || in_set "$&+,;=" c.
Definition user_escape (c : Ascii.ascii) : bytes := if user_keeps c then [c] else percent c.
Definition User_String (s : string) : string :=
  string_of_bytes (concat (user_escape <$> bytes_of_string s)).

(** [url.QueryEscape]. *)
Definition query_escape (c : Ascii.ascii) : bytes :=
  if code c =? 32 then [chr 43] else if unreserved c then [c] else percent c.
Definition QueryEscape (s : string) : string :=
  string_of_bytes (concat (query_escape <$> bytes_of_string s)).

(** [url.Values] with one value per key, [Encode]d in the order of the keys. *)
Fixpoint Encode (values : list (string * string)) : string :=
  match values with
  | [] => ""
  | [(k, v)] => QueryEscape k +:+ "=" +:+ QueryEscape v
  | (k, v) :: values => QueryEscape k +:+ "=" +:+ QueryEscape v +:+ "&" +:+ Encode values
  end.

(** ** Hosts and ports *)

(** What the code reads of a [caddyhttp.Server]: its listen addresses; per route the host
    lists of its matchers, [None] for another matcher, and of its raw matcher sets, each
    with what unmarshalling its member [host] gives, if it has one. *)
Record route := mkRoute {
  MatcherSets : list (list (option (list string)));
  MatcherSetsRaw : list (option (result (list string)))
}.
Record server := mkServer { Listen : list string; Routes : list route }.

(** node_info.go, [inferNodeHosts]. *)
Definition inferNodeHosts (s : option server) : list string :=
  match s with
  | None => []
  | Some s =>
      concat ((fun r =>
        concat ((fun matcherSet => concat ((fun m => default [] m) <$> matcherSet)) <$> MatcherSets r) ++
        concat ((fun raw => match raw with Some (Ok hosts) => hosts | _ => [] end) <$> MatcherSetsRaw r))
        <$> Routes s)
  end.

Section NodeInfo.
Context `{UnicodeTables} `{SpaceTables}.

(** The loop of [normalizeNodeHosts]. *)
Fixpoint normalize_loop (hosts : list string) (seen : gset string) : list string :=
  match hosts with
  | [] => []
  | host :: hosts =>
      let host := TrimSpace host in
      if String.eqb host "" || ContainsAny host "{*" then normalize_loop hosts seen
      else
        let host := Trim host "[]" in
        let key := ToLower host in
        if bool_decide (key ∈ seen) then normalize_loop hosts seen
        else host :: normalize_loop hosts ({[key]} ∪ seen)
  end.

Definition normalizeNodeHosts (hosts : list string) : list string := normalize_loop hosts ∅.

(** node_info.go, [nodeHosts]. *)
Definition nodeHosts (c : Config) (s : option server) : list string :=
  normalizeNodeHosts (if (0 <? length (NodeHosts c))%nat then NodeHosts c else inferNodeHosts s).

(** node_info.go, [portFromListenAddress]. *)
Definition portFromListenAddress (listen : string) : option Z :=
  if String.eqb (TrimSpace listen) "" then None
  else if ContainsAny listen "/" then None
  else
    let portText := match SplitHostPort listen with
                    | Ok (_, portText) => portText
                    | Err _ => TrimPrefix listen ":"
                    end in
    match strconv.ParseUint portText 16 with
    | Err _ => None
    | Ok port => if port =? 0 then None else Some port
    end.

(** node_info.go, [nodePort]. *)
Fixpoint first_port (listens : list string) : Z :=
  match listens with
  | [] => 443
  | listen :: listens => match portFromListenAddress listen with Some port => port | None => first_port listens end
  end.

Definition nodePort (c : Config) (s : option server) : Z :=
  if negb (NodePort c =? 0) then NodePort c
  else match s with None => 443 | Some s => first_port (Listen s) end.

(** ** Links *)

(** node_info.go, [anyTLSURI]. *)
Definition anyTLSURI (password host : string) (port : Z) (sni : string) (insecure : bool) : string :=
  let authorityHost :=
    match ParseAddr host with
    | Ok addr => if Is6 addr then "[" +:+ host +:+ "]" else host
    | Err _ => host
    end in
  let authorityHost :=
    if negb (port =? 0) && negb (port =? 443)
    then JoinHostPort host (strconv.FormatInt port) else authorityHost in
  let values :=
    (if insecure then [("insecure", "1")] else []) ++
    (if negb (String.eqb sni "") && negb (String.eqb sni host) then [("sni", sni)] else []) in
  let uri := "anytls://" +:+ User_String password +:+ "@" +:+ authorityHost +:+ "/" in
  let encoded := Encode values in
  if negb (String.eqb encoded "") then uri +:+ "?" +:+ encoded else uri.

(** What is logged: a warning without a host, or one line per user and host. *)
Inductive node_log :=
| NodeMissingHost
| NodeAvailable (user outbound host : string) (port : Z) (sni : string) (insecure : bool) (uri : string).

Context {Ob Sv : Type} `{!Outbound Ob}.

(** node_info.go, [logNodeInfo]. *)
Definition logNodeInfo (lw : ListenerWrapper Ob Sv) (s : option server) : list node_log :=
  let c := config lw in
  if negb (LogNodeInfo c) then []
  else
    match nodeHosts c s with
    | [] => [NodeMissingHost]
    | hosts =>
        let port := nodePort c s in
        concat ((fun user =>
          if negb (user_Enabled user) then []
          else
            let outboundName :=
              if String.eqb (user_Outbound user) "" then snd (resolveDefaultOutbound lw)
              else user_Outbound user in
            (fun host =>
              let sni := if String.eqb (NodeSNI c) "" then host else NodeSNI c in
              NodeAvailable (user_Name user) outboundName host port sni (NodeInsecure c)
                (anyTLSURI (user_Password user) host port sni (NodeInsecure c))) <$> hosts) <$> Users c)
    end.

(** ** Provisioning with a server

    anytls.go, [Provision], with what it does to the HTTP server found in the context: it
    registers the two hooks of Website.v before anything can fail, and logs the links
    when all went well. *)

Inductive provision_effect :=
| RegisterConnContext
| RegisterConnState
| LogNode (l : node_log).

Context `{!Runtime Ob Sv}.

Definition ProvisionServer (s : option server) (lw : ListenerWrapper Ob Sv)
    : result (ListenerWrapper Ob Sv) * list provision_effect :=
  let hooks := match s with Some _ => [RegisterConnContext; RegisterConnState] | None => [] end in
  match Provision lw with
  | Err err => (Err err, hooks)
  | Ok lw => (Ok lw, hooks ++ (LogNode <$> logNodeInfo lw s))
  end.

End NodeInfo.

(** ** A reader of links

    What a client gets from a link: the userinfo, the host, the port (443 by default), the
    server name (the host by default) and the insecure flag.  Delimiters as in RFC 3986. *)

Definition is_code (z : Z) (c : Ascii.ascii) : bool := code c =? z.

Definition hexval (c : Ascii.ascii) : option Z :=
  if is_digit c then Some (code c - 48)
  else if (65 <=? code c) && (code c <=? 70) then Some (code c - 55)
  else if (97 <=? code c) && (code c <=? 102) then Some (code c - 87) else None.

(** Percent-decoding; in a query [plus] a plus sign is a space. *)
Fixpoint unescape (plus : bool) (b : bytes) : option bytes :=
  match b with
  | [] => Some []
  | c :: b =>
      if is_code 37 c then
        match b with
        | h :: l :: b =>
            match hexval h, hexval l with
            | Some h, Some l => cons (chr (16 * h + l)) <$> unescape plus b
            | _, _ => None
            end
        | _ => None
        end
      else cons (if plus && is_code 43 c then chr 32 else c) <$> unescape plus b
  end.

(** [b] up to its first delimiter, and what follows it. *)
Fixpoint cut (f : Ascii.ascii -> bool) (b : bytes) : bytes * option bytes :=
  match b with
  | [] => ([], None)
  | c :: b => if f c then ([], Some b) else let '(a, r) := cut f b in (c :: a, r)
  end.

(** [b] cut at every delimiter. *)
Fixpoint fields (f : Ascii.ascii -> bool) (b : bytes) : list bytes :=
  match b with
  | [] => [[]]
  | c :: b =>
      if f c then [] :: fields f b
      else match fields f b with a :: r => (c :: a) :: r | [] => [[c]] end
  end.

Definition read_pair (p : bytes) : option (string * string) :=
  let '(k, v) := cut (is_code 61) p in
  match unescape true k, unescape true (default [] v) with
  | Some k, Some v => Some (string_of_bytes k, string_of_bytes v)
  | _, _ => None
  end.

Definition read_query (b : bytes) : option (list (string * string)) :=
  match b with [] => Some [] | _ => mapM read_pair (fields (is_code 38) b) end.

Definition read_port (p : option bytes) : option Z :=
  match p with
  | None => Some 443
  | Some p => match strconv.ParseUint (string_of_bytes p) 16 with Ok p => Some p | Err _ => None end
  end.

Definition read_hostport (b : bytes) : option (string * Z) :=
  match b with
  | c :: b' =>
      if is_code 91 c then
        match cut (is_code 93) b' with
        | (host, Some r) =>
            match cut (is_code 58) r with
            | ([], p) => pair (string_of_bytes host) <$> read_port p
            | _ => None
            end
        | _ => None
        end
      else let '(host, p) := cut (is_code 58) b in pair (string_of_bytes host) <$> read_port p
  | [] => Some ("", 443)
  end.

Definition assoc (k : string) (l : list (string * string)) : option string :=
  snd <$> List.find (fun p => String.eqb (fst p) k) l.

Record link := mkLink {
  link_password : string; link_host : string; link_port : Z; link_sni : string; link_insecure : bool
}.

Definition read_link (s : string) : option link :=
  if negb (HasPrefix s "anytls://") then None
  else
    let '(b, _) := cut (is_code 35) (drop 9 (bytes_of_string s)) in
    let '(b, query) := cut (is_code 63) b in
    let '(authority, _) := cut (is_code 47) b in
    match cut (is_code 64) authority with
    | (user, Some hostport) =>
        match unescape false user, read_hostport hostport, read_query (default [] query) with
        | Some user, Some (host, port), Some q =>
            Some (mkLink (string_of_bytes user) host port (default host (assoc "sni" q))
                    (bool_decide (assoc "insecure" q = Some "1")))
        | _, _, _ => None
        end
    | _ => None
    end.

(** A host that can stand in a link: a name without delimiters, or an IPv6 address. *)
Definition plain_host (host : string) : bool :=
  negb (ContainsAny host "#/?@[]%") &&
  (negb (ContainsAny host ":") || match ParseAddr host with Ok a => Is6 a | Err _ => false end).

(** ** Escaping and delimiters *)

Definition free (z : Z) (b : bytes) : Prop := forallb (fun c => negb (is_code z c)) b = true.

Lemma free_app z a b : free z (a ++ b) <-> free z a /\ free z b.
Proof. unfold free. rewrite forallb_app. apply andb_true_iff. Qed.

Lemma cut_free z b : free z b -> cut (is_code z) b = (b, None).
Proof.
  unfold free. induction b as [|c b IH]; simpl; [done|]. intros H. bools.
  destruct (is_code z c); [done|]. by rewrite IH.
Qed.

Lemma cut_app z a c b : free z a -> is_code z c = true -> cut (is_code z) (a ++ c :: b) = (a, Some b).
Proof.
  unfold free. intros Ha Hc. induction a as [|x a IH]; simpl in *; [by rewrite Hc|]. bools.
  destruct (is_code z x); [done|]. by rewrite IH.
Qed.

Lemma fields_free z b : free z b -> fields (is_code z) b = [b].
Proof.
  unfold free. induction b as [|c b IH]; simpl; [done|]. intros H. bools.
  destruct (is_code z c); [done|]. by rewrite IH.
Qed.

Lemma fields_app z a c b :
  free z a -> is_code z c = true -> fields (is_code z) (a ++ c :: b) = a :: fields (is_code z) b.
Proof.
  unfold free. intros Ha Hc. induction a as [|x a IH]; simpl in *; [by rewrite Hc|]. bools.
  destruct (is_code z x); [done|]. by rewrite IH.
Qed.

(** An escaping that [unescape] undoes byte by byte, undoes it on strings. *)
Lemma unescape_concat plus (enc : Ascii.ascii -> bytes) b :
  (forall c r, unescape plus (enc c ++ r) = cons c <$> unescape plus r) ->
  unescape plus (concat (enc <$> b)) = Some b.
Proof. intros Henc. induction b as [|c b IH]; [done|].
  rewrite fmap_cons. cbn [concat]. by rewrite Henc, IH. Qed.

Lemma free_concat z (enc : Ascii.ascii -> bytes) b :
  (forall c, free z (enc c)) -> free z (concat (enc <$> b)).
Proof. intros Henc. induction b as [|c b IH]; [done|]. apply free_app. auto. Qed.

(** Evaluates a statement on each of the 256 characters. *)
Ltac each_byte c := destruct c as [[] [] [] [] [] [] [] []]; vm_compute; reflexivity.

(** Membership in a closed list. *)
Ltac listed := apply (bool_decide_unpack _); vm_compute; exact I.

Lemma chr_code c : chr (code c) = c.
Proof. each_byte c. Qed.

Lemma user_escape_free z c : z ∈ [35; 47; 58; 63; 64; 91] -> free z (user_escape c).
Proof. intros Hz. repeat (apply elem_of_cons in Hz as [->|Hz]; [clear; each_byte c|]). by apply not_elem_of_nil in Hz. Qed.

Lemma query_escape_free z c : z ∈ [35; 38; 61] -> free z (query_escape c).
Proof. intros Hz. repeat (apply elem_of_cons in Hz as [->|Hz]; [clear; each_byte c|]). by apply not_elem_of_nil in Hz. Qed.

Lemma unescape_percent plus c r : unescape plus (percent c ++ r) = cons c <$> unescape plus r.
Proof.
  assert (hexval (upperhex (code c / 16)) = Some (code c / 16)) as Hh by (clear; each_byte c).
  assert (hexval (upperhex (code c mod 16)) = Some (code c mod 16)) as Hl by (clear; each_byte c).
  assert (chr (16 * (code c / 16) + code c mod 16) = c) as Hc by (clear; each_byte c).
  unfold percent. cbn [app unescape]. change (is_code 37 (chr 37)) with true. cbv iota.
  by rewrite Hh, Hl, Hc.
Qed.

Lemma unescape_user_escape c r : unescape false (user_escape c ++ r) = cons c <$> unescape false r.
Proof.
  unfold user_escape. destruct (user_keeps c) eqn:Hk; [|apply unescape_percent].
  assert (negb (user_keeps c) || negb (is_code 37 c) = true) as H37 by (clear; each_byte c).
  rewrite Hk in H37. simpl in *. by destruct (is_code 37 c).
Qed.

Lemma unescape_query_escape c r : unescape true (query_escape c ++ r) = cons c <$> unescape true r.
Proof.
  unfold query_escape. destruct (Z.eqb_spec (code c) 32) as [Hs|_].
  - simpl. do 2 f_equal. rewrite <- (chr_code c), Hs. done.
  - destruct (unreserved c) eqn:Hk; [|apply unescape_percent].
    assert (negb (unreserved c) || negb (is_code 37 c || is_code 43 c) = true) as H37
      by (clear; each_byte c).
    rewrite Hk in H37. apply negb_true_iff, orb_false_iff in H37 as [H37 H43].
    simpl. by rewrite H37, H43.
Qed.

Lemma bytes_of_string_app s t : bytes_of_string (s +:+ t) = bytes_of_string s ++ bytes_of_string t.
Proof. induction s as [|c s IH]; [done|]. rewrite app_String. simpl. by rewrite IH. Qed.

(** The textual forms, in bytes. *)
Definition user_bytes (s : string) : bytes := concat (user_escape <$> bytes_of_string s).
Definition query_bytes (s : string) : bytes := concat (query_escape <$> bytes_of_string s).

Lemma unescape_user_bytes s : unescape false (user_bytes s) = Some (bytes_of_string s).
Proof. apply unescape_concat, unescape_user_escape. Qed.

Lemma unescape_query_bytes s : unescape true (query_bytes s) = Some (bytes_of_string s).
Proof. apply unescape_concat, unescape_query_escape. Qed.

Lemma user_bytes_free z s : z ∈ [35; 47; 58; 63; 64; 91] -> free z (user_bytes s).
Proof. intros Hz. apply free_concat. intros c. by apply user_escape_free. Qed.

Lemma query_bytes_free z s : z ∈ [35; 38; 61] -> free z (query_bytes s).
Proof. intros Hz. apply free_concat. intros c. by apply query_escape_free. Qed.

Fixpoint encode_bytes (values : list (string * string)) : bytes :=
  match values with
  | [] => []
  | [(k, v)] => query_bytes k ++ chr 61 :: query_bytes v
  | (k, v) :: values => (query_bytes k ++ chr 61 :: query_bytes v) ++ chr 38 :: encode_bytes values
  end.

Lemma Encode_cons2 k v kv values :
  Encode ((k, v) :: kv :: values) = QueryEscape k +:+ "=" +:+ QueryEscape v +:+ "&" +:+ Encode (kv :: values).
Proof. done. Qed.

Lemma encode_bytes_cons2 k v kv values :
  encode_bytes ((k, v) :: kv :: values) =
  (query_bytes k ++ chr 61 :: query_bytes v) ++ chr 38 :: encode_bytes (kv :: values).
Proof. done. Qed.

Lemma bytes_Encode values : bytes_of_string (Encode values) = encode_bytes values.
Proof.
  induction values as [|[k v] [|kv values] IH]; [done|..].
  - simpl. unfold QueryEscape. by rewrite !bytes_of_string_app, !bytes_of_string_of_bytes.
  - rewrite Encode_cons2, encode_bytes_cons2. unfold QueryEscape.
    rewrite !bytes_of_string_app, !bytes_of_string_of_bytes, IH. by rewrite <- !app_assoc.
Qed.

Lemma read_pair_encode k v : read_pair (query_bytes k ++ chr 61 :: query_bytes v) = Some (k, v).
Proof.
  unfold read_pair. rewrite cut_app; [simpl|apply query_bytes_free; listed|reflexivity].
  by rewrite !unescape_query_bytes, !string_of_bytes_of_string.
Qed.

Lemma pair_free k v : free 38 (query_bytes k ++ chr 61 :: query_bytes v).
Proof.
  apply free_app. split; [apply query_bytes_free; listed|].
  unfold free. simpl. apply query_bytes_free. listed.
Qed.

Lemma read_fields_encode values :
  values <> [] -> mapM read_pair (fields (is_code 38) (encode_bytes values)) = Some values.
Proof.
  induction values as [|[k v] [|kv values] IH]; [done|..]; intros _.
  - cbn [encode_bytes]. rewrite fields_free by apply pair_free. simpl. by rewrite read_pair_encode.
  - rewrite encode_bytes_cons2, fields_app; [|apply pair_free|done]. specialize (IH ltac:(done)). revert IH.
    generalize (fields (is_code 38) (encode_bytes (kv :: values))). intros l IH. simpl.
    by rewrite read_pair_encode, IH.
Qed.

(** A query survives encoding and reading. *)
Lemma read_query_encode values : read_query (encode_bytes values) = Some values.
Proof.
  destruct values as [|kv values]; [done|]. rewrite <- (read_fields_encode (kv :: values)) by done.
  unfold read_query. destruct (encode_bytes (kv :: values)) eqn:He; [|done].
  destruct kv as [k v], values; simpl in He; by destruct (query_bytes k).
Qed.

(** ** Links *)

Lemma ContainsAny_free host chars z :
  ContainsAny host chars = false -> in_set chars (chr z) = true -> 0 <= z < 256 -> free z (bytes_of_string host).
Proof.
  intros Hc Hin Hz. apply forallb_forall. intros c Hcin. apply negb_true_iff. unfold is_code.
  destruct (Z.eqb_spec (code c) z) as [<-|_]; [|done]. exfalso. rewrite chr_code in Hin.
  apply list_elem_of_In in Hcin. pose proof (proj1 (existsb_false _ _) Hc c Hcin). congruence.
Qed.

Lemma in_set_spec chars c : in_set chars c = true <-> c ∈ bytes_of_string chars.
Proof. apply bool_decide_eq_true. Qed.

(** A colon in a host, as the three functions that ask for it see it. *)
Lemma IndexByte_colon s : bool_decide (is_Some (IndexByte (bytes_of_string s) 58)) = ContainsAny s ":".
Proof.
  unfold ContainsAny. generalize (bytes_of_string s). intros b. induction b as [|c b IH]; [done|].
  cbn [existsb IndexByte]. rewrite <- IH.
  assert (in_set ":" c = (code c =? 58)) as -> by (clear; each_byte c).
  destruct (code c =? 58); [done|]. simpl. apply bool_decide_ext. apply fmap_is_Some.
Qed.

Lemma parseIPv4_not_6 s a : parseIPv4 s = Ok a -> Is6 a = false.
Proof. unfold parseIPv4. intros H. cases; done. Qed.

Lemma ParseAddr_scan_6 s b a :
  ParseAddr_scan s b = Ok a -> Is6 a = true -> existsb (in_set ":") b = true.
Proof.
  induction b as [|c b IH]; simpl; [done|]. intros H H6.
  destruct (code c =? 46); [by rewrite (parseIPv4_not_6 _ _ H) in H6|].
  destruct (Z.eqb_spec (code c) 58) as [Hc|_].
  - rewrite <- (chr_code c), Hc. done.
  - destruct (code c =? 37); [done|]. rewrite IH by done. apply orb_true_r.
Qed.

Lemma ParseAddr_6 s a : ParseAddr s = Ok a -> Is6 a = true -> ContainsAny s ":" = true.
Proof. apply ParseAddr_scan_6. Qed.

Definition port_bytes (p : option bytes) : bytes := match p with Some p => chr 58 :: p | None => [] end.

Lemma read_name h p :
  free 58 h -> free 91 h -> read_hostport (h ++ port_bytes p) = pair (string_of_bytes h) <$> read_port p.
Proof.
  intros H58 H91.
  assert (cut (is_code 58) (h ++ port_bytes p) = (h, p)) as Hcut.
  { destruct p; simpl; [by apply cut_app|]. rewrite app_nil_r. by apply cut_free. }
  destruct (h ++ port_bytes p) as [|c b] eqn:Hb.
  - by simplify_eq/=.
  - unfold read_hostport. rewrite Hcut. destruct (is_code 91 c) eqn:Hc; [|done].
    destruct h as [|x h]; simplify_eq/=.
    + destruct p; simplify_eq/=.
    + unfold free in H91. simpl in H91. by rewrite Hc in H91.
Qed.

Lemma read_bracket h p :
  free 93 h ->
  read_hostport (chr 91 :: h ++ chr 93 :: port_bytes p) = pair (string_of_bytes h) <$> read_port p.
Proof.
  intros H. unfold read_hostport. change (is_code 91 (chr 91)) with true. cbv iota.
  rewrite cut_app by done. by destruct p.
Qed.

(** The authority part of a link, after the userinfo. *)
Definition link_port_text (port : Z) : option bytes :=
  if negb (port =? 0) && negb (port =? 443) then Some (bytes_of_string (strconv.FormatInt port)) else None.

Definition link_authority (host : string) (port : Z) : bytes :=
  if ContainsAny host ":"
  then chr 91 :: bytes_of_string host ++ chr 93 :: port_bytes (link_port_text port)
  else bytes_of_string host ++ port_bytes (link_port_text port).

Definition link_values (host sni : string) (insecure : bool) : list (string * string) :=
  (if insecure then [("insecure", "1")] else []) ++
  (if negb (String.eqb sni "") && negb (String.eqb sni host) then [("sni", sni)] else []).

Definition link_query (values : list (string * string)) : bytes :=
  match values with [] => [] | _ => chr 63 :: encode_bytes values end.

Lemma Encode_nil values : String.eqb (Encode values) "" = match values with [] => true | _ => false end.
Proof.
  destruct values as [|[k v] [|kv values]]; [done|..].
  - simpl. by destruct (QueryEscape k).
  - rewrite Encode_cons2. by destruct (QueryEscape k).
Qed.

Lemma anyTLSURI_bytes password host port sni insecure :
  plain_host host = true ->
  bytes_of_string (anyTLSURI password host port sni insecure) =
  bytes_of_string "anytls://" ++ user_bytes password ++ chr 64 :: link_authority host port ++
  chr 47 :: link_query (link_values host sni insecure).
Proof.
  intros Hp. unfold anyTLSURI. fold (link_values host sni insecure).
  unfold plain_host in Hp. apply andb_prop in Hp as [_ Hp].
  rewrite Encode_nil. unfold link_authority, link_port_text, JoinHostPort, User_String. rewrite IndexByte_colon.
  assert (match ParseAddr host with Ok a => Is6 a | Err _ => false end = ContainsAny host ":") as H6.
  { destruct (ContainsAny host ":") eqn:Hc; [done|].
    destruct (ParseAddr host) as [a|] eqn:Ha; [|done]. destruct (Is6 a) eqn:H6; [|done].
    by rewrite (ParseAddr_6 _ _ Ha H6) in Hc. }
  assert (forall A (x y : A), match ParseAddr host with Ok a => if Is6 a then x else y | Err _ => y end
            = if ContainsAny host ":" then x else y) as Hif.
  { intros A x y. rewrite <- H6. by destruct (ParseAddr host). }
  rewrite Hif.
  destruct (link_values host sni insecure) eqn:Hv; rewrite <- Hv; simpl negb; cbv iota;
    destruct (negb (port =? 0) && negb (port =? 443)), (ContainsAny host ":");
    rewrite !bytes_of_string_app, ?bytes_Encode, ?bytes_of_string_of_bytes; unfold link_query;
    try rewrite Hv; cbn [port_bytes];
    do 2 (cbn [app]; rewrite <- ?app_assoc); reflexivity.
Qed.

Lemma digits_is_digit n b v : strconv.digits n b = Some v -> forallb is_digit b = true.
Proof.
  revert n. induction b as [|c b IH]; intros n; simpl; [done|].
  destruct (is_digit c); [|done]. apply IH.
Qed.

Lemma FormatInt_digits n : 0 <= n < 10 ^ 20 -> forallb is_digit (bytes_of_string (strconv.FormatInt n)) = true.
Proof.
  intros Hn. unfold strconv.FormatInt. rewrite bytes_of_string_of_bytes.
  destruct (Z.ltb_spec n 0); [lia|]. apply (digits_is_digit 0 _ n). by rewrite strconv.digits_format.
Qed.

Lemma digits_free z b : z < 48 \/ 57 < z -> forallb is_digit b = true -> free z b.
Proof.
  unfold free. intros Hz. induction b as [|c b IH]; simpl; [done|]. intros H. unfold is_digit in *. bools.
  rewrite IH by done. unfold is_code. destruct (Z.eqb_spec (code c) z); [lia|done].
Qed.

Lemma port_bytes_free z port :
  0 <= port < 65536 -> z < 48 \/ 58 < z -> free z (port_bytes (link_port_text port)).
Proof.
  intros Hp Hz. unfold link_port_text. destruct (negb (port =? 0) && negb (port =? 443)); [|done].
  apply (free_app z [chr 58]). split.
  - unfold free, is_code. cbn [forallb]. change (code (chr 58)) with 58. destruct (Z.eqb_spec 58 z); [lia|done].
  - apply digits_free; [lia|]. apply FormatInt_digits. lia.
Qed.

(** Discharges that a concrete delimiter is not in a host without delimiters. *)
Ltac host_free :=
  match goal with
  | H : ContainsAny _ _ = false |- _ => apply (ContainsAny_free _ _ _ H); [reflexivity|lia]
  end.

Lemma link_authority_free z host port :
  plain_host host = true -> 0 <= port < 65536 -> z ∈ [35; 47; 63; 64] ->
  free z (link_authority host port).
Proof.
  intros Hh Hp Hz. unfold plain_host in Hh. apply andb_prop in Hh as [Hh _]. apply negb_true_iff in Hh.
  unfold link_authority.
  repeat (apply elem_of_cons in Hz as [->|Hz]; [|]); [| | | |by apply not_elem_of_nil in Hz];
    (destruct (ContainsAny host ":");
      [apply (free_app _ [chr 91]); split; [reflexivity|];
       apply free_app; split; [host_free|apply (free_app _ [chr 93]); split; [reflexivity|]]
      |apply free_app; split; [host_free|]]); apply port_bytes_free; lia.
Qed.

Lemma read_port_text port :
  0 <= port < 65536 -> read_port (link_port_text port) = Some (if port =? 0 then 443 else port).
Proof.
  intros Hp. unfold link_port_text. destruct (Z.eqb_spec port 0) as [->|H0]; [done|].
  destruct (Z.eqb_spec port 443) as [->|H443]; [done|]. simpl.
  by rewrite string_of_bytes_of_string, strconv.ParseUint_FormatInt by lia.
Qed.

Lemma read_hostport_authority host port :
  plain_host host = true -> 0 <= port < 65536 ->
  read_hostport (link_authority host port) = Some (host, if port =? 0 then 443 else port).
Proof.
  intros Hh Hp. unfold plain_host in Hh. apply andb_prop in Hh as [Hh _]. apply negb_true_iff in Hh.
  unfold link_authority. destruct (ContainsAny host ":") eqn:Hc.
  - rewrite read_bracket by host_free. by rewrite read_port_text, string_of_bytes_of_string.
  - rewrite read_name; [by rewrite read_port_text, string_of_bytes_of_string| |host_free].
    by apply (ContainsAny_free _ _ _ Hc).
Qed.

Lemma link_query_free values : free 35 (link_query values).
Proof.
  unfold link_query. destruct values as [|kv values]; [done|]. apply (free_app _ [chr 63]). split; [done|].
  generalize (kv :: values). clear. intros l. induction l as [|[k v] [|kv l] IH]; [done|..].
  - simpl. apply free_app. split; [apply query_bytes_free; listed|].
    apply (free_app _ [chr 61]). split; [done|]. apply query_bytes_free. listed.
  - rewrite encode_bytes_cons2, !free_app. split; [split; [apply query_bytes_free; listed|]|].
    + apply (free_app _ [chr 61]). split; [done|]. apply query_bytes_free. listed.
    + by apply (free_app _ [chr 38]).
Qed.

Lemma free_cons z c b : is_code z (chr c) = false -> free z b -> free z (chr c :: b).
Proof. intros Hc Hb. unfold free in *. simpl. by rewrite Hc, Hb. Qed.

Definition query_part (values : list (string * string)) : option bytes :=
  match values with [] => None | _ => Some (encode_bytes values) end.

Lemma cut_query b values :
  free 63 b ->
  cut (is_code 63) (b ++ link_query values) = (b, query_part values).
Proof.
  intros Hb. destruct values as [|kv values]; simpl link_query.
  - rewrite app_nil_r. by apply cut_free.
  - by apply cut_app.
Qed.

Lemma read_query_values host sni insecure :
  sni <> "" \/ host = "" ->
  exists q, read_query (default [] (query_part (link_values host sni insecure))) = Some q /\
            default host (assoc "sni" q) = sni /\
            bool_decide (assoc "insecure" q = Some "1") = insecure.
Proof.
  intros Hsni. exists (link_values host sni insecure). split; [|split].
  - destruct (link_values host sni insecure) as [|kv l]; [done|]. apply read_query_encode.
  - unfold link_values. destruct (String.eqb_spec sni ""), (String.eqb_spec sni host), insecure;
      simpl; try done; destruct Hsni; congruence.
  - unfold link_values. by destruct (negb (String.eqb sni "") && negb (String.eqb sni host)), insecure.
Qed.

(** Reading a link gives back what it was made of; port 0 is the default. *)
Lemma read_link_anyTLSURI password host port sni insecure :
  plain_host host = true -> 0 <= port < 65536 -> sni <> "" \/ host = "" ->
  read_link (anyTLSURI password host port sni insecure) =
  Some (mkLink password host (if port =? 0 then 443 else port) sni insecure).
Proof.
  intros Hh Hp Hsni. unfold read_link.
  pose proof (anyTLSURI_bytes password host port sni insecure Hh) as Hb.
  destruct (read_query_values host sni insecure Hsni) as (q & Hq & Hqs & Hqi).
  set (values := link_values host sni insecure) in *.
  assert (HasPrefix (anyTLSURI password host port sni insecure) "anytls://" = true) as ->.
  { apply HasPrefix_spec. eexists (string_of_bytes _). apply bytes_of_string_inj.
    rewrite bytes_of_string_app, bytes_of_string_of_bytes. exact Hb. }
  rewrite Hb. simpl negb. cbv iota. rewrite drop_app_length' by done.
  assert (forall z, z ∈ [35; 47; 63; 64] -> free z (user_bytes password)) as Hu.
  { intros z Hz. apply user_bytes_free. clear -Hz. set_solver. }
  pose proof (fun z => link_authority_free z host port Hh Hp) as Ha.
  rewrite cut_free.
  2:{ rewrite free_app. split; [apply Hu; listed|]. apply free_cons; [done|].
      rewrite free_app. split; [apply Ha; listed|]. apply free_cons; [done|]. apply link_query_free. }
  replace (user_bytes password ++ chr 64 :: link_authority host port ++ chr 47 :: link_query values)
    with ((user_bytes password ++ chr 64 :: link_authority host port ++ [chr 47]) ++ link_query values)
    by (rewrite <- !app_assoc; cbn [app]; by rewrite <- !app_assoc).
  rewrite cut_query.
  2:{ rewrite free_app. split; [apply Hu; listed|]. apply free_cons; [done|].
      rewrite free_app. split; [apply Ha; listed|done]. }
  replace (user_bytes password ++ chr 64 :: link_authority host port ++ [chr 47])
    with ((user_bytes password ++ chr 64 :: link_authority host port) ++ [chr 47])
    by by rewrite <- app_assoc.
  rewrite cut_app; [|rewrite free_app; split; [apply Hu; listed|apply free_cons; [done|apply Ha; listed]]|done].
  rewrite cut_app; [|apply Hu; listed|done].
  rewrite unescape_user_bytes, read_hostport_authority, Hq, string_of_bytes_of_string by done.
  by rewrite Hqs, Hqi.
Qed.

Lemma portFromListenAddress_bounds `{SpaceTables} listen port :
  portFromListenAddress listen = Some port -> 0 < port < 65536.
Proof.
  unfold portFromListenAddress. destruct (String.eqb (TrimSpace listen) ""); [done|].
  destruct (ContainsAny listen "/"); [done|].
  destruct (strconv.ParseUint _ 16) as [p|] eqn:Hp; [|done].
  apply strconv.ParseUint_bounds in Hp; [|lia].
  destruct (Z.eqb_spec p 0); [done|]. intros [= <-]. lia.
Qed.

Lemma first_port_bounds `{SpaceTables} listens : 0 < first_port listens < 65536.
Proof.
  induction listens as [|l ls IH]; simpl; [lia|].
  destruct (portFromListenAddress l) eqn:Hp; [|done]. by apply portFromListenAddress_bounds in Hp.
Qed.

Lemma nodePort_bounds `{SpaceTables} c s : 0 <= NodePort c < 65536 -> 0 < nodePort c s < 65536.
Proof.
  intros Hc. unfold nodePort. destruct (Z.eqb_spec (NodePort c) 0); simpl; [|lia].
  destruct s; [apply first_port_bounds|lia].
Qed.

(** The hosts of the links: the trimmed ones given, without placeholders and wildcards,
    each once up to the case of letters. *)
Definition wanted_host `{SpaceTables} (host : string) : bool :=
  negb (String.eqb (TrimSpace host) "" || ContainsAny (TrimSpace host) "{*").

Lemma normalize_loop_spec `{UnicodeTables} `{SpaceTables} hosts seen :
  NoDup (ToLower <$> normalize_loop hosts seen) /\
  (forall h, h ∈ normalize_loop hosts seen ->
     ToLower h ∉ seen /\ exists h0, h0 ∈ hosts /\ wanted_host h0 = true /\ h = Trim (TrimSpace h0) "[]") /\
  (forall h0, h0 ∈ hosts -> wanted_host h0 = true ->
     ToLower (Trim (TrimSpace h0) "[]") ∈ seen \/
     ToLower (Trim (TrimSpace h0) "[]") ∈ ToLower <$> normalize_loop hosts seen).
Proof.
  revert seen. induction hosts as [|host hosts IH]; intros seen; cbn [normalize_loop].
  { split; [constructor|]. split; intros h Hin; by apply not_elem_of_nil in Hin. }
  destruct (String.eqb (TrimSpace host) "" || ContainsAny (TrimSpace host) "{*") eqn:Hskip.
  - destruct (IH seen) as (Hnd & Hsound & Hcomplete). split_and!; [done| |].
    + intros h Hin. destruct (Hsound h Hin) as (Hs & h0 & Hh0 & Hrest).
      split; [done|]. exists h0. by split; [right|].
    + intros h0 [->|Hh0]%elem_of_cons Hw; [|auto]. unfold wanted_host in Hw. by rewrite Hskip in Hw.
  - assert (wanted_host host = true) as Hw by (unfold wanted_host; by rewrite Hskip).
    set (kept := Trim (TrimSpace host) "[]").
    destruct (bool_decide_reflect (ToLower kept ∈ seen)) as [Hin|Hnin].
    + destruct (IH seen) as (Hnd & Hsound & Hcomplete). split_and!; [done| |].
      * intros h Hh. destruct (Hsound h Hh) as (Hs & h0 & Hh0 & Hrest).
        split; [done|]. exists h0. by split; [right|].
      * intros h0 [->|Hh0]%elem_of_cons Hw0; [by left|auto].
    + destruct (IH ({[ToLower kept]} ∪ seen)) as (Hnd & Hsound & Hcomplete). split_and!.
      * rewrite fmap_cons. constructor; [|done]. intros (h & Heq & Hh)%list_elem_of_fmap.
        destruct (Hsound h Hh) as [Hs _]. set_solver.
      * intros h [->|Hh]%elem_of_cons; [split; [done|]; exists host; by split; [left|]|].
        destruct (Hsound h Hh) as (Hs & h0 & Hh0 & Hrest).
        split; [set_solver|]. exists h0. by split; [right|].
      * intros h0 [->|Hh0]%elem_of_cons Hw0; [right; rewrite fmap_cons; left|].
        rewrite fmap_cons. destruct (Hcomplete h0 Hh0 Hw0) as [Hs|Hs]; [|by right; right].
        apply elem_of_union in Hs as [Hs|Hs]; [|by left].
        apply elem_of_singleton in Hs as ->. right. left.
Qed.

(** [normalizeNodeHosts] keeps every usable host once, whatever its case, and no other. *)
Lemma normalizeNodeHosts_spec `{UnicodeTables} `{SpaceTables} hosts :
  NoDup (ToLower <$> normalizeNodeHosts hosts) /\
  (forall h, h ∈ normalizeNodeHosts hosts ->
     exists h0, h0 ∈ hosts /\ wanted_host h0 = true /\ h = Trim (TrimSpace h0) "[]") /\
  (forall h0, h0 ∈ hosts -> wanted_host h0 = true ->
     ToLower (Trim (TrimSpace h0) "[]") ∈ ToLower <$> normalizeNodeHosts hosts).
Proof.
  destruct (normalize_loop_spec hosts ∅) as (Hnd & Hsound & Hcomplete). split_and!; [done| |].
  - intros h Hh. by destruct (Hsound h Hh).
  - intros h0 Hh0 Hw. by destruct (Hcomplete h0 Hh0 Hw) as [Hs%not_elem_of_empty|].
Qed.

(** Why [node_links] asks for a [plain_host]: nothing rejects a [node_host] that carries a
    port, and the link logged for it, beside the host and port 443, reads as another
    address. *)
Lemma host_with_port_misread :
  plain_host "example.com:8443" = false /\
  read_link (anyTLSURI "secret" "example.com:8443" 443 "example.com" false) =
    Some (mkLink "secret" "example.com" 8443 "example.com" false) /\
  read_link (anyTLSURI "secret" "example.com:8443" 443 "" false) =
    Some (mkLink "secret" "example.com" 8443 "example.com" false).
Proof. vm_compute. split_and!; reflexivity. Qed.

(** [normalizeNodeHosts] lets such a host pass. *)
Example host_with_port_kept `{UnicodeTables} `{SpaceTables} :
  TrimSpace "example.com:8443" = "example.com:8443" ->
  normalizeNodeHosts ["example.com:8443"] = ["example.com:8443"].
Proof. intros Ht. unfold normalizeNodeHosts. simpl. by rewrite Ht. Qed.

(** A host that is nothing but brackets is logged as an empty one. *)
Example brackets_only `{UnicodeTables} `{SpaceTables} : normalizeNodeHosts ["[]"] = [""].
Proof. reflexivity. Qed.

Lemma logNodeInfo_line `{UnicodeTables} `{SpaceTables} {Ob Sv} `{!Outbound Ob}
    (lw : ListenerWrapper Ob Sv) s user ob host port sni insecure uri :
  NodeAvailable user ob host port sni insecure uri ∈ logNodeInfo lw s ->
  host ∈ nodeHosts (config lw) s /\ port = nodePort (config lw) s /\
  (sni <> "" \/ host = "") /\
  exists u, u ∈ Users (config lw) /\ user_Enabled u = true /\ user_Name u = user /\
            uri = anyTLSURI (user_Password u) host port sni insecure.
Proof.
  unfold logNodeInfo. destruct (LogNodeInfo (config lw)); [|by intros Hin%not_elem_of_nil]. simpl negb. cbv iota.
  destruct (nodeHosts (config lw) s) as [|h hs] eqn:Hhosts;
    [by intros Hin%list_elem_of_singleton|].
  intros (lines & (u & <- & Hu)%in_map_iff & Hin)%list_elem_of_In%in_concat.
  apply list_elem_of_In in Hu, Hin. destruct (user_Enabled u) eqn:He; [|by apply not_elem_of_nil in Hin].
  simpl negb in Hin. cbv iota zeta in Hin. apply list_elem_of_fmap in Hin as (h' & Heq & Hh').
  injection Heq as -> _ <- -> -> -> ->. split_and!; [done|done| |by exists u].
  destruct (String.eqb_spec (NodeSNI (config lw)) ""); [|by left].
  destruct (decide (host = "")); auto.
Qed.

(** C18.  A link that [logNodeInfo] logs for a plain host (a name without any of the
    delimiters [#/?@[]%:], or an IPv6 address) leads to the site: reading it gives the
    password of an enabled user of the name logged, the host, port, server name and insecure
    flag logged beside it, whatever bytes the password has.  For a host that carries a port
    it does not: see [host_with_port_misread]. *)
Theorem node_links `{UnicodeTables} `{SpaceTables} {Ob Sv} `{!Outbound Ob}
    (lw : ListenerWrapper Ob Sv) s user ob host port sni insecure uri :
  0 <= NodePort (config lw) < 65536 ->
  NodeAvailable user ob host port sni insecure uri ∈ logNodeInfo lw s ->
  plain_host host = true ->
  host ∈ nodeHosts (config lw) s /\ 0 < port < 65536 /\
  exists u, u ∈ Users (config lw) /\ user_Enabled u = true /\ user_Name u = user /\
            read_link uri = Some (mkLink (user_Password u) host port sni insecure).
Proof.
  intros Hc Hin Hh. apply logNodeInfo_line in Hin as (Hhost & -> & Hsni & u & Hu & He & Hn & ->).
  pose proof (nodePort_bounds (config lw) s Hc) as Hp. split_and!; [done|lia|lia|].
  exists u. split_and!; [done..|]. rewrite read_link_anyTLSURI by (done || lia).
  by destruct (Z.eqb_spec (nodePort (config lw) s) 0); [lia|].
Qed.

#[local] Instance ascii_lower : UnicodeTables := { Map_ToLower s := s }.
#[local] Instance ascii_space : SpaceTables := { TrimFunc_IsSpace s := s }.
#[local] Existing Instance named_outbound.

Definition node_config : Config :=
  zero_Config <| Users := [mkUser "alice" "p@ss w/rd" true ""; mkUser "bob" "x" false ""] |>
              <| LogNodeInfo := true |> <| NodeSNI := "example.com" |>.

Definition node_server : server :=
  mkServer ["unix//run/caddy"; ":8443"] [mkRoute [[Some [" 2001:db8::1 "; "*.example.com"]]] []].

Definition node_wrapper : ListenerWrapper string unit := configured node_config false.

Lemma node_wrapper_log :
  logNodeInfo node_wrapper (Some node_server) =
  [NodeAvailable "alice" "direct" "2001:db8::1" 8443 "example.com" false
     "anytls://p%40ss%20w%2Frd@[2001:db8::1]:8443/?sni=example.com"].
Proof. vm_compute. reflexivity. Qed.

Lemma node_links_witness :
  "2001:db8::1" ∈ nodeHosts node_config (Some node_server) /\ 0 < 8443 < 65536 /\
  exists u, u ∈ Users node_config /\ user_Enabled u = true /\ user_Name u = "alice" /\
            read_link "anytls://p%40ss%20w%2Frd@[2001:db8::1]:8443/?sni=example.com" =
            Some (mkLink (user_Password u) "2001:db8::1" 8443 "example.com" false).
Proof.
  apply (node_links node_wrapper (Some node_server) "alice" "direct" "2001:db8::1" 8443 "example.com" false).
  - vm_compute. split; congruence.
  - rewrite node_wrapper_log. left.
  - vm_compute. reflexivity.
Defined.
