(* ===== verification/Policy.v ===== *)
(** * Destination policy

    policy.go, and [resolveDestination] of handler.go: which destinations an
    authenticated user may reach.  The wrapper checks names and ports first, resolves the
    name through the user's outbound, and checks every resolved address before
    anything is dialled. *)

From S2P Require Import Prelude GoErrors GoStrings Netip Wrapper Registry Provision.
Import netip strings.

Local Open Scope Z_scope.

(** [M.Socksaddr] of sing: an address or a domain name, and a port. *)
Record Socksaddr := mkSocksaddr { Addr : netip.Addr; Port : Z; Fqdn : string }.

#[export] Instance Socksaddr_eq_dec : EqDecision Socksaddr.
Proof. solve_decision. Defined.

(** Its methods [IsValid] and [String], which are sing's. *)
Class SocksaddrMethods := {
  Socksaddr_IsValid : Socksaddr -> bool;
  Socksaddr_String : Socksaddr -> string
}.

(** ** The tests *)

Definition must_prefix (s : string) : Prefix :=
  match ParsePrefix s with Ok p => p | Err _ => mkPrefix Addr_zero (-1) end.

(** policy.go, [privateDestinationPrefixes]. *)
Definition privateDestinationPrefixes : list Prefix :=
  must_prefix <$> ["10.0.0.0/8"; "172.16.0.0/12"; "192.168.0.0/16"; "100.64.0.0/10";
    "127.0.0.0/8"; "169.254.0.0/16"; "::1/128"; "::/128"; "fc00::/7"; "fe80::/10"].

(** policy.go, [containsPort]. *)
Definition containsPort (ports : list Z) (port : Z) : bool := existsb (Z.eqb port) ports.

(** policy.go, [matchesCIDRPolicy]. *)
Definition matchesCIDRPolicy (prefixes : list Prefix) (addr : netip.Addr) : bool :=
  if negb (IsValid addr) then false
  else let addr := Unmap addr in existsb (fun prefix => Contains prefix addr) prefixes.

Section Domains.
Context `{UnicodeTables}.

(** policy.go, [matchesDomainPolicy]. *)
Definition matchesDomainPolicy (patterns : list string) (domain : string) : bool :=
  let domain := TrimSuffix (ToLower domain) "." in
  existsb (fun pattern =>
    let pattern := TrimSuffix (ToLower pattern) "." in
    String.eqb pattern domain ||
    (HasPrefix pattern "." && HasSuffix domain pattern) ||
    (HasPrefix pattern "*." && HasSuffix domain (TrimPrefix pattern "*"))) patterns.

End Domains.

(** policy.go, [isPrivateDestination]. *)
Definition isPrivateDestination (destination : Socksaddr) : bool :=
  if negb (IsValid (Addr destination)) then false
  else
    let addr := Unmap (Addr destination) in
    if IsPrivate addr || IsLoopback addr || IsLinkLocalUnicast addr || IsLinkLocalMulticast addr ||
       IsUnspecified addr || IsMulticast addr
    then true
    else existsb (fun prefix => Contains prefix addr) privateDestinationPrefixes.

(** ** The handler's checks *)

Section Policy.
Context {Ob Sv : Type} `{!Outbound Ob} `{!UnicodeTables} `{!SocksaddrMethods}.
Implicit Types (lw : ListenerWrapper Ob Sv).

Definition policy_denied (destination : Socksaddr) : option error :=
  Some (Errorf "%w: %s" [Socksaddr_String destination] [Sentinel errDestinationPolicyDenied]).

(** policy.go, [validateNameAndPortPolicy]. *)
Definition validateNameAndPortPolicy (c : Config) (destination : Socksaddr) : option error :=
  if containsPort (DenyPorts c) (Port destination) then policy_denied destination
  else if (0 <? length (AllowPorts c))%nat && negb (containsPort (AllowPorts c) (Port destination))
  then policy_denied destination
  else if String.eqb (Fqdn destination) "" then None
  else if matchesDomainPolicy (DenyDomains c) (Fqdn destination) then policy_denied destination
  else if (0 <? length (AllowDomains c))%nat &&
          negb (matchesDomainPolicy (AllowDomains c) (Fqdn destination))
  then policy_denied destination
  else None.

(** policy.go, [needsCIDRPolicy]. *)
Definition needsCIDRPolicy (c : Config) : bool :=
  (0 <? length (AllowCIDRs c))%nat || (0 <? length (DenyCIDRs c))%nat || negb (AllowPrivateTargets c).

(** policy.go, the two loops of [validateResolvedDestinationPolicy]. *)
Definition resolves_to (original destination : Socksaddr) (s : sentinel) : option error :=
  Some (Errorf "%w: %s resolves to %s"
          [Socksaddr_String original; Addr_String (Addr destination)] [Sentinel s]).

Fixpoint check_denied (lw : ListenerWrapper Ob Sv) (original : Socksaddr)
    (destinations : list Socksaddr) : option error :=
  match destinations with
  | [] => None
  | destination :: destinations =>
      if matchesCIDRPolicy (denyCIDRPrefixes lw) (Addr destination)
      then resolves_to original destination errDestinationPolicyDenied
      else check_denied lw original destinations
  end.

Fixpoint check_allowed (lw : ListenerWrapper Ob Sv) (original : Socksaddr)
    (destinations : list Socksaddr) : option error :=
  match destinations with
  | [] => None
  | destination :: destinations =>
      let private := isPrivateDestination destination in
      let allowedCIDR := matchesCIDRPolicy (allowCIDRPrefixes lw) (Addr destination) in
      if private && negb (AllowPrivateTargets (config lw)) && negb allowedCIDR
      then resolves_to original destination errPrivateDestinationDenied
      else if (0 <? length (allowCIDRPrefixes lw))%nat && negb allowedCIDR
      then resolves_to original destination errDestinationPolicyDenied
      else check_allowed lw original destinations
  end.

Definition validateResolvedDestinationPolicy (lw : ListenerWrapper Ob Sv) (original : Socksaddr)
    (destinations : list Socksaddr) : option error :=
  match check_denied lw original destinations with
  | Some err => Some err
  | None => check_allowed lw original destinations
  end.

(** handler.go, [resolveDestination]; [user] is the user of the context. *)
Definition resolveDestination (lw : ListenerWrapper Ob Sv) (user : string)
    (destination : Socksaddr) : result (list Socksaddr) :=
  if IsValid (Addr destination) then Ok [destination]
  else
    let lookup := match resolveFunc lw with
                  | Some f => f
                  | None => LookupNetIP (fst (outboundForUser lw user))
                  end in
    match lookup "ip" (Fqdn destination) with
    | Err err => Err (Errorf "resolve destination %s: %w" [Socksaddr_String destination] [err])
    | Ok [] => Err (Errorf "resolve destination %s: no addresses" [Socksaddr_String destination] [])
    | Ok addresses => Ok ((fun addr => mkSocksaddr addr (Port destination) "") <$> addresses)
    end.

(** policy.go, [validateDestination]; [validateStreamDestination] and
    [validatePacketDestination] are calls of it. *)
Definition validateDestination (lw : ListenerWrapper Ob Sv) (user : string)
    (destination : Socksaddr) : result (list Socksaddr) :=
  if negb (Socksaddr_IsValid destination) || (Port destination =? 0)
  then Err (Errorf "%w" [] [Sentinel errInvalidDestination])
  else match validateNameAndPortPolicy (config lw) destination with
  | Some err => Err err
  | None =>
      if AllowPrivateTargets (config lw) && negb (needsCIDRPolicy (config lw))
      then resolveDestination lw user destination
      else match resolveDestination lw user destination with
      | Err err => Err err
      | Ok resolvedDestinations =>
          match validateResolvedDestinationPolicy lw destination resolvedDestinations with
          | Some err => Err err
          | None => Ok resolvedDestinations
          end
      end
  end.

Definition validateStreamDestination := validateDestination.
Definition validatePacketDestination := validateDestination.

End Policy.

(** ** Domain patterns

    [norm] is what both sides of the comparison go through. *)

Lemma substring_full n s : (String.length s <= n)%nat -> String.substring 0 n s = s.
Proof.
  revert n. induction s as [|c s IH]; intros [|n] Hn; simpl in *; try done; [lia|].
  rewrite IH; [done|lia].
Qed.

Lemma TrimPrefix_star rest : TrimPrefix ("*" +:+ rest) "*" = rest.
Proof.
  unfold TrimPrefix. rewrite (proj2 (HasPrefix_spec _ _)) by eauto.
  change (String.substring 0 (S (String.length rest)) rest = rest). apply substring_full. lia.
Qed.

Lemma TrimSuffix_other s : HasSuffix s "." = false -> TrimSuffix s "." = s.
Proof.
  induction s as [|c s IH]; [done|]. cbn [HasSuffix TrimSuffix].
  intros [-> Hs]%orb_false_iff. by rewrite IH.
Qed.

Lemma TrimSuffix_dot s : TrimSuffix (s +:+ ".") "." = s.
Proof.
  induction s as [|c s IH]; [done|]. rewrite app_String. cbn [TrimSuffix].
  destruct (String.eqb_spec (String c (s +:+ ".")) ".") as [Heq|_]; [|by rewrite IH].
  exfalso. apply (f_equal String.length) in Heq. simpl in Heq.
  rewrite length_app_string in Heq. simpl in Heq. lia.
Qed.

Lemma map_lower_app s t :
  map_string lower (s +:+ t) = map_string lower s +:+ map_string lower t.
Proof. induction s as [|c s IH]; [done|]. rewrite !app_String. simpl. by rewrite IH. Qed.

Lemma forallb_string_app f s t :
  forallb_string f (s +:+ t) = forallb_string f s && forallb_string f t.
Proof. induction s as [|c s IH]; [done|]. rewrite app_String. simpl. by rewrite IH, andb_assoc. Qed.

Section DomainSpec.
Context `{UnicodeTables}.

Definition norm (s : string) : string := TrimSuffix (ToLower s) ".".

(** One pattern: the name itself, [.suffix] or [*.suffix]. *)
Definition pattern_matches (p d : string) : Prop :=
  p = d \/ (exists rest sub, p = "." +:+ rest /\ d = sub +:+ "." +:+ rest) \/
  (exists rest sub, p = "*." +:+ rest /\ d = sub +:+ "." +:+ rest).

Lemma pattern_matches_spec p d :
  String.eqb p d || (HasPrefix p "." && HasSuffix d p) ||
    (HasPrefix p "*." && HasSuffix d (TrimPrefix p "*")) = true <-> pattern_matches p d.
Proof.
  unfold pattern_matches. rewrite !orb_true_iff, !andb_true_iff, String.eqb_eq.
  rewrite !HasPrefix_spec, !HasSuffix_spec. split.
  - intros [[->|[(rest & ->) (sub & ->)]]|[(rest & ->) (sub & Hd)]]; [by left| |].
    + right; left. by exists rest, sub.
    + right; right. exists rest, sub. split; [done|].
      change ("*." +:+ rest) with ("*" +:+ ("." +:+ rest)) in Hd. by rewrite TrimPrefix_star in Hd.
  - intros [->|[(rest & sub & -> & ->)|(rest & sub & -> & ->)]]; [by left; left| |].
    + left; right. eauto.
    + right. split; [eauto|]. exists sub.
      change ("*." +:+ rest) with ("*" +:+ ("." +:+ rest)). by rewrite TrimPrefix_star.
Qed.

Lemma matchesDomainPolicy_norm patterns domain :
  matchesDomainPolicy patterns domain = true <->
  exists p, p ∈ patterns /\ pattern_matches (norm p) (norm domain).
Proof. unfold matchesDomainPolicy. rewrite existsb_true. by setoid_rewrite pattern_matches_spec. Qed.

(** Two spellings of a domain name: other letter case, a trailing dot. *)
Definition same_name (d d' : string) : Prop :=
  forallb_string is_ascii d = true /\ forallb_string is_ascii d' = true /\
  HasSuffix d "." = false /\
  (map_string lower d' = map_string lower d \/ map_string lower d' = map_string lower d +:+ ".").

Lemma HasSuffix_lower s :
  HasSuffix s "." = false -> HasSuffix (map_string lower s) "." = false.
Proof.
  induction s as [|c s IH]; [done|]. cbn [HasSuffix map_string].
  intros [Hc Hs]%orb_false_iff. rewrite IH, orb_false_r by done.
  apply String.eqb_neq. intros [= Hlow Hmap]. apply String.eqb_neq in Hc. apply Hc.
  destruct s; [|done]. f_equal. revert Hlow. clear.
  destruct c as [[] [] [] [] [] [] [] []]; vm_compute; congruence.
Qed.

Lemma norm_same_name d d' : same_name d d' -> norm d' = norm d.
Proof.
  intros (Ha & Ha' & Hdot & Hsame). unfold norm. rewrite !ToLower_ascii by done.
  rewrite (TrimSuffix_other (map_string lower d)) by by apply HasSuffix_lower.
  destruct Hsame as [->| ->].
  - by apply TrimSuffix_other, HasSuffix_lower.
  - apply TrimSuffix_dot.
Qed.

End DomainSpec.

(** ** Specification *)

Section PolicySpec.
Context {Ob Sv : Type} `{!Outbound Ob} `{!UnicodeTables} `{!SocksaddrMethods}.
Implicit Types (lw : ListenerWrapper Ob Sv).

(** What the configuration says of a port and a name. *)
Definition name_port_ok (c : Config) (d : Socksaddr) : Prop :=
  Port d ∉ DenyPorts c /\ (AllowPorts c = [] \/ Port d ∈ AllowPorts c) /\
  (Fqdn d = "" \/
   matchesDomainPolicy (DenyDomains c) (Fqdn d) = false /\
   (AllowDomains c = [] \/ matchesDomainPolicy (AllowDomains c) (Fqdn d) = true)).

(** And of a resolved address: outside every denied block; inside an allowed one if there
    are any; and public, unless private targets are allowed or it is in an allowed block. *)
Definition address_ok lw (d : Socksaddr) : Prop :=
  matchesCIDRPolicy (denyCIDRPrefixes lw) (Addr d) = false /\
  (allowCIDRPrefixes lw = [] \/ matchesCIDRPolicy (allowCIDRPrefixes lw) (Addr d) = true) /\
  (isPrivateDestination d = true -> AllowPrivateTargets (config lw) = true \/
     matchesCIDRPolicy (allowCIDRPrefixes lw) (Addr d) = true).

(** The compiled prefixes are those of the configuration, as [Provision] leaves them. *)
Definition compiled lw : Prop :=
  compileCIDRPolicies (config lw) = Ok (allowCIDRPrefixes lw, denyCIDRPrefixes lw).

Lemma containsPort_spec ports p : containsPort ports p = true <-> p ∈ ports.
Proof.
  unfold containsPort. rewrite existsb_true. setoid_rewrite Z.eqb_eq. naive_solver.
Qed.

Lemma nonempty_spec {A} (l : list A) : (0 <? length l)%nat = true <-> l <> [].
Proof. destruct l; simpl; naive_solver. Qed.

Lemma or_nil_spec {A} (l : list A) (b : bool) :
  (l = [] \/ b = true) <-> (0 <? length l)%nat && negb b = false.
Proof. destruct l, b; simpl; naive_solver. Qed.

Lemma validateNameAndPortPolicy_None c d :
  validateNameAndPortPolicy c d = None <-> name_port_ok c d.
Proof.
  unfold validateNameAndPortPolicy, name_port_ok, policy_denied.
  rewrite <- !containsPort_spec, !or_nil_spec, not_true_iff_false.
  destruct (containsPort (DenyPorts c) (Port d)); [split; [done|by intros [? _]]|].
  destruct ((0 <? length (AllowPorts c))%nat && _); [split; [done|by intros (_ & ? & _)]|].
  destruct (String.eqb_spec (Fqdn d) "") as [He|He]; [split; auto|].
  destruct (matchesDomainPolicy (DenyDomains c) _); [split; [done|]; by intros (_ & _ & [?|[? _]])|].
  destruct ((0 <? length (AllowDomains c))%nat && _);
    [split; [done|]; by intros (_ & _ & [?|[_ ?]])|]. split; auto.
Qed.

Lemma check_denied_None lw o ds :
  check_denied lw o ds = None <->
  forall d, d ∈ ds -> matchesCIDRPolicy (denyCIDRPrefixes lw) (Addr d) = false.
Proof.
  induction ds as [|d ds IH]; cbn [check_denied]; [set_solver|].
  destruct (matchesCIDRPolicy _ _) eqn:Hm.
  - split; [done|]. intros Hall. specialize (Hall d ltac:(by left)). congruence.
  - rewrite IH. set_solver.
Qed.

Lemma private_spec (private allow m : bool) :
  (private = true -> allow = true \/ m = true) <-> private && negb allow && negb m = false.
Proof. destruct private, allow, m; simpl; naive_solver. Qed.

Lemma check_allowed_None lw o ds :
  check_allowed lw o ds = None <->
  forall d, d ∈ ds ->
    (allowCIDRPrefixes lw = [] \/ matchesCIDRPolicy (allowCIDRPrefixes lw) (Addr d) = true) /\
    (isPrivateDestination d = true -> AllowPrivateTargets (config lw) = true \/
       matchesCIDRPolicy (allowCIDRPrefixes lw) (Addr d) = true).
Proof.
  setoid_rewrite or_nil_spec. setoid_rewrite private_spec.
  induction ds as [|d ds IH]; cbn [check_allowed]; [set_solver|].
  setoid_rewrite elem_of_cons.
  destruct (_ && _ && _) eqn:H1; [split; [done|]; intros Hall; destruct (Hall d); [by left|congruence]|].
  destruct ((0 <? _)%nat && _) eqn:H2; [split; [done|]; intros Hall; destruct (Hall d); [by left|congruence]|].
  rewrite IH. split; [intros Hall d' [->|Hd]; auto|auto].
Qed.

Lemma validateResolved_None lw o ds :
  validateResolvedDestinationPolicy lw o ds = None <-> forall d, d ∈ ds -> address_ok lw d.
Proof.
  unfold validateResolvedDestinationPolicy, address_ok.
  assert (check_denied lw o ds = None /\ check_allowed lw o ds = None <->
    match check_denied lw o ds with Some e => Some e | None => check_allowed lw o ds end = None)
    as <- by (destruct (check_denied lw o ds); [split; [by intros [? _]|done]|split; [by intros [_ ?]|auto]]).
  rewrite check_denied_None, check_allowed_None. split.
  - intros [Hd Ha] d Hin. split; [by apply Hd|by apply Ha].
  - intros Hall. split; intros d Hin; by apply Hall.
Qed.

Lemma compiled_nil lw :
  compiled lw -> needsCIDRPolicy (config lw) = false ->
  allowCIDRPrefixes lw = [] /\ denyCIDRPrefixes lw = [] /\ AllowPrivateTargets (config lw) = true.
Proof.
  unfold compiled, compileCIDRPolicies, needsCIDRPolicy. intros Hc Hn.
  destruct (AllowCIDRs (config lw)), (DenyCIDRs (config lw)); simpl in *; try done.
  simplify_eq. by bools.
Qed.

Lemma resolveDestination_spec lw user d ds :
  resolveDestination lw user d = Ok ds ->
  ds <> [] /\ forall a, a ∈ ds -> Port a = Port d /\
    (a = d /\ IsValid (Addr d) = true \/ Fqdn a = "" /\ IsValid (Addr d) = false).
Proof.
  unfold resolveDestination. destruct (IsValid (Addr d)) eqn:Hv.
  - intros [= <-]. split; [done|]. intros a ->%list_elem_of_singleton. auto.
  - destruct (_ "ip" (Fqdn d)) as [[|a0 addrs]|e]; [done| |done]. intros [= <-].
    split; [done|]. intros a Ha.
    change (a ∈ (fun addr => mkSocksaddr addr (Port d) "") <$> (a0 :: addrs)) in Ha.
    apply list_elem_of_fmap in Ha as (addr & -> & _). simpl. auto.
Qed.

Lemma validateDestination_Ok lw user d ds :
  compiled lw -> validateDestination lw user d = Ok ds ->
  resolveDestination lw user d = Ok ds /\ (forall a, a ∈ ds -> address_ok lw a).
Proof.
  intros Hcomp. unfold validateDestination.
  destruct (negb _ || _); [done|]. destruct (validateNameAndPortPolicy _ _); [done|].
  destruct (AllowPrivateTargets (config lw) && _) eqn:Hskip; bools.
  - destruct (compiled_nil lw) as (Ha & Hd & Hp); [done|done|].
    intros Hres. split; [done|]. intros a _. unfold address_ok.
    rewrite Ha, Hd, Hp. unfold matchesCIDRPolicy. split_and!; auto. by destruct (negb _).
  - destruct (resolveDestination lw user d) as [ds'|e]; [|done].
    pose proof (validateResolved_None lw d ds') as Hres.
    destruct (validateResolvedDestinationPolicy lw d ds'); [done|].
    intros [= <-]. split; [done|]. by apply Hres.
Qed.

(** ** Properties *)

(** C3.  The policy is complete and enforced before anything is dialled: [validateDestination]
    returns addresses exactly when the destination is valid with a port, its port and
    name are allowed, it resolves, and every resolved address is outside the denied
    blocks, inside an allowed block if any is listed, and not private unless that is
    permitted.  One bad address among several refuses the whole destination. *)
Theorem validateDestination_spec lw user d ds :
  compiled lw ->
  validateDestination lw user d = Ok ds <->
  Socksaddr_IsValid d = true /\ Port d <> 0 /\ name_port_ok (config lw) d /\
  resolveDestination lw user d = Ok ds /\ (forall a, a ∈ ds -> address_ok lw a).
Proof.
  intros Hcomp. rewrite <- validateNameAndPortPolicy_None. split.
  - intros Hok. destruct (validateDestination_Ok lw user d ds Hcomp Hok) as [Hres Hall].
    unfold validateDestination in Hok.
    destruct (Socksaddr_IsValid d); simpl in Hok; [|done].
    destruct (Z.eqb_spec (Port d) 0); [done|].
    by destruct (validateNameAndPortPolicy (config lw) d).
  - intros (Hv & Hp & Hname & Hres & Hall). unfold validateDestination.
    apply Z.eqb_neq in Hp. rewrite Hv, Hp, Hname, Hres. simpl.
    apply (validateResolved_None lw d ds) in Hall. rewrite Hall. by destruct (_ && _).
Qed.

(** A denied block wins over everything: if a resolved address is in a [deny_cidr]
    block, the destination is refused as denied by policy, even when it is also in an
    [allow_cidr] block or private targets are allowed. *)
Lemma deny_cidr_wins lw user d ds a :
  compiled lw -> Socksaddr_IsValid d = true -> Port d <> 0 ->
  resolveDestination lw user d = Ok ds -> a ∈ ds ->
  matchesCIDRPolicy (denyCIDRPrefixes lw) (Addr a) = true ->
  exists e, validateDestination lw user d = Err e /\
            dialFailureReason e = "destination_policy_denied".
Proof.
  intros Hcomp Hv Hport Hres Ha Hdeny. unfold validateDestination.
  rewrite Hv. simpl. destruct (Z.eqb_spec (Port d) 0); [done|].
  destruct (validateNameAndPortPolicy (config lw) d) as [e|] eqn:Hname.
  { exists e. split; [done|]. unfold validateNameAndPortPolicy, policy_denied in Hname.
    by repeat split_match Hname. }
  destruct (AllowPrivateTargets (config lw) && _) eqn:Hskip; bools.
  { destruct (compiled_nil lw) as (_ & Hd & _); [done|done|].
    rewrite Hd in Hdeny. unfold matchesCIDRPolicy in Hdeny. by destruct (negb _). }
  rewrite Hres. unfold validateResolvedDestinationPolicy.
  assert (exists o, check_denied lw d ds = resolves_to d o errDestinationPolicyDenied) as [o Ho].
  { clear Hres. induction ds as [|b ds IH]; [by apply not_elem_of_nil in Ha|].
    cbn [check_denied]. destruct (matchesCIDRPolicy _ (Addr b)) eqn:Hb; [by exists b|].
    apply elem_of_cons in Ha as [->|Ha]; [congruence|auto]. }
  rewrite Ho. eexists. split; [reflexivity|done].
Qed.

(** C34.  A domain pattern matches the name itself, or with a leading [.] or [*.] every name
    that ends with the rest, so [.example.com] and [*.example.com] cover the subdomains
    of example.com but not example.com; and neither letter case nor a trailing dot lets
    a name evade the policy. *)
Theorem domain_policy_spec patterns d :
  (matchesDomainPolicy patterns d = true <->
   exists p, p ∈ patterns /\ pattern_matches (norm p) (norm d)) /\
  (forall d', same_name d d' -> matchesDomainPolicy patterns d' = matchesDomainPolicy patterns d).
Proof.
  split; [apply matchesDomainPolicy_norm|]. intros d' Hsame. apply eq_true_iff_eq.
  rewrite !matchesDomainPolicy_norm. by rewrite (norm_same_name d d' Hsame).
Qed.

(** The domain lists look at names only: for a destination given as an address, whatever
    [allow_domain] and [deny_domain] contain, the verdict of the name and port policy
    is the verdict on its port. *)
Lemma domain_lists_ignore_addresses c d allow deny :
  Fqdn d = "" ->
  (validateNameAndPortPolicy (c <| AllowDomains := allow |> <| DenyDomains := deny |>) d = None <->
   Port d ∉ DenyPorts c /\ (AllowPorts c = [] \/ Port d ∈ AllowPorts c)).
Proof.
  intros Hf. rewrite validateNameAndPortPolicy_None. unfold name_port_ok. simpl. tauto.
Qed.

End PolicySpec.

(** ** Witnesses

    A resolver that knows two names, one of which has a public and a private address. *)

#[local] Instance toy_tables : UnicodeTables := { Map_ToLower s := s }.

#[local] Instance toy_methods : SocksaddrMethods := {
  Socksaddr_IsValid d := IsValid (Addr d) || negb (String.eqb (Fqdn d) "");
  Socksaddr_String d := Fqdn d
}.

Definition public_address : netip.Addr := Addr_v4 0x5db8d822.
Definition private_address : netip.Addr := Addr_v4 0x0a000001.

#[local] Instance toy_outbound : Outbound unit := {
  DirectOutbound := tt;
  LookupNetIP _ _ host :=
    if String.eqb host "www.example.com" then Ok [public_address]
    else if String.eqb host "rebind.example.com" then Ok [public_address; private_address]
    else Err (errors_New "no such host")
}.

Definition web_only : Config :=
  zero_Config <| AllowPorts := [80; 443] |> <| AllowDomains := ["*.Example.com"] |>
              <| DenyCIDRs := ["10.0.0.0/8"] |> <| AllowCIDRs := ["0.0.0.0/0"] |>
              <| AllowPrivateTargets := true |>.

Definition web_wrapper : ListenerWrapper unit unit :=
  configured web_only false <| denyCIDRPrefixes := [must_prefix "10.0.0.0/8"] |>
                            <| allowCIDRPrefixes := [must_prefix "0.0.0.0/0"] |>.

Lemma validateDestination_spec_witness :
  let d := mkSocksaddr Addr_zero 443 "WWW.example.com." in
  let d' := mkSocksaddr Addr_zero 443 "www.example.com" in
  let a := mkSocksaddr public_address 443 "" in
  validateNameAndPortPolicy web_only d = None /\
  validateDestination web_wrapper "alice" d' = Ok [a] /\
  (validateDestination web_wrapper "alice" d' = Ok [a] <->
   Socksaddr_IsValid d' = true /\ Port d' <> 0 /\ name_port_ok web_only d' /\
   resolveDestination web_wrapper "alice" d' = Ok [a] /\
   (forall b, b ∈ [a] -> address_ok web_wrapper b)).
Proof.
  intros d d' a. split; [vm_compute; reflexivity|]. split; [vm_compute; reflexivity|].
  apply (validateDestination_spec web_wrapper "alice" d' [a]). vm_compute. reflexivity.
Defined.

(** The name resolves to a public and a denied address; the denied one wins although it is
    also allowed. *)
Lemma deny_cidr_wins_witness :
  exists e, validateDestination web_wrapper "alice" (mkSocksaddr Addr_zero 443 "rebind.example.com")
      = Err e /\ dialFailureReason e = "destination_policy_denied".
Proof.
  apply (deny_cidr_wins web_wrapper "alice" _
    [mkSocksaddr public_address 443 ""; mkSocksaddr private_address 443 ""]
    (mkSocksaddr private_address 443 ""));
    [vm_compute; reflexivity|done|simpl; lia|vm_compute; reflexivity|by right; left
    |vm_compute; reflexivity].
Defined.

Lemma domain_policy_spec_witness :
  same_name "evil.example" "EVIL.Example." /\
  matchesDomainPolicy ["evil.example"] "EVIL.Example." =
  matchesDomainPolicy ["evil.example"] "evil.example" /\
  matchesDomainPolicy [".example"] "example" = false.
Proof.
  assert (Hsame : same_name "evil.example" "EVIL.Example.").
  { split_and!; try (vm_compute; reflexivity). right. vm_compute. reflexivity. }
  split; [done|]. split; [|vm_compute; reflexivity].
  by apply (domain_policy_spec ["evil.example"] "evil.example").
Defined.

Lemma domain_lists_ignore_addresses_witness :
  let d := mkSocksaddr public_address 443 "" in
  validateNameAndPortPolicy (web_only <| AllowDomains := ["only.example"] |> <| DenyDomains := [] |>) d
    = None <->
  Port d ∉ DenyPorts web_only /\ (AllowPorts web_only = [] \/ Port d ∈ AllowPorts web_only).
Proof. by apply domain_lists_ignore_addresses. Defined.
