(* ===== verification/PrivateRanges.v ===== *)
(** * Which addresses are private

    [isPrivateDestination] combines six predicates of [netip], each a test on bytes or
    bit masks, with a list of prefixes.  Here it is proved equal to membership in a table of
    address blocks (RFC 6890: unspecified, private use, shared, loopback, link
    local, unique local, multicast). *)

From S2P Require Import Prelude GoErrors GoStrings Netip Wrapper Registry Provision.
Import netip strings.
From S2P Require Import Policy.

Local Open Scope Z_scope.

(** ** The table *)

Definition ip4 (a b c d : Z) : Z := ((a * 256 + b) * 256 + c) * 256 + d.

Definition special_v4 : list (Z * Z) :=
  [(ip4 0 0 0 0, 32); (ip4 10 0 0 0, 8); (ip4 100 64 0 0, 10); (ip4 127 0 0 0, 8);
   (ip4 169 254 0 0, 16); (ip4 172 16 0 0, 12); (ip4 192 168 0 0, 16); (ip4 224 0 0 0, 4)].

(** [::], [::1], [fc00::/7], [fe80::/10], [ff00::/8] *)
Definition special_v6 : list (Z * Z) :=
  [(0, 128); (1, 128); (0xfc00 * 2 ^ 112, 7); (0xfe80 * 2 ^ 112, 10); (0xff00 * 2 ^ 112, 8)].

Definition in_blocks (w : Z) (blocks : list (Z * Z)) (ip : Z) : bool :=
  existsb (fun '(a, bits) => same_block w bits a ip) blocks.

(** ** Automation for this file *)

Ltac Zify.zify_post_hook ::= Z.to_euclidean_division_equations.

(** Proves a disjunction of equations by trying its disjuncts. *)
Ltac pick_disjunct :=
  lazymatch goal with
  | |- _ \/ _ => first [left; pick_disjunct | right; pick_disjunct]
  | |- _ => lia
  end.

Ltac by_disjuncts :=
  intros; repeat match goal with H : _ \/ _ |- _ => destruct H end; pick_disjunct.

(** Computes the closed quotients and powers of a goal. *)
Ltac compute_closed op :=
  repeat match goal with
  | |- context [op ?x ?y] =>
      let v := eval vm_compute in (op x y) in
      lazymatch v with Z0 => idtac | Zpos _ => idtac end; change (op x y) with v
  end.

Lemma if_true_orb (b c : bool) : (if b then true else c) = b || c.
Proof. reflexivity. Qed.

(** ** IPv4 *)

Lemma private_prefixes_v4 ip :
  existsb (fun prefix => Contains prefix (Addr_v4 ip)) privateDestinationPrefixes =
  in_blocks 32 [(ip4 10 0 0 0, 8); (ip4 172 16 0 0, 12); (ip4 192 168 0 0, 16);
                (ip4 100 64 0 0, 10); (ip4 127 0 0 0, 8); (ip4 169 254 0 0, 16)] ip.
Proof.
  let v := eval vm_compute in privateDestinationPrefixes in
  change privateDestinationPrefixes with v.
  unfold in_blocks. cbn [existsb]. rewrite !Contains_v4 by lia. done.
Qed.

Lemma bytes_v4 ip :
  0 <= ip < 2 ^ 32 -> exists b0 b1 b2 b3, ip = ip4 b0 b1 b2 b3 /\
    0 <= b0 < 256 /\ 0 <= b1 < 256 /\ 0 <= b2 < 256 /\ 0 <= b3 < 256.
Proof.
  intros Hip.
  exists (ip / 2 ^ 24), (ip / 2 ^ 16 mod 256), (ip / 2 ^ 8 mod 256), (ip mod 256). unfold ip4. lia.
Qed.

(** The quotients the tests look at. *)
Lemma quotients_v4 b0 b1 b2 b3 :
  0 <= b0 < 256 -> 0 <= b1 < 256 -> 0 <= b2 < 256 -> 0 <= b3 < 256 ->
  let x := ip4 b0 b1 b2 b3 in
  x / 16777216 = b0 /\ x / 65536 = b0 * 256 + b1 /\ x / 256 = b0 * 65536 + b1 * 256 + b2 /\
  x / 1048576 = b0 * 16 + b1 / 16 /\ x / 4194304 = b0 * 4 + b1 / 64 /\ x / 268435456 = b0 / 16 /\
  x / 1 = x /\ b0 mod 256 = b0 /\ (b0 * 256 + b1) mod 256 = b1 /\
  (b0 * 65536 + b1 * 256 + b2) mod 256 = b2.
Proof. intros H0 H1 H2 H3 x. unfold x, ip4. split_and!; lia. Qed.

Lemma quotient_name x k : 0 < k -> exists q, x / k = q /\ q * k <= x < q * k + k.
Proof. intros Hk. exists (x / k). split; [done|nia]. Qed.

Lemma isPrivate_v4 ip :
  0 <= ip < 2 ^ 32 ->
  isPrivateDestination (mkSocksaddr (Addr_v4 ip) 0 "") = in_blocks 32 special_v4 ip.
Proof.
  intros Hip. unfold isPrivateDestination. cbn [Policy.Addr IsValid negb Unmap].
  rewrite private_prefixes_v4.
  unfold IsPrivate, IsLoopback, IsLinkLocalUnicast, IsLinkLocalMulticast, IsMulticast, IsUnspecified.
  cbn [Unmap]. rewrite !v4_div, !(proj1 land_masks) by (try apply Z.mod_pos_bound; lia).
  rewrite (bool_decide_ext (Addr_v4 ip = Addr_v4 0) (ip = 0)) by naive_solver.
  rewrite (bool_decide_eq_false_2 (Addr_v4 ip = _)) by done.
  unfold in_blocks, special_v4, same_block. cbn [existsb]. apply eq_true_iff_eq.
  destruct (bytes_v4 ip Hip) as (b0 & b1 & b2 & b3 & -> & H0 & H1 & H2 & H3).
  destruct (quotients_v4 b0 b1 b2 b3 H0 H1 H2 H3)
    as (E1 & E2 & E3 & E4 & E5 & E6 & E7 & E8 & E9 & E10).
  compute_closed Z.pow. rewrite E1, E2, E3, E4, E5, E6, E7, E8, E9, E10.
  destruct (quotient_name b0 16) as (h0 & -> & ?); [lia|].
  destruct (quotient_name b1 16) as (h1 & -> & ?); [lia|].
  destruct (quotient_name b1 64) as (q1 & -> & ?); [lia|].
  unfold ip4 in *. compute_closed Z.div. rewrite ?orb_false_r, if_true_orb.
  rewrite ?orb_true_iff, ?andb_true_iff, ?bool_decide_eq_true, ?Z.eqb_eq.
  clear E1 E2 E3 E4 E5 E6 E7 E8 E9 E10 Hip. split; by_disjuncts.
Qed.

(** ** IPv6 *)

Lemma private_prefixes_v6 ip z :
  0 <= ip < 2 ^ 128 ->
  existsb (fun prefix => Contains prefix (Addr_v6 ip z)) privateDestinationPrefixes =
  String.eqb z "" &&
  in_blocks 128 [(1, 128); (0, 128); (0xfc00 * 2 ^ 112, 7); (0xfe80 * 2 ^ 112, 10)] ip.
Proof.
  intros Hip. let v := eval vm_compute in privateDestinationPrefixes in
  change privateDestinationPrefixes with v.
  destruct (String.eqb_spec z "") as [->|Hz]; cbn [andb].
  - unfold in_blocks. cbn [existsb]. rewrite !Contains_v6 by lia. done.
  - apply existsb_false. intros p _. unfold Contains, hasZone. cbn [Zone].
    rewrite (proj2 (String.eqb_neq _ _) Hz). by rewrite orb_true_r.
Qed.

(** The top 16 bits decide everything but [::] and [::1]. *)
Lemma quotients_v6 x :
  0 <= x < 2 ^ 128 -> exists u, 0 <= u < 65536 /\ (x = 0 \/ x = 1 -> u = 0) /\
    x / 2 ^ 112 = u /\ x / 2 ^ 120 = u / 256 /\ x / 2 ^ 121 = u / 512 /\ x / 2 ^ 118 = u / 64 /\
    x / 2 ^ 0 = x /\ u mod 65536 = u /\ (u / 256) mod 256 = u / 256 /\ u / 256 / 2 = u / 512.
Proof.
  intros Hx. exists (x / 2 ^ 112).
  assert (forall k, 0 <= k -> x / 2 ^ (112 + k) = x / 2 ^ 112 / 2 ^ k) as Hdiv.
  { intros k Hk. by rewrite Z.pow_add_r, <- Z.div_div by lia. }
  pose proof (Hdiv 8 ltac:(lia)). pose proof (Hdiv 9 ltac:(lia)). pose proof (Hdiv 6 ltac:(lia)).
  split_and!; done || lia.
Qed.

Lemma isPrivate_v6 ip z :
  0 <= ip < 2 ^ 128 -> Is4In6 (Addr_v6 ip z) = false ->
  isPrivateDestination (mkSocksaddr (Addr_v6 ip z) 0 "") =
  in_blocks 128 special_v6 ip && (String.eqb z "" || negb (ip =? 0)).
Proof.
  intros Hip H46. unfold isPrivateDestination. cbn [Policy.Addr IsValid negb].
  assert (Hun : Unmap (Addr_v6 ip z) = Addr_v6 ip z) by (unfold Unmap; by rewrite H46).
  rewrite Hun, private_prefixes_v6 by done.
  unfold IsPrivate, IsLoopback, IsLinkLocalUnicast, IsLinkLocalMulticast, IsMulticast, IsUnspecified.
  rewrite Hun, !v6_div, !v6u16_div by lia. destruct land_masks as (_ & Hfe & Hffc0 & Hff0f).
  rewrite Hfe, Hffc0, Hff0f by (apply Z.mod_pos_bound; lia). clear Hfe Hffc0 Hff0f Hun H46.
  assert (bool_decide (Addr_v6 ip z = Addr_v6 0 "") = (ip =? 0) && String.eqb z "") as ->.
  { apply eq_true_iff_eq. rewrite bool_decide_eq_true, andb_true_iff, Z.eqb_eq, String.eqb_eq.
    split; [intros [= -> ->]; done|intros [-> ->]; done]. }
  rewrite (bool_decide_eq_false_2 (_ = Addr_v4 0)) by done.
  unfold in_blocks, special_v6, same_block. cbn [existsb].
  destruct (quotients_v6 ip Hip) as (u & Hu & Hsmall & E1 & E2 & E3 & E4 & E5 & E6 & E7 & E8).
  change (8 * (15 - 0)) with 120. change (16 * (7 - 0)) with 112. change (128 - 128) with 0.
  change (128 - 7) with 121. change (128 - 10) with 118. change (128 - 8) with 120.
  rewrite E1, E2, E3, E4, E5, E6, E7, E8. clear E1 E2 E3 E4 E5 E6 E7 E8 Hip.
  compute_closed Z.pow. compute_closed Z.mul. compute_closed Z.div.
  rewrite ?orb_false_r, ?orb_false_l, if_true_orb.
  destruct (String.eqb z ""); cbn [andb orb]; rewrite ?andb_true_r, ?andb_false_r, ?orb_false_r;
    apply eq_true_iff_eq;
    rewrite ?andb_true_iff, ?orb_true_iff, ?negb_true_iff, ?Z.eqb_eq, ?Z.eqb_neq.
  - split; by_disjuncts.
  - split; [intros H; split; [revert H; by_disjuncts|by_disjuncts]|intros [H ?]; revert H; by_disjuncts].
Qed.

(** Only the unmapped address matters. *)
Lemma isPrivate_unmap d :
  isPrivateDestination d = isPrivateDestination (mkSocksaddr (Unmap (Addr d)) 0 "").
Proof.
  unfold isPrivateDestination. cbn [Policy.Addr]. rewrite Unmap_idemp.
  destruct (Addr d) as [|ip|ip z]; [reflexivity..|]. unfold Unmap. by destruct (Is4In6 _).
Qed.

(** ** Properties *)

(** C29.  [isPrivateDestination] is membership in the table of special-purpose blocks, for
    IPv4, IPv4-mapped and IPv6 addresses alike, with one exception: the unspecified address
    [::] with a zone, which it takes for public. *)
Theorem isPrivateDestination_blocks d :
  addr_wf (Addr d) ->
  isPrivateDestination d =
  match Unmap (Addr d) with
  | Addr_zero => false
  | Addr_v4 ip => in_blocks 32 special_v4 ip
  | Addr_v6 ip zone => in_blocks 128 special_v6 ip && (String.eqb zone "" || negb (ip =? 0))
  end.
Proof.
  intros Hwf%Unmap_wf. rewrite isPrivate_unmap. pose proof (Unmap_idemp (Addr d)) as Hid.
  revert Hwf Hid. generalize (Unmap (Addr d)). intros [|ip|ip z] Hwf Hid; [done|by apply isPrivate_v4|].
  apply isPrivate_v6; [done|]. unfold Unmap in Hid. by destruct (Is4In6 _).
Qed.

(** The cloud metadata service, written as an IPv4-mapped address. *)
Lemma isPrivateDestination_blocks_witness :
  let d := mkSocksaddr (Addr_v6 (0xffff * 2 ^ 32 + ip4 169 254 169 254) "") 80 "" in
  Unmap (Addr d) = Addr_v4 (ip4 169 254 169 254) /\
  isPrivateDestination d =
  match Unmap (Addr d) with
  | Addr_zero => false
  | Addr_v4 ip => in_blocks 32 special_v4 ip
  | Addr_v6 ip zone => in_blocks 128 special_v6 ip && (String.eqb zone "" || negb (ip =? 0))
  end.
Proof.
  intros d. split; [reflexivity|]. apply (isPrivateDestination_blocks d). vm_compute. by split.
Defined.

(** The exception, concretely: [::] with any zone is not private, and no entry of [deny_cidr]
    matches it, so neither check of the policy stops it. *)
Lemma unspecified_with_zone_is_public zone prefixes port :
  zone <> "" ->
  isPrivateDestination (mkSocksaddr (Addr_v6 0 zone) port "") = false /\
  matchesCIDRPolicy prefixes (Addr_v6 0 zone) = false.
Proof.
  intros Hz. apply String.eqb_neq in Hz. split.
  - rewrite isPrivate_unmap. change (Unmap _) with (Addr_v6 0 zone).
    rewrite isPrivate_v6 by done. by rewrite Hz, andb_false_r.
  - unfold matchesCIDRPolicy. simpl. apply existsb_false. intros p _.
    change (Unmap (Addr_v6 0 zone)) with (Addr_v6 0 zone). unfold Contains, hasZone. simpl Zone.
    by rewrite Hz, orb_true_r.
Qed.

Lemma unspecified_with_zone_is_public_witness :
  isPrivateDestination (mkSocksaddr (Addr_v6 0 "lo") 80 "") = false /\
  matchesCIDRPolicy [must_prefix "::/0"] (Addr_v6 0 "lo") = false.
Proof. by apply unspecified_with_zone_is_public. Defined.
