(* ===== verification/Dial.v ===== *)
(** * Dialling a destination

    handler.go, [dialContext]: the addresses of a destination, ordered by
    [interleaveAddressFamilies], are dialled one after another, each by a
    goroutine of its own, a new one when a dial fails or after 250 ms without an answer;
    the first connection wins and [drainDialResults] closes the others.  The
    goroutines are a transition system: its actions are the choices of the scheduler,
    of the network and of the clock. *)

From S2P Require Import Prelude GoErrors GoStrings Netip Wrapper Registry Provision.
Import netip strings.
From S2P Require Import Policy.

Local Open Scope Z_scope.

(** ** The order of the addresses *)

(** The loop that merges the two families. *)
Fixpoint interleave_loop (fuel : nat) (preferred alternate interleaved : list Socksaddr)
    : list Socksaddr :=
  match fuel with
  | O => interleaved
  | S fuel =>
      if (0 <? length preferred)%nat || (0 <? length alternate)%nat then
        let '(preferred, interleaved) :=
          match preferred with
          | x :: preferred => (preferred, interleaved ++ [x])
          | [] => ([], interleaved)
          end in
        let '(alternate, interleaved) :=
          match alternate with
          | x :: alternate => (alternate, interleaved ++ [x])
          | [] => ([], interleaved)
          end in
        interleave_loop fuel preferred alternate interleaved
      else interleaved
  end.

Definition same_family (firstIsIPv6 : bool) (d : Socksaddr) : bool :=
  Bool.eqb (Is6 (Addr d)) firstIsIPv6.

(** handler.go, [interleaveAddressFamilies]. *)
Definition interleaveAddressFamilies (destinations : list Socksaddr) : list Socksaddr :=
  match destinations with
  | [] | [_] => destinations
  | first :: _ =>
      let firstIsIPv6 := Is6 (Addr first) in
      let preferred := List.filter (same_family firstIsIPv6) destinations in
      let alternate := List.filter (fun d => negb (same_family firstIsIPv6 d)) destinations in
      interleave_loop (length destinations) preferred alternate []
  end.

(** ** The dial loop *)

(** The struct [dialResult]; a connection is a number. *)
Record dialResult := mkDialResult { dr_conn : option Z; dr_err : option error }.

(** A dial goroutine: dialling, blocked on the channel [results], or done. *)
Inductive dialer := Running | Ready (r : dialResult) | Received (r : dialResult).

(** How [dialContext] returned; [Panicked] is an index out of range. *)
Inductive outcome := Connected (conn : Z) | AllFailed | Cancelled (err : error).
Inductive main := Looping | Returned (o : outcome) | Panicked.

Record dialState := mkDialState {
  resolvedDestinations : list Socksaddr;
  next : nat;
  inFlight : Z;
  fallbackTimerC : bool;             (** the channel is not nil *)
  errs : list error;
  d_main : main;
  remaining : Z;                     (** of [drainDialResults] *)
  dialers : list (Socksaddr * dialer);
  closed : list Z
}.

#[export] Instance Eta_dialState : Eta dialState := record_eta (
  fun s => mkDialState (resolvedDestinations s) (next s) (inFlight s) (fallbackTimerC s) (errs s)
    (d_main s) (remaining s) (dialers s) (closed s)).

(** [launchDial(resolvedDestinations[next]); next++; inFlight++] *)
Definition launchNext (s : dialState) : dialState :=
  match resolvedDestinations s !! next s with
  | None => s <| d_main := Panicked |>
  | Some a =>
      s <| dialers := dialers s ++ [(a, Running)] |> <| next := S (next s) |>
        <| inFlight := inFlight s + 1 |>
  end.

(** [next < len(resolvedDestinations)] *)
Definition more (s : dialState) : bool := (next s <? length (resolvedDestinations s))%nat.

(** The head of the loop, [for inFlight > 0], and the return after it. *)
Definition loop (s : dialState) : dialState :=
  if 0 <? inFlight s then s else s <| d_main := Returned AllFailed |>.

(** The state in which [dialContext] enters its loop. *)
Definition dial_start (destinations : list Socksaddr) : dialState :=
  let s := launchNext (mkDialState destinations 0 0 true [] Looping 0 [] []) in
  loop (s <| fallbackTimerC := negb (length destinations =? 1)%nat |>).

(** [case result := <-results] *)
Definition on_result (r : dialResult) (s : dialState) : dialState :=
  let s := s <| inFlight := inFlight s - 1 |> in
  match dr_err r, dr_conn r with
  | None, Some conn => s <| d_main := Returned (Connected conn) |> <| remaining := inFlight s |>
  | err, _ =>
      let err := match err with
                 | Some err => err
                 | None => errors_New "dial returned a nil connection"
                 end in
      let s := s <| errs := errs s ++ [err] |> in
      if more s then
        let s := launchNext s in
        loop (s <| fallbackTimerC := more s |>)
      else loop s
  end.

(** [case <-fallbackTimerC] *)
Definition on_timer (s : dialState) : dialState :=
  let s := launchNext s in
  loop (s <| fallbackTimerC := more s |>).

(** [case <-ctx.Done()] *)
Definition on_done (err : error) (s : dialState) : dialState :=
  s <| d_main := Returned (Cancelled err) |> <| remaining := inFlight s |>.

(** What [dialContext] returns. *)
Definition returned_value (s : dialState) (o : outcome) : option Z * option error :=
  match o with
  | Connected conn => (Some conn, None)
  | AllFailed => (None, errors_Join (errs s))
  | Cancelled err => (None, errors_Join (errs s ++ [err]))
  end.

(** One step: a dial ends, the loop takes a case of its [select], or the drain goroutine
    receives a late result. *)
Inductive dial_action :=
| Finish (i : nat) (r : dialResult)
| Receive (i : nat)
| TimerFires
| ContextDone (err : error)
| Drain (i : nat).

Definition dial_step (act : dial_action) (s : dialState) : option dialState :=
  match act with
  | Finish i r =>
      match dialers s !! i with
      | Some (a, Running) => Some (s <| dialers := <[i := (a, Ready r)]> (dialers s) |>)
      | _ => None
      end
  | Receive i =>
      match d_main s, dialers s !! i with
      | Looping, Some (a, Ready r) =>
          Some (on_result r (s <| dialers := <[i := (a, Received r)]> (dialers s) |>))
      | _, _ => None
      end
  | TimerFires =>
      match d_main s with
      | Looping => if fallbackTimerC s then Some (on_timer s) else None
      | _ => None
      end
  | ContextDone err =>
      match d_main s with Looping => Some (on_done err s) | _ => None end
  | Drain i =>
      match d_main s, dialers s !! i with
      | Returned _, Some (a, Ready r) =>
          if 0 <? remaining s then
            Some (s <| dialers := <[i := (a, Received r)]> (dialers s) |>
                    <| remaining := remaining s - 1 |>
                    <| closed := closed s ++ match dr_conn r with Some c => [c] | None => [] end |>)
          else None
      | _, _ => None
      end
  end.

Definition dial_run : list dial_action -> dialState -> option dialState := run dial_step.

(** [DialContext] of an [Outbound], with the deadline of its context. *)
Class Dialer (Ob C : Type) := { DialContext : Ob -> option Z -> string -> string -> result C }.

Section Dial.
Context {Ob Sv : Type} `{!Outbound Ob} `{!UnicodeTables} `{!SocksaddrMethods}.

(** handler.go, [dialContext], up to its loop: the error it returns at once, or the
    state it loops from. *)
Definition dialContext (lw : ListenerWrapper Ob Sv) (user : string) (destination : Socksaddr)
    : result dialState :=
  match validateStreamDestination lw user destination with
  | Err err => Err err
  | Ok resolved => Ok (dial_start (interleaveAddressFamilies resolved))
  end.

(** *** The time budget

    A context's deadline, if it has one. *)

(** [context.WithTimeout(ctx, timeout)] at time [now]. *)
Definition WithTimeout (ctx : option Z) (now timeout : Z) : option Z :=
  Some (match ctx with Some d => Z.min d (now + timeout) | None => now + timeout end)%Z.

(** [if timeout > 0 { ctx, cancel = context.WithTimeout(ctx, timeout) }], as in [dialContext]
    and in [dialResolved]. *)
Definition connect_context (c : Config) (ctx : option Z) (now : Z) : option Z :=
  if (0 <? ConnectTimeout c)%Z then WithTimeout ctx now (ConnectTimeout c) else ctx.

(** handler.go, [dialResolved], called at time [now]; [dialFunc] is the field of that name, nil
    outside of tests. *)
Definition dialResolved {C} `{!Dialer Ob C} (lw : ListenerWrapper Ob Sv)
    (dialFunc : option (option Z -> string -> string -> result C))
    (user : string) (ctx : option Z) (now : Z) (address : string) : result C :=
  match dialFunc with
  | Some f => f ctx "tcp" address
  | None => DialContext (fst (outboundForUser lw user)) (connect_context (config lw) ctx now) "tcp" address
  end.

(** All dials of a destination share one budget: a dial that starts later than [dialContext]
    has its deadline, no later one. *)
Lemma dialResolved_budget {C} `{!Dialer Ob C} (lw : ListenerWrapper Ob Sv) user ctx start now address :
  (start <= now)%Z ->
  dialResolved lw None user (connect_context (config lw) ctx start) now address =
  DialContext (fst (outboundForUser lw user)) (connect_context (config lw) ctx start) "tcp" address.
Proof.
  intros Hle. unfold dialResolved. f_equal. unfold connect_context, WithTimeout.
  destruct (0 <? ConnectTimeout (config lw))%Z; [|done]. f_equal. destruct ctx; lia.
Qed.

End Dial.

(** ** Lemmas on the order *)

(** The merge without its fuel. *)
Fixpoint weave (preferred alternate : list Socksaddr) : list Socksaddr :=
  match preferred, alternate with
  | x :: preferred, y :: alternate => x :: y :: weave preferred alternate
  | [], alternate => alternate
  | preferred, [] => preferred
  end.

Lemma interleave_loop_weave fuel p a acc :
  (length p + length a <= fuel)%nat -> interleave_loop fuel p a acc = acc ++ weave p a.
Proof.
  revert p a acc. induction fuel as [|fuel IH]; intros [|x p] [|y a] acc Hf; simpl in *;
    try lia; rewrite ?app_nil_r; try done.
  - rewrite IH by (simpl; lia). by rewrite <- app_assoc.
  - rewrite IH by (simpl; lia). rewrite <- app_assoc. by destruct p.
  - rewrite IH by lia. by rewrite <- !app_assoc.
Qed.

Lemma weave_perm p a : weave p a ≡ₚ p ++ a.
Proof.
  revert a. induction p as [|x p IH]; intros [|y a]; simpl; rewrite ?app_nil_r; try done.
  rewrite IH. by rewrite Permutation_middle.
Qed.

Lemma weave_filter (f : Socksaddr -> bool) p a :
  (forall x, x ∈ p -> f x = true) -> (forall x, x ∈ a -> f x = false) ->
  List.filter f (weave p a) = p /\ List.filter (fun x => negb (f x)) (weave p a) = a.
Proof.
  assert (Hall : forall (g : Socksaddr -> bool) l, (forall x, x ∈ l -> g x = true) -> List.filter g l = l).
  { intros g l. induction l as [|x l IH]; intros Hg; simpl; [done|].
    rewrite (Hg x) by by left. f_equal. apply IH. intros y Hy. apply Hg. by right. }
  assert (Hnone : forall (g : Socksaddr -> bool) l, (forall x, x ∈ l -> g x = false) -> List.filter g l = []).
  { intros g l. induction l as [|x l IH]; intros Hg; simpl; [done|].
    rewrite (Hg x) by by left. apply IH. intros y Hy. apply Hg. by right. }
  revert a. induction p as [|x p IH]; intros [|y a] Hp Ha; simpl; try done.
  - rewrite (Ha y) by by left. simpl. split; [apply Hnone|f_equal; apply Hall];
      intros z Hz; (rewrite (Ha z); [done|by right]).
  - rewrite (Hp x) by by left. simpl. split; [f_equal; apply Hall|apply Hnone];
      intros z Hz; (rewrite (Hp z); [done|by right]).
  - rewrite (Hp x), (Ha y) by by left. simpl.
    destruct (IH a) as [IH1 IH2]; [intros z Hz; apply Hp; by right|intros z Hz; apply Ha; by right|].
    by rewrite IH1, IH2.
Qed.

(** While both families last, they take turns. *)
Lemma weave_alternates p a i :
  (i < 2 * min (length p) (length a))%nat ->
  weave p a !! i = if Nat.even i then p !! (i / 2)%nat else a !! (i / 2)%nat.
Proof.
  revert a i. induction p as [|x p IH]; intros [|y a] i Hi; simpl in Hi; try lia.
  destruct i as [|[|i]]; [done..|]. cbn [weave lookup list_lookup Nat.even].
  rewrite IH by lia.
  replace (S (S i)) with (i + 1 * 2)%nat by lia. rewrite Nat.div_add by lia.
  rewrite Nat.add_1_r. done.
Qed.

Lemma filter_perm (f : Socksaddr -> bool) l :
  List.filter f l ++ List.filter (fun x => negb (f x)) l ≡ₚ l.
Proof.
  induction l as [|x l IH]; simpl; [done|]. destruct (f x); simpl; [by rewrite IH|].
  by rewrite <- Permutation_middle, IH.
Qed.

Lemma filter_length_le (f : Socksaddr -> bool) l :
  (length (List.filter f l) + length (List.filter (fun x => negb (f x)) l) = length l)%nat.
Proof. rewrite <- length_app. by rewrite filter_perm. Qed.

Lemma interleave_weave first rest :
  let f := same_family (Is6 (Addr first)) in
  let l := first :: rest in
  interleaveAddressFamilies l = weave (List.filter f l) (List.filter (fun d => negb (f d)) l).
Proof.
  intros f l. unfold interleaveAddressFamilies. subst l. destruct rest as [|x rest].
  - assert (f first = true) as Hf by (unfold f, same_family; apply Bool.eqb_reflx).
    simpl. by rewrite Hf.
  - rewrite interleave_loop_weave; [done|]. by rewrite filter_length_le.
Qed.

Lemma interleave_perm ds : interleaveAddressFamilies ds ≡ₚ ds.
Proof.
  destruct ds as [|x ds]; [done|]. rewrite interleave_weave, weave_perm. apply filter_perm.
Qed.

(** C33.  The dialling order: every resolved address once, the resolver's first one first, each
    family in the resolver's order, and the two families in turn for as long as both
    last. *)
Theorem interleave_spec first rest :
  let l := first :: rest in
  let f := same_family (Is6 (Addr first)) in
  let out := interleaveAddressFamilies l in
  let n := min (length (List.filter f l)) (length (List.filter (fun d => negb (f d)) l)) in
  out ≡ₚ l /\ head out = Some first /\
  List.filter f out = List.filter f l /\
  List.filter (fun d => negb (f d)) out = List.filter (fun d => negb (f d)) l /\
  (forall i, (i < 2 * n)%nat -> f <$> out !! i = Some (Nat.even i)).
Proof.
  intros l f out n. pose proof (interleave_weave first rest) as Hw. cbv zeta in Hw.
  fold l f in Hw. fold out in Hw.
  assert (Hfirst : f first = true) by (unfold f, same_family; apply Bool.eqb_reflx).
  assert (Hp : forall x, x ∈ List.filter f l -> f x = true).
  { intros x Hx%list_elem_of_In. by apply List.filter_In in Hx as [_ ?]. }
  assert (Ha : forall x, x ∈ List.filter (fun d => negb (f d)) l -> f x = false).
  { intros x Hx%list_elem_of_In. apply List.filter_In in Hx as [_ Hx]. by apply negb_true_iff in Hx. }
  destruct (weave_filter f _ _ Hp Ha) as [H1 H2]. rewrite <- Hw in H1, H2.
  split; [apply interleave_perm|]. split; [|split; [done|split; [done|]]].
  - rewrite Hw. unfold l. simpl List.filter. rewrite Hfirst. simpl negb. cbv iota.
    by destruct (List.filter (fun d => negb (f d)) rest).
  - intros i Hi. rewrite Hw, weave_alternates by done.
    assert (i / 2 < n)%nat by (apply Nat.Div0.div_lt_upper_bound; lia).
    destruct (Nat.even i).
    + destruct (List.filter f l !! (i / 2)%nat) as [x|] eqn:Hx.
      * simpl. f_equal. apply Hp. by eapply list_elem_of_lookup_2.
      * apply lookup_ge_None in Hx. lia.
    + destruct (List.filter (fun d => negb (f d)) l !! (i / 2)%nat) as [x|] eqn:Hx.
      * simpl. f_equal. apply Ha. by eapply list_elem_of_lookup_2.
      * apply lookup_ge_None in Hx. lia.
Qed.

(** ** The invariant of the loop *)

(** Go's convention for a dial: a connection or an error, not both. *)
Definition clean (r : dialResult) : Prop := dr_err r = None \/ dr_conn r = None.
Definition clean_action (act : dial_action) : Prop :=
  match act with Finish _ r => clean r | _ => True end.

Definition pending (d : Socksaddr * dialer) : bool :=
  match snd d with Received _ => false | _ => true end.
Definition answered (d : Socksaddr * dialer) : bool := negb (pending d).

(** The connection a received result brought. *)
Definition brought (d : Socksaddr * dialer) : option Z :=
  match snd d with Received r => dr_conn r | _ => None end.
Definition established (s : dialState) : list Z := omap brought (dialers s).

Definition won (o : outcome) : list Z := match o with Connected c => [c] | _ => [] end.

Definition clean_dialer (d : Socksaddr * dialer) : Prop :=
  match snd d with Running => True | Ready r | Received r => clean r end.

Definition main_inv (s : dialState) : Prop :=
  match d_main s with
  | Looping =>
      inFlight s = countb pending (dialers s) /\ 0 < inFlight s /\
      (fallbackTimerC s = true -> (next s < length (resolvedDestinations s))%nat) /\
      remaining s = 0 /\ closed s = [] /\ established s = []
  | Returned o =>
      remaining s = countb pending (dialers s) /\ established s ≡ₚ closed s ++ won o /\
      (o = AllFailed -> next s = length (resolvedDestinations s) /\ remaining s = 0 /\ closed s = [] /\
        Z.of_nat (length (errs s)) = countb answered (dialers s))
  | Panicked => False
  end.

Record dial_inv (s : dialState) : Prop := {
  di_dialled : (dialers s).*1 = take (next s) (resolvedDestinations s);
  di_next : (next s <= length (resolvedDestinations s))%nat;
  di_clean : Forall clean_dialer (dialers s);
  di_errs : d_main s = Looping -> Z.of_nat (length (errs s)) = countb answered (dialers s);
  di_main : main_inv s
}.

Lemma insert_fst (l : list (Socksaddr * dialer)) i a d d' :
  l !! i = Some (a, d) -> (<[i := (a, d')]> l).*1 = l.*1.
Proof.
  intros Hi. rewrite list_fmap_insert. apply list_insert_id. by rewrite list_lookup_fmap, Hi.
Qed.

Lemma launchNext_more s :
  more s = true -> exists a, resolvedDestinations s !! next s = Some a /\
    launchNext s = s <| dialers := dialers s ++ [(a, Running)] |> <| next := S (next s) |>
                     <| inFlight := inFlight s + 1 |>.
Proof.
  unfold more, launchNext. intros Hm. bools.
  destruct (lookup_lt_is_Some_2 (resolvedDestinations s) (next s) Hm) as [a Ha].
  exists a. by rewrite Ha.
Qed.

(** Launching keeps the list of dialled addresses a prefix of the order. *)
Lemma dial_inv_launch s t err_count :
  (dialers s).*1 = take (next s) (resolvedDestinations s) -> Forall clean_dialer (dialers s) ->
  more s = true -> d_main s = Looping -> inFlight s = countb pending (dialers s) ->
  remaining s = 0 -> closed s = [] -> established s = [] ->
  Z.of_nat (length (errs s)) = err_count -> countb answered (dialers s) = err_count ->
  t = launchNext s ->
  dial_inv (loop (t <| fallbackTimerC := more t |>)).
Proof.
  intros Hd Hc Hm Hl Hf Hr Hcl He Hlen Hans ->.
  destruct (launchNext_more s Hm) as (a & Ha & ->). unfold more in Hm. bools.
  unfold loop. cbn [inFlight update_field].
  pose proof (countb_nonneg pending (dialers s)).
  simpl. destruct (Z.ltb_spec 0 (inFlight s + 1)) as [_|]; [|lia]. split; simpl.
  - rewrite fmap_app, Hd. simpl. by rewrite <- take_S_r.
  - lia.
  - apply Forall_app. by repeat constructor.
  - intros _. rewrite countb_app. simpl. lia.
  - unfold main_inv. simpl. rewrite Hl. split_and!; try done.
    + rewrite countb_app. simpl. lia.
    + lia.
    + unfold more. simpl. intros Ht. by bools.
    + unfold established in *. simpl. by rewrite omap_app, He.
Qed.

Lemma dial_inv_start ds : ds <> [] -> dial_inv (dial_start ds).
Proof.
  intros Hne. destruct ds as [|x [|y ds]]; [done|..]; unfold dial_start, launchNext, loop; simpl.
  - split; simpl; [done|lia|by repeat constructor|done|]. unfold main_inv. simpl. by split_and!.
  - split; simpl; [done|lia|by repeat constructor|done|]. unfold main_inv. simpl.
    split_and!; try done. intros _. lia.
Qed.

Lemma established_insert (l : list (Socksaddr * dialer)) i a d r :
  l !! i = Some (a, d) -> brought (a, d) = None ->
  omap brought (<[i := (a, Received r)]> l) ≡ₚ omap brought l ++ option_list (dr_conn r).
Proof. intros Hi Hb. by rewrite (omap_insert_perm _ _ _ _ _ Hi Hb). Qed.

Lemma clean_lookup s i a d :
  Forall clean_dialer (dialers s) -> dialers s !! i = Some (a, d) -> clean_dialer (a, d).
Proof. intros Hc Hi. by eapply Forall_lookup_1. Qed.

(** Marking a dialer counts it as answered. *)
Lemma mark_counts (l : list (Socksaddr * dialer)) i a r :
  l !! i = Some (a, Ready r) ->
  countb pending (<[i := (a, Received r)]> l) = countb pending l - 1 /\
  countb answered (<[i := (a, Received r)]> l) = countb answered l + 1.
Proof. intros Hi. rewrite !(countb_insert _ _ _ _ _ Hi). simpl. lia. Qed.

Lemma dial_inv_finish i r s s' :
  clean r -> dial_step (Finish i r) s = Some s' -> dial_inv s -> dial_inv s'.
Proof.
  intros Hr Hs [Hd Hn Hc He Hm]. simpl in Hs.
  destruct (dialers s !! i) as [[a []]|] eqn:Hi; simplify_eq.
  assert (Hp : countb pending (<[i := (a, Ready r)]> (dialers s)) = countb pending (dialers s)).
  { rewrite (countb_insert _ _ _ _ _ Hi). simpl. lia. }
  assert (Ha : countb answered (<[i := (a, Ready r)]> (dialers s)) = countb answered (dialers s)).
  { rewrite (countb_insert _ _ _ _ _ Hi). simpl. lia. }
  assert (Hb : omap brought (<[i := (a, Ready r)]> (dialers s)) ≡ₚ omap brought (dialers s)).
  { rewrite (omap_insert_perm _ _ _ _ _ Hi) by done. simpl. by rewrite app_nil_r. }
  split; simpl; [by erewrite insert_fst|done|by apply Forall_insert|by rewrite Ha|].
  unfold main_inv, established in *. simpl. rewrite Hp, Ha. destruct (d_main s) as [|o|]; [|..|done].
  - destruct Hm as (? & ? & ? & ? & ? & Hest). split_and!; try done.
    rewrite Hest in Hb. by apply Permutation_nil_r.
  - by rewrite Hb.
Qed.

Lemma dial_inv_receive i s s' :
  dial_step (Receive i) s = Some s' -> dial_inv s -> dial_inv s'.
Proof.
  intros Hs [Hd Hn Hc He Hm]. simpl in Hs. destruct (d_main s) eqn:Hmain; [|done..].
  destruct (dialers s !! i) as [[a [|r|]]|] eqn:Hi; simplify_eq.
  unfold main_inv in Hm. rewrite Hmain in Hm. destruct Hm as (Hf & Hpos & Ht & Hr & Hcl & Hest).
  destruct (mark_counts _ _ _ _ Hi) as [Hp Ha]. specialize (He eq_refl).
  pose proof (clean_lookup s i _ _ Hc Hi) as Hclean. simpl in Hclean.
  pose proof (established_insert (dialers s) i a _ r Hi eq_refl) as Hb.
  unfold established in *. rewrite Hest in Hb. simpl in Hb.
  set (l := <[i := (a, Received r)]> (dialers s)) in *.
  assert (Hl : l.*1 = (dialers s).*1) by by eapply insert_fst.
  assert (Hcl' : Forall clean_dialer l) by by apply Forall_insert.
  clearbody l. unfold on_result. simpl.
  assert (Herr : forall err, dr_conn r = None ->
    let t := s <| dialers := l |> <| inFlight := inFlight s - 1 |> <| errs := errs s ++ [err] |>
               <| d_main := Looping |> in
    dial_inv (if more t then loop (launchNext t <| fallbackTimerC := more (launchNext t) |>)
              else loop t)).
  { intros err Hnone t. rewrite Hnone in Hb. apply Permutation_nil_r in Hb.
    destruct (more t) eqn:Hmore.
    - eapply (dial_inv_launch t); simpl; try done; [congruence|lia|].
      rewrite length_app. simpl. lia.
    - unfold more in Hmore. simpl in Hmore. bools.
      unfold loop. subst t. cbn [inFlight update_field]. simpl.
      destruct (Z.ltb_spec 0 (inFlight s - 1)) as [Hlt|Hge].
      + split; simpl; [congruence|done|done|intros _; rewrite length_app; simpl; lia|].
        unfold main_inv, established. simpl. split_and!; try done. lia.
      + split; simpl; [congruence|done|done|done|]. unfold main_inv, established. simpl.
        rewrite Hcl, Hb. split; [lia|]. split; [done|]. intros _.
        split_and!; [lia|done|done|]. rewrite length_app. simpl. lia. }
  destruct (dr_err r) as [err|] eqn:Hre.
  - destruct Hclean as [?|Hnone]; [congruence|]. by apply Herr.
  - destruct (dr_conn r) as [conn|] eqn:Hrc; [|by apply Herr].
    split; simpl; [congruence|done|done|done|]. unfold main_inv, established. simpl.
    split; [lia|]. by rewrite Hb, Hcl.
Qed.

Lemma dial_inv_timer s s' :
  dial_step TimerFires s = Some s' -> dial_inv s -> dial_inv s'.
Proof.
  intros Hs [Hd Hn Hc He Hm]. simpl in Hs. destruct (d_main s) eqn:Hmain; [|done..].
  destruct (fallbackTimerC s) eqn:Htimer; simplify_eq.
  unfold main_inv in Hm. rewrite Hmain in Hm. destruct Hm as (Hf & Hpos & Ht & Hr & Hcl & Hest).
  unfold on_timer. eapply dial_inv_launch; try done; [|symmetry; by apply He].
  unfold more. apply Nat.ltb_lt. by apply Ht.
Qed.

Lemma dial_inv_done err s s' :
  dial_step (ContextDone err) s = Some s' -> dial_inv s -> dial_inv s'.
Proof.
  intros Hs [Hd Hn Hc He Hm]. simpl in Hs. destruct (d_main s) eqn:Hmain; simplify_eq.
  unfold main_inv in Hm. rewrite Hmain in Hm. destruct Hm as (Hf & Hpos & Ht & Hr & Hcl & Hest).
  split; simpl; try done. unfold main_inv, established in *. simpl. by rewrite Hcl, Hest.
Qed.

Lemma dial_inv_drain i s s' :
  dial_step (Drain i) s = Some s' -> dial_inv s -> dial_inv s'.
Proof.
  intros Hs [Hd Hn Hc He Hm]. simpl in Hs. destruct (d_main s) as [|o|] eqn:Hmain; [done| |done].
  destruct (dialers s !! i) as [[a [|r|]]|] eqn:Hi; [done| |done..].
  destruct (Z.ltb_spec 0 (remaining s)) as [Hpos|]; simplify_eq.
  unfold main_inv in Hm. rewrite Hmain in Hm. destruct Hm as (Hf & Hest & Ho).
  destruct (mark_counts _ _ _ _ Hi) as [Hp Ha].
  pose proof (established_insert (dialers s) i a _ r Hi eq_refl) as Hb.
  pose proof (clean_lookup s i _ _ Hc Hi) as Hclean.
  split; simpl; [by erewrite insert_fst|done|by apply Forall_insert|congruence|].
  unfold main_inv, established in *. simpl. split; [lia|]. split.
  - rewrite Hb, Hest. destruct (dr_conn r); simpl; rewrite ?app_nil_r; [|done].
    rewrite <- !app_assoc. by rewrite (Permutation_app_comm (won o)).
  - intros HAF. destruct (Ho HAF) as (_ & H0 & _). lia.
Qed.

Lemma dial_inv_step act s s' :
  clean_action act -> dial_step act s = Some s' -> dial_inv s -> dial_inv s'.
Proof.
  destruct act; simpl clean_action; intros Hc;
    eauto using dial_inv_finish, dial_inv_receive, dial_inv_timer, dial_inv_done, dial_inv_drain.
Qed.

Lemma dial_inv_run acts s s' :
  Forall clean_action acts -> dial_run acts s = Some s' -> dial_inv s -> dial_inv s'.
Proof.
  apply (run_inv dial_step clean_action dial_inv). apply dial_inv_step.
Qed.

(** The addresses are fixed when the loop starts. *)
Lemma launchNext_order s : resolvedDestinations (launchNext s) = resolvedDestinations s.
Proof. unfold launchNext. by destruct (resolvedDestinations s !! next s). Qed.

Lemma loop_order s : resolvedDestinations (loop s) = resolvedDestinations s.
Proof. unfold loop. by destruct (0 <? inFlight s). Qed.

Lemma dial_step_order act s s' :
  dial_step act s = Some s' -> resolvedDestinations s' = resolvedDestinations s.
Proof.
  destruct act; simpl; intros Hs; repeat split_match Hs; try done;
    unfold on_result, on_timer; repeat case_match;
    by rewrite ?loop_order; simpl; rewrite ?launchNext_order.
Qed.

Lemma dial_run_order acts s s' :
  dial_run acts s = Some s' -> resolvedDestinations s' = resolvedDestinations s.
Proof.
  intros Hr. eapply (run_inv dial_step (fun _ => True)
    (fun t => resolvedDestinations t = resolvedDestinations s)); [|by apply Forall_true|exact Hr|done].
  intros act s1 s2 _ Hs H1. rewrite <- H1. by eapply dial_step_order.
Qed.

Lemma dial_start_order ds : resolvedDestinations (dial_start ds) = ds.
Proof. unfold dial_start. by rewrite loop_order; simpl; rewrite launchNext_order. Qed.

(** ** Termination *)

Definition dialer_weight (d : dialer) : nat :=
  match d with Running => 2 | Ready _ => 1 | Received _ => 0 end.
Definition weight (d : Socksaddr * dialer) : nat := dialer_weight (snd d).

(** Dials still to launch, dials still to end or to be received, and the loop. *)
Definition measure (s : dialState) : nat :=
  3 * (length (resolvedDestinations s) - next s) + sum_list_with weight (dialers s) +
  match d_main s with Looping => 1 | _ => 0 end.

Lemma weight_insert l i x y :
  l !! i = Some x ->
  (sum_list_with weight (<[i := y]> l) + weight x = sum_list_with weight l + weight y)%nat.
Proof.
  revert i. induction l as [|a l IH]; intros [|i] Hi; simplify_eq/=; [lia|].
  specialize (IH i Hi). revert IH. generalize (<[i:=y]> l). intros l' IH. lia.
Qed.

Lemma measure_loop s : (measure (loop s) <= measure s)%nat.
Proof.
  unfold loop, measure. destruct (0 <? inFlight s); [done|]. simpl. destruct (d_main s); lia.
Qed.

Lemma measure_launch s b :
  d_main s = Looping -> (measure (loop (launchNext s <| fallbackTimerC := b |>)) < measure s)%nat.
Proof.
  intros Hm. eapply Nat.le_lt_trans; [apply measure_loop|]. unfold launchNext, measure.
  destruct (resolvedDestinations s !! next s) as [a|] eqn:Ha; simpl; rewrite Hm; [|lia].
  apply lookup_lt_Some in Ha. rewrite sum_list_with_app. simpl. lia.
Qed.

Lemma measure_step act s s' : dial_step act s = Some s' -> (measure s' < measure s)%nat.
Proof.
  assert (Hmark : forall i a d d', dialers s !! i = Some (a, d) ->
    (sum_list_with weight (<[i := (a, d')]> (dialers s)) + dialer_weight d =
     sum_list_with weight (dialers s) + dialer_weight d')%nat).
  { intros i a d d' Hi. by apply (weight_insert _ _ (a, d)). }
  destruct act as [i r|i| |err|i]; simpl; intros Hs.
  - destruct (dialers s !! i) as [[a []]|] eqn:Hi; simplify_eq.
    specialize (Hmark i a _ (Ready r) Hi). unfold measure. simpl in *. lia.
  - destruct (d_main s) eqn:Hmain; [|done..].
    destruct (dialers s !! i) as [[a [|r|]]|] eqn:Hi; simplify_eq.
    specialize (Hmark i a _ (Received r) Hi). unfold on_result. simpl.
    set (l := <[i := (a, Received r)]> (dialers s)) in *. simpl in Hmark.
    destruct (dr_err r) as [e|]; [|destruct (dr_conn r)];
      [|unfold measure; simpl; rewrite Hmain; lia|];
      (destruct (more _); [eapply Nat.lt_trans; [by apply measure_launch|]
                          |eapply Nat.le_lt_trans; [apply measure_loop|]]);
      unfold measure; simpl; rewrite Hmain; lia.
  - destruct (d_main s) eqn:Hmain; [|done..]. destruct (fallbackTimerC s); simplify_eq.
    by apply measure_launch.
  - destruct (d_main s) eqn:Hmain; simplify_eq. unfold measure. simpl. rewrite Hmain. lia.
  - destruct (d_main s) eqn:Hmain; [done| |done].
    destruct (dialers s !! i) as [[a [|r|]]|] eqn:Hi; [done| |done..].
    destruct (0 <? remaining s); simplify_eq.
    specialize (Hmark i a _ (Received r) Hi). unfold measure. simpl in *. rewrite Hmain. lia.
Qed.

Lemma measure_run acts s s' :
  dial_run acts s = Some s' -> (length acts + measure s' <= measure s)%nat.
Proof.
  intros Hr. eapply (run_measure dial_step (fun _ => True) (fun _ => True));
    [|by apply Forall_true|exact Hr|done].
  intros act s1 s2 _ Hs _. split; [done|by eapply measure_step].
Qed.

Lemma measure_start ds : (measure (dial_start ds) <= 3 * length ds + 1)%nat.
Proof.
  unfold dial_start. eapply Nat.le_trans; [apply measure_loop|].
  destruct ds as [|x ds]; unfold launchNext, measure; simpl; lia.
Qed.

(** A dial that is not over can be finished or received. *)
Lemma pending_dialer l :
  0 < countb pending l -> exists i a d, l !! i = Some (a, d) /\ pending (a, d) = true.
Proof.
  induction l as [|[a d] l IH]; simpl; [lia|]. intros Hpos.
  destruct (pending (a, d)) eqn:Hp; [by exists 0%nat, a, d|].
  destruct IH as (i & b & d' & Hi & Hd); [lia|]. by exists (S i), b, d'.
Qed.

Lemma dial_progress s :
  dial_inv s ->
  (exists act s', clean_action act /\ dial_step act s = Some s') \/
  (exists o, d_main s = Returned o /\ countb pending (dialers s) = 0).
Proof.
  intros [_ _ _ _ Hm]. unfold main_inv in Hm.
  assert (Hrun : forall i a, dialers s !! i = Some (a, Running) ->
    exists act s', clean_action act /\ dial_step act s = Some s').
  { intros i a Hi. exists (Finish i (mkDialResult None (Some (errors_New "refused")))).
    eexists. split; [by right|]. simpl. by rewrite Hi. }
  destruct (d_main s) as [|o|] eqn:Hmain; [| |done].
  - destruct Hm as (Hf & Hpos & _). rewrite Hf in Hpos.
    destruct (pending_dialer _ Hpos) as (i & a & [|r|r] & Hi & Hp); [by left; eapply Hrun| |done].
    left. exists (Receive i). eexists. split; [done|]. simpl. by rewrite Hmain, Hi.
  - destruct Hm as (Hr & _). pose proof (countb_nonneg pending (dialers s)).
    destruct (Z.eq_dec (countb pending (dialers s)) 0) as [|Hne]; [right; by exists o|left].
    destruct (pending_dialer (dialers s)) as (i & a & [|r|r] & Hi & Hp); [lia|by eapply Hrun| |done].
    exists (Drain i). eexists. split; [done|]. simpl. rewrite Hmain, Hi.
    by destruct (Z.ltb_spec 0 (remaining s)); [|lia].
Qed.

(** ** Properties *)

(** C32.  Under every schedule, [dialContext] indexes within its list: the addresses dialled are
    always a prefix of the order, so each is dialled at most once and in turn, and no more
    goroutines run than [inFlight] says. *)
Theorem dial_order ds acts s :
  ds <> [] -> Forall clean_action acts -> dial_run acts (dial_start ds) = Some s ->
  d_main s <> Panicked /\ (dialers s).*1 = take (next s) ds /\ (next s <= length ds)%nat /\
  (d_main s = Looping -> inFlight s = countb pending (dialers s) /\ 0 < inFlight s).
Proof.
  intros Hne Hc Hr. pose proof (dial_run_order _ _ _ Hr) as Ho. rewrite dial_start_order in Ho.
  destruct (dial_inv_run _ _ _ Hc Hr (dial_inv_start ds Hne)) as [Hd Hn _ _ Hm].
  rewrite Ho in *. unfold main_inv in Hm.
  destruct (d_main s); [|..|done]; split_and!; try done; intros; by destruct Hm as (? & ? & _).
Qed.

(** C14.  No connection leaks: once [dialContext] has returned, the connections its dials have
    brought are the one it returned, if any, and those [drainDialResults] closed; and
    that goroutine still waits for exactly the dials that have not answered. *)
Theorem dial_no_leak ds acts s o :
  ds <> [] -> Forall clean_action acts -> dial_run acts (dial_start ds) = Some s ->
  d_main s = Returned o ->
  established s ≡ₚ closed s ++ won o /\ remaining s = countb pending (dialers s).
Proof.
  intros Hne Hc Hr Hm. pose proof (di_main _ (dial_inv_run _ _ _ Hc Hr (dial_inv_start ds Hne))) as Hi.
  unfold main_inv in Hi. rewrite Hm in Hi. by destruct Hi as (? & ? & _).
Qed.

(** C30.  [dialContext] gives up only when it has to: if it fails without being cancelled, every
    address was dialled, each dial failed, and the error joins one error for each of
    them. *)
Theorem dial_tries_all ds acts s :
  ds <> [] -> Forall clean_action acts -> dial_run acts (dial_start ds) = Some s ->
  d_main s = Returned AllFailed ->
  (dialers s).*1 = ds /\ established s = [] /\ length (errs s) = length ds /\
  returned_value s AllFailed = (None, Some (Join (errs s))).
Proof.
  intros Hne Hc Hr Hm. pose proof (dial_run_order _ _ _ Hr) as Ho. rewrite dial_start_order in Ho.
  destruct (dial_inv_run _ _ _ Hc Hr (dial_inv_start ds Hne)) as [Hd Hn _ _ Hi].
  unfold main_inv in Hi. rewrite Hm in Hi. destruct Hi as (Hrem & Hest & Hall).
  destruct (Hall eq_refl) as (Hnext & Hz & Hcl & Herrs). rewrite Ho in *.
  rewrite Hnext, firstn_all in Hd. rewrite Hcl in Hest. simpl in Hest.
  assert (Hlen : length (errs s) = length ds).
  { rewrite <- Hd, length_fmap. apply Nat2Z.inj. rewrite Herrs.
    rewrite <- (countb_total pending). rewrite <- Hrem, Hz. unfold answered. lia. }
  split_and!; [done|by apply Permutation_nil_r|done|].
  simpl. unfold errors_Join. destruct (errs s); [|done]. destruct ds; [done|]. simpl in Hlen. lia.
Qed.

(** C31.  The loop and its goroutines terminate: a run has at most three steps per address and
    one more, and a state without a next step is one in which [dialContext] has
    returned and every dial has been received. *)
Theorem dial_terminates ds acts s :
  ds <> [] -> Forall clean_action acts -> dial_run acts (dial_start ds) = Some s ->
  (length acts <= 3 * length ds + 1)%nat /\
  ((exists act s', clean_action act /\ dial_step act s = Some s') \/
   (exists o, d_main s = Returned o /\ countb pending (dialers s) = 0)).
Proof.
  intros Hne Hc Hr. split.
  - pose proof (measure_run _ _ _ Hr). pose proof (measure_start ds). lia.
  - apply dial_progress. by eapply dial_inv_run; [| |apply dial_inv_start].
Qed.

(** C2.  Nothing is dialled that the policy has not passed: every address a dial goroutine
    is given, under every schedule, has the destination's port, lies outside the denied
    blocks, inside an allowed one if any is listed, and is not private unless that is
    permitted. *)
Theorem dial_only_checked {Ob Sv : Type} `{!Outbound Ob} `{!UnicodeTables} `{!SocksaddrMethods}
    (lw : ListenerWrapper Ob Sv) user d s0 acts s a :
  compiled lw -> dialContext lw user d = Ok s0 ->
  Forall clean_action acts -> dial_run acts s0 = Some s -> a ∈ (dialers s).*1 ->
  address_ok lw a /\ Port a = Port d.
Proof.
  intros Hcomp Hd Hc Hr Ha. unfold dialContext, validateStreamDestination in Hd.
  destruct (validateDestination lw user d) as [ds|e] eqn:Hv; [|done]. simplify_eq.
  apply validateDestination_Ok in Hv as [Hres Hok]; [|done].
  apply resolveDestination_spec in Hres as [Hne Hport].
  assert (Hne' : interleaveAddressFamilies ds <> []).
  { intros Hnil. apply Hne, Permutation_nil_r. symmetry. rewrite <- Hnil. apply interleave_perm. }
  pose proof (dial_run_order _ _ _ Hr) as Ho. rewrite dial_start_order in Ho.
  destruct (dial_inv_run _ _ _ Hc Hr (dial_inv_start _ Hne')) as [Hdl _ _ _ _].
  assert (Hin : a ∈ ds).
  { rewrite <- interleave_perm, <- Ho, <- (take_drop (next s) (resolvedDestinations s)), <- Hdl.
    apply elem_of_app. by left. }
  split; [by apply Hok|]. by apply Hport.
Qed.

(** ** Witnesses *)

Definition six (n : Z) : Socksaddr := mkSocksaddr (Addr_v6 n "") 443 "".
Definition four (n : Z) : Socksaddr := mkSocksaddr (Addr_v4 n) 443 "".

Lemma interleave_spec_witness :
  interleaveAddressFamilies [six 1; six 2; six 3; four 1] = [six 1; four 1; six 2; six 3] /\
  (forall i, (i < 2 * 1)%nat ->
     same_family true <$> interleaveAddressFamilies [six 1; six 2; six 3; four 1] !! i
     = Some (Nat.even i)).
Proof.
  split; [reflexivity|]. apply (interleave_spec (six 1) [six 2; six 3; four 1]).
Defined.

Definition refused : dialResult := mkDialResult None (Some (errors_New "refused")).
Definition opened (conn : Z) : dialResult := mkDialResult (Some conn) None.

(** The first dial is slow, the second one starts after the delay and wins; the first
    answers late and its connection is closed. *)
Definition slow_first : list dial_action :=
  [TimerFires; Finish 1 (opened 6); Receive 1; Finish 0 (opened 5); Drain 0].

Lemma slow_first_clean : Forall clean_action slow_first.
Proof. repeat constructor. Qed.

(** Both addresses refuse. *)
Definition both_refuse : list dial_action :=
  [Finish 0 refused; Receive 0; Finish 1 refused; Receive 1].

Lemma both_refuse_clean : Forall clean_action both_refuse.
Proof. repeat constructor; by right. Qed.

Lemma dial_order_witness :
  exists s, dial_run slow_first (dial_start [six 1; four 1]) = Some s /\
  d_main s <> Panicked /\ (dialers s).*1 = take (next s) [six 1; four 1] /\
  (next s <= 2)%nat /\
  (d_main s = Looping -> inFlight s = countb pending (dialers s) /\ 0 < inFlight s).
Proof.
  eexists. split; [vm_compute; reflexivity|].
  apply (dial_order [six 1; four 1] slow_first);
    [done|exact slow_first_clean|vm_compute; reflexivity].
Defined.

Lemma dial_no_leak_witness :
  exists s, dial_run slow_first (dial_start [six 1; four 1]) = Some s /\
  d_main s = Returned (Connected 6) /\ closed s = [5] /\
  established s ≡ₚ closed s ++ won (Connected 6) /\ remaining s = countb pending (dialers s).
Proof.
  eexists. split; [vm_compute; reflexivity|]. do 2 (split; [reflexivity|]).
  apply (dial_no_leak [six 1; four 1] slow_first);
    [done|exact slow_first_clean|vm_compute; reflexivity|reflexivity].
Defined.

Lemma dial_tries_all_witness :
  exists s, dial_run both_refuse (dial_start [six 1; four 1]) = Some s /\
  (dialers s).*1 = [six 1; four 1] /\ established s = [] /\ length (errs s) = 2%nat /\
  returned_value s AllFailed = (None, Some (Join (errs s))).
Proof.
  eexists. split; [vm_compute; reflexivity|].
  apply (dial_tries_all [six 1; four 1] both_refuse);
    [done|exact both_refuse_clean|vm_compute; reflexivity|reflexivity].
Defined.

Lemma dial_terminates_witness :
  exists s, dial_run slow_first (dial_start [six 1; four 1]) = Some s /\
  (length slow_first <= 3 * 2 + 1)%nat /\
  ((exists act s', clean_action act /\ dial_step act s = Some s') \/
   (exists o, d_main s = Returned o /\ countb pending (dialers s) = 0)).
Proof.
  eexists. split; [vm_compute; reflexivity|].
  apply (dial_terminates [six 1; four 1] slow_first);
    [done|exact slow_first_clean|vm_compute; reflexivity].
Defined.

#[local] Instance witness_tables : UnicodeTables := { Map_ToLower s := s }.
#[local] Instance witness_methods : SocksaddrMethods := {
  Socksaddr_IsValid d := IsValid (Addr d) || negb (String.eqb (Fqdn d) "");
  Socksaddr_String d := Fqdn d
}.
#[local] Instance witness_outbound : Outbound unit := {
  DirectOutbound := tt;
  LookupNetIP _ _ host := Ok [Addr (six (2 ^ 125)); Addr (four 0x5db8d822)]
}.

Definition provisioned_default : ListenerWrapper unit unit := configured zero_Config false.

Lemma dial_only_checked_witness :
  exists s0 s,
  dialContext provisioned_default "alice" (mkSocksaddr Addr_zero 443 "www.example.com") = Ok s0 /\
  dial_run slow_first s0 = Some s /\
  (four 0x5db8d822) ∈ (dialers s).*1 /\
  address_ok provisioned_default (four 0x5db8d822) /\ Port (four 0x5db8d822) = 443.
Proof.
  do 2 eexists. split; [vm_compute; reflexivity|]. split; [vm_compute; reflexivity|].
  split; [vm_compute; by right; left|].
  eapply (dial_only_checked provisioned_default "alice"
            (mkSocksaddr Addr_zero 443 "www.example.com") _ slow_first);
    [vm_compute; reflexivity|vm_compute; reflexivity|exact slow_first_clean
    |vm_compute; reflexivity|vm_compute; by right; left].
Defined.

