(* ===== verification/Arrival.v ===== *)
(** * Peeks that succeed

    The laws of Conn.v say what a peek returns when it returns bytes.  Here: when it
    does.  A connection on which the first [m] bytes arrive before time [d] answers every
    peek of at most [m] bytes with the bytes themselves, as long as the peek's own
    deadline is not before [d]; and it still has that property afterwards. *)

From S2P Require Import Prelude GoErrors Conn.

Local Open Scope Z_scope.

(** ** The loops, one turn at a time *)

Lemma bufio_fill_loop_S i b :
  bufio_fill_loop (S i) b =
  let '(bs, err, c) := net_Read (defaultBufSize - length (bc_buf b)) (bc_conn b) in
  let b' := mkBufferedConn c (bc_buf b ++ bs) (bc_err b) in
  match err, bs with
  | Some e, _ => b' <| bc_err := Some e |>
  | None, _ :: _ => b'
  | None, [] => bufio_fill_loop i b'
  end.
Proof. reflexivity. Qed.

(** ** The buffer's capacity *)

Definition bounded (b : bufferedConn) : Prop := (length (bc_buf b) <= defaultBufSize)%nat.

Lemma bufio_fill_loop_bounded i b : bounded b -> bounded (bufio_fill_loop i b).
Proof.
  unfold bounded. revert b. induction i as [|i IH]; intros b Hb; simpl; [done|].
  destruct (net_Read _ _) as [[bs err] n] eqn:Hr. apply net_Read_spec in Hr as (_ & _ & Hl & _).
  assert ((length (bc_buf b ++ bs) <= defaultBufSize)%nat) by (rewrite length_app; lia).
  destruct err; [done|]. destruct bs; [by apply IH|done].
Qed.

Lemma bufio_peek_loop_bounded fuel n b : bounded b -> bounded (bufio_peek_loop fuel n b).
Proof.
  revert b. induction fuel as [|fuel IH]; intros b Hb; simpl; [done|].
  destruct (_ && _ && _); [|done]. by apply IH, bufio_fill_loop_bounded.
Qed.

Lemma bufio_Peek_bounded n b p err b' :
  bufio_Peek n b = (p, err, b') -> bounded b -> bounded b'.
Proof.
  unfold bufio_Peek. intros H Hb. pose proof (bufio_peek_loop_bounded (S n) n b Hb). cases; done.
Qed.

Lemma bufferedConn_Peek_bounded n timeout b p err b' :
  bufferedConn_Peek n timeout b = (p, err, b') -> bounded b -> bounded b'.
Proof.
  unfold bufferedConn_Peek. destruct (0 <? timeout); [|apply bufio_Peek_bounded].
  destruct (net_SetReadDeadline _ _) as [[e|] c1]; [by intros [= <- <- <-]|].
  destruct (bufio_Peek n _) as [[p1 e1] b1] eqn:Hp.
  destruct (net_SetReadDeadline None _) as [e2 c2]. intros [= <- <- <-] Hb.
  by apply bufio_Peek_bounded in Hp.
Qed.

(** ** Time *)

Lemma net_Read_clock k c bs err c' t :
  net_Read k c = (bs, err, c') -> nc_deadline c = Some t -> nc_now c <= t ->
  nc_now c <= nc_now c' <= t.
Proof.
  unfold net_Read, net_timed_out. intros Hr Ht Hnow. rewrite Ht in Hr.
  assert (nc_now c <= net_ready_at c) by apply Z.le_max_l.
  destruct (nc_closed c); [simplify_eq/=; lia|]. destruct (k =? 0)%nat; [simplify_eq/=; lia|].
  destruct (t <=? net_ready_at c) eqn:Htime; bools; simpl in *; [simplify_eq/=; lia|].
  destruct (nc_segs c) as [|s rest]; [simplify_eq/=; lia|].
  destruct (k <? length (seg_data s))%nat; simplify_eq/=; lia.
Qed.

(** A deadline ends the wait of a whole peek. *)
Definition within (t : Z) (b b' : bufferedConn) : Prop :=
  nc_deadline (bc_conn b) = Some t -> nc_now (bc_conn b) <= t ->
  nc_deadline (bc_conn b') = Some t /\ nc_now (bc_conn b) <= nc_now (bc_conn b') <= t.

#[export] Instance within_preorder t : PreOrder (within t).
Proof.
  unfold within. split; [intros b Hd Hn; split; [done|lia]|]. intros b1 b2 b3 H12 H23 Hd Hn.
  destruct (H12 Hd Hn) as [Hd2 ?]. destruct (H23 Hd2); [lia|]. split; [done|lia].
Qed.

Lemma bufio_fill_loop_within t i b : within t b (bufio_fill_loop i b).
Proof.
  revert b. induction i as [|i IH]; intros b; [by intros Hd Hn; simpl|].
  rewrite bufio_fill_loop_S. destruct (net_Read _ _) as [[bs err] c] eqn:Hr.
  assert (Hstep : within t b (mkBufferedConn c (bc_buf b ++ bs) (bc_err b))).
  { intros Hd Hn. simpl. pose proof (net_Read_clock _ _ _ _ _ _ Hr Hd Hn).
    apply net_Read_spec in Hr as ((_ & _ & -> & _) & _). done. }
  destruct err; [done|]. destruct bs; [by etrans; [|apply IH]|done].
Qed.

Lemma bufio_fill_within t b : within t b (bufio_fill b).
Proof. unfold bufio_fill. apply bufio_fill_loop_within. Qed.

Lemma bufio_peek_loop_within t fuel n b : within t b (bufio_peek_loop fuel n b).
Proof.
  revert b. induction fuel as [|fuel IH]; intros b; simpl; [done|].
  destruct (_ && _ && _); [|done]. etrans; [apply bufio_fill_within|apply IH].
Qed.

Lemma bufio_Peek_within t n b p err b' :
  bufio_Peek n b = (p, err, b') -> within t b b'.
Proof.
  unfold bufio_Peek. pose proof (bufio_peek_loop_within t (S n) n b) as Hw. revert Hw.
  generalize (bufio_peek_loop (S n) n b). intros b1 Hw. intros H. cases; done.
Qed.

Lemma bufferedConn_Peek_clock n timeout b p err b' :
  0 < timeout -> bufferedConn_Peek n timeout b = (p, err, b') ->
  nc_now (bc_conn b) <= nc_now (bc_conn b') <= nc_now (bc_conn b) + timeout.
Proof.
  intros Hpos. unfold bufferedConn_Peek. destruct (Z.ltb_spec 0 timeout) as [_|]; [|lia].
  unfold net_SetReadDeadline at 1. destruct (nc_closed _); [intros [= <- <- <-]; simpl; lia|].
  destruct (nc_deadline_fault _); [intros [= <- <- <-]; simpl; lia|].
  destruct (bufio_Peek n _) as [[p1 e1] b1] eqn:Hp. intros Hr.
  assert (nc_now (bc_conn b') = nc_now (bc_conn b1)) as ->.
  { unfold net_SetReadDeadline in Hr. cases; done. }
  destruct (bufio_Peek_within (nc_now (bc_conn b) + timeout) _ _ _ _ _ Hp) as [_ Hw];
    [done|simpl; lia|done].
Qed.

(** ** Bytes that arrive *)

(** A segment that brings data before [d].  (A read never returns zero bytes and no
    error, so no segment is empty.) *)
Definition prompt (d : Z) (s : Segment) : Prop := seg_at s < d /\ seg_data s <> [].

(** The first [m] unread bytes are buffered or on their way before [d]. *)
Record arriving (d : Z) (m : nat) (b : bufferedConn) : Prop := {
  ar_err : sticky b;
  ar_open : nc_closed (bc_conn b) = false;
  ar_fault : nc_deadline_fault (bc_conn b) = None;
  ar_now : nc_now (bc_conn b) < d;
  ar_bytes : exists l1 l2, nc_segs (bc_conn b) = l1 ++ l2 /\ Forall (prompt d) l1 /\
    (m <= length (bc_buf b) + length (concat (seg_data <$> l1)))%nat
}.

(** The deadline in force does not cut the wait short. *)
Definition patient (d : Z) (b : bufferedConn) : Prop :=
  forall t, nc_deadline (bc_conn b) = Some t -> d <= t.

Lemma arriving_weaken d m m' b : (m' <= m)%nat -> arriving d m b -> arriving d m' b.
Proof.
  intros Hm [? ? ? ? (l1 & l2 & ? & ? & ?)]. split; try done. exists l1, l2. split_and!; [done..|lia].
Qed.

(** An error that came with the last bytes leaves none of the [m] to come. *)
Lemma arriving_error d m b :
  arriving d m b -> is_Some (bc_err b) -> (m <= length (bc_buf b))%nat.
Proof.
  intros [[He|[_ Hs]] _ _ _ (l1 & l2 & Hsegs & _ & Hm)] [e Hsome]; [congruence|].
  rewrite Hs in Hsegs. symmetry in Hsegs. apply app_nil in Hsegs as [-> _]. simpl in Hm. lia.
Qed.

Lemma bufio_fill_first b : exists i, bufio_fill b = bufio_fill_loop (S i) b.
Proof. by exists 99%nat. Qed.

(** One [fill]: it reads one segment, or the part of it that fits. *)
Lemma bufio_fill_arriving d m b :
  arriving d m b -> patient d b -> bc_err b = None -> (length (bc_buf b) < m)%nat ->
  (length (bc_buf b) < defaultBufSize)%nat ->
  arriving d m (bufio_fill b) /\ patient d (bufio_fill b) /\
  nc_now (bc_conn b) <= nc_now (bc_conn (bufio_fill b)).
Proof.
  intros [_ Ho Hf Hnow (l1 & l2 & Hsegs & Hl1 & Hm)] Hpat He Hlen Hbuf.
  destruct l1 as [|s l1]; [simpl in *; lia|].
  apply Forall_cons in Hl1 as [[Hat Hdata] Hl1].
  rewrite fmap_cons in Hm. cbn [concat] in Hm. rewrite length_app in Hm.
  destruct (bufio_fill_first b) as [i ->]. rewrite bufio_fill_loop_S.
  assert (Hk : (0 < defaultBufSize - length (bc_buf b))%nat) by lia.
  generalize dependent (defaultBufSize - length (bc_buf b))%nat. intros k Hk.
  unfold net_Read. rewrite Ho. destruct (Nat.eqb_spec k 0) as [|_]; [lia|].
  assert (Hready : net_ready_at (bc_conn b) < d).
  { unfold net_ready_at. rewrite Hsegs. simpl. lia. }
  assert (Ht : net_timed_out (bc_conn b) = false).
  { unfold net_timed_out. destruct (nc_deadline (bc_conn b)) as [t|] eqn:Hd; [|done].
    specialize (Hpat t Hd). apply Z.leb_gt. lia. }
  assert (Hnow' : nc_now (bc_conn b) <= net_ready_at (bc_conn b)) by (unfold net_ready_at; lia).
  rewrite Ht, Hsegs. simpl. rewrite He.
  destruct (Nat.ltb_spec k (length (seg_data s))) as [Hlt|Hge]; simpl.
  - destruct (take k (seg_data s)) as [|x bs] eqn:Htake.
    { exfalso. apply (f_equal length) in Htake. rewrite length_take in Htake. simpl in Htake. lia. }
    rewrite <- Htake. split; [split; [by left|simpl; try done..]|split; [exact Hpat|done]].
    exists (mkSegment (seg_at s) (drop k (seg_data s)) :: l1), l2. split_and!; [done| |].
    + constructor; [|done]. split; [done|]. simpl. intros Hnil.
      apply (f_equal length) in Hnil. rewrite length_drop in Hnil. simpl in Hnil. lia.
    + rewrite fmap_cons. cbn [concat seg_data]. rewrite !length_app, length_take, length_drop. lia.
  - set (err := match l1 ++ l2 with [] => _ | _ => _ end).
    assert (Hst : match err with Some e => e = nc_end_err (bc_conn b) /\ l1 ++ l2 = [] | None => True end).
    { subst err. destruct (l1 ++ l2); [|done]. by destruct (nc_end_with _). }
    destruct (seg_data s) as [|x bs] eqn:Hx; [done|]. rewrite <- Hx in *. clearbody err.
    assert (Hbytes : exists l1' l2', l1 ++ l2 = l1' ++ l2' /\ Forall (prompt d) l1' /\
      (m <= length (bc_buf b ++ seg_data s) + length (concat (seg_data <$> l1')))%nat).
    { exists l1, l2. rewrite length_app. split_and!; [done..|lia]. }
    destruct err as [e|]; rewrite ?Hx in *;
      (split; [split; [|simpl; try done..]|split; [exact Hpat|done]]); [|by left].
    right. simpl. by destruct Hst as [-> ?].
Qed.

Lemma bufio_peek_loop_arriving d m n fuel b :
  (n <= m)%nat -> arriving d m b -> patient d b ->
  arriving d m (bufio_peek_loop fuel n b) /\
  nc_now (bc_conn b) <= nc_now (bc_conn (bufio_peek_loop fuel n b)).
Proof.
  intros Hn. revert b. induction fuel as [|fuel IH]; intros b Ha Hp; simpl; [split; [done|lia]|].
  destruct (_ && _ && _) eqn:Hc; [|split; [done|lia]]. bools.
  destruct (bufio_fill_arriving d m b) as (Ha' & Hp' & Hnow); [done..|lia|done|].
  destruct (IH _ Ha' Hp') as [? ?]. split; [done|lia].
Qed.

(** [bufio.Reader.Peek] returns the bytes. *)
Lemma bufio_Peek_arriving d m n b p err b' :
  (n <= m)%nat -> (n <= defaultBufSize)%nat -> arriving d m b -> patient d b ->
  bufio_Peek n b = (p, err, b') ->
  err = None /\ arriving d m b' /\ nc_now (bc_conn b) <= nc_now (bc_conn b').
Proof.
  intros Hn Hsize Ha Hp. unfold bufio_Peek.
  destruct (bufio_peek_loop_spec (S n) n b (ar_err _ _ _ Ha) ltac:(lia)) as (added & _ & Hend).
  destruct (bufio_peek_loop_arriving d m n (S n) b Hn Ha Hp) as [Ha' Hnow].
  set (b1 := bufio_peek_loop (S n) n b) in *. clearbody b1.
  destruct Hend as [[_ Hlen]|[He Hlt]]; [|pose proof (arriving_error _ _ _ Ha' He); lia].
  destruct (Nat.ltb_spec defaultBufSize n) as [|_]; [lia|].
  destruct (Nat.ltb_spec (length (bc_buf b1)) n) as [|_]; [lia|].
  by intros [= <- <- <-].
Qed.

(** [bufferedConn.Peek] returns the next [n] bytes and leaves the rest as it was. *)
Lemma bufferedConn_Peek_arriving d m n timeout b :
  (n <= m)%nat -> (n <= defaultBufSize)%nat -> arriving d m b -> nc_deadline (bc_conn b) = None ->
  (0 < timeout -> d <= nc_now (bc_conn b) + timeout) ->
  exists b', bufferedConn_Peek n timeout b = (take n (bufio_stream b), None, b') /\
    arriving d m b' /\ nc_deadline (bc_conn b') = None /\
    bufio_stream b' = bufio_stream b /\
    nc_now (bc_conn b) <= nc_now (bc_conn b').
Proof.
  intros Hn Hsize Ha Hd Htime.
  destruct (bufferedConn_Peek n timeout b) as [[p err] b'] eqn:Hpeek.
  destruct (bufferedConn_Peek_spec _ _ _ _ _ _ Hsize Hpeek) as [Hst Hp].
  destruct (Hst (conj (ar_err _ _ _ Ha) Hd)) as ((He' & Hd') & Hs & _).
  destruct (Hp (conj (ar_err _ _ _ Ha) Hd)) as [Hpre Hlen].
  enough (err = None /\ arriving d m b' /\ nc_now (bc_conn b) <= nc_now (bc_conn b')) as (-> & ? & ?).
  { exists b'. subst n. by rewrite <- Hpre. }
  clear Hpre Hlen Hp Hst. unfold bufferedConn_Peek in Hpeek. destruct (Z.ltb_spec 0 timeout) as [Hpos|_].
  - unfold net_SetReadDeadline at 1 in Hpeek.
    rewrite (ar_open _ _ _ Ha), (ar_fault _ _ _ Ha) in Hpeek.
    destruct (bufio_Peek n _) as [[p1 err1] b1] eqn:Hb.
    apply (bufio_Peek_arriving d m) in Hb as (-> & Ha1 & Hnow); [|done..| |].
    + unfold net_SetReadDeadline in Hpeek.
      rewrite (ar_open _ _ _ Ha1), (ar_fault _ _ _ Ha1) in Hpeek. simplify_eq/=.
      split_and!; [done| |done]. destruct Ha1. by split.
    + destruct Ha. by split.
    + intros t. simpl. intros [= <-]. auto.
  - apply (bufio_Peek_arriving d m) in Hpeek as (-> & Ha1 & Hnow); [done..|].
    intros t. by rewrite Hd.
Qed.
