(* ===== verification/Routing.v ===== *)
(** * Connection routing

    listener.go from [classifyAcceptedConn] down to the detector: the TLS
    handshake, the fast path for website traffic, the hash probe and what
    [routeBufferedConn] does with the verdict; [prepareWebsiteConn] of anytls.go.
    Each function threads the buffered connection and returns the effects it has, in order. *)

From S2P Require Import Prelude GoErrors GoStrings Sha256 Conn Arrival Wrapper Detector Limits.

Local Open Scope Z_scope.

(** ** Probing *)

(** [string(preview) == lit] and [first[0] == 'c']. *)
Definition preview_is (preview : bytes) (lit : string) : bool :=
  String.eqb (string_of_bytes preview) lit.

Definition peek_error (format : string) (err : error) : option error :=
  Some (Errorf format [] [err]).

(** What [classifyWebsiteFastPath] and [matchWebsitePrefix] return: the decision, whether
    it is final, the error; and the connection after their peeks. *)
Definition fast_result : Type := Decision * bool * option error * bufferedConn.

(** listener.go, [matchWebsitePrefix]. *)
Definition matchWebsitePrefix (c : Config) (conn : bufferedConn) (prefix : string) : fast_result :=
  let '(preview, err, conn) := bufferedConn_Peek (String.length prefix) (ProbeTimeout c) conn in
  match err with
  | Some err =>
      if errors_Is err net_ErrClosed then (DecisionFallback, true, None, conn)
      else (DecisionFallback, false, peek_error "peek website prefix: %w" err, conn)
  | None =>
      if preview_is preview prefix then (DecisionFallback, true, None, conn)
      else (DecisionFallback, false, None, conn)
  end.

(** The HTTP/2 connection preface, [PRI * HTTP/2.0], an empty line, [SM], an
    empty line, with CR LF line ends. *)
Definition crlf : string := String (chr 13) (String (chr 10) "").
Definition http2_preface : string :=
  "PRI * HTTP/2.0" +:+ crlf +:+ crlf +:+ "SM" +:+ crlf +:+ crlf.

(** listener.go, [classifyWebsiteFastPath]. *)
Definition classifyWebsiteFastPath (c : Config) (conn : bufferedConn) : fast_result :=
  let '(first, err, conn) := bufferedConn_Peek 1 (ProbeTimeout c) conn in
  match err with
  | Some err =>
      if errors_Is err net_ErrClosed then (DecisionFallback, true, None, conn)
      else (DecisionFallback, false, peek_error "peek first byte: %w" err, conn)
  | None =>
      if preview_is first "P" then
        let '(preview, err, conn) := bufferedConn_Peek 4 (ProbeTimeout c) conn in
        match err with
        | Some err => (DecisionFallback, false, peek_error "peek website prefix: %w" err, conn)
        | None =>
            if preview_is preview "POST" then matchWebsitePrefix c conn "POST "
            else if preview_is preview "PRI " then matchWebsitePrefix c conn http2_preface
            else (DecisionFallback, false, None, conn)
        end
      else if preview_is first "G" then matchWebsitePrefix c conn "GET "
      else if preview_is first "H" then matchWebsitePrefix c conn "HEAD "
      else if preview_is first "O" then matchWebsitePrefix c conn "OPTIONS "
      else if preview_is first "D" then matchWebsitePrefix c conn "DELETE "
      else if preview_is first "T" then matchWebsitePrefix c conn "TRACE "
      else if preview_is first "C" then matchWebsitePrefix c conn "CONNECT "
      else if preview_is first "R" then matchWebsitePrefix c conn "REPORT "
      else if preview_is first "M" then matchWebsitePrefix c conn "MKCOL "
      else if preview_is first "N" then matchWebsitePrefix c conn "NOTIFY "
      else if preview_is first "S" then
        let '(preview, err, conn) := bufferedConn_Peek 3 (ProbeTimeout c) conn in
        match err with
        | Some err => (DecisionFallback, false, peek_error "peek website prefix: %w" err, conn)
        | None =>
            if preview_is preview "SUB" then matchWebsitePrefix c conn "SUBSCRIBE "
            else if preview_is preview "SEA" then matchWebsitePrefix c conn "SEARCH "
            else (DecisionFallback, false, None, conn)
        end
      else if preview_is first "U" then matchWebsitePrefix c conn "UNSUBSCRIBE "
      else if preview_is first "L" then matchWebsitePrefix c conn "LOCK "
      else if preview_is first "A" then matchWebsitePrefix c conn "ACL "
      else if preview_is first "B" then matchWebsitePrefix c conn "BIND "
      else (DecisionFallback, false, None, conn)
  end.

Section Routing.
Context {D : Type} `{Detector D}.

(** listener.go, [classifyPreview]. *)
Definition classifyPreview (detector : D) (preview : bytes) : Decision * option error :=
  match preview with
  | [] => (DecisionFallback, None)
  | _ =>
      let '(decision, detectErr) := Detect detector preview in
      match detectErr with
      | Some err => (decision, Some (Errorf "detect anytls: %w" [] [err]))
      | None => (decision, None)
      end
  end.

(** listener.go, [classifyBufferedConn]. *)
Definition classifyBufferedConn (c : Config) (detector : D) (conn : bufferedConn)
    : Decision * option error * bufferedConn :=
  let '(decision, ok, err, conn) := classifyWebsiteFastPath c conn in
  if ok || (if err then true else false) then (decision, err, conn)
  else
    let '(preview, err, conn) := bufferedConn_Peek 32 (ProbeTimeout c) conn in
    match err with
    | Some e =>
        if negb (errors_Is e net_ErrClosed) then
          (DecisionFallback, Some (Errorf "peek first bytes: %w" [] [e]), conn)
        else (classifyPreview detector preview, conn)
    | None => (classifyPreview detector preview, conn)
    end.

(** ** Routing *)

(** A log entry: its level, message and the fields [event], [outcome] and
    [reason]. *)
Inductive log_level := DebugLevel | InfoLevel | WarnLevel.
Record log_entry := mkLog {
  log_at : log_level; log_msg : string; log_fields : list (string * string)
}.

(** The connection handed to the website: the buffered connection itself for a
    plain connection, a [prependConn] on the TLS connection otherwise. *)
Inductive WebsiteConn := WebBuffered (b : bufferedConn) | WebPrepend (p : prependConn).

(** What routing does besides returning: it logs, closes the raw connection, starts
    the session's goroutine, remembers a TLS state for the website. *)
Inductive route_event :=
| RouteLog (l : log_entry)
| RouteClose
| RouteServe (connectionID : Z)
| RouteStoreState (state : Z).

(** anytls.go, [prepareWebsiteConn]; [state] is what [ConnectionState] of
    the connection underneath returns, if it has that method. *)
Definition prepareWebsiteConn (state : option Z) (conn : bufferedConn)
    : result WebsiteConn * list route_event :=
  match bufferedConn_BufferedBytes conn with
  | (Err err, _) => (Err err, [])
  | (Ok prefix, conn) =>
      (Ok (WebPrepend (newPrependConn (bc_conn conn) prefix)),
       match state with Some s => [RouteStoreState s] | None => [] end)
  end.

(** anytls.go, [logFallback]. *)
Definition logFallback (err : error) : route_event :=
  RouteLog (mkLog DebugLevel "connection routed to website"
    [("event", "fallback"); ("outcome", "fallback"); ("reason", probeFailureReason err)]).

(** What [routeBufferedConn] returns, the counter [active] after it and its effects. *)
Record routed := mkRouted {
  rt_conn : option WebsiteConn;
  rt_handled : bool;
  rt_err : option error;
  rt_active : Z;
  rt_events : list route_event
}.

(** The three copies of [fallbackConn] followed by the return of its connection. *)
Definition hand_back (fallbackConn : bufferedConn -> result WebsiteConn * list route_event)
    (buffered : bufferedConn) (active : Z) (before : list route_event) : routed :=
  match fallbackConn buffered with
  | (Err err, evs) =>
      mkRouted None false (Some (Errorf "prepare fallback connection: %w" [] [err])) active
               (before ++ evs)
  | (Ok conn, evs) => mkRouted (Some conn) false None active (before ++ evs)
  end.

(** listener.go, [routeBufferedConn].  A [Decision] is one of the three constants of
    detector.go, so the source's default branch has no case here. *)
Definition routeBufferedConn (c : Config) (detector : D) (active connectionID : Z)
    (fallbackConn : bufferedConn -> result WebsiteConn * list route_event)
    (buffered : bufferedConn) : routed :=
  let '(decision, detectErr, buffered) := classifyBufferedConn c detector buffered in
  match detectErr with
  | Some err =>
      if bool_decide (decision = DecisionFallback) && Fallback c then
        hand_back fallbackConn buffered active [logFallback err]
      else
        mkRouted None true None active
          [RouteLog (mkLog WarnLevel "connection rejected during anytls probe"
             [("event", "anytls_probe"); ("outcome", "rejected");
              ("reason", probeFailureReason err)]);
           RouteClose]
  | None =>
      match decision with
      | DecisionFallback =>
          hand_back fallbackConn buffered active
            [RouteLog (mkLog DebugLevel "connection routed to website"
               [("event", "fallback"); ("outcome", "fallback"); ("reason", "website_protocol")])]
      | DecisionReject =>
          mkRouted None true None active
            [RouteLog (mkLog WarnLevel "connection rejected by anytls detector"
               [("event", "anytls_probe"); ("outcome", "rejected")]);
             RouteClose]
      | DecisionAnyTLS =>
          let '(ok, active) := acquire (MaxConcurrent c) active in
          if negb ok then
            mkRouted None true None active
              [RouteLog (mkLog WarnLevel "rejecting AnyTLS connection due to concurrency limit" []);
               RouteClose]
          else
            mkRouted None true None active
              [RouteLog (mkLog DebugLevel "connection detected as anytls"
                 [("event", "anytls_probe"); ("outcome", "anytls")]);
               RouteServe connectionID]
      end
  end.

(** ** Accepted connections *)

(** A TLS connection: [tls_net] reads the decrypted stream, [tls_handshake_err] is the
    outcome of [Handshake], [tls_write_fault] that of [SetWriteDeadline]. *)
Record tlsConn := mkTlsConn {
  tls_net : NetConn;
  tls_write_fault : option error;
  tls_handshake_err : option error;
  tls_state : Z
}.

Inductive acceptedConn := AcceptedTLS (t : tlsConn) | AcceptedPlain (n : NetConn).

(** listener.go, [handshakeTLSConn]: the error and the connection; the
    deferred calls clear the deadline only once both could be set. *)
Definition handshakeTLSConn (c : Config) (t : tlsConn) : option error * NetConn :=
  if 0 <? ProbeTimeout c then
    match net_SetReadDeadline (Some (nc_now (tls_net t) + ProbeTimeout c)) (tls_net t) with
    | (Some err, n) => (Some err, n)
    | (None, n) =>
        match tls_write_fault t with
        | Some err => (Some err, n)
        | None => (tls_handshake_err t, snd (net_SetReadDeadline None n))
        end
    end
  else (tls_handshake_err t, tls_net t).

(** listener.go, [classifyAcceptedConn]: the connection for the website, if any, the
    error, the counter [active] and the effects. *)
Definition classifyAcceptedConn (c : Config) (detector : D) (active connectionID : Z)
    (conn : acceptedConn) : option WebsiteConn * option error * Z * list route_event :=
  match conn with
  | AcceptedTLS t =>
      match handshakeTLSConn c t with
      | (Some _, _) =>
          (None, None, active,
           [RouteLog (mkLog DebugLevel "connection rejected during anytls probe"
              [("event", "anytls_probe"); ("outcome", "rejected");
               ("reason", "tls_handshake_failed")]);
            RouteClose])
      | (None, n) =>
          let r := routeBufferedConn c detector active connectionID
                     (prepareWebsiteConn (Some (tls_state t))) (newBufferedConn n) in
          if (if rt_err r then true else false) || rt_handled r
          then (None, rt_err r, rt_active r, rt_events r)
          else (rt_conn r, None, rt_active r, rt_events r)
      end
  | AcceptedPlain n =>
      let r := routeBufferedConn c detector active connectionID
                 (fun conn => (Ok (WebBuffered conn), [])) (newBufferedConn n) in
      if (if rt_err r then true else false) || rt_handled r
      then (None, rt_err r, rt_active r, rt_events r)
      else (rt_conn r, None, rt_active r, rt_events r)
  end.

End Routing.

(** ** Lemmas on probing

    Classification touches the connection only through [Peek], at most four times: what
    a peek preserves, it preserves. *)

Inductive peeks (c : Config) : nat -> bufferedConn -> bufferedConn -> Prop :=
| peeks_nil b : peeks c 0 b b
| peeks_cons k n b p err b1 b2 :
    (n <= 32)%nat -> bufferedConn_Peek n (ProbeTimeout c) b = (p, err, b1) ->
    peeks c k b1 b2 -> peeks c (S k) b b2.

Lemma peeks_app c k1 k2 b1 b2 b3 :
  peeks c k1 b1 b2 -> peeks c k2 b2 b3 -> peeks c (k1 + k2) b1 b3.
Proof. induction 1; simpl; [done|]. intros H2. econstructor; eauto. Qed.

Lemma matchWebsitePrefix_peeks c b prefix d ok err b' :
  (String.length prefix <= 32)%nat ->
  matchWebsitePrefix c b prefix = (d, ok, err, b') -> peeks c 1 b b'.
Proof.
  intros Hl. unfold matchWebsitePrefix.
  destruct (bufferedConn_Peek _ _ b) as [[p e] b1] eqn:Hp.
  intros Hm. assert (b' = b1) as -> by (cases; done).
  econstructor; [done|done|constructor].
Qed.

(** Counts the peeks on the path taken. *)
Ltac count_peeks :=
  match goal with
  | |- peeks _ _ ?b ?b => constructor
  | H : bufferedConn_Peek _ _ ?b = _ |- peeks _ _ ?b _ =>
      econstructor; [|exact H|count_peeks]; lia
  | H : matchWebsitePrefix _ ?b _ = _ |- peeks _ _ ?b _ =>
      eapply matchWebsitePrefix_peeks; [|exact H]; vm_compute; lia
  end.

Lemma classifyWebsiteFastPath_peeks c b d ok err b' :
  classifyWebsiteFastPath c b = (d, ok, err, b') -> exists k, (k <= 3)%nat /\ peeks c k b b'.
Proof.
  unfold classifyWebsiteFastPath. intros H. repeat split_match H;
    first [by exists 1%nat; split; [lia|count_peeks] | by exists 2%nat; split; [lia|count_peeks]
          | by exists 3%nat; split; [lia|count_peeks]].
Qed.

Lemma classifyBufferedConn_peeks `{Detector D} c (detector : D) b d err b' :
  classifyBufferedConn c detector b = (d, err, b') -> exists k, (k <= 4)%nat /\ peeks c k b b'.
Proof.
  unfold classifyBufferedConn.
  destruct (classifyWebsiteFastPath c b) as [[[d1 ok] e1] b1] eqn:Hf.
  apply classifyWebsiteFastPath_peeks in Hf as (k & Hk & Hpk). destruct (_ || _).
  { intros [= <- <- <-]. exists k. split; [lia|done]. }
  destruct (bufferedConn_Peek 32 _ b1) as [[p e] b2] eqn:Hp.
  intros Hr. assert (b' = b2) as -> by (cases; congruence).
  exists (k + 1)%nat. split; [lia|]. eapply peeks_app; [done|].
  econstructor; [|exact Hp|constructor]; lia.
Qed.

(** What a reader could see stays. *)
Lemma peeks_peeked c k b b' : peeks c k b b' -> peeked b b'.
Proof.
  induction 1 as [|k n b p err b1 b2 Hn Hp _ IH]; [done|]. etrans; [|exact IH].
  apply bufferedConn_Peek_spec in Hp as [Hp _]; [done|by apply defaultBufSize_probe].
Qed.

(** The buffer stays within its capacity, so [BufferedBytes] cannot fail. *)
Lemma peeks_bounded c k b b' : peeks c k b b' -> bounded b -> bounded b'.
Proof. induction 1; eauto using bufferedConn_Peek_bounded. Qed.

(** *** The fast path, as a function of the bytes

    [ready c d m s b]: between two peeks, [s] is unread and its first [m] bytes arrive
    before [d], which no peek with [ProbeTimeout] cuts off. *)

Record ready (c : Config) (d : Z) (m : nat) (s : bytes) (b : bufferedConn) : Prop := {
  rdy_arriving : arriving d m b;
  rdy_deadline : nc_deadline (bc_conn b) = None;
  rdy_timeout : 0 < ProbeTimeout c -> d <= nc_now (bc_conn b) + ProbeTimeout c;
  rdy_stream : bufio_stream b = s
}.

Lemma Peek_ready c d m s n b :
  ready c d m s b -> (n <= m)%nat -> (n <= 32)%nat ->
  exists b', bufferedConn_Peek n (ProbeTimeout c) b = (take n s, None, b') /\ ready c d m s b'.
Proof.
  intros [Ha Hd Ht <-] Hn H32.
  destruct (bufferedConn_Peek_arriving d m n (ProbeTimeout c) b) as (b' & Hp & Ha' & Hd' & Hs & Hnow);
    auto using defaultBufSize_probe.
  exists b'. split; [done|]. split; [done..| |done]. intros Hpos. specialize (Ht Hpos). lia.
Qed.

Lemma ready_length c d m s b : ready c d m s b -> (m <= length s)%nat.
Proof.
  intros [[_ _ _ _ (l1 & l2 & Hsegs & _ & Hm)] _ _ <-].
  unfold bufio_stream, net_pending. rewrite Hsegs, fmap_app, concat_app, !length_app. lia.
Qed.

(** The request lines the fast path knows. *)
Definition website_prefixes : list string :=
  ["POST "; http2_preface; "GET "; "HEAD "; "OPTIONS "; "DELETE "; "TRACE "; "CONNECT ";
   "REPORT "; "MKCOL "; "NOTIFY "; "SUBSCRIBE "; "SEARCH "; "UNSUBSCRIBE "; "LOCK "; "ACL ";
   "BIND "].

Definition is_website (stream : bytes) : bool :=
  existsb (strings.HasPrefix (string_of_bytes stream)) website_prefixes.

Lemma matchWebsitePrefix_ready c d m s b prefix :
  ready c d m s b -> (String.length prefix <= m)%nat -> (String.length prefix <= 32)%nat ->
  exists b', matchWebsitePrefix c b prefix =
      (DecisionFallback, strings.HasPrefix (string_of_bytes s) prefix, None, b') /\
    ready c d m s b'.
Proof.
  intros Hr Hm H32. destruct (Peek_ready c d m s (String.length prefix) b) as (b' & Hp & ?); [done..|].
  exists b'. split; [|done]. unfold matchWebsitePrefix. rewrite Hp. unfold preview_is.
  rewrite strings.HasPrefix_bytes. by destruct (strings.HasPrefix _ _).
Qed.

(** Executes the next peek of the fast path on a ready connection. *)
Ltac run_peek :=
  let b' := fresh "b" in let Hp := fresh "Hp" in let Hr' := fresh "Hr" in
  lazymatch goal with
  | Hr : ready ?c ?d ?m ?s ?b |- context [bufferedConn_Peek ?n (ProbeTimeout ?c) ?b] =>
      destruct (Peek_ready c d m s n b Hr) as (b' & Hp & Hr');
        [simpl in *; lia|lia|rewrite Hp; clear Hp Hr]
  | Hr : ready ?c ?d ?m ?s ?b |- context [matchWebsitePrefix ?c ?b ?p] =>
      destruct (matchWebsitePrefix_ready c d m s b p Hr) as (b' & Hp & Hr');
        [simpl in *; lia|simpl; lia|rewrite Hp; clear Hp Hr]
  end.

(** Decides the tests on bytes of a stream that starts with a known string. *)
Ltac compute_tests :=
  repeat match goal with
  | |- context [preview_is ?x ?y] =>
      let v := eval vm_compute in (preview_is x y) in
      lazymatch v with true => idtac | false => idtac end;
      change (preview_is x y) with v; cbv iota
  end.

Lemma HasPrefix_bytes_app s p :
  strings.HasPrefix (string_of_bytes s) p = true -> exists r, s = bytes_of_string p ++ r.
Proof.
  rewrite <- strings.HasPrefix_bytes, string_of_bytes_eqb. intros Ht.
  exists (drop (String.length p) s). by rewrite <- Ht, take_drop.
Qed.

(** A known request line is recognised as soon as it is there. *)
Lemma classifyWebsiteFastPath_website c d s b p :
  p ∈ website_prefixes -> ready c d (String.length p) s b ->
  strings.HasPrefix (string_of_bytes s) p = true ->
  exists b', classifyWebsiteFastPath c b = (DecisionFallback, true, None, b').
Proof.
  intros Hp Hr Hpre. destruct (HasPrefix_bytes_app _ _ Hpre) as [r ->].
  unfold website_prefixes in Hp.
  repeat (apply elem_of_cons in Hp as [->|Hp]); try (by apply not_elem_of_nil in Hp);
    unfold classifyWebsiteFastPath; repeat (run_peek; compute_tests);
    eexists; rewrite Hpre; done.
Qed.

Lemma is_website_false s p :
  is_website s = false -> p ∈ website_prefixes ->
  strings.HasPrefix (string_of_bytes s) p = false.
Proof. unfold is_website. rewrite existsb_false. auto. Qed.

(** Anything else passes it, once the 24 bytes of its longest pattern are there. *)
Lemma classifyWebsiteFastPath_other c d m s b :
  ready c d m s b -> (24 <= m)%nat -> is_website s = false ->
  exists b', classifyWebsiteFastPath c b = (DecisionFallback, false, None, b') /\ ready c d m s b'.
Proof.
  intros Hr Hm Hno. unfold classifyWebsiteFastPath. run_peek.
  repeat (case_match; [try run_peek; try (case_match; [|case_match]); try run_peek;
    (rewrite is_website_false; [eauto|done|by vm_compute; set_solver]) || eauto|]).
  eauto.
Qed.

(** [classifyBufferedConn] on a connection whose first 32 bytes arrive in time is this
    function of the bytes. *)
Definition classify_spec `{Detector D} (detector : D) (s : bytes) : Decision * option error :=
  if is_website s then (DecisionFallback, None) else classifyPreview detector (take 32 s).

Lemma website_prefix_length p : p ∈ website_prefixes -> (String.length p <= 24)%nat.
Proof.
  intros Hp. unfold website_prefixes in Hp.
  repeat (apply elem_of_cons in Hp as [->|Hp]; [simpl; lia|]). by apply not_elem_of_nil in Hp.
Qed.

Lemma classifyBufferedConn_website `{Detector D} c (detector : D) d s b p :
  p ∈ website_prefixes -> ready c d (String.length p) s b ->
  strings.HasPrefix (string_of_bytes s) p = true ->
  exists b', classifyBufferedConn c detector b = (DecisionFallback, None, b').
Proof.
  intros Hp Hr Hpre. destruct (classifyWebsiteFastPath_website c d s b p Hp Hr Hpre) as [b' Hf].
  exists b'. unfold classifyBufferedConn. by rewrite Hf.
Qed.

Lemma classifyBufferedConn_ready `{Detector D} c (detector : D) d s b :
  ready c d 32 s b ->
  exists b', classifyBufferedConn c detector b =
    (fst (classify_spec detector s), snd (classify_spec detector s), b').
Proof.
  intros Hr. unfold classify_spec. destruct (is_website s) eqn:Hw.
  - apply existsb_true in Hw as (p & Hp & Hpre).
    eapply classifyBufferedConn_website; [done| |done].
    pose proof (website_prefix_length p Hp). destruct Hr as [Ha ? ? ?].
    split; [|done..]. eapply arriving_weaken; [|done]. lia.
  - destruct (classifyWebsiteFastPath_other c d 32 s b Hr ltac:(lia) Hw) as (b1 & Hf & Hr1).
    destruct (Peek_ready c d 32 s 32 b1 Hr1 ltac:(lia) ltac:(lia)) as (b2 & Hp & _).
    exists b2. unfold classifyBufferedConn. rewrite Hf. simpl. rewrite Hp.
    by destruct (classifyPreview detector (take 32 s)).
Qed.

(** ** Lemmas on routing *)

#[export] Instance log_level_eq_dec : EqDecision log_level.
Proof. solve_decision. Defined.
#[export] Instance log_entry_eq_dec : EqDecision log_entry.
Proof. solve_decision. Defined.
#[export] Instance route_event_eq_dec : EqDecision route_event.
Proof. solve_decision. Defined.

#[export] Instance Reader_WebsiteConn : Reader WebsiteConn := {
  rd_Read k w :=
    match w with
    | WebBuffered b => let '(bs, err, b) := rd_Read k b in (bs, err, WebBuffered b)
    | WebPrepend p => let '(bs, err, p) := rd_Read k p in (bs, err, WebPrepend p)
    end;
  rd_pending w := match w with WebBuffered b => rd_pending b | WebPrepend p => rd_pending p end;
  rd_open w := match w with WebBuffered b => rd_open b | WebPrepend p => rd_open p end;
  rd_final w := match w with WebBuffered b => rd_final b | WebPrepend p => rd_final p end;
  rd_work w := match w with WebBuffered b => rd_work b | WebPrepend p => rd_work p end
}.

#[export] Instance ReaderLaws_WebsiteConn : ReaderLaws WebsiteConn.
Proof.
  split. intros k [b|p] bs err w' Hk Ho; cbn -[Reader_bufferedConn Reader_prependConn].
  - destruct (rd_Read k b) as [[bs1 err1] b1] eqn:Hr. intros [= <- <- <-].
    by apply (rd_step k b bs1 err1 b1).
  - destruct (rd_Read k p) as [[bs1 err1] p1] eqn:Hr. intros [= <- <- <-].
    by apply (rd_step k p bs1 err1 p1).
Qed.

(** *** Handing a connection to the website *)

Lemma BufferedBytes_bounded b :
  bounded b -> bufferedConn_BufferedBytes b = (Ok (bc_buf b), b).
Proof.
  intros Hb. unfold bufferedConn_BufferedBytes.
  destruct (Nat.eqb_spec (length (bc_buf b)) 0) as [H0|H0].
  { by rewrite (nil_length_inv _ H0). }
  assert (Hloop : bufio_peek_loop (S (length (bc_buf b))) (length (bc_buf b)) b = b).
  { cbn [bufio_peek_loop]. by rewrite Nat.ltb_irrefl. }
  unfold bufio_Peek. rewrite Hloop, Nat.ltb_irrefl.
  destruct (Nat.ltb_spec defaultBufSize (length (bc_buf b))) as [Hlt|_].
  { unfold bounded in Hb. lia. }
  by rewrite take_ge by lia.
Qed.

(** What both ways of handing back a connection have in common: they do not fail,
    neither close nor serve it, and a reader finds the stream where the client left it. *)
Definition handback_ok
    (fallbackConn : bufferedConn -> result WebsiteConn * list route_event) : Prop :=
  forall b, bounded b -> exists w evs,
    fallbackConn b = (Ok w, evs) /\ (forall e, e ∈ evs -> exists st, e = RouteStoreState st) /\
    (probing b -> nc_closed (bc_conn b) = false ->
     rd_open w /\ rd_pending w = bufio_stream b /\ rd_final w = nc_end_err (bc_conn b)).

Lemma handback_plain : handback_ok (fun conn => (Ok (WebBuffered conn), [])).
Proof.
  intros b Hb. exists (WebBuffered b), []. split_and!; [done|by intros e ?%not_elem_of_nil|].
  intros [He Hd] Hc. done.
Qed.

Lemma handback_prepare state : handback_ok (prepareWebsiteConn state).
Proof.
  intros b Hb. unfold prepareWebsiteConn. rewrite BufferedBytes_bounded by done.
  do 2 eexists. split_and!; [done| |].
  - destruct state; [|by intros e ?%not_elem_of_nil]. intros e He.
    apply list_elem_of_singleton in He. eauto.
  - intros [He Hd] Hc. unfold newPrependConn, bufio_stream. simpl. unfold prepend_pending. simpl.
    destruct (bc_buf b); simpl; [done|]. unfold multi_pending. simpl. by rewrite app_nil_r.
Qed.

(** *** The three ways out of [routeBufferedConn] *)

Inductive routed_as (c : Config) (active connectionID : Z) (b : bufferedConn)
    (fallbackConn : bufferedConn -> result WebsiteConn * list route_event)
    (decision : Decision) (err : option error) : routed -> Prop :=
| routed_website w before evs :
    decision = DecisionFallback -> (err = None \/ Fallback c = true) ->
    fallbackConn b = (Ok w, evs) -> (exists l, before = [RouteLog l]) ->
    routed_as c active connectionID b fallbackConn decision err
      (mkRouted (Some w) false None active (before ++ evs))
| routed_closed l active' :
    (err <> None /\ ~ (decision = DecisionFallback /\ Fallback c = true) /\ active' = active \/
     err = None /\ decision = DecisionReject /\ active' = active \/
     err = None /\ decision = DecisionAnyTLS /\
       acquire (MaxConcurrent c) active = (false, active')) ->
    routed_as c active connectionID b fallbackConn decision err
      (mkRouted None true None active' [RouteLog l; RouteClose])
| routed_served l active' :
    err = None -> decision = DecisionAnyTLS ->
    acquire (MaxConcurrent c) active = (true, active') ->
    routed_as c active connectionID b fallbackConn decision err
      (mkRouted None true None active' [RouteLog l; RouteServe connectionID]).

Lemma routeBufferedConn_cases `{Detector D} c (detector : D) active id fallbackConn b d err b' :
  handback_ok fallbackConn -> bounded b ->
  classifyBufferedConn c detector b = (d, err, b') ->
  routed_as c active id b' fallbackConn d err
    (routeBufferedConn c detector active id fallbackConn b).
Proof.
  intros Hfb Hb Hcl. unfold routeBufferedConn. rewrite Hcl.
  destruct (classifyBufferedConn_peeks c detector b d err b' Hcl) as (k & _ & Hpk).
  destruct (Hfb b' (peeks_bounded _ _ _ _ Hpk Hb)) as (w & evs & Hw & _).
  unfold hand_back. rewrite Hw. destruct err as [e|].
  - case_bool_decide as Hd; destruct (Fallback c) eqn:Hfall; simpl;
      try (apply routed_closed; left; split_and!; [done|intros [? ?]; congruence|done]).
    eapply (routed_website _ _ _ _ _ _ _ _ [_]); eauto.
  - destruct d.
    + eapply (routed_website _ _ _ _ _ _ _ _ [_]); eauto.
    + destruct (acquire _ _) as [[] active'] eqn:Hacq; simpl.
      * by apply routed_served.
      * apply routed_closed. auto.
    + apply routed_closed. auto.
Qed.

(** *** Accepted connections *)

Definition raw_conn (conn : acceptedConn) : NetConn :=
  match conn with AcceptedTLS t => tls_net t | AcceptedPlain n => n end.

Definition handshake_ok (c : Config) (conn : acceptedConn) : Prop :=
  match conn with AcceptedTLS t => fst (handshakeTLSConn c t) = None | AcceptedPlain _ => True end.

Lemma handshakeTLSConn_conn c t n :
  nc_deadline (tls_net t) = None -> handshakeTLSConn c t = (None, n) -> n = tls_net t.
Proof.
  unfold handshakeTLSConn, net_SetReadDeadline. intros Hd. destruct (0 <? _); [|congruence].
  destruct (nc_closed (tls_net t)) eqn:Hc; [done|].
  destruct (nc_deadline_fault (tls_net t)) eqn:Hf; [done|].
  destruct (tls_write_fault t); [done|]. simpl. rewrite Hc, Hf. intros [= _ <-].
  destruct (tls_net t); simpl in *. by subst.
Qed.

(** [classifyAcceptedConn] closes a connection that fails its handshake and otherwise
    returns what [routeBufferedConn] found. *)
Lemma classifyAcceptedConn_cases `{Detector D} c (detector : D) active id conn :
  nc_deadline (raw_conn conn) = None ->
  (~ handshake_ok c conn /\ exists l, classifyAcceptedConn c detector active id conn =
     (None, None, active, [RouteLog l; RouteClose])) \/
  (handshake_ok c conn /\ exists fallbackConn d err b r,
     handback_ok fallbackConn /\
     classifyBufferedConn c detector (newBufferedConn (raw_conn conn)) = (d, err, b) /\
     routed_as c active id b fallbackConn d err r /\
     classifyAcceptedConn c detector active id conn =
       (rt_conn r, None, rt_active r, rt_events r)).
Proof.
  intros Hd.
  assert (Hroute : forall fb d err b r, handback_ok fb ->
    classifyBufferedConn c detector (newBufferedConn (raw_conn conn)) = (d, err, b) ->
    r = routeBufferedConn c detector active id fb (newBufferedConn (raw_conn conn)) ->
    routed_as c active id b fb d err r /\
    (if (if rt_err r then true else false) || rt_handled r
     then (None, rt_err r, rt_active r, rt_events r)
     else (rt_conn r, None, rt_active r, rt_events r)) =
    (rt_conn r, None, rt_active r, rt_events r)).
  { intros fb d err b r Hfb Hcl ->.
    assert (Hb : bounded (newBufferedConn (raw_conn conn))) by (unfold bounded; simpl; lia).
    pose proof (routeBufferedConn_cases c detector active id fb _ d err b Hfb Hb Hcl) as Hr.
    split; [exact Hr|]. by inversion Hr. }
  destruct (classifyBufferedConn c detector (newBufferedConn (raw_conn conn))) as [[d err] b] eqn:Hcl.
  destruct conn as [t|n]; simpl in *.
  - destruct (handshakeTLSConn c t) as [[e|] n] eqn:Hh; [left; eauto|right].
    apply handshakeTLSConn_conn in Hh as ->; [|done]. split; [done|].
    edestruct Hroute as [Hr Heq]; [apply (handback_prepare (Some (tls_state t)))|done|done|].
    rewrite Heq. eauto 10 using handback_prepare.
  - right. split; [done|].
    edestruct Hroute as [Hr Heq]; [apply handback_plain|done|done|].
    rewrite Heq. eauto 10 using handback_plain.
Qed.

Definition starts_session (e : route_event) : bool :=
  match e with RouteServe _ => true | _ => false end.
Definition closes_conn (e : route_event) : bool :=
  match e with RouteClose => true | _ => false end.

(** *** Only the detector starts a session *)

(** The three ways a connection goes. *)
Lemma classifyAcceptedConn_goes `{Detector D} c (detector : D) active id conn w err active' evs :
  nc_deadline (raw_conn conn) = None ->
  classifyAcceptedConn c detector active id conn = (w, err, active', evs) ->
  err = None /\
  ((exists w', w = Some w') /\ active' = active /\
     (forall e, e ∈ evs -> starts_session e = false /\ closes_conn e = false) \/
   w = None /\ (exists l, evs = [RouteLog l; RouteClose] /\
     (active' = active \/ acquire (MaxConcurrent c) active = (false, active'))) \/
   w = None /\ (exists l, evs = [RouteLog l; RouteServe id] /\
     acquire (MaxConcurrent c) active = (true, active'))).
Proof.
  intros Hd Hcl.
  destruct (classifyAcceptedConn_cases c detector active id conn Hd)
    as [[_ [l Heq]]|(_ & fb & dec & derr & b & r & Hfb & Hclass & Hr & Heq)];
    rewrite Heq in Hcl; [naive_solver|].
  destruct (classifyBufferedConn_peeks _ _ _ _ _ _ Hclass) as (n & _ & Hpk).
  assert (Hb : bounded b) by (eapply peeks_bounded; [exact Hpk|unfold bounded; simpl; lia]).
  destruct Hr as [w' before evs' _ _ Hw [l ->]|l a Hwhy|l a _ _ Hgot]; simplify_eq/=.
  - split; [done|]. left. split_and!; [eauto|done|]. intros e [->|He]%elem_of_cons; [done|].
    destruct (Hfb b Hb) as (w1 & evs1 & Hw1 & Hstore & _). rewrite Hw in Hw1. simplify_eq.
    by apply Hstore in He as [? ->].
  - split; [done|]. right; left. split; [done|]. exists l. split; [done|]. naive_solver.
  - split; [done|]. right; right. eauto.
Qed.

Lemma classifyWebsiteFastPath_decision c b d ok err b' :
  classifyWebsiteFastPath c b = (d, ok, err, b') -> d = DecisionFallback.
Proof.
  unfold classifyWebsiteFastPath, matchWebsitePrefix. intros H. by repeat split_match H.
Qed.

Lemma classifyPreview_anytls `{DetectorLaws D} (detector : D) p :
  classifyPreview detector p = (DecisionAnyTLS, None) ->
  Detect detector p = (DecisionAnyTLS, None) /\ (32 <= length p)%nat.
Proof.
  unfold classifyPreview. destruct p as [|x p]; [done|].
  destruct (Detect detector (x :: p)) as [d [e|]] eqn:Hdet; [done|]. intros [= ->].
  split; [done|]. by apply detect_anytls_no_error in Hdet as [_ ?].
Qed.

Lemma classifyBufferedConn_anytls `{DetectorLaws D} c (detector : D) b b' :
  probing b -> classifyBufferedConn c detector b = (DecisionAnyTLS, None, b') ->
  (32 <= length (bufio_stream b))%nat /\
  Detect detector (take 32 (bufio_stream b)) = (DecisionAnyTLS, None).
Proof.
  intros Hpb. unfold classifyBufferedConn.
  destruct (classifyWebsiteFastPath c b) as [[[d1 ok] e1] b1] eqn:Hf.
  pose proof (classifyWebsiteFastPath_decision _ _ _ _ _ _ Hf) as ->.
  apply classifyWebsiteFastPath_peeks in Hf as (k & _ & Hpk).
  destruct (peeks_peeked _ _ _ _ Hpk Hpb) as (Hpb1 & Hs & _).
  destruct (ok || _); [done|].
  destruct (bufferedConn_Peek 32 _ b1) as [[p e] b2] eqn:Hp.
  apply bufferedConn_Peek_spec in Hp as [_ Hp]; [|by apply defaultBufSize_probe].
  destruct (Hp Hpb1) as [Hpre Hlen]. rewrite Hs in Hpre. intros Hres.
  assert (classifyPreview detector p = (DecisionAnyTLS, None)) as [Hdet H32]%classifyPreview_anytls
    by (repeat split_match Hres; congruence).
  assert (length p = 32%nat) as Hl.
  { destruct e; [|done]. destruct Hlen as [?|Hnil]; [lia|]. rewrite Hnil in H32. simpl in H32. lia. }
  rewrite Hl in Hpre. rewrite <- Hpre. split; [|done].
  apply (f_equal length) in Hpre. rewrite length_take in Hpre. lia.
Qed.

(** *** The detector of a validated configuration *)

Definition owner (us : list User) (h : bytes) : option User :=
  List.find (fun u => bool_decide (password_hash u = h)) us.

Lemma owner_Some us h u : owner us h = Some u -> u ∈ us /\ password_hash u = h.
Proof.
  unfold owner. intros [Hu Hh]%List.find_some. bools. split; [by apply list_elem_of_In|done].
Qed.

Lemma detector_lookup_owner us h :
  NoDup (password_hash <$> us) ->
  users (NewPasswordHashDetector us) !! h = user_Enabled <$> owner us h.
Proof.
  intros Hnd. destruct (owner us h) as [u|] eqn:Ho.
  - apply owner_Some in Ho as [Hu <-]. by apply detector_lookup_unique.
  - apply detector_lookup_None. intros u Hu Hh.
    apply list_elem_of_In in Hu. pose proof (List.find_none _ _ Ho u Hu) as Hne.
    simpl in Hne. by rewrite bool_decide_eq_true_2 in Hne.
Qed.

Lemma classifyPreview_password us s :
  NoDup (password_hash <$> us) -> (32 <= length s)%nat ->
  exists e, classifyPreview (NewPasswordHashDetector us) (take 32 s) =
  match owner us (take 32 s) with
  | Some u => if user_Enabled u then (DecisionAnyTLS, None) else (DecisionReject, Some e)
  | None => (DecisionFallback, Some e)
  end.
Proof.
  intros Hnd Hl. unfold classifyPreview.
  destruct (take 32 s) as [|x p] eqn:Ht.
  { apply (f_equal length) in Ht. rewrite length_take in Ht. cbn [length] in Ht. lia. }
  rewrite <- Ht. unfold Detect, Detector_PasswordHashDetector, PasswordHashDetector_Detect.
  rewrite length_take, Nat.min_l, take_take, Nat.min_id by done.
  rewrite detector_lookup_owner by done.
  destruct (owner us (take 32 s)) as [u|]; simpl; [destruct (user_Enabled u); simpl|];
    [|eauto..]. by exists (errors_New "").
Qed.

(** What routing has to do with a connection whose stream is [s]. *)
Inductive disposition := ToWebsite | ToSession | Closed.

Definition routing_spec (c : Config) (active : Z) (s : bytes) : disposition :=
  if is_website s then ToWebsite
  else match owner (Users c) (take 32 s) with
  | Some u => if user_Enabled u && fst (acquire (MaxConcurrent c) active) then ToSession else Closed
  | None => if Fallback c then ToWebsite else Closed
  end.

Definition disposition_of (w : option WebsiteConn) (evs : list route_event) : disposition :=
  match w with
  | Some _ => ToWebsite
  | None => if existsb starts_session evs then ToSession else Closed
  end.

(** ** Properties *)

(** C4.  A connection handed to the website is as the client left it: the web server, reading to
    the end with any buffer size, gets every byte the client sends, those the probe
    looked at included, in order, and then the connection's own error; routing did not
    fail, close it, start a session on it, or take a slot. *)
Theorem website_handback_lossless `{Detector D} c (detector : D) active id conn w err active' evs
    k fuel :
  nc_deadline (raw_conn conn) = None -> nc_closed (raw_conn conn) = false ->
  classifyAcceptedConn c detector active id conn = (Some w, err, active', evs) ->
  (0 < k)%nat -> (rd_work w < fuel)%nat ->
  ReadAll fuel k w = (net_pending (raw_conn conn), Some (nc_end_err (raw_conn conn))) /\
  err = None /\ active' = active /\ RouteClose ∉ evs /\ RouteServe id ∉ evs.
Proof.
  intros Hd Hc Hcl Hk Hfuel.
  destruct (classifyAcceptedConn_cases c detector active id conn Hd)
    as [[_ [l Heq]]|(_ & fb & dec & derr & b & r & Hfb & Hclass & Hr & Heq)]; [congruence|].
  rewrite Heq in Hcl.
  destruct Hr as [w' before evs' _ _ Hw [l ->]|l a _|l a _ _ _]; simplify_eq/=.
  destruct (classifyBufferedConn_peeks _ _ _ _ _ _ Hclass) as (n & _ & Hpk).
  assert (Hb : bounded (newBufferedConn (raw_conn conn))) by (unfold bounded; simpl; lia).
  destruct (peeks_peeked _ _ _ _ Hpk (probing_new _ Hd)) as (Hprobe & Hs & Hc' & He).
  simpl in Hs, Hc', He. change (bufio_stream b = net_pending (raw_conn conn)) in Hs.
  destruct (Hfb b (peeks_bounded _ _ _ _ Hpk Hb)) as (w1 & evs1 & Hw1 & Hstore & Hview).
  rewrite Hw in Hw1. simplify_eq. destruct (Hview Hprobe) as (Ho & Hp & Hf); [congruence|].
  rewrite (ReadAll_complete k fuel w1 Hk Ho Hfuel), Hp, Hf, Hs, He.
  split_and!; try done; intros [Hx|Hx]%elem_of_cons; try done; apply Hstore in Hx as [? [=]].
Qed.

(** C19.  Every accepted connection goes one way, exactly once: it is handed to the website,
    closed, or given to one session, never two of these and never none; routing does not
    return an error; and it takes a connection slot exactly when it starts a
    session. *)
Theorem connection_disposed_once `{Detector D} c (detector : D) active id conn w err active' evs :
  nc_deadline (raw_conn conn) = None -> 0 <= active < 2 ^ 63 -> 0 < MaxConcurrent c < 2 ^ 63 ->
  classifyAcceptedConn c detector active id conn = (w, err, active', evs) ->
  err = None /\
  (if w then 1 else 0) + countb closes_conn evs + countb starts_session evs = 1 /\
  active' = active + countb starts_session evs /\
  (RouteServe id ∈ evs -> active' <= MaxConcurrent c).
Proof.
  intros Hd Ha Hmax Hcl.
  assert (Hacq : acquire (MaxConcurrent c) active =
    if MaxConcurrent c <=? active then (false, active) else (true, active + 1)).
  { unfold acquire. rewrite cas_run_load by lia.
    by destruct (Z.leb_spec (MaxConcurrent c) 0); [lia|]. }
  destruct (classifyAcceptedConn_goes c detector active id conn w err active' evs Hd Hcl)
    as [-> [([w' ->] & -> & Hno)|[(-> & l & -> & Hwhy)|(-> & l & -> & Hgot)]]].
  - rewrite !(proj2 (countb_zero _ _)) by (intros x Hx; apply (Hno x Hx)).
    split_and!; [done|lia|lia|]. intros Hs. by destruct (Hno _ Hs).
  - assert (active' = active) as -> by (rewrite Hacq in Hwhy; case_match; naive_solver).
    split_and!; [done|simpl; lia|simpl; lia|set_solver].
  - rewrite Hacq in Hgot. destruct (Z.leb_spec (MaxConcurrent c) active); simplify_eq.
    split_and!; [done|simpl; lia|simpl; lia|lia].
Qed.

(** C1.  No session without a password: if routing starts a session, the client finished
    its handshake, sent at least 32 bytes, and the first 32 are the SHA-256 hash of the
    password of an enabled user; and a connection slot was taken. *)
Theorem session_requires_password c active id conn w err active' evs :
  nc_deadline (raw_conn conn) = None ->
  classifyAcceptedConn c (NewPasswordHashDetector (Users c)) active id conn
    = (w, err, active', evs) ->
  RouteServe id ∈ evs ->
  handshake_ok c conn /\ w = None /\ acquire (MaxConcurrent c) active = (true, active') /\
  exists u, u ∈ Users c /\ user_Enabled u = true /\
            take 32 (net_pending (raw_conn conn)) = password_hash u.
Proof.
  intros Hd Hcl Hserve. set (detector := NewPasswordHashDetector (Users c)) in *.
  destruct (classifyAcceptedConn_cases c detector active id conn Hd)
    as [[_ [l Heq]]|(Hh & fb & dec & derr & b & r & Hfb & Hclass & Hr & Heq)];
    rewrite Heq in Hcl; [simplify_eq; set_solver|].
  destruct (classifyBufferedConn_peeks _ _ _ _ _ _ Hclass) as (n & _ & Hpk).
  assert (Hb : bounded b) by (eapply peeks_bounded; [exact Hpk|unfold bounded; simpl; lia]).
  destruct Hr as [w' before evs' _ _ Hw [l ->]|l a _|l a -> -> Hacq]; simplify_eq/=; [|set_solver|].
  { destruct (Hfb b Hb) as (w1 & evs1 & Hw1 & Hstore & _). rewrite Hw in Hw1. simplify_eq.
    apply elem_of_cons in Hserve as [?|Hin]; [done|]. by apply Hstore in Hin as [? ?]. }
  split_and!; [done..|].
  apply classifyBufferedConn_anytls in Hclass as [Hlen Hdet]; [|by apply probing_new].
  change (bufio_stream _) with (net_pending (raw_conn conn)) in Hlen, Hdet.
  apply detector_anytls in Hdet as (u & Hu & He & Hhash).
  rewrite take_take, Nat.min_id in Hhash. eauto.
Qed.

(** C5.  Routing refines its specification on every connection whose first 32 bytes arrive
    in time: an HTTP request line goes to the website, the hash of an enabled user's
    password starts a session while a slot is free, a disabled user's or a refused
    connection is closed, and anything else goes to the website or, with [fallback]
    off, is closed.  In particular an authorised client is always served. *)
Theorem routing_refines c d active id conn :
  Validate c = None -> handshake_ok c conn ->
  ready c d 32 (net_pending (raw_conn conn)) (newBufferedConn (raw_conn conn)) ->
  let '(w, err, active', evs) :=
    classifyAcceptedConn c (NewPasswordHashDetector (Users c)) active id conn in
  err = None /\ disposition_of w evs = routing_spec c active (net_pending (raw_conn conn)).
Proof.
  intros Hval%Validate_passwords Hh Hready. set (detector := NewPasswordHashDetector (Users c)).
  destruct (classifyAcceptedConn_cases c detector active id conn (rdy_deadline _ _ _ _ _ Hready))
    as [[Hno _]|(_ & fb & dec & derr & b & r & Hfb & Hclass & Hr & Heq)]; [done|].
  rewrite Heq. split; [done|].
  destruct (classifyBufferedConn_ready c detector d _ _ Hready) as [b' Hspec].
  rewrite Hclass in Hspec. injection Hspec as Hdec Hderr _.
  pose proof (ready_length _ _ _ _ _ Hready) as H32. unfold routing_spec.
  revert Hdec Hderr. unfold classify_spec. destruct (is_website _); simpl.
  { intros -> ->. destruct Hr; naive_solver. }
  destruct (classifyPreview_password (Users c) _ Hval H32) as [e He].
  unfold detector. rewrite He. destruct (owner _ _) as [u|]; simpl.
  - destruct (user_Enabled u); simpl; intros -> ->; destruct Hr; simpl; try naive_solver.
    + destruct (acquire _ active) as [[] ?]; naive_solver.
    + destruct (acquire _ active) as [[] ?]; naive_solver.
  - intros -> ->. destruct Hr; simpl; destruct (Fallback c); naive_solver.
Qed.

(** C40.  A website client is served whatever the configuration: a connection on which a known
    request line arrives in time, however short the request, goes to the website,
    also with [fallback] off. *)
Theorem website_request_served `{Detector D} c (detector : D) d active id conn p :
  p ∈ website_prefixes -> handshake_ok c conn ->
  ready c d (String.length p) (net_pending (raw_conn conn)) (newBufferedConn (raw_conn conn)) ->
  strings.HasPrefix (string_of_bytes (net_pending (raw_conn conn))) p = true ->
  let '(w, err, active', evs) := classifyAcceptedConn c detector active id conn in
  err = None /\ disposition_of w evs = ToWebsite.
Proof.
  intros Hp Hh Hready Hpre.
  destruct (classifyAcceptedConn_cases c detector active id conn (rdy_deadline _ _ _ _ _ Hready))
    as [[Hno _]|(_ & fb & dec & derr & b & r & Hfb & Hclass & Hr & Heq)]; [done|].
  rewrite Heq. split; [done|].
  destruct (classifyBufferedConn_website c detector d _ _ p Hp Hready Hpre) as [b' Hspec].
  rewrite Hclass in Hspec. injection Hspec as -> -> _. destruct Hr; naive_solver.
Qed.

(** C39.  A silent client holds its probe for a bounded time: classification makes at most
    four peeks, so it ends within four times [ProbeTimeout], whatever the client sends
    and whenever. *)
Theorem probe_time_bound `{Detector D} c (detector : D) b d err b' :
  0 < ProbeTimeout c -> classifyBufferedConn c detector b = (d, err, b') ->
  nc_now (bc_conn b) <= nc_now (bc_conn b') <= nc_now (bc_conn b) + 4 * ProbeTimeout c.
Proof.
  intros Hpos (k & Hk & Hpk)%classifyBufferedConn_peeks.
  enough (nc_now (bc_conn b) <= nc_now (bc_conn b') <=
          nc_now (bc_conn b) + Z.of_nat k * ProbeTimeout c) by nia.
  clear Hk. induction Hpk as [|k n b p e b1 b2 _ Hp _ IH]; [lia|].
  apply bufferedConn_Peek_clock in Hp; [|done]. nia.
Qed.

(** *** Witnesses *)

Definition two_users : Config :=
  zero_Config <| Users := [mkUser "alice" "secret" true ""; mkUser "bob" "hunter2" false ""] |>
              <| ProbeTimeout := 5 |> <| MaxConcurrent := 2 |>.

(** A client that sends [data] in two segments at times 1 and 2; the end of the stream
    comes with the second. *)
Definition client (data : bytes) : NetConn :=
  mkNetConn 0 [mkSegment 1 (take 20 data); mkSegment 2 (drop 20 data)] 9 (Sentinel io_EOF)
    true None None false.

Definition alice_hello : bytes :=
  sha256.Sum256 (bytes_of_string "secret") ++ bytes_of_string "hello".

Definition browser_hello : bytes :=
  bytes_of_string ("GET /index.html HTTP/1.1" +:+ crlf +:+ "Host: example.org" +:+ crlf +:+ crlf).

Definition tls_client (data : bytes) : acceptedConn :=
  AcceptedTLS (mkTlsConn (client data) None None 7).

Lemma website_handback_lossless_witness :
  exists w evs,
    classifyAcceptedConn two_users (NewPasswordHashDetector (Users two_users)) 0 1
      (tls_client browser_hello) = (Some w, None, 0, evs) /\
    ReadAll 100 7 w = (browser_hello, Some (Sentinel io_EOF)).
Proof.
  do 2 eexists. split; [vm_compute; reflexivity|].
  eapply (website_handback_lossless two_users (NewPasswordHashDetector (Users two_users)) 0 1
            (tls_client browser_hello)); [done|done|vm_compute; reflexivity|lia|].
  vm_compute. lia.
Defined.

Lemma client_ready m data :
  (20 < length data)%nat -> (m <= length data)%nat ->
  ready two_users 3 m data (newBufferedConn (client data)).
Proof.
  intros H20 Hm. split; [|done|simpl; lia|].
  - split; try done; [by left|]. exists (nc_segs (client data)), []. split_and!; [done| |].
    + repeat constructor; simpl; try lia; intros Hnil; apply (f_equal length) in Hnil;
        rewrite ?length_take, ?length_drop in Hnil; cbn [length] in Hnil; lia.
    + cbn [client nc_segs fmap list_fmap concat seg_data newBufferedConn bc_buf length].
      rewrite app_nil_r, take_drop. lia.
  - unfold bufio_stream, net_pending. simpl. by rewrite app_nil_r, take_drop.
Qed.

Lemma connection_disposed_once_witness :
  exists evs,
    classifyAcceptedConn two_users (NewPasswordHashDetector (Users two_users)) 1 3
      (tls_client alice_hello) = (None, None, 2, evs) /\
    (None (A := error) = None /\
     0 + countb closes_conn evs + countb starts_session evs = 1 /\
     2 = 1 + countb starts_session evs /\ (RouteServe 3 ∈ evs -> 2 <= 2)).
Proof.
  eexists. split; [vm_compute; reflexivity|].
  eapply (connection_disposed_once two_users (NewPasswordHashDetector (Users two_users)) 1 3
    (tls_client alice_hello) None); [done|lia|vm_compute; split; reflexivity|vm_compute; reflexivity].
Defined.

Lemma session_requires_password_witness :
  exists evs,
    classifyAcceptedConn two_users (NewPasswordHashDetector (Users two_users)) 1 3
      (tls_client alice_hello) = (None, None, 2, evs) /\ RouteServe 3 ∈ evs /\
    handshake_ok two_users (tls_client alice_hello) /\ None (A := WebsiteConn) = None /\
    acquire 2 1 = (true, 2) /\
    exists u, u ∈ Users two_users /\ user_Enabled u = true /\
              take 32 (net_pending (raw_conn (tls_client alice_hello))) = password_hash u.
Proof.
  eexists. split; [vm_compute; reflexivity|]. split; [by right; left|].
  eapply (session_requires_password two_users 1 3 (tls_client alice_hello) None);
    [done|vm_compute; reflexivity|by right; left].
Defined.

Lemma routing_refines_witness :
  Validate two_users = None /\
  let '(w, err, active', evs) :=
    classifyAcceptedConn two_users (NewPasswordHashDetector (Users two_users)) 1 3
      (tls_client alice_hello) in
  err = None /\ disposition_of w evs = ToSession.
Proof.
  split; [vm_compute; reflexivity|].
  replace ToSession with (routing_spec two_users 1 (net_pending (raw_conn (tls_client alice_hello))))
    by (vm_compute; reflexivity).
  apply (routing_refines two_users 3); [vm_compute; reflexivity|done|].
  apply client_ready; vm_compute; lia.
Defined.

Lemma website_request_served_witness :
  Fallback two_users = false /\
  let '(w, err, active', evs) :=
    classifyAcceptedConn two_users (NewPasswordHashDetector (Users two_users)) 2 3
      (tls_client browser_hello) in
  err = None /\ disposition_of w evs = ToWebsite.
Proof.
  split; [done|].
  apply (website_request_served two_users (NewPasswordHashDetector (Users two_users)) 3 2 3
           (tls_client browser_hello) "GET ");
    [by vm_compute; set_solver|done|apply client_ready; vm_compute; lia|done].
Defined.

(** A client that connects and stays silent. *)
Definition silent : bufferedConn :=
  newBufferedConn (mkNetConn 100 [] 1000 (Sentinel io_EOF) false None None false).

Lemma probe_time_bound_witness :
  exists err b,
    classifyBufferedConn two_users (NewPasswordHashDetector (Users two_users)) silent
      = (DecisionFallback, err, b) /\
    100 <= nc_now (bc_conn b) <= 100 + 4 * 5.
Proof.
  do 2 eexists. split; [vm_compute; reflexivity|].
  eapply (probe_time_bound two_users (NewPasswordHashDetector (Users two_users)) silent);
    [done|vm_compute; reflexivity].
Defined.

