(* ===== verification/Listener.v ===== *)
(** * The life cycle of the listener

    listener.go, [wrappedListener]: its callers' [Accept] and [Close], the accept loop
    and one goroutine per connection being probed.  They share two channels, a
    [sync.Once] each for starting and stopping, and the terminal error; the model
    interleaves them at these operations. *)

From S2P Require Import Prelude GoErrors Conn Arrival Wrapper Detector Limits Routing.

Local Open Scope Z_scope.

(** ** State *)

(** A [sync.Once]: not called, inside its function, over. *)
Inductive once := OnceNew | OnceRunning | OnceOver.

(** The struct [wrappedListener]; [probeSlots] is the number of elements in the
    channel, [done] whether the channel is closed, [inner_closed] whether the embedded
    [net.Listener] is, [connSeq] the counter of the configuration. *)
Record wrappedListener := mkWrappedListener {
  inner_closed : bool;
  startOnce : bool;
  stopOnce : once;
  done : bool;
  probeSlots : Z;
  terminalErr : option error;
  connSeq : Z
}.

#[export] Instance Eta_wrappedListener : Eta wrappedListener := record_eta (
  fun w => mkWrappedListener (inner_closed w) (startOnce w) (stopOnce w) (done w) (probeSlots w)
    (terminalErr w) (connSeq w)).

(** listener.go, [newWrappedListener]: the capacity of [probeSlots], and the state. *)
Definition maxPending (c : Config) : Z :=
  if MaxPendingProbes c <=? 0 then 256 else MaxPendingProbes c.

Definition newWrappedListener : wrappedListener :=
  mkWrappedListener false false OnceNew false 0 None 0.

(** listener.go, [getTerminalError]. *)
Definition getTerminalError (w : wrappedListener) : error :=
  match terminalErr w with None => Sentinel net_ErrClosed | Some err => err end.

(** Where a goroutine is; connections are numbered in the order the embedded listener
    returned them.  [AcceptSelect] to [AcceptReturned] is [Accept]; [StopEnter] to
    [StopClosing] is [stop], the last thing both [Close] and the accept loop call;
    [LoopSelect] to [LoopCheck] is [acceptLoop]; [Probe] to [ProbeRelease] is
    [processAcceptedConn]. *)
Inductive goroutine :=
| AcceptSelect
| AcceptTerminal
| AcceptReturned (r : result nat)
| StopEnter (err : error)
| StopTerminal (err : error)
| StopClosing
| LoopSelect
| LoopAccept
| LoopFailed (err : error)
| LoopCheck (err : error)
| Probe (conn : nat)
| Classify (conn : nat) (connectionID : Z)
| Handoff (conn : nat)
| ProbeRelease
| Finished.

(** What became of a connection that no caller of [Accept] got: it was closed, or it is the
    session [connectionID]. *)
Inductive conn_end :=
| ConnClosed (conn : nat)
| SessionStarted (conn : nat) (connectionID : Z).

Record listenerState := mkListenerState {
  ls_wl : wrappedListener;
  ls_conns : list acceptedConn;
  ls_ends : list conn_end;
  ls_procs : list goroutine
}.

#[export] Instance Eta_listenerState : Eta listenerState := record_eta (
  fun s => mkListenerState (ls_wl s) (ls_conns s) (ls_ends s) (ls_procs s)).

(** ** Steps *)

(** The operations that are neither a rendezvous nor depend on the environment.  The
    receive from [probeSlots] blocks on an empty channel, [stopOnce.Do] while another
    goroutine is inside. *)
Definition goroutine_step (c : Config) (w : wrappedListener) (p : goroutine)
    : option (wrappedListener * goroutine) :=
  match p with
  | AcceptTerminal => Some (w, AcceptReturned (Err (getTerminalError w)))
  | StopEnter err =>
      match stopOnce w with
      | OnceNew => Some (w <| stopOnce := OnceRunning |>, StopTerminal err)
      | OnceRunning => None
      | OnceOver => Some (w, Finished)
      end
  | StopTerminal err => Some (w <| terminalErr := Some err |>, StopClosing)
  | StopClosing => Some (w <| done := true |> <| stopOnce := OnceOver |>, Finished)
  | LoopSelect =>
      if probeSlots w <? maxPending c
      then Some (w <| probeSlots := probeSlots w + 1 |>, LoopAccept) else None
  | LoopFailed err =>
      if 0 <? probeSlots w
      then Some (w <| probeSlots := probeSlots w - 1 |>, LoopCheck err) else None
  | LoopCheck err =>
      if done w then Some (w, Finished)
      else Some (w, StopEnter (Errorf "accept connection: %w" [] [err]))
  | Probe conn =>
      let id := nextConnectionID (connSeq w) in
      Some (w <| connSeq := id |>, Classify conn id)
  | ProbeRelease =>
      if 0 <? probeSlots w
      then Some (w <| probeSlots := probeSlots w - 1 |>, Finished) else None
  | _ => None
  end.

(** A [select] takes its case [<-wl.done]; the website connection is closed. *)
Definition see_done (p : goroutine) : option (list conn_end * goroutine) :=
  match p with
  | AcceptSelect => Some ([], AcceptTerminal)
  | LoopSelect => Some ([], Finished)
  | Handoff conn => Some ([ConnClosed conn], ProbeRelease)
  | _ => None
  end.

(** The ends that the effects of classification amount to. *)
Definition route_end (conn : nat) (e : route_event) : option conn_end :=
  match e with
  | RouteClose => Some (ConnClosed conn)
  | RouteServe id => Some (SessionStarted conn id)
  | _ => None
  end.

(** [processAcceptedConn] from the call of [classifyAcceptedConn], which finds [active]
    connections counted. *)
Definition on_classified `{Detector D} (c : Config) (detector : D) (active : Z) (conn : nat)
    (connectionID : Z) (a : acceptedConn) : list conn_end * goroutine :=
  let '(websiteConn, err, _, evs) := classifyAcceptedConn c detector active connectionID a in
  let ends := omap (route_end conn) evs in
  match err, websiteConn with
  | Some _, _ => (ends ++ [ConnClosed conn], ProbeRelease)
  | None, None => (ends, ProbeRelease)
  | None, Some _ => (ends, Handoff conn)
  end.

(** One step: somebody calls [Accept] or [Close]; the embedded listener returns from its
    [Accept], after its [Close] only with an error; a connection has been classified; a
    probe hands its connection to a caller of [Accept]; a [select] sees [done]; or a
    goroutine goes on. *)
Inductive listener_action :=
| CallAccept
| CallClose
| InnerAccept (i : nat) (r : result acceptedConn)
| Classified (i : nat) (active : Z)
| Rendezvous (i j : nat)
| SeeDone (i : nat)
| Continue (i : nat).

Definition set_proc (i : nat) (p : goroutine) (s : listenerState) : listenerState :=
  s <| ls_procs := <[i := p]> (ls_procs s) |>.

Section Listener.
Context {D : Type} `{Detector D} (c : Config) (detector : D).

Definition listener_step (act : listener_action) (s : listenerState) : option listenerState :=
  let w := ls_wl s in
  match act with
  | CallAccept =>
      Some (s <| ls_wl := w <| startOnce := true |> |>
              <| ls_procs := ls_procs s ++ (if startOnce w then [] else [LoopSelect]) ++ [AcceptSelect] |>)
  | CallClose =>
      Some (s <| ls_wl := w <| inner_closed := true |> |>
              <| ls_procs := ls_procs s ++ [StopEnter (Sentinel net_ErrClosed)] |>)
  | InnerAccept i r =>
      match ls_procs s !! i, r with
      | Some LoopAccept, Err err => Some (set_proc i (LoopFailed err) s)
      | Some LoopAccept, Ok a =>
          if inner_closed w then None
          else Some (s <| ls_conns := ls_conns s ++ [a] |>
                       <| ls_procs := <[i := LoopSelect]> (ls_procs s) ++ [Probe (length (ls_conns s))] |>)
      | _, _ => None
      end
  | Classified i active =>
      match ls_procs s !! i with
      | Some (Classify conn id) =>
          match ls_conns s !! conn with
          | Some a =>
              let '(ends, p) := on_classified c detector active conn id a in
              Some (set_proc i p (s <| ls_ends := ls_ends s ++ ends |>))
          | None => None
          end
      | _ => None
      end
  | Rendezvous i j =>
      match ls_procs s !! i, ls_procs s !! j with
      | Some (Handoff conn), Some AcceptSelect =>
          Some (set_proc j (AcceptReturned (Ok conn)) (set_proc i ProbeRelease s))
      | _, _ => None
      end
  | SeeDone i =>
      if done w then
        match ls_procs s !! i with
        | Some p =>
            match see_done p with
            | Some (ends, p) => Some (set_proc i p (s <| ls_ends := ls_ends s ++ ends |>))
            | None => None
            end
        | None => None
        end
      else None
  | Continue i =>
      match ls_procs s !! i with
      | Some p =>
          match goroutine_step c w p with
          | Some (w, p) => Some (set_proc i p (s <| ls_wl := w |>))
          | None => None
          end
      | None => None
      end
  end.

End Listener.

Definition listener_start : listenerState := mkListenerState newWrappedListener [] [] [].

(** [run step acts s]: the steps [acts] in order, if each is possible. *)
Definition listener_run `{Detector D} (c : Config) (detector : D) :
    list listener_action -> listenerState -> option listenerState :=
  run (listener_step c detector).

(** A connection comes from the embedded listener without a read deadline. *)
Definition fresh (act : listener_action) : Prop :=
  match act with InnerAccept _ (Ok a) => nc_deadline (raw_conn a) = None | _ => True end.

(** ** Lemmas on steps *)

(** Splits a step into the ways it can be taken. *)
Ltac listener_cases Hstep :=
  match type of Hstep with
  | listener_step _ _ ?act _ = _ =>
      destruct act; simpl in Hstep; unfold goroutine_step, see_done in Hstep;
      repeat split_match Hstep; simplify_eq/=
  end.

Lemma on_classified_goes `{Detector D} c (detector : D) active conn id a ends p :
  nc_deadline (raw_conn a) = None ->
  on_classified c detector active conn id a = (ends, p) ->
  ends = [] /\ p = Handoff conn \/
  p = ProbeRelease /\ (ends = [ConnClosed conn] \/ ends = [SessionStarted conn id]).
Proof.
  unfold on_classified. intros Hd.
  destruct (classifyAcceptedConn _ _ _ _ _) as [[[w err] active'] evs] eqn:Hcl.
  destruct (classifyAcceptedConn_goes _ _ _ _ _ _ _ _ _ Hd Hcl)
    as [-> [([w' ->] & _ & Hno)|[(-> & l & -> & _)|(-> & l & -> & _)]]]; intros [= <- <-]; simpl; [|auto..].
  left. split; [|done]. clear Hcl. induction evs as [|e evs IH]; [done|]. simpl.
  destruct (Hno e) as [H1 H2]; [by left|].
  destruct e; simpl in *; try done; apply IH; intros e He; apply Hno; by right.
Qed.

(** ** Probe slots *)

Definition holds_slot (p : goroutine) : bool :=
  match p with
  | LoopAccept | LoopFailed _ | Probe _ | Classify _ _ | Handoff _ | ProbeRelease => true
  | _ => false
  end.

(** A goroutine of [processAcceptedConn]. *)
Definition is_probe (p : goroutine) : bool :=
  match p with Probe _ | Classify _ _ | Handoff _ | ProbeRelease => true | _ => false end.

Record slots_inv (c : Config) (s : listenerState) : Prop := {
  slots_count : probeSlots (ls_wl s) = countb holds_slot (ls_procs s);
  slots_bound : probeSlots (ls_wl s) <= maxPending c
}.

Definition is_loop (p : goroutine) : bool :=
  match p with LoopSelect | LoopAccept | LoopFailed _ | LoopCheck _ => true | _ => false end.

Definition is_stop (p : goroutine) : bool :=
  match p with StopEnter _ | StopTerminal _ | StopClosing => true | _ => false end.

(** Inside [stopOnce.Do]. *)
Definition in_once (p : goroutine) : bool :=
  match p with StopTerminal _ | StopClosing => true | _ => false end.

Lemma on_classified_slot `{Detector D} c (detector : D) active conn id a ends p :
  on_classified c detector active conn id a = (ends, p) -> holds_slot p = true.
Proof. unfold on_classified. intros H1. repeat split_match H1; done. Qed.

Lemma on_classified_probe `{Detector D} c (detector : D) active conn id a ends p :
  on_classified c detector active conn id a = (ends, p) ->
  is_loop p = false /\ is_stop p = false /\ in_once p = false.
Proof. unfold on_classified. intros H1. repeat split_match H1; done. Qed.

Lemma maxPending_pos c : 0 < maxPending c.
Proof. unfold maxPending. destruct (Z.leb_spec (MaxPendingProbes c) 0); lia. Qed.

(** A rendezvous is a step of each of two goroutines. *)
Lemma rendezvous_other i j p q p' (l : list goroutine) :
  l !! i = Some p -> l !! j = Some q -> p <> q -> <[i := p']> l !! j = Some q.
Proof. intros Hi Hj Hpq. rewrite list_lookup_insert_ne; [done|]. intros ->. congruence. Qed.

(** Counts the goroutines after a step. *)
Ltac count_procs :=
  repeat match goal with
  | |- context [countb ?f (?l ++ ?new)] => rewrite (countb_app f l new)
  | Hi : ?l !! ?i = Some ?p |- context [countb ?f (<[?i := ?p']> ?l)] =>
      rewrite (countb_insert f l i p p' Hi)
  | Hi : ?l !! ?i = Some ?p, Hj : ?l !! ?j = Some ?q
    |- context [countb ?f (<[?j := ?q']> (<[?i := ?p']> ?l))] =>
      rewrite (countb_insert f _ j q q' (rendezvous_other i j p q p' l Hi Hj ltac:(done)))
  end.

Lemma slots_inv_step `{Detector D} c (detector : D) act s s' :
  listener_step c detector act s = Some s' -> slots_inv c s -> slots_inv c s'.
Proof.
  intros Hstep [Hc Hb]. listener_cases Hstep; split; simpl; bools; try lia; count_procs; simpl; try lia.
  match goal with Hcl : on_classified _ _ _ _ _ _ = _ |- _ => apply on_classified_slot in Hcl as -> end.
  lia.
Qed.

(** ** Stopping *)

Record stop_inv (s : listenerState) : Prop := {
  stop_loops : countb is_loop (ls_procs s) <= (if startOnce (ls_wl s) then 1 else 0);
  stop_cause : done (ls_wl s) = true \/ 0 < countb is_stop (ls_procs s) ->
    inner_closed (ls_wl s) = true \/
    startOnce (ls_wl s) = true /\ countb is_loop (ls_procs s) = 0;
  stop_begun : inner_closed (ls_wl s) = true ->
    done (ls_wl s) = true \/ 0 < countb is_stop (ls_procs s);
  stop_once : countb in_once (ls_procs s) = (match stopOnce (ls_wl s) with OnceRunning => 1 | _ => 0 end);
  stop_done : done (ls_wl s) = (match stopOnce (ls_wl s) with OnceOver => true | _ => false end)
}.

Lemma stop_inv_step `{Detector D} c (detector : D) act s s' :
  listener_step c detector act s = Some s' -> stop_inv s -> stop_inv s'.
Proof.
  intros Hstep [Hl Hca Hbg Ho Hd].
  pose proof (countb_nonneg is_loop (ls_procs s)). pose proof (countb_nonneg is_stop (ls_procs s)).
  pose proof (countb_nonneg in_once (ls_procs s)).
  listener_cases Hstep; try match goal with
    | Hcl : on_classified _ _ _ _ _ _ = _ |- _ => apply on_classified_probe in Hcl as (? & ? & ?) end;
  split; simpl; count_procs; simpl; try match goal with
    | Hx : is_loop _ = false, Hy : is_stop _ = false, Hz : in_once _ = false |- _ => rewrite ?Hx, ?Hy, ?Hz end;
  try match goal with
    | Hi : ?l !! ?i = Some ?p |- _ =>
        first [pose proof (countb_lookup is_loop l i p Hi eq_refl)
              |pose proof (countb_lookup is_stop l i p Hi eq_refl)]
    end;
  try match goal with
    | Hi : ?l !! ?i = Some ?p |- _ => pose proof (countb_lookup in_once l i p Hi eq_refl)
    end;
  destruct (startOnce (ls_wl s)), (done (ls_wl s)), (inner_closed (ls_wl s)), (stopOnce (ls_wl s));
    simplify_eq/=; try first [lia | tauto | intuition (lia || congruence)].
Qed.

(** ** Errors *)

(** What a goroutine knows: [P] holds of the errors it may stop the listener with; past
    [done] there is a terminal error, and it is the one [Accept] returned. *)
Definition proc_ok (P : error -> Prop) (w : wrappedListener) (p : goroutine) : Prop :=
  match p with
  | AcceptTerminal => done w = true
  | AcceptReturned (Err e) => done w = true /\ terminalErr w = Some e
  | StopEnter e | StopTerminal e => P e
  | StopClosing => terminalErr w <> None
  | LoopFailed e | LoopCheck e => P (Errorf "accept connection: %w" [] [e])
  | _ => True
  end.

Record error_inv (P : error -> Prop) (s : listenerState) : Prop := {
  err_terminal : forall e, terminalErr (ls_wl s) = Some e -> P e;
  err_done : done (ls_wl s) = true -> terminalErr (ls_wl s) <> None;
  err_procs : Forall (proc_ok P (ls_wl s)) (ls_procs s)
}.

(** The errors an action brings in. *)
Definition error_action (P : error -> Prop) (act : listener_action) : Prop :=
  match act with
  | InnerAccept _ (Err e) => P (Errorf "accept connection: %w" [] [e])
  | CallClose => P (Sentinel net_ErrClosed)
  | _ => True
  end.

Lemma proc_ok_mono P w w' p :
  (done w = true -> done w' = true /\ terminalErr w' = terminalErr w) ->
  (terminalErr w <> None -> terminalErr w' <> None) ->
  proc_ok P w p -> proc_ok P w' p.
Proof. intros Hd Ht. destruct p as [| |[]| | | | | | | | | | | |]; simpl; try done; intuition congruence. Qed.

Lemma on_classified_ok `{Detector D} c (detector : D) active conn id a ends p P w :
  on_classified c detector active conn id a = (ends, p) -> proc_ok P w p.
Proof. unfold on_classified. intros H1. repeat split_match H1; done. Qed.

Lemma error_inv_step `{Detector D} c (detector : D) P act s s' :
  error_action P act -> listener_step c detector act s = Some s' -> stop_inv s ->
  error_inv P s -> error_inv P s'.
Proof.
  intros Hact Hstep [_ _ _ Ho Hd] [Ht He Hp].
  listener_cases Hstep; try match goal with
    | Hi : ?l !! ?i = Some ?p |- _ =>
        pose proof (Forall_lookup_1 _ _ _ _ Hp Hi) as Hpi; simpl in Hpi;
        try pose proof (countb_lookup in_once l i p Hi eq_refl)
    end;
    (split; simpl; [try done; try naive_solver|try done; try naive_solver|
      repeat first [apply Forall_app_2 | apply Forall_insert | apply Forall_cons_2 | apply Forall_nil_2];
      try (eapply Forall_impl; [exact Hp|intros q; apply proc_ok_mono; simpl; try naive_solver]);
      simpl; try done; eauto using on_classified_ok]).
  - unfold getTerminalError. destruct (terminalErr (ls_wl s)); [done|by destruct He].
  - intros Hx. rewrite Hd in Hx. destruct (stopOnce (ls_wl s)); done || lia.
Qed.

(** The terminal error does not change once [done] is closed. *)
Lemma done_stays `{Detector D} c (detector : D) act s s' :
  listener_step c detector act s = Some s' -> stop_inv s -> done (ls_wl s) = true ->
  done (ls_wl s') = true /\ terminalErr (ls_wl s') = terminalErr (ls_wl s).
Proof.
  intros Hstep [_ _ _ Ho Hd] Hdone. rewrite Hdone in Hd.
  listener_cases Hstep; try done. exfalso. match goal with Hi : ?l !! ?i = Some ?p |- _ =>
    pose proof (countb_lookup in_once l i p Hi eq_refl) end.
  destruct (stopOnce (ls_wl s)); [done..|lia].
Qed.

(** ** Where the connections are *)

(** A goroutine has connection [conn]: it probes it, or it is the caller of [Accept] who
    got it. *)
Definition holds (conn : nat) (p : goroutine) : bool :=
  match p with
  | Probe i | Classify i _ | Handoff i | AcceptReturned (Ok i) => (i =? conn)%nat
  | _ => false
  end.

Definition end_of (conn : nat) (e : conn_end) : bool :=
  match e with ConnClosed i | SessionStarted i _ => (i =? conn)%nat end.

(** Every accepted connection is in one place. *)
Record places_inv (s : listenerState) : Prop := {
  plc_fresh : Forall (fun a => nc_deadline (raw_conn a) = None) (ls_conns s);
  plc_one : forall conn,
    countb (holds conn) (ls_procs s) + countb (end_of conn) (ls_ends s) =
    if (conn <? length (ls_conns s))%nat then 1 else 0
}.

Lemma places_inv_step `{Detector D} c (detector : D) act s s' :
  fresh act -> listener_step c detector act s = Some s' -> places_inv s -> places_inv s'.
Proof.
  intros Hact Hstep [Hf Hone].
  listener_cases Hstep;
    (split; simpl; [try done; try (apply Forall_app_2; [done|by apply Forall_singleton])|]);
    intros k; specialize (Hone k); rewrite ?length_app; count_procs; simpl; try lia.
  - destruct (Nat.eqb_spec (length (ls_conns s)) k), (Nat.ltb_spec k (length (ls_conns s))),
      (Nat.ltb_spec k (length (ls_conns s) + 1)); lia.
  - match goal with Hcl : on_classified _ _ _ _ _ _ = _ |- _ =>
      apply on_classified_goes in Hcl as [[-> ->]|[-> [-> | ->]]]; [simpl; lia..|]
    end. by apply (Forall_lookup_1 _ _ _ _ Hf) in Heqo0.
Qed.

(** ** Shutdown *)

(** How many steps a goroutine has left at most, once no connection comes in. *)
Definition weight (p : goroutine) : nat :=
  match p with
  | LoopSelect => 7 | LoopAccept => 6 | LoopFailed _ => 5 | LoopCheck _ => 4
  | StopEnter _ => 3 | StopTerminal _ => 2 | StopClosing => 1
  | Probe _ => 4 | Classify _ _ => 3 | Handoff _ => 2 | ProbeRelease => 1
  | AcceptSelect => 2 | AcceptTerminal => 1 | AcceptReturned _ | Finished => 0
  end.

Definition work (s : listenerState) : nat := sum_list (weight <$> ls_procs s).

Definition over (p : goroutine) : bool := (weight p =? 0)%nat.

(** An action that is not a new call. *)
Definition internal (act : listener_action) : Prop :=
  match act with CallAccept | CallClose => False | _ => True end.

Definition stopping (w : wrappedListener) : bool := inner_closed w || done w.

Lemma sum_list_insert (l : list nat) i x y :
  l !! i = Some x -> (sum_list (<[i := y]> l) + x = sum_list l + y)%nat.
Proof.
  revert i. induction l as [|a l IH]; intros [|i] Hi; simplify_eq/=; [lia|]. specialize (IH i Hi). lia.
Qed.

Lemma work_insert l i p p' :
  l !! i = Some p -> (weight p' < weight p)%nat ->
  (sum_list (weight <$> <[i := p']> l) < sum_list (weight <$> l))%nat.
Proof.
  intros Hi Hw. rewrite list_fmap_insert.
  pose proof (sum_list_insert (weight <$> l) i (weight p) (weight p')
    ltac:(by rewrite list_lookup_fmap, Hi)). lia.
Qed.

Lemma on_classified_weight `{Detector D} c (detector : D) active conn id a ends p :
  on_classified c detector active conn id a = (ends, p) -> (weight p < 3)%nat.
Proof. unfold on_classified. intros H1. repeat split_match H1; simpl; lia. Qed.

(** Once the listener is stopping, every step uses up work. *)
Lemma stopping_step `{Detector D} c (detector : D) act s s' :
  internal act -> listener_step c detector act s = Some s' -> stop_inv s ->
  stopping (ls_wl s) = true -> stopping (ls_wl s') = true /\ (work s' < work s)%nat.
Proof.
  intros Hact Hstep [Hl Hca _ _ _] Hst. unfold stopping, work in *.
  listener_cases Hstep; (split; [try done; by destruct (inner_closed (ls_wl s))|]).
  all: try done; try (eapply work_insert; [eassumption|]; simpl; try lia; by eapply on_classified_weight).
  - exfalso. match goal with Hi : ?l !! ?i = Some ?p |- _ =>
      pose proof (countb_lookup is_loop l i p Hi eq_refl) end.
    destruct Hca as [?|[_ ?]]; [by left|done|lia].
  - match goal with Hi : ?l !! ?i = Some ?p, Hj : ?l !! ?j = Some ?q |- _ =>
      pose proof (rendezvous_other i j p q ProbeRelease l Hi Hj ltac:(done)) as Hj';
      etrans; [eapply (work_insert _ j q _ Hj')|eapply (work_insert _ i p _ Hi)]; simpl; lia end.
Qed.

(** A step the goroutine can take once [done] is closed; a closed listener's [Accept]
    returns an error. *)
Definition next_action (i : nat) (p : goroutine) : listener_action :=
  match p with
  | AcceptSelect | LoopSelect | Handoff _ => SeeDone i
  | LoopAccept => InnerAccept i (Err (Sentinel net_ErrClosed))
  | Classify _ _ => Classified i 0
  | _ => Continue i
  end.

Lemma in_once_moves `{Detector D} c (detector : D) s i p :
  ls_procs s !! i = Some p -> in_once p = true ->
  exists s', listener_step c detector (Continue i) s = Some s'.
Proof. intros Hi Hp. simpl. rewrite Hi. destruct p; simpl; eauto; done. Qed.

Lemma done_moves `{Detector D} c (detector : D) s i p :
  stop_inv s -> slots_inv c s -> places_inv s -> done (ls_wl s) = true ->
  ls_procs s !! i = Some p -> over p = false ->
  exists s', listener_step c detector (next_action i p) s = Some s'.
Proof.
  intros [_ _ _ _ Hd] [Hc _] [_ Hone] Hdone Hi Hover. rewrite Hdone in Hd.
  assert (Hpos : holds_slot p = true -> 0 <? probeSlots (ls_wl s) = true).
  { intros Hp. pose proof (countb_lookup holds_slot _ i p Hi Hp). apply Z.ltb_lt. lia. }
  destruct p as [| |r|e|e| | | |e|e|conn|conn id|conn| |]; try done; simpl; rewrite ?Hdone, Hi; simpl;
    rewrite ?Hdone, ?Hpos by done; eauto.
  - destruct (stopOnce (ls_wl s)); by eauto.
  - pose proof (countb_lookup (holds conn) _ i _ Hi (Nat.eqb_refl conn)) as H1.
    specialize (Hone conn). pose proof (countb_nonneg (end_of conn) (ls_ends s)).
    destruct (Nat.ltb_spec conn (length (ls_conns s))) as [Hlt|]; [|lia].
    destruct (lookup_lt_is_Some_2 _ _ Hlt) as [a ->].
    destruct (on_classified c detector 0 conn id a). eauto.
Qed.

(** Nothing blocks for good: while a goroutine is not over, one can move. *)
Lemma stopping_progress `{Detector D} c (detector : D) s i p :
  stop_inv s -> slots_inv c s -> places_inv s -> stopping (ls_wl s) = true ->
  ls_procs s !! i = Some p -> over p = false ->
  exists act s', internal act /\ listener_step c detector act s = Some s'.
Proof.
  intros Hstop Hslots Hplaces Hst Hi Hover. destruct (done (ls_wl s)) eqn:Hdone.
  { destruct (done_moves c detector s i p) as [s' Hs']; try done.
    exists (next_action i p), s'. split; [by destruct p|done]. }
  destruct Hstop as [_ _ Hbg Ho Hd]. unfold stopping in Hst. rewrite Hdone, orb_false_r in Hst.
  destruct (Hbg Hst) as [?|Hpos]; [congruence|].
  destruct (countb_pos _ _ Hpos) as (j & q & Hj & Hq).
  assert (Hin : 0 < countb in_once (ls_procs s) ->
    exists act s', internal act /\ listener_step c detector act s = Some s').
  { intros (k & r & Hk & Hr)%countb_pos.
    destruct (in_once_moves c detector s k r Hk Hr) as [s' Hs']. by exists (Continue k), s'. }
  destruct (stopOnce (ls_wl s)) eqn:Hon; [|apply Hin; lia|congruence].
  destruct q; try done.
  - exists (Continue j). simpl. rewrite Hj. simpl. rewrite Hon. eauto.
  - apply Hin. pose proof (countb_lookup in_once _ j _ Hj eq_refl). lia.
  - apply Hin. pose proof (countb_lookup in_once _ j _ Hj eq_refl). lia.
Qed.

(** ** Reachable states *)

Lemma reachable_stop `{Detector D} c (detector : D) acts s :
  listener_run c detector acts listener_start = Some s -> stop_inv s.
Proof.
  intros Hr. eapply (run_inv _ (fun _ => True)); [|by apply Forall_true|exact Hr|].
  - intros act s1 s2 _. apply stop_inv_step.
  - split; simpl; try done; lia.
Qed.

Lemma reachable_slots `{Detector D} c (detector : D) acts s :
  listener_run c detector acts listener_start = Some s -> slots_inv c s.
Proof.
  intros Hr. eapply (run_inv _ (fun _ => True)); [|by apply Forall_true|exact Hr|].
  - intros act s1 s2 _. apply slots_inv_step.
  - pose proof (maxPending_pos c). split; simpl; [done|lia].
Qed.

Lemma reachable_places `{Detector D} c (detector : D) acts s :
  Forall fresh acts -> listener_run c detector acts listener_start = Some s -> places_inv s.
Proof.
  intros Hg Hr. eapply (run_inv _ fresh); [|exact Hg|exact Hr|].
  - intros act s1 s2. apply places_inv_step.
  - split; simpl; [apply Forall_nil_2|done].
Qed.

Lemma reachable_errors `{Detector D} c (detector : D) P acts s :
  Forall (error_action P) acts -> listener_run c detector acts listener_start = Some s ->
  error_inv P s.
Proof.
  intros Hg Hr. eapply (run_inv _ (error_action P) (fun s => stop_inv s /\ error_inv P s)) in Hr;
    [apply Hr| |exact Hg|].
  - intros act s1 s2 Hact Hs [H1 H2]. split; [by eapply stop_inv_step|by eapply error_inv_step].
  - split; [by apply (reachable_stop c detector [])|]. split; simpl; done.
Qed.

(** ** Properties *)

(** C22.  At most [max_pending_probes] connections are probed at a time (256 when it is not
    positive), whatever the clients and the callers do: the channel [probeSlots] never
    holds more than its capacity, and exactly one element per goroutine that took one. *)
Theorem pending_probes_bounded `{Detector D} c (detector : D) acts s :
  listener_run c detector acts listener_start = Some s ->
  countb is_probe (ls_procs s) <= probeSlots (ls_wl s) <= maxPending c /\
  probeSlots (ls_wl s) = countb holds_slot (ls_procs s) /\
  maxPending c = (if 0 <? MaxPendingProbes c then MaxPendingProbes c else 256).
Proof.
  intros [Hc Hb]%reachable_slots. split_and!; [|done|done|].
  - rewrite Hc. apply countb_le. by intros [].
  - unfold maxPending. destruct (Z.leb_spec (MaxPendingProbes c) 0), (Z.ltb_spec 0 (MaxPendingProbes c)); lia.
Qed.

(** C9.  No accepted connection is lost, closed behind somebody's back or handed out twice:
    at any time each is with exactly one probing goroutine or one caller of [Accept], or
    has been closed, or has become a session; and never two of these. *)
Theorem accepted_connection_once `{Detector D} c (detector : D) acts s conn :
  Forall fresh acts -> listener_run c detector acts listener_start = Some s ->
  (conn < length (ls_conns s))%nat ->
  countb (holds conn) (ls_procs s) + countb (end_of conn) (ls_ends s) = 1.
Proof.
  intros Hf Hr Hlt. destruct (reachable_places c detector acts s Hf Hr) as [_ Hone].
  rewrite Hone. by destruct (Nat.ltb_spec conn (length (ls_conns s))); [|lia].
Qed.

(** C10.  Shutdown completes: once the embedded listener is closed, or [done] is, the goroutines
    there are can take only so many more steps, in any order; when none can move,
    [done] is closed, every one of them is over, the slots are free again, and every
    connection was returned by one [Accept], closed, or served. *)
Theorem listener_shutdown `{Detector D} c (detector : D) acts s acts' s' :
  Forall fresh (acts ++ acts') -> listener_run c detector acts listener_start = Some s ->
  stopping (ls_wl s) = true ->
  Forall internal acts' -> listener_run c detector acts' s = Some s' ->
  (length acts' + work s' <= work s)%nat /\
  ((forall act, internal act -> listener_step c detector act s' = None) ->
   done (ls_wl s') = true /\ Forall (fun p => over p = true) (ls_procs s') /\
   probeSlots (ls_wl s') = 0 /\
   forall conn, (conn < length (ls_conns s'))%nat ->
     countb (end_of conn) (ls_ends s') = 1 \/ AcceptReturned (Ok conn) ∈ ls_procs s').
Proof.
  intros Hf Hr Hst Hint Hr'.
  set (inv := fun s => stop_inv s /\ stopping (ls_wl s) = true).
  assert (Hstep : forall act s1 s2, internal act -> listener_step c detector act s1 = Some s2 ->
    inv s1 -> inv s2 /\ (work s2 < work s1)%nat).
  { intros act s1 s2 Hact Hs [H1 H2]. destruct (stopping_step _ _ _ _ _ Hact Hs H1 H2).
    split; [|done]. split; [by eapply stop_inv_step|done]. }
  assert (Hinv : inv s) by (split; [by eapply reachable_stop|done]).
  split; [by eapply (run_measure _ internal inv work Hstep)|]. intros Hstuck.
  assert (Hall : listener_run c detector (acts ++ acts') listener_start = Some s')
    by (apply run_app; eauto).
  destruct (run_inv _ internal inv ltac:(intros act s1 s2 H1 H2 H3; exact (proj1 (Hstep act s1 s2 H1 H2 H3))) _ _ _ Hint Hr' Hinv)
    as [Hstop Hst'].
  pose proof (reachable_slots _ _ _ _ Hall) as Hslots.
  pose proof (reachable_places _ _ _ _ Hf Hall) as Hplaces.
  assert (Hover : Forall (fun p => over p = true) (ls_procs s')).
  { apply Forall_lookup_2. intros i p Hi. destruct (over p) eqn:Hp; [done|].
    destruct (stopping_progress c detector s' i p) as (act & s2 & Hact & Hs); try done.
    by rewrite Hstuck in Hs. }
  assert (Hzero : forall f, (forall p, over p = true -> f p = false) -> countb f (ls_procs s') = 0).
  { intros f Hf'. apply countb_zero. intros p Hp. apply Hf'. by rewrite Forall_forall in Hover; apply Hover. }
  split_and!; [|done| |].
  - destruct Hstop as [_ _ Hbg _ _]. unfold stopping in Hst'. apply orb_true_iff in Hst' as [Hic|?]; [|done].
    destruct (Hbg Hic) as [?|Hpos]; [done|]. rewrite Hzero in Hpos; [lia|by intros []].
  - rewrite (slots_count _ _ Hslots). apply Hzero. by intros [].
  - intros conn Hlt. pose proof (plc_one _ Hplaces conn) as Hone.
    destruct (Nat.ltb_spec conn (length (ls_conns s'))); [|lia].
    destruct (Z.eq_dec (countb (holds conn) (ls_procs s')) 0) as [Hz|Hz]; [left; lia|right].
    pose proof (countb_nonneg (holds conn) (ls_procs s')).
    destruct (countb_pos (holds conn) (ls_procs s') ltac:(lia)) as (i & p & Hi & Hp).
    pose proof (Forall_lookup_1 _ _ _ _ Hover Hi) as Hov. simpl in Hov.
    destruct p as [| |[]| | | | | | | | | | | |]; try done. simpl in Hp. bools. subst.
    by eapply list_elem_of_lookup_2.
Qed.

(** The error with which a goroutine is about to enter [stopOnce.Do]. *)
Definition stop_error (act : listener_action) (s : listenerState) : option error :=
  match act with
  | Continue i => match ls_procs s !! i with Some (StopEnter e) => Some e | _ => None end
  | _ => None
  end.

(** The error of the first goroutine of a run to do so. *)
Fixpoint first_stop `{Detector D} (c : Config) (detector : D) (acts : list listener_action)
    (s : listenerState) : option error :=
  match acts with
  | [] => None
  | act :: acts =>
      match stop_error act s, listener_step c detector act s with
      | Some e, _ => Some e
      | None, Some s => first_stop c detector acts s
      | None, None => None
      end
  end.

(** Once it is inside, only its error can become the terminal one. *)
Record stopped_by (e : error) (s : listenerState) : Prop := {
  sb_once : stopOnce (ls_wl s) <> OnceNew;
  sb_terminal : forall e', terminalErr (ls_wl s) = Some e' -> e' = e;
  sb_procs : Forall (fun p => match p with StopTerminal e' => e' = e | _ => True end) (ls_procs s)
}.

(** Before that, nobody is inside and there is no terminal error. *)
Record unstopped (s : listenerState) : Prop := {
  us_once : stopOnce (ls_wl s) = OnceNew;
  us_terminal : terminalErr (ls_wl s) = None;
  us_procs : Forall (fun p => match p with StopTerminal _ | StopClosing => False | _ => True end) (ls_procs s)
}.

Lemma on_classified_shape `{Detector D} c (detector : D) active conn id a ends p :
  on_classified c detector active conn id a = (ends, p) ->
  p = ProbeRelease \/ p = Handoff conn.
Proof. unfold on_classified. intros H1. repeat split_match H1; simplify_eq; auto. Qed.

(** Settles what a step does to a property of each goroutine. *)
Ltac procs_step :=
  repeat first [apply Forall_app_2 | apply Forall_insert | apply Forall_cons_2 | apply Forall_nil_2];
  try done;
  try match goal with
  | Hcl : on_classified _ _ _ _ _ _ = _ |- _ => by apply on_classified_shape in Hcl as [-> | ->]
  end.

Lemma stopped_by_step `{Detector D} c (detector : D) e act s s' :
  listener_step c detector act s = Some s' -> stopped_by e s -> stopped_by e s'.
Proof.
  intros Hstep [Ho Ht Hp]. listener_cases Hstep;
    try match goal with Hi : _ !! _ = Some ?p |- _ => pose proof (Forall_lookup_1 _ _ _ _ Hp Hi) as Hpi; simpl in Hpi end;
    (split; simpl; [try done; try congruence|try done; try congruence|procs_step]).
Qed.

Lemma unstopped_step `{Detector D} c (detector : D) act s s' :
  listener_step c detector act s = Some s' -> unstopped s ->
  match stop_error act s with Some e => stopped_by e s' | None => unstopped s' end.
Proof.
  intros Hstep [Ho Ht Hp]. unfold stop_error. listener_cases Hstep;
    try match goal with Hi : _ !! _ = Some ?p |- _ =>
      rewrite ?Hi; pose proof (Forall_lookup_1 _ _ _ _ Hp Hi) as Hpi; simpl in Hpi end;
    try done; (split; simpl; [try done; try congruence|try done; try congruence|procs_step]).
  eapply Forall_impl; [exact Hp|]. by intros [].
Qed.

(** A terminal error is that of the first to stop. *)
Lemma first_stop_terminal `{Detector D} c (detector : D) acts s s' e :
  unstopped s -> listener_run c detector acts s = Some s' -> terminalErr (ls_wl s') = Some e ->
  first_stop c detector acts s = Some e.
Proof.
  revert s. induction acts as [|act acts IH]; intros s Hu; cbn [listener_run run first_stop].
  { intros [= <-]. by rewrite (us_terminal _ Hu). }
  unfold listener_run. cbn [run].
  destruct (listener_step c detector act s) as [s1|] eqn:Hs; [|done]. intros Hr Ht.
  pose proof (unstopped_step c detector act s s1 Hs Hu) as Hnext.
  destruct (stop_error act s) as [e1|]; [|by apply IH].
  f_equal. symmetry. refine (sb_terminal e1 s' _ e Ht).
  eapply (run_inv _ (fun _ => True) (stopped_by e1)); [|by apply Forall_true|exact Hr|done].
  intros act2 s2 s3 _. apply stopped_by_step.
Qed.

Lemma unstopped_start : unstopped listener_start.
Proof. split; simpl; [done|done|apply Forall_nil_2]. Qed.

(** C28.  All callers of [Accept] that fail get the same error, then and later: the one of
    the first goroutine to enter [stop] in the run, whoever comes after it.  It is
    [net.ErrClosed], and somebody called [Close], or an error the embedded listener
    returned, wrapped. *)
Theorem Accept_error `{Detector D} c (detector : D) acts s e acts' s' e' :
  listener_run c detector acts listener_start = Some s ->
  AcceptReturned (Err e) ∈ ls_procs s ->
  listener_run c detector acts' s = Some s' -> AcceptReturned (Err e') ∈ ls_procs s' ->
  e' = e /\ first_stop c detector acts listener_start = Some e /\
  (CallClose ∈ acts /\ e = Sentinel net_ErrClosed \/
   exists i err, InnerAccept i (Err err) ∈ acts /\ e = Errorf "accept connection: %w" [] [err]).
Proof.
  intros Hr He Hr' He'.
  set (P := fun e => CallClose ∈ acts /\ e = Sentinel net_ErrClosed \/
    exists i err, InnerAccept i (Err err) ∈ acts /\ e = Errorf "accept connection: %w" [] [err]).
  assert (HP : Forall (error_action P) acts).
  { apply Forall_forall. intros [| |i [a|err]| | | |] Hin; simpl; unfold P; eauto 6. }
  destruct (reachable_errors c detector P acts s HP Hr) as [Ht Hd Hp].
  rewrite Forall_forall in Hp. destruct (Hp _ He) as [Hdone Hte].
  split; [|split; [by apply (first_stop_terminal c detector acts _ s); [apply unstopped_start| |]|by apply Ht]].
  set (inv := fun s => stop_inv s /\ error_inv (fun _ => True) s /\ done (ls_wl s) = true /\
                       terminalErr (ls_wl s) = Some e).
  assert (Hany : forall acts, Forall (error_action (fun _ => True)) acts).
  { intros l. apply Forall_true. by intros [| |i []| | | |]. }
  assert (Hlater : inv s').
  { eapply (run_inv _ (error_action (fun _ => True)) inv); [|apply Hany|exact Hr'|].
    - intros act s1 s2 Hact Hs (H1 & H2 & H3 & H4). unfold inv. rewrite <- H4.
      split_and!; [by eapply stop_inv_step|by eapply error_inv_step|..]; by eapply done_stays.
    - split_and!; [by eapply reachable_stop|by eapply reachable_errors|done..]. }
  destruct Hlater as (_ & [_ _ Hp'] & _ & Hte').
  rewrite Forall_forall in Hp'. destruct (Hp' _ He') as [_ He'']. congruence.
Qed.

(** *** Witnesses *)

(** A browser is handed to the first caller of [Accept]; a second caller waits while the
    listener is closed. *)
Definition before_close : list listener_action :=
  [CallAccept; Continue 0; InnerAccept 0 (Ok (tls_client browser_hello)); Continue 2;
   Classified 2 0; Rendezvous 2 1; CallAccept; CallClose; Continue 4; Continue 4; Continue 4;
   SeeDone 3; Continue 3].
Definition after_close : list listener_action := [Continue 2; SeeDone 0].

Abbreviation witness_run := (listener_run two_users (NewPasswordHashDetector (Users two_users))).

Definition at_close : listenerState := mkListenerState
  (mkWrappedListener true true OnceOver true 1 (Some (Sentinel net_ErrClosed)) 1)
  [tls_client browser_hello] []
  [LoopSelect; AcceptReturned (Ok 0%nat); ProbeRelease;
   AcceptReturned (Err (Sentinel net_ErrClosed)); Finished].

Definition after_all : listenerState := at_close
  <| ls_wl := ls_wl at_close <| probeSlots := 0 |> |>
  <| ls_procs := [Finished; AcceptReturned (Ok 0%nat); Finished;
                  AcceptReturned (Err (Sentinel net_ErrClosed)); Finished] |>.

Lemma run_before_close : witness_run before_close listener_start = Some at_close.
Proof. vm_compute. reflexivity. Qed.

Lemma run_after_close : witness_run after_close at_close = Some after_all.
Proof. vm_compute. reflexivity. Qed.

Lemma pending_probes_bounded_witness :
  countb is_probe (ls_procs at_close) = 1 /\
  countb is_probe (ls_procs at_close) <= 1 <= 256.
Proof.
  split; [reflexivity|].
  exact (proj1 (pending_probes_bounded two_users _ before_close at_close run_before_close)).
Defined.

Lemma accepted_connection_once_witness :
  Forall fresh before_close /\ countb (holds 0) (ls_procs at_close) + 0 = 1.
Proof.
  assert (Hf : Forall fresh before_close) by (repeat constructor).
  split; [exact Hf|].
  exact (accepted_connection_once two_users _ before_close at_close 0 Hf run_before_close
           (le_n _)).
Defined.

Lemma listener_shutdown_witness :
  (length after_close + work after_all <= work at_close)%nat /\ probeSlots (ls_wl after_all) = 0.
Proof.
  assert (Hstuck : forall act, internal act ->
    listener_step two_users (NewPasswordHashDetector (Users two_users)) act after_all = None).
  { intros [| |i r|i active|i j|i|i] Hi; try done;
      destruct i as [|[|[|[|[|i]]]]]; try reflexivity; by destruct r. }
  destruct (listener_shutdown two_users (NewPasswordHashDetector (Users two_users))
    before_close at_close after_close after_all) as [Hn Hend];
    [repeat constructor|exact run_before_close|done|repeat constructor|exact run_after_close|].
  split; [exact Hn|]. exact (proj1 (proj2 (proj2 (Hend Hstuck)))).
Defined.

(** The embedded listener fails, and before the accept loop stops the listener somebody
    else has closed it: the callers get the error of the [Close]. *)
Definition close_overtakes : list listener_action :=
  [CallAccept; Continue 0; InnerAccept 0 (Err (errors_New "accept: too many open files"));
   Continue 0; Continue 0; CallClose; Continue 2; Continue 2; Continue 2; Continue 0; SeeDone 1; Continue 1].

Definition overtaken : listenerState := default listener_start (witness_run close_overtakes listener_start).

Lemma run_close_overtakes : witness_run close_overtakes listener_start = Some overtaken.
Proof. vm_compute. reflexivity. Qed.

Lemma Accept_error_witness :
  AcceptReturned (Err (Sentinel net_ErrClosed)) ∈ ls_procs overtaken /\
  first_stop two_users (NewPasswordHashDetector (Users two_users)) close_overtakes listener_start =
    Some (Sentinel net_ErrClosed) /\
  exists i err, InnerAccept i (Err err) ∈ close_overtakes.
Proof.
  assert (He : AcceptReturned (Err (Sentinel net_ErrClosed)) ∈ ls_procs overtaken)
    by (vm_compute; right; left).
  split; [exact He|]. split.
  - exact (proj1 (proj2 (Accept_error two_users _ close_overtakes overtaken _ [] overtaken _
      run_close_overtakes He eq_refl He))).
  - do 2 eexists. do 2 right. left.
Defined.
