(* ===== verification/Website.v ===== *)
(** * The website's view of TLS connections

    anytls.go: the map [websiteConns] from a connection handed to the website to its TLS
    state, filled by [prepareWebsiteConn], read by [websiteConnContext] when the HTTP server
    starts to serve the connection and emptied by [cleanupWebsiteConn]; website_conn.go:
    [tlsStateConn].  The HTTP server's steps are interleaved with those of the listener. *)

From S2P Require Import Prelude GoErrors Conn Wrapper Detector Arrival Routing Listener.

Local Open Scope Z_scope.

(** The struct [tlsStateConn]; connections are numbered as in Listener.v. *)
Record tlsStateConn := mkTlsStateConn { ts_Conn : nat; ts_state : Z }.

(** [tlsStateConn.ConnectionState] *)
Definition tlsStateConn_ConnectionState (c : tlsStateConn) : Z := ts_state c.

(** buffered_conn.go, [bufferedConn.ConnectionState]: that of the connection underneath, which
    [inner] gives if it has the method, else the zero state [zero]. *)
Definition bufferedConn_ConnectionState (zero : Z) (inner : option Z) : Z := default zero inner.

(** [http.ConnState] *)
Inductive ConnState := StateNew | StateActive | StateIdle | StateHijacked | StateClosed.

(** anytls.go, [websiteConnContext]: the value of [ConnCtxKey] in the context returned, for
    a context with the value [ctx]. *)
Definition websiteConnContext (websiteConns : gmap nat tlsStateConn) (ctx : option tlsStateConn)
    (conn : nat) : option tlsStateConn :=
  match websiteConns !! conn with
  | None => ctx
  | Some shadowConn => Some shadowConn
  end.

(** anytls.go, [cleanupWebsiteConn]. *)
Definition cleanupWebsiteConn (websiteConns : gmap nat tlsStateConn) (conn : nat) (state : ConnState)
    : gmap nat tlsStateConn :=
  match state with
  | StateClosed | StateHijacked => delete conn websiteConns
  | _ => websiteConns
  end.

(** The calls of [websiteConns.Store] in the classification of connection [conn]. *)
Definition stores (conn : nat) (evs : list route_event) : list (nat * tlsStateConn) :=
  omap (fun e => match e with RouteStoreState st => Some (conn, mkTlsStateConn conn st) | _ => None end) evs.

(** [websiteConns] after these calls. *)
Definition store_all (stored : list (nat * tlsStateConn)) (websiteConns : gmap nat tlsStateConn)
    : gmap nat tlsStateConn :=
  foldl (fun m kv => <[fst kv := snd kv]> m) websiteConns stored.

(** The listener, the map, and the connections the HTTP server is done with. *)
Record websiteState := mkWebsite {
  ws_listener : listenerState;
  websiteConns : gmap nat tlsStateConn;
  ws_finished : gset nat
}.

#[export] Instance Eta_websiteState : Eta websiteState := record_eta (
  fun s => mkWebsite (ws_listener s) (websiteConns s) (ws_finished s)).

(** A step of the listener, or a call of the [ConnState] hook by the HTTP server. *)
Inductive website_action :=
| ListenerActs (act : listener_action)
| ServerState (conn : nat) (state : ConnState).

Definition is_handoff (conn : nat) (p : goroutine) : bool :=
  match p with Handoff i => (i =? conn)%nat | _ => false end.

(** [conn] was returned by [Accept]. *)
Definition is_returned (conn : nat) (p : goroutine) : bool :=
  match p with AcceptReturned (Ok i) => (i =? conn)%nat | _ => false end.

Section Website.
Context {D : Type} `{Detector D} (c : Config) (detector : D).

(** What a step of the listener stores. *)
Definition listener_stores (act : listener_action) (s : listenerState) : list (nat * tlsStateConn) :=
  match act with
  | Classified i active =>
      match ls_procs s !! i with
      | Some (Classify conn id) =>
          match ls_conns s !! conn with
          | Some a => stores conn (snd (classifyAcceptedConn c detector active id a))
          | None => []
          end
      | _ => []
      end
  | _ => []
  end.

(** The HTTP server calls the hook for connections it accepted, up to one of the terminal
    states [StateClosed] and [StateHijacked]. *)
Definition website_step (act : website_action) (s : websiteState) : option websiteState :=
  match act with
  | ListenerActs act =>
      match listener_step c detector act (ws_listener s) with
      | Some l =>
          Some (s <| ws_listener := l |>
                  <| websiteConns := store_all (listener_stores act (ws_listener s)) (websiteConns s) |>)
      | None => None
      end
  | ServerState conn state =>
      if existsb (is_returned conn) (ls_procs (ws_listener s)) && negb (bool_decide (conn ∈ ws_finished s))
      then Some (s <| websiteConns := cleanupWebsiteConn (websiteConns s) conn state |>
                   <| ws_finished := match state with
                                     | StateClosed | StateHijacked => {[conn]} ∪ ws_finished s
                                     | _ => ws_finished s
                                     end |>)
      else None
  end.

Definition website_run : list website_action -> websiteState -> option websiteState := run website_step.

End Website.

Definition website_start : websiteState := mkWebsite listener_start ∅ ∅.

(** ** Lemmas *)

(** The TLS state classification stores for a connection it hands to the website. *)
Definition tls_state_of (a : acceptedConn) : option Z :=
  match a with AcceptedTLS t => Some (tls_state t) | AcceptedPlain _ => None end.

Lemma stores_logs conn l : stores conn [RouteLog l] = [].
Proof. done. Qed.

(** A connection's state is stored exactly when it is handed to the website. *)
Lemma classify_stores `{Detector D} c (detector : D) active id conn k w err active' evs :
  nc_deadline (raw_conn conn) = None ->
  classifyAcceptedConn c detector active id conn = (w, err, active', evs) ->
  stores k evs = match w, tls_state_of conn with
                 | Some _, Some st => [(k, mkTlsStateConn k st)]
                 | _, _ => []
                 end.
Proof.
  intros Hd. unfold classifyAcceptedConn.
  destruct conn as [t|n].
  - destruct (handshakeTLSConn c t) as [[e|] n]; [by intros [= <- _ _ <-]|].
    destruct (classifyBufferedConn c detector (newBufferedConn n)) as [[d err1] b] eqn:Hcl.
    assert (bounded (newBufferedConn n)) as Hb by (unfold bounded; simpl; lia).
    pose proof (routeBufferedConn_cases c detector active id _ _ d err1 b
      (handback_prepare (Some (tls_state t))) Hb Hcl) as Hr. intros Heq.
    destruct Hr as [w1 before evs1 _ _ Hw [l ->]|l a _|l a _ _ _]; simplify_eq/=; [|done..].
    unfold prepareWebsiteConn in Hw. destruct (bufferedConn_BufferedBytes b) as [[p|e] b1]; simplify_eq/=. done.
  - destruct (classifyBufferedConn c detector (newBufferedConn n)) as [[d err1] b] eqn:Hcl.
    assert (bounded (newBufferedConn n)) as Hb by (unfold bounded; simpl; lia).
    pose proof (routeBufferedConn_cases c detector active id _ _ d err1 b handback_plain Hb Hcl) as Hr.
    intros Heq. destruct Hr as [w1 before evs1 _ _ Hw [l ->]|l a _|l a _ _ _]; by simplify_eq/=.
Qed.

(** *** Who has a connection *)

Definition is_probing (conn : nat) (p : goroutine) : bool :=
  match p with Probe i | Classify i _ => (i =? conn)%nat | _ => false end.

Lemma holds_split conn (l : list goroutine) :
  countb (is_probing conn) l + countb (is_handoff conn) l + countb (is_returned conn) l =
  countb (holds conn) l.
Proof.
  induction l as [|p l IH]; simpl; [lia|].
  assert ((if is_probing conn p then 1 else 0) + (if is_handoff conn p then 1 else 0) +
          (if is_returned conn p then 1 else 0) = (if holds conn p then 1 else 0)); [|lia].
  unfold is_probing, is_handoff, is_returned, holds. repeat case_match; simplify_eq/=; lia.
Qed.

(** Connection [k] is on its way to the HTTP server, or with it. *)
Definition at_website (k : nat) (s : listenerState) : Z :=
  countb (is_handoff k) (ls_procs s) + countb (is_returned k) (ls_procs s).

(** What a step does to it: nothing; it becomes a connection for the website, whose TLS
    state is stored; the server gets it; or shutdown closes it. *)
Inductive website_move (k : nat) (s s' : listenerState) (stored : list (nat * tlsStateConn)) : Prop :=
| move_none :
    countb (is_handoff k) (ls_procs s') = countb (is_handoff k) (ls_procs s) ->
    countb (is_returned k) (ls_procs s') = countb (is_returned k) (ls_procs s) ->
    (forall st, (k, st) ∉ stored) -> website_move k s s' stored
| move_classified a :
    ls_conns s !! k = Some a -> at_website k s = 0 -> at_website k s' = 1 ->
    countb (is_returned k) (ls_procs s') = 0 ->
    stored = match tls_state_of a with Some st => [(k, mkTlsStateConn k st)] | None => [] end ->
    website_move k s s' stored
| move_accepted :
    countb (is_handoff k) (ls_procs s') + 1 = countb (is_handoff k) (ls_procs s) ->
    countb (is_returned k) (ls_procs s') = countb (is_returned k) (ls_procs s) + 1 ->
    stored = [] -> website_move k s s' stored
| move_dropped :
    countb (is_handoff k) (ls_procs s') + 1 = countb (is_handoff k) (ls_procs s) ->
    countb (is_returned k) (ls_procs s') = countb (is_returned k) (ls_procs s) ->
    ConnClosed k ∈ ls_ends s' -> done (ls_wl s') = true ->
    stored = [] -> website_move k s s' stored.

Lemma classified_move `{Detector D} c (detector : D) i active s conn id a k :
  places_inv s -> ls_procs s !! i = Some (Classify conn id) -> ls_conns s !! conn = Some a ->
  let '(ends, p) := on_classified c detector active conn id a in
  website_move k s (set_proc i p (s <| ls_ends := ls_ends s ++ ends |>))
    (stores conn (snd (classifyAcceptedConn c detector active id a))).
Proof.
  intros [Hf Hone] Hi Ha. specialize (Hone k). pose proof (holds_split k (ls_procs s)) as Hsplit.
  pose proof (Forall_lookup_1 _ _ _ _ Hf Ha) as Hd. simpl in Hd. unfold on_classified.
  destruct (classifyAcceptedConn c detector active id a) as [[[w err] active'] evs] eqn:Hcl.
  destruct (classifyAcceptedConn_goes _ _ _ _ _ _ _ _ _ Hd Hcl) as [-> _].
  pose proof (classify_stores _ _ _ _ _ conn _ _ _ _ Hd Hcl) as Hst. cbn [snd]. rewrite Hst.
  destruct w as [w|].
  - destruct (Nat.eqb_spec conn k) as [->|Hne].
    + assert (1 <= countb (is_probing k) (ls_procs s)) as Hpr
        by (eapply countb_lookup; [exact Hi|simpl; by rewrite Nat.eqb_refl]).
      pose proof (countb_nonneg (end_of k) (ls_ends s)) as He.
      pose proof (countb_nonneg (is_handoff k) (ls_procs s)). pose proof (countb_nonneg (is_returned k) (ls_procs s)).
      assert (k <? length (ls_conns s) = true)%nat as Hlt
        by (apply Nat.ltb_lt; by eapply lookup_lt_Some).
      rewrite Hlt in Hone.
      apply (move_classified _ _ _ _ a); unfold at_website; simpl; count_procs; simpl;
        rewrite ?Nat.eqb_refl; [done|lia..|done].
    + apply move_none; simpl; count_procs; simpl; [|lia|].
      * apply Nat.eqb_neq in Hne. rewrite Hne. lia.
      * intros st. destruct (tls_state_of a); [|apply not_elem_of_nil].
        intros [= -> _]%list_elem_of_singleton. done.
  - apply move_none; simpl; count_procs; simpl; [lia..|intros st; apply not_elem_of_nil].
Qed.

Lemma listener_step_move `{Detector D} c (detector : D) act s s' k :
  places_inv s -> listener_step c detector act s = Some s' ->
  website_move k s s' (listener_stores c detector act s).
Proof.
  intros Hpl Hstep. listener_cases Hstep.
  all: try (apply move_none; simpl; [count_procs; simpl; lia..|by intros st ?%not_elem_of_nil]).
  - match goal with Hcl : on_classified _ _ _ ?conn ?id ?a = _, Hi : _ !! _ = Some (Classify _ _), Ha : ls_conns _ !! _ = _ |- _ =>
      pose proof (classified_move c detector i active s conn id a k Hpl Hi Ha) as Hm;
      rewrite Hcl in Hm; rewrite Hi, Ha; exact Hm
    end.
  - destruct (Nat.eqb_spec conn k) as [->|Hne%Nat.eqb_neq].
    + apply move_accepted; simpl; [count_procs; simpl; rewrite ?Nat.eqb_refl; lia..|done].
    + apply move_none; simpl; [count_procs; simpl; rewrite ?Hne; lia..|by intros st ?%not_elem_of_nil].
  - destruct (Nat.eqb_spec conn k) as [->|Hne%Nat.eqb_neq].
    + apply move_dropped; simpl; [count_procs; simpl; rewrite ?Nat.eqb_refl; lia..| |done|done].
      apply elem_of_app. right. by left.
    + apply move_none; simpl; [count_procs; simpl; rewrite ?Hne; lia..|by intros st ?%not_elem_of_nil].
Qed.

(** *** The map *)

(** The connections, the ends and [done] of the listener only grow. *)
Lemma listener_grows `{Detector D} c (detector : D) act s s' :
  listener_step c detector act s = Some s' ->
  ls_conns s `prefix_of` ls_conns s' /\ (forall e, e ∈ ls_ends s -> e ∈ ls_ends s') /\
  (done (ls_wl s) = true -> done (ls_wl s') = true).
Proof.
  intros Hstep. listener_cases Hstep; split_and!; try done;
    try (by apply prefix_app_r); intros e He; apply elem_of_app; by left.
Qed.

Lemma stored_other k (stored : list (nat * tlsStateConn)) m :
  (forall st, (k, st) ∉ stored) -> store_all stored m !! k = m !! k.
Proof.
  unfold store_all. revert m. induction stored as [|[k' v] stored IH]; intros m Hk; [done|]. cbn [foldl fst snd].
  rewrite IH; [|intros st Hin; apply (Hk st); by right].
  rewrite lookup_insert_ne; [done|]. intros ->. apply (Hk v). by left.
Qed.

(** An entry is the state of its connection; the connections at the website that are not
    finished have theirs; an entry without such a connection was dropped at shutdown. *)
Record website_inv (s : websiteState) : Prop := {
  wi_places : places_inv (ws_listener s);
  wi_state : forall k v, websiteConns s !! k = Some v ->
    exists a, ls_conns (ws_listener s) !! k = Some a /\ tls_state_of a = Some (ts_state v) /\ ts_Conn v = k;
  wi_there : forall k a st, 0 < at_website k (ws_listener s) -> k ∉ ws_finished s ->
    ls_conns (ws_listener s) !! k = Some a -> tls_state_of a = Some st -> is_Some (websiteConns s !! k);
  wi_only : forall k, is_Some (websiteConns s !! k) ->
    (k ∉ ws_finished s /\ 0 < at_website k (ws_listener s)) \/
    (ConnClosed k ∈ ls_ends (ws_listener s) /\ done (ls_wl (ws_listener s)) = true);
  wi_finished : forall k, k ∈ ws_finished s -> 0 < countb (is_returned k) (ls_procs (ws_listener s))
}.

Lemma at_website_bound k s : places_inv s -> 0 < at_website k s ->
  at_website k s = 1 /\ (k < length (ls_conns s))%nat.
Proof.
  intros [_ Hone] Hat. specialize (Hone k). pose proof (holds_split k (ls_procs s)) as Hsplit.
  pose proof (countb_nonneg (is_probing k) (ls_procs s)). pose proof (countb_nonneg (end_of k) (ls_ends s)).
  unfold at_website in *. destruct (Nat.ltb_spec k (length (ls_conns s))); [split; [lia|done]|lia].
Qed.

Lemma at_website_nonneg k s :
  0 <= countb (is_handoff k) (ls_procs s) /\ 0 <= countb (is_returned k) (ls_procs s).
Proof. split; apply countb_nonneg. Qed.

Lemma website_listener_step `{Detector D} c (detector : D) act s l :
  fresh act -> listener_step c detector act (ws_listener s) = Some l -> website_inv s ->
  website_inv (s <| ws_listener := l |>
    <| websiteConns := store_all (listener_stores c detector act (ws_listener s)) (websiteConns s) |>).
Proof.
  intros Hfr Hstep [Hpl Hst Hth Hon Hfi].
  pose proof (fun k => listener_step_move c detector act _ _ k Hpl Hstep) as Hmove.
  pose proof (places_inv_step c detector act _ _ Hfr Hstep Hpl) as Hpl'.
  destruct (listener_grows _ _ _ _ _ Hstep) as (Hpre & Hends & Hdone).
  set (stored := listener_stores c detector act (ws_listener s)) in *. clearbody stored.
  assert (Hkeep : forall k a, ls_conns (ws_listener s) !! k = Some a -> ls_conns l !! k = Some a)
    by (intros k a Hk; by eapply prefix_lookup_Some).
  assert (Hback : forall k a, 0 < at_website k (ws_listener s) -> ls_conns l !! k = Some a ->
                    ls_conns (ws_listener s) !! k = Some a).
  { intros k a [_ Hlt]%at_website_bound Ha; [|done].
    apply lookup_lt_is_Some in Hlt as [a' Ha']. pose proof (Hkeep _ _ Ha'). congruence. }
  split; simpl; [done|intros k v Hv|intros k a st Hat Hnf Ha Htls|intros k Hk|intros k Hk];
    destruct (Hmove k) as [Hh Hr Hno|a0 Ha0 Hat0 Hat1 Hr1 Heq|Hh Hr Heq|Hh Hr Hend Hd Heq];
    pose proof (at_website_nonneg k (ws_listener s)); unfold at_website in *;
    try (rewrite stored_other in * by done); try (rewrite Heq in * ); unfold store_all in *; simpl in *.
  - destruct (Hst k v Hv) as (a & Ha & ? & ?). eauto.
  - destruct (tls_state_of a0) as [st|] eqn:Htls; simpl in Hv.
    + rewrite lookup_insert_eq in Hv. simplify_eq/=. eauto.
    + destruct (Hst k v Hv) as (a & Ha & ? & ?). eauto.
  - destruct (Hst k v Hv) as (a & Ha & ? & ?). eauto.
  - destruct (Hst k v Hv) as (a & Ha & ? & ?). eauto.
  - apply (Hth k a st); [lia|done|apply Hback; [lia|done]|done].
  - rewrite (Hkeep _ _ Ha0) in Ha. simplify_eq. rewrite Htls. simpl. by rewrite lookup_insert_eq.
  - apply (Hth k a st); [lia|done|apply Hback; [lia|done]|done].
  - destruct (at_website_bound k (ws_listener s) Hpl); unfold at_website in *; lia.
  - destruct (Hon k Hk) as [[? ?]|[? ?]]; [left; split; [done|lia]|right; auto].
  - left. split; [intros Hin%Hfi; lia|lia].
  - destruct (Hon k Hk) as [[? ?]|[? ?]]; [left; split; [done|lia]|right; auto].
  - right. auto.
  - specialize (Hfi k Hk). lia.
  - specialize (Hfi k Hk). lia.
  - specialize (Hfi k Hk). lia.
  - specialize (Hfi k Hk). lia.
Qed.

Lemma website_server_step `{Detector D} c (detector : D) conn state s s' :
  website_step c detector (ServerState conn state) s = Some s' -> website_inv s -> website_inv s'.
Proof.
  simpl. destruct (existsb (is_returned conn) _) eqn:Hret; [|done].
  case_bool_decide as Hnf; [done|]. intros [= <-] [Hpl Hst Hth Hon Hfi].
  apply existsb_true in Hret as (p & Hin & Hp). apply list_elem_of_lookup in Hin as [i Hi].
  pose proof (countb_lookup _ _ _ _ Hi Hp) as Hpos.
  destruct state; simpl; try by split.
  all: split; simpl; [done|intros k v Hv|intros k a st Hat Hk Ha Htls|intros k Hk|intros k Hk].
  all: try (apply lookup_delete_Some in Hv as [_ Hv]; by apply Hst).
  all: try (apply not_elem_of_union in Hk as [Hne%not_elem_of_singleton Hk];
            rewrite lookup_delete_ne by done; by eapply Hth).
  all: try (destruct (decide (conn = k)) as [->|Hne]; [by rewrite lookup_delete_eq in Hk; destruct Hk|];
            rewrite lookup_delete_ne in Hk by done; destruct (Hon k Hk) as [[? ?]|?]; [left|by right];
            split; [set_solver|done]).
  all: apply elem_of_union in Hk as [->%elem_of_singleton|Hk]; [lia|by apply Hfi].
Qed.

Definition website_fresh (act : website_action) : Prop :=
  match act with ListenerActs act => fresh act | ServerState _ _ => True end.

Lemma reachable_website `{Detector D} c (detector : D) acts s :
  Forall website_fresh acts -> website_run c detector acts website_start = Some s -> website_inv s.
Proof.
  intros Hg Hr. eapply (run_inv _ website_fresh); [|exact Hg|exact Hr|].
  - intros [act|conn state] s1 s2 Hact Hstep Hinv; [|by eapply website_server_step].
    simpl in Hstep. destruct (listener_step c detector act (ws_listener s1)) as [l|] eqn:Hl; [|done].
    injection Hstep as <-. by apply website_listener_step.
  - split; simpl; [split; simpl; [apply Forall_nil_2|done]|..].
    + intros k v Hv. by rewrite lookup_empty in Hv.
    + intros k a st Hat. by unfold at_website in Hat.
    + intros k [v Hv]. by rewrite lookup_empty in Hv.
    + intros k Hk. by apply not_elem_of_empty in Hk.
Qed.

Lemma countb_returned k (l : list goroutine) :
  0 < countb (is_returned k) l <-> AcceptReturned (Ok k) ∈ l.
Proof.
  split.
  - intros (i & p & Hi & Hp)%countb_pos. destruct p as [| |[j|]| | | | | | | | | | | |]; try done.
    simpl in Hp. apply Nat.eqb_eq in Hp as ->. by eapply list_elem_of_lookup_2.
  - intros [i Hi]%list_elem_of_lookup.
    pose proof (countb_lookup (is_returned k) l i _ Hi) as Hc. simpl in Hc. rewrite Nat.eqb_refl in Hc.
    specialize (Hc eq_refl). lia.
Qed.

(** C26.  The website sees every TLS connection with the TLS state of its own handshake: while
    the HTTP server has a connection that [Accept] returned, the context of its requests
    carries the state of that connection, and for a plain connection it is left alone.
    The map holds nothing else but the states of connections about to be returned, and of
    those that shutdown closed before anybody accepted them. *)
Theorem website_tls_state `{Detector D} c (detector : D) acts s k ctx :
  Forall website_fresh acts -> website_run c detector acts website_start = Some s ->
  (AcceptReturned (Ok k) ∈ ls_procs (ws_listener s) -> k ∉ ws_finished s ->
   exists a, ls_conns (ws_listener s) !! k = Some a /\
     tlsStateConn_ConnectionState <$> websiteConnContext (websiteConns s) None k = tls_state_of a /\
     (tls_state_of a = None -> websiteConnContext (websiteConns s) ctx k = ctx)) /\
  (is_Some (websiteConns s !! k) ->
   (k ∉ ws_finished s /\ 0 < at_website k (ws_listener s)) \/
   (ConnClosed k ∈ ls_ends (ws_listener s) /\ done (ls_wl (ws_listener s)) = true)).
Proof.
  intros Hf Hr. destruct (reachable_website c detector acts s Hf Hr) as [Hpl Hst Hth Hon Hfi].
  split; [|apply Hon]. intros Hin Hnf. apply countb_returned in Hin.
  assert (Hat : 0 < at_website k (ws_listener s)).
  { pose proof (at_website_nonneg k (ws_listener s)). unfold at_website. lia. }
  destruct (at_website_bound k _ Hpl Hat) as [_ [a Ha]%lookup_lt_is_Some].
  exists a. split; [done|]. unfold websiteConnContext. destruct (websiteConns s !! k) as [v|] eqn:Hv.
  - destruct (Hst k v Hv) as (a' & Ha' & Htls & _). rewrite Ha in Ha'. simplify_eq. by rewrite Htls.
  - split; [|done]. destruct (tls_state_of a) as [st|] eqn:Htls; [|done].
    destruct (Hth k a st Hat Hnf Ha Htls). congruence.
Qed.

(** *** Witness: a browser that is being served, and one that shutdown closes. *)

Definition two_browsers : list website_action :=
  [ListenerActs CallAccept; ListenerActs (Continue 0);
   ListenerActs (InnerAccept 0 (Ok (tls_client browser_hello))); ListenerActs (Continue 0);
   ListenerActs (InnerAccept 0 (Ok (tls_client browser_hello))); ListenerActs (Continue 2);
   ListenerActs (Classified 2 0); ListenerActs (Continue 3); ListenerActs (Classified 3 0);
   ListenerActs (Rendezvous 2 1); ServerState 0 StateNew; ListenerActs CallClose;
   ListenerActs (Continue 4); ListenerActs (Continue 4); ListenerActs (Continue 4);
   ListenerActs (SeeDone 3)].

Definition browsers : websiteState :=
  default website_start
    (website_run two_users (NewPasswordHashDetector (Users two_users)) two_browsers website_start).

Lemma browsers_reached :
  website_run two_users (NewPasswordHashDetector (Users two_users)) two_browsers website_start =
  Some browsers.
Proof. vm_compute. reflexivity. Qed.

Lemma website_tls_state_witness :
  AcceptReturned (Ok 0%nat) ∈ ls_procs (ws_listener browsers) /\
  (exists a, ls_conns (ws_listener browsers) !! 0%nat = Some a /\
     tlsStateConn_ConnectionState <$> websiteConnContext (websiteConns browsers) None 0 = tls_state_of a /\
     (tls_state_of a = None -> websiteConnContext (websiteConns browsers) None 0 = None)) /\
  ConnClosed 1 ∈ ls_ends (ws_listener browsers).
Proof.
  assert (Hf : Forall website_fresh two_browsers) by (repeat constructor).
  destruct (website_tls_state two_users (NewPasswordHashDetector (Users two_users)) two_browsers browsers
    0 None Hf browsers_reached) as [Hserved _].
  assert (Hret : AcceptReturned (Ok 0%nat) ∈ ls_procs (ws_listener browsers))
    by (vm_compute; right; left).
  split; [exact Hret|]. split; [|vm_compute; left].
  apply (Hserved Hret). vm_compute. done.
Defined.

(** The state of a connection that shutdown closed stays in the map. *)
Lemma dropped_state_stays : websiteConns browsers !! 1%nat = Some (mkTlsStateConn 1 7).
Proof. vm_compute. reflexivity. Qed.
