(* ===== verification/Session.v ===== *)
(** * Sessions and the idle timeout

    listener.go, [serveAnyTLS] and [idleTimeoutConn]: the goroutine of one AnyTLS session,
    from the wrapped connection to the deferred clean-up, and the timer that closes a
    connection on which nothing was read or written for [IdleTimeout].  The methods of
    the connection and the timer's goroutines interleave at the mutex, the timer and
    the calls of the connection underneath. *)

From S2P Require Import Prelude GoErrors Wrapper Registry Limits Routing.

Local Open Scope Z_scope.

(** ** The idle timeout *)

(** The struct [idleTimeoutConn] and what surrounds it: the clock; when the timer is due,
    if it is armed; the goroutines that were started by the timer and have not entered
    [expire], that moved bytes and have not entered [touch], and that set [closed] and
    have yet to close the connection underneath; how often that was closed. *)
Record idleTimeoutConn := mkIdle {
  ic_timeout : Z;
  ic_now : Z;
  ic_timer : option Z;
  ic_closed : bool;
  ic_lastActivity : Z;
  ic_expiring : Z;
  ic_touching : Z;
  ic_closing : Z;
  ic_conn_closes : Z
}.

#[export] Instance Eta_idleTimeoutConn : Eta idleTimeoutConn := record_eta (
  fun i => mkIdle (ic_timeout i) (ic_now i) (ic_timer i) (ic_closed i) (ic_lastActivity i)
    (ic_expiring i) (ic_touching i) (ic_closing i) (ic_conn_closes i)).

(** listener.go, [newIdleTimeoutConn] for a positive [timeout], at time [now]. *)
Definition new_idle (timeout now : Z) : idleTimeoutConn :=
  mkIdle timeout now (Some (now + timeout)) false now 0 0 0 0.

(** [c.timer.Reset(d)] *)
Definition timer_Reset (d : Z) (i : idleTimeoutConn) : idleTimeoutConn :=
  i <| ic_timer := Some (ic_now i + d) |>.

(** The end of [Read] and [Write]: [n] bytes were moved. *)
Definition transferred (n : Z) (i : idleTimeoutConn) : idleTimeoutConn :=
  if 0 <? n then i <| ic_touching := ic_touching i + 1 |> else i.

(** listener.go, [touch]. *)
Definition touch (i : idleTimeoutConn) : idleTimeoutConn :=
  if negb (ic_closed i) then timer_Reset (ic_timeout i) (i <| ic_lastActivity := ic_now i |>) else i.

(** listener.go, [expire] up to [c.Conn.Close()]. *)
Definition expire (i : idleTimeoutConn) : idleTimeoutConn :=
  if ic_closed i then i
  else
    let idleFor := ic_now i - ic_lastActivity i in
    if idleFor <? ic_timeout i then timer_Reset (ic_timeout i - idleFor) i
    else i <| ic_closed := true |> <| ic_closing := ic_closing i + 1 |>.

(** listener.go, [Close] up to [c.Conn.Close()]; [true]: it returns [net.ErrClosed]
    instead. *)
Definition idle_Close (i : idleTimeoutConn) : bool * idleTimeoutConn :=
  if ic_closed i then (true, i)
  else (false, i <| ic_closed := true |> <| ic_timer := None |> <| ic_closing := ic_closing i + 1 |>).

(** One step: time passes; a [Read] or [Write] moves bytes; a goroutine enters [touch]; the
    timer starts a goroutine; one enters [expire]; somebody calls [Close]; the
    connection underneath is closed. *)
Inductive idle_action :=
| Elapse (d : Z)
| Transfer (n : Z)
| Touch
| TimerExpires
| Expire
| CallIdleClose
| CloseConn.

Definition idle_step (act : idle_action) (i : idleTimeoutConn) : option idleTimeoutConn :=
  match act with
  | Elapse d => if 0 <=? d then Some (i <| ic_now := ic_now i + d |>) else None
  | Transfer n => Some (transferred n i)
  | Touch =>
      if 0 <? ic_touching i then Some (touch (i <| ic_touching := ic_touching i - 1 |>)) else None
  | TimerExpires =>
      match ic_timer i with
      | Some t =>
          if t <=? ic_now i
          then Some (i <| ic_timer := None |> <| ic_expiring := ic_expiring i + 1 |>) else None
      | None => None
      end
  | Expire =>
      if 0 <? ic_expiring i then Some (expire (i <| ic_expiring := ic_expiring i - 1 |>)) else None
  | CallIdleClose => Some (snd (idle_Close i))
  | CloseConn =>
      if 0 <? ic_closing i
      then Some (i <| ic_closing := ic_closing i - 1 |> <| ic_conn_closes := ic_conn_closes i + 1 |>)
      else None
  end.

(** ** The session *)

(** The connection the service gets: the connection itself, with the number of times it
    was closed, or the one with the timeout. *)
Inductive sessionConn := RawConn (closes : Z) | IdleConn (i : idleTimeoutConn).

(** listener.go, [newIdleTimeoutConn]. *)
Definition newIdleTimeoutConn (timeout now : Z) : sessionConn :=
  if timeout <=? 0 then RawConn 0 else IdleConn (new_idle timeout now).

(** [conn.Close()], the call on the connection underneath included. *)
Definition session_Close (conn : sessionConn) : sessionConn :=
  match conn with
  | RawConn closes => RawConn (closes + 1)
  | IdleConn i =>
      let '(refused, i) := idle_Close i in
      IdleConn (if refused then i
                else i <| ic_closing := ic_closing i - 1 |> <| ic_conn_closes := ic_conn_closes i + 1 |>)
  end.

(** What [service.NewConnection] does until it returns: the calls of its close handler, the
    shared state it and everybody else leave behind, the connection, and its error. *)
Record serviceRun := mkServiceRun {
  sr_onClose : list (option error);
  sr_shared : Shared;
  sr_conn : sessionConn;
  sr_err : option error
}.

Inductive session_event := SessionLog (l : log_entry) | SessionCancelled.

(** [err != nil && !errors.Is(err, io.EOF)] *)
Definition real_error (err : option error) : bool :=
  match err with Some e => negb (errors_Is e io_EOF) | None => false end.

(** The close handler [serveAnyTLS] passes to the service. *)
Definition session_closed (err : option error) : session_event :=
  SessionLog (mkLog DebugLevel "anytls session closed"
    (if real_error err
     then [("event", "anytls_session"); ("outcome", "error"); ("reason", "session_error")]
     else [("event", "anytls_session"); ("outcome", "closed")])).

(** listener.go, [serveAnyTLS]: [conn] and [cancel] name the connection and the context; the
    deferred calls run last to first. *)
Definition serveAnyTLS (c : Config) (NewConnection : Z -> Shared -> sessionConn -> serviceRun)
    (connectionID conn cancel now : Z) (s : Shared) : Shared * sessionConn * list session_event :=
  let sc := newIdleTimeoutConn (IdleTimeout c) now in
  let s := s <| sh_sessions := registerSession connectionID conn cancel now (sh_sessions s) |> in
  let r := NewConnection connectionID s sc in
  let finished :=
    if real_error (sr_err r)
    then [SessionLog (mkLog DebugLevel "anytls session finished"
           [("event", "anytls_session"); ("outcome", "finished"); ("reason", "service_returned_error")])]
    else [] in
  let sc := session_Close (sr_conn r) in
  let s := sr_shared r in
  let s := s <| sh_sessions := unregisterSession connectionID (sh_sessions s) |> in
  let s := s <| sh_active := release (MaxConcurrent c) (sh_active s) |> in
  (s, sc, (session_closed <$> sr_onClose r) ++ finished ++ [SessionCancelled]).

(** *** Its invariant *)

(** While it is open, the timer is armed for exactly when the timeout will be over, or a
    goroutine it started is on its way; once closed, the connection underneath is
    closed once. *)
Record idle_inv (i : idleTimeoutConn) : Prop := {
  idle_clock : ic_lastActivity i <= ic_now i;
  idle_timer : forall t, ic_timer i = Some t -> t = ic_lastActivity i + ic_timeout i;
  idle_armed : ic_closed i = false -> ic_timer i <> None \/ 0 < ic_expiring i;
  idle_counts : 0 <= ic_expiring i /\ 0 <= ic_touching i /\ 0 <= ic_closing i /\ 0 <= ic_conn_closes i;
  idle_closes : ic_closing i + ic_conn_closes i = (if ic_closed i then 1 else 0)
}.

Lemma new_idle_inv timeout now : idle_inv (new_idle timeout now).
Proof. split; simpl; try done; try lia. - intros t [= <-]. lia. - by left. Qed.

Lemma idle_inv_step act i i' : idle_step act i = Some i' -> idle_inv i -> idle_inv i'.
Proof.
  intros Hstep [Hn Ht Ha (H1 & H2 & H3 & H4) Hc].
  destruct i as [timeout now timer closed last expiring touching closing closes]; simpl in *.
  destruct act; cbn in Hstep;
    unfold transferred, touch, expire, idle_Close, timer_Reset in Hstep; destruct closed; cbn in Hstep;
    repeat split_match Hstep; simplify_eq/=; repeat case_match; bools;
    split; simpl in *; try done; try lia;
    try (intros ? [= <-]; lia); auto with lia.
Qed.

(** ** Lemmas on runs *)

(** When bytes were last seen moving: the time of the last [touch], counted from [now]. *)
Fixpoint last_touch (now last : Z) (acts : list idle_action) : Z :=
  match acts with
  | [] => last
  | Elapse d :: acts => last_touch (now + d) last acts
  | Touch :: acts => last_touch now now acts
  | _ :: acts => last_touch now last acts
  end.

Lemma idle_step_touch act i i' :
  idle_step act i = Some i' ->
  ic_timeout i' = ic_timeout i /\ (ic_closed i' = false -> ic_closed i = false) /\
  (ic_closed i' = false -> forall acts,
     last_touch (ic_now i') (ic_lastActivity i') acts =
     last_touch (ic_now i) (ic_lastActivity i) (act :: acts)).
Proof.
  destruct i as [timeout now timer closed last expiring touching closing closes].
  destruct act; cbn; unfold transferred, touch, expire, idle_Close, timer_Reset; destruct closed; cbn;
    intros Hstep; repeat split_match Hstep; simplify_eq/=; repeat case_match; done.
Qed.

(** What closes an open connection. *)
Lemma idle_step_closes act i i' :
  idle_step act i = Some i' -> ic_closed i = false -> ic_closed i' = true ->
  act = CallIdleClose \/ act = Expire /\ ic_timeout i <= ic_now i - ic_lastActivity i.
Proof.
  destruct i as [timeout now timer closed last expiring touching closing closes].
  destruct act; cbn; unfold transferred, touch, expire, idle_Close, timer_Reset; destruct closed; cbn;
    intros Hstep Ho; try done; repeat split_match Hstep; simplify_eq/=; repeat case_match; bools; auto;
    done.
Qed.

Lemma idle_run_touch acts i i' :
  run idle_step acts i = Some i' ->
  ic_timeout i' = ic_timeout i /\
  (ic_closed i' = false ->
   ic_closed i = false /\ ic_lastActivity i' = last_touch (ic_now i) (ic_lastActivity i) acts).
Proof.
  revert i. induction acts as [|act acts IH]; cbn [run]; intros i; [by intros [= ->]|].
  destruct (idle_step act i) as [i1|] eqn:Hs; [|done]. intros Hr.
  destruct (idle_step_touch _ _ _ Hs) as (Ht & Ho & Hl). destruct (IH _ Hr) as [Ht' Hl'].
  split; [congruence|]. intros Hc. destruct (Hl' Hc) as [Hc1 ->]. auto.
Qed.

Lemma idle_run_inv timeout now acts i :
  run idle_step acts (new_idle timeout now) = Some i -> idle_inv i.
Proof.
  intros Hr. eapply (run_inv _ (fun _ => True) idle_inv); [|by apply Forall_true|exact Hr|].
  - intros act i1 i2 _. apply idle_inv_step.
  - apply new_idle_inv.
Qed.

(** *** Bytes and touches *)

Definition moves_bytes (act : idle_action) : bool :=
  match act with Transfer n => 0 <? n | _ => false end.
Definition is_touch (act : idle_action) : bool := match act with Touch => true | _ => false end.

(** When a [Read] or [Write] last moved bytes, counted like [last_touch]. *)
Fixpoint last_moved (now last : Z) (acts : list idle_action) : Z :=
  match acts with
  | [] => last
  | Elapse d :: acts => last_moved (now + d) last acts
  | Transfer n :: acts => last_moved now (if 0 <? n then now else last) acts
  | _ :: acts => last_moved now last acts
  end.

(** The time that passes in a run. *)
Fixpoint elapsed (acts : list idle_action) : Z :=
  match acts with
  | [] => 0
  | Elapse d :: acts => d + elapsed acts
  | _ :: acts => elapsed acts
  end.

(** Every [Read] and [Write] that moved bytes leads to one [touch], and no other does. *)
Lemma idle_run_touches acts i i' :
  run idle_step acts i = Some i' ->
  countb is_touch acts + ic_touching i' = countb moves_bytes acts + ic_touching i.
Proof.
  revert i. induction acts as [|act acts IH]; cbn [run countb]; intros i; [by intros [= ->]|].
  destruct (idle_step act i) as [i1|] eqn:Hs; [|done]. intros Hr. specialize (IH _ Hr).
  enough ((if is_touch act then 1 else 0) + ic_touching i1 =
          (if moves_bytes act then 1 else 0) + ic_touching i) by lia.
  destruct act; simpl in Hs; unfold transferred, touch, expire, idle_Close, timer_Reset in Hs;
    repeat split_match Hs; simplify_eq/=; repeat case_match; simpl in *; lia || done.
Qed.

Lemma idle_run_clock acts i i' :
  run idle_step acts i = Some i' -> ic_now i' = ic_now i + elapsed acts.
Proof.
  revert i. induction acts as [|act acts IH]; cbn [run elapsed]; intros i; [intros [= ->]; lia|].
  destruct (idle_step act i) as [i1|] eqn:Hs; [|done]. intros Hr. rewrite (IH _ Hr).
  destruct act; simpl in Hs; unfold transferred, touch, expire, idle_Close, timer_Reset in Hs;
    repeat split_match Hs; simplify_eq/=; repeat case_match; simpl in *; lia.
Qed.

(** Without a pending [touch] the last one is not older than the last bytes. *)
Lemma last_touch_moved acts i i' lt lm :
  run idle_step acts i = Some i' -> 0 <= ic_touching i -> lt <= ic_now i -> lm <= ic_now i ->
  (ic_touching i = 0 -> lm <= lt) -> ic_touching i' = 0 ->
  last_moved (ic_now i) lm acts <= last_touch (ic_now i) lt acts.
Proof.
  revert i lt lm. induction acts as [|act acts IH]; cbn [run]; intros i lt lm; [intros [= ->] **; simpl; auto|].
  destruct (idle_step act i) as [i1|] eqn:Hs; [|done]. intros Hr Hn Hlt Hlm Hle Hend.
  assert (Hnow : ic_now i <= ic_now i1) by
    (destruct act; simpl in Hs; unfold transferred, touch, expire, idle_Close, timer_Reset in Hs;
     repeat split_match Hs; simplify_eq/=; repeat case_match; bools; simpl in *; lia).
  assert (Hsame : (forall d, act <> Elapse d) -> ic_now i1 = ic_now i) by
    (intros Hne; destruct act; [by destruct (Hne d)|..]; simpl in Hs; unfold transferred, touch, expire, idle_Close, timer_Reset in Hs;
     repeat split_match Hs; simplify_eq/=; repeat case_match; simpl in *; congruence).
  pose proof (idle_run_touches [act] i i1) as Hcnt. cbn [run countb] in Hcnt. rewrite Hs in Hcnt.
  specialize (Hcnt eq_refl).
  destruct act; cbn [last_moved last_touch]; simpl in Hcnt;
    try (rewrite <- (Hsame ltac:(congruence)) in *; apply (IH i1); try done; try lia).
  - simpl in Hs. destruct (Z.leb_spec 0 d); [|done]. injection Hs as <-. apply (IH _ lt lm Hr); simpl; auto; lia.
  - destruct (Z.ltb_spec 0 n); lia.
  - destruct (Z.ltb_spec 0 n); lia.
  - destruct (Z.ltb_spec 0 n); lia.
  - simpl in Hs. destruct (Z.ltb_spec 0 (ic_touching i)); [lia|done].
Qed.

(** The steps the program takes by itself. *)
Definition idle_due (act : idle_action) : Prop :=
  match act with TimerExpires | Expire | CloseConn => True | _ => False end.

(** When they have all been taken, nobody is on the way to close the connection, and it is
    closed if its time is over. *)
Lemma idle_stuck i :
  idle_inv i -> (forall act, idle_due act -> idle_step act i = None) ->
  ic_closing i = 0 /\ (ic_lastActivity i + ic_timeout i <= ic_now i -> ic_closed i = true).
Proof.
  intros [Hn Ht Ha (H1 & H2 & H3 & H4) Hc] Hstuck.
  pose proof (Hstuck Expire I) as Hex. pose proof (Hstuck CloseConn I) as Hcl.
  pose proof (Hstuck TimerExpires I) as Htm. simpl in Hex, Hcl, Htm.
  destruct (Z.ltb_spec 0 (ic_expiring i)); [done|]. destruct (Z.ltb_spec 0 (ic_closing i)); [done|].
  split; [lia|]. intros Hlate. destruct (ic_closed i); [done|].
  destruct (Ha eq_refl) as [Harm|]; [|lia]. destruct (ic_timer i) as [t|]; [|done].
  rewrite (Ht t eq_refl) in Htm. destruct (Z.leb_spec (ic_lastActivity i + ic_timeout i) (ic_now i)); [done|lia].
Qed.

(** A run without bytes and without touches on their way touches nothing. *)
Lemma silent_run acts i i' :
  run idle_step acts i = Some i' -> countb moves_bytes acts = 0 -> ic_touching i = 0 -> idle_inv i' ->
  ic_closed i' = false -> ic_lastActivity i' = ic_lastActivity i.
Proof.
  intros Hr Hm Ht Hinv Ho. pose proof (idle_run_touches _ _ _ Hr) as Hcnt.
  pose proof (countb_nonneg is_touch acts). destruct (idle_counts _ Hinv) as (_ & ? & _).
  destruct (idle_run_touch _ _ _ Hr) as [_ Hl]. destruct (Hl Ho) as [_ ->].
  assert (Hz : countb is_touch acts = 0) by lia. clear -Hz.
  generalize (ic_now i). induction acts as [|act acts IH]; intros now; [done|].
  cbn [countb] in Hz. pose proof (countb_nonneg is_touch acts).
  destruct act; simpl in *; try lia; apply IH; lia.
Qed.

(** ** Properties *)

(** C12.  The idle timeout closes a connection when it should and only then.  Every [Read] or
    [Write] that moved bytes touches the connection once, and nothing else does.  Only a
    call of [Close] closes it, or the timer when the last touch is a whole timeout ago;
    if no touch is still on its way, so are the last bytes that moved.  When no bytes
    move for a whole timeout and the timer's goroutines have run, it is closed.  The
    connection underneath is closed at most once, exactly once in the end. *)
Theorem idle_timeout_exact timeout now acts i :
  run idle_step acts (new_idle timeout now) = Some i ->
  countb is_touch acts + ic_touching i = countb moves_bytes acts /\
  (forall act i', idle_step act i = Some i' -> ic_closed i = false -> ic_closed i' = true ->
     act = CallIdleClose \/
     act = Expire /\ timeout <= ic_now i - last_touch now now acts /\
     (ic_touching i = 0 -> timeout <= ic_now i - last_moved now now acts)) /\
  (forall silence i', ic_touching i = 0 -> run idle_step silence i = Some i' ->
     countb moves_bytes silence = 0 -> timeout <= elapsed silence ->
     (forall act, idle_due act -> idle_step act i' = None) -> ic_closed i' = true) /\
  ((forall act, idle_due act -> idle_step act i = None) ->
     (last_touch now now acts + timeout <= ic_now i -> ic_closed i = true) /\
     (ic_closed i = true -> ic_conn_closes i = 1)) /\
  ic_conn_closes i <= 1.
Proof.
  intros Hr. pose proof (idle_run_inv _ _ _ _ Hr) as Hinv.
  destruct (idle_run_touch _ _ _ Hr) as [Hto Hlast]. simpl in Hto, Hlast. subst timeout.
  pose proof (idle_counts _ Hinv) as (H1 & H2 & H3 & H4). pose proof (idle_closes _ Hinv) as Hc.
  pose proof (last_touch_moved _ _ _ now now Hr) as Hmoved. simpl in Hmoved. split_and!.
  - pose proof (idle_run_touches _ _ _ Hr) as Hcnt. simpl in Hcnt. lia.
  - intros act i' Hstep Ho Hcl. destruct (Hlast Ho) as [_ Heq].
    destruct (idle_step_closes act i i' Hstep Ho Hcl) as [?|[-> Hlate]]; [by left|right].
    rewrite <- Heq in *. split_and!; [done|done|]. intros Hz.
    specialize (Hmoved ltac:(lia) ltac:(lia) ltac:(lia) ltac:(lia) Hz). lia.
  - intros silence i' Ht Hr' Hm He Hstuck.
    assert (Hinv' : idle_inv i') by
      (eapply (idle_run_inv _ _ (acts ++ silence)); apply run_app; eauto).
    destruct (idle_stuck i' Hinv' Hstuck) as [_ Hend]. destruct (ic_closed i') eqn:Ho; [done|].
    apply Hend. rewrite (silent_run _ _ _ Hr' Hm Ht Hinv' Ho), (idle_run_clock _ _ _ Hr').
    destruct (idle_run_touch _ _ _ Hr') as [-> _]. pose proof (idle_clock _ Hinv). lia.
  - intros Hstuck. destruct (idle_stuck i Hinv Hstuck) as [Hz Hend]. split.
    + intros Hlate. destruct (ic_closed i) eqn:Ho; [done|]. destruct (Hlast eq_refl) as [_ Heq].
      apply Hend. by rewrite Heq.
    + intros Ho. rewrite Ho in Hc. lia.
  - destruct (ic_closed i); lia.
Qed.

(** C23.  A session's goroutine does to the shared state what the model of the limits says a
    connection does: it registers before the service runs, and afterwards unregisters and
    only then gives its slot back; by then its connection has been closed, once, whether
    by the service, the timeout or [serveAnyTLS], and its context is cancelled, whatever
    error the service returned. *)
Theorem serveAnyTLS_refines c NewConnection id s s' sc evs :
  (forall s1, exists acts, match sr_conn (NewConnection id s1 (newIdleTimeoutConn (IdleTimeout c) 0)) with
     | RawConn n => IdleTimeout c <= 0 <= n
     | IdleConn i => run idle_step acts (new_idle (IdleTimeout c) 0) = Some i
     end) ->
  serveAnyTLS c NewConnection id id id 0 s = (s', sc, evs) ->
  exists s1 s2,
    thread_step c s (ConnServing id) = Some (s1, ConnRegistered id) /\
    thread_step c (sr_shared (NewConnection id s1 (newIdleTimeoutConn (IdleTimeout c) 0)))
      (ConnRegistered id) = Some (s2, ConnUnregistered id) /\
    thread_step c s2 (ConnUnregistered id) = Some (s', Done) /\
    last evs = Some SessionCancelled /\
    match sc with
    | RawConn n => 1 <= n
    | IdleConn i => ic_closed i = true /\ ic_closing i + ic_conn_closes i = 1
    end.
Proof.
  intros Hservice Hserve. unfold serveAnyTLS in Hserve. simplify_eq.
  set (s1 := s <| sh_sessions := registerSession id id id 0 (sh_sessions s) |>).
  set (r := NewConnection id s1 _).
  do 2 eexists. split_and!; [reflexivity|reflexivity|reflexivity| |].
  - by rewrite app_assoc, last_snoc.
  - specialize (Hservice s1) as [acts Hconn]. fold r in Hconn.
    destruct (sr_conn r) as [n|i]; simpl; [lia|].
    destruct (idle_run_inv _ _ _ _ Hconn) as [_ _ _ _ Hc]. unfold idle_Close.
    destruct (ic_closed i) eqn:Hcl; simpl; [done|]. split; [done|lia].
Qed.

(** *** Witnesses *)

(** Bytes move at time 3, just as the first timer is about to go off; silence after that. *)
Definition quiet_client : list idle_action :=
  [Elapse 3; Transfer 10; Elapse 1; Touch; Elapse 5; TimerExpires; Expire; CloseConn].

Definition quiet_end : idleTimeoutConn := mkIdle 5 9 None true 4 0 0 0 1.

Definition quiet_before : list idle_action := take 4 quiet_client.
Definition quiet_after : list idle_action := drop 4 quiet_client.
Definition quiet_middle : idleTimeoutConn := mkIdle 5 4 (Some 9) false 4 0 0 0 0.

Lemma idle_timeout_exact_witness :
  run idle_step quiet_before (new_idle 5 0) = Some quiet_middle /\
  run idle_step quiet_after quiet_middle = Some quiet_end /\
  countb is_touch quiet_before + 0 = countb moves_bytes quiet_before /\
  ic_closed quiet_end = true.
Proof.
  split; [reflexivity|]. split; [reflexivity|].
  destruct (idle_timeout_exact 5 0 quiet_before quiet_middle eq_refl) as (Hcount & _ & Hsilent & _).
  split; [exact Hcount|].
  apply (Hsilent quiet_after quiet_end); [reflexivity|reflexivity|reflexivity|vm_compute; congruence|by intros []].
Defined.

(** A service that reads for a while and returns an error; the timeout is off. *)
Definition some_service (id : Z) (s : Shared) (conn : sessionConn) : serviceRun :=
  mkServiceRun [None] s conn (Some (errors_New "read: connection reset by peer")).

Lemma serveAnyTLS_refines_witness :
  exists s' sc evs s1 s2,
    serveAnyTLS zero_Config some_service 7 7 7 0 (sys_shared initial) = (s', sc, evs) /\
    thread_step zero_Config (sys_shared initial) (ConnServing 7) = Some (s1, ConnRegistered 7) /\
    thread_step zero_Config s2 (ConnUnregistered 7) = Some (s', Done) /\
    last evs = Some SessionCancelled.
Proof.
  do 3 eexists.
  destruct (serveAnyTLS_refines zero_Config some_service 7 (sys_shared initial) _ _ _
    ltac:(intros s1; exists []; simpl; lia) eq_refl) as (s1 & s2 & H1 & _ & H3 & H4 & _).
  exists s1, s2. split; [reflexivity|]. split; [exact H1|]. split; [exact H3|exact H4].
Defined.
