(* ===== verification/Relay.v ===== *)
(** * Relays

    relay.go and uot.go: the goroutines that copy between a client's stream and its
    target until one of them ends, closing both sides once, and the packet relay with its
    cache of checked destinations. *)

From S2P Require Import Prelude GoErrors GoStrings Netip Wrapper Limits Provision.
Import netip strings.
From S2P Require Import Policy.

Local Open Scope Z_scope.

(** ** The stream relay *)

(** The three goroutines of [relay], those still running, and its [sync.Once], whose
    function is over when [rl_closed] is set; [rl_state] is the state of the connections
    and of the close handler.  [relayUDPOverTCP] runs the same three goroutines around
    its own two loops. *)
Record relayState (S : Type) := mkRelay {
  rl_state : S;
  rl_closed : bool;
  rl_watcher : bool;
  rl_up : bool;
  rl_down : bool
}.
Arguments mkRelay {S}.
Arguments rl_state {S} _.
Arguments rl_closed {S} _.
Arguments rl_watcher {S} _.
Arguments rl_up {S} _.
Arguments rl_down {S} _.

#[export] Instance Eta_relayState S : Eta (relayState S) := record_eta (
  fun r : relayState S => mkRelay (rl_state r) (rl_closed r) (rl_watcher r) (rl_up r) (rl_down r)).

(** One step: the context is cancelled; the watcher sees [done]; a copy ends. *)
Inductive relay_action :=
| RelayCancelled (err : error)
| RelaySeesDone
| CopyUpEnds (err : option error)
| CopyDownEnds (err : option error).

Section Relay.
Context {S : Type}.
Variable onClose : option error -> S -> S.
Variables close_inbound close_outbound : S -> S.

(** [closeAll]. *)
Definition closeAll (err : option error) (r : relayState S) : relayState S :=
  if rl_closed r then r
  else r <| rl_closed := true |>
         <| rl_state := close_outbound (close_inbound (onClose err (rl_state r))) |>.

(** relay.go, [relay], up to the start of its goroutines. *)
Definition relay_start (s : S) : relayState S := mkRelay s false true true true.

Definition relay_step (act : relay_action) (r : relayState S) : option (relayState S) :=
  match act with
  | RelayCancelled err =>
      if rl_watcher r then Some (closeAll (Some err) (r <| rl_watcher := false |>)) else None
  | RelaySeesDone =>
      if rl_watcher r && rl_closed r then Some (r <| rl_watcher := false |>) else None
  | CopyUpEnds err =>
      if rl_up r then Some (closeAll err (r <| rl_up := false |>)) else None
  | CopyDownEnds err =>
      if rl_down r then Some (closeAll err (r <| rl_down := false |>)) else None
  end.

(** The error an action passes to [closeAll]. *)
Definition relay_error (act : relay_action) : option (option error) :=
  match act with
  | RelayCancelled err => Some (Some err)
  | CopyUpEnds err | CopyDownEnds err => Some err
  | RelaySeesDone => None
  end.

Definition relay_left (r : relayState S) : nat :=
  ((if rl_watcher r then 1 else 0) + (if rl_up r then 1 else 0) + (if rl_down r then 1 else 0))%nat.

Lemma relay_step_left act r r' :
  relay_step act r = Some r' -> (relay_left r' < relay_left r)%nat.
Proof.
  destruct r as [st [] [] [] []]; destruct act; cbn; intros [= <-]; unfold relay_left; simpl; lia.
Qed.

(** The first error of a run. *)
Definition first_error (acts : list relay_action) : option error :=
  match omap relay_error acts with err :: _ => err | [] => None end.

Lemma relay_first_error s acts r :
  run relay_step acts (relay_start s) = Some r ->
  rl_state r = (if rl_closed r
                then close_outbound (close_inbound (onClose (first_error acts) s)) else s) /\
  (acts <> [] -> rl_closed r = true).
Proof.
  destruct acts as [|act acts]; [by intros [= <-]|]. cbn [run].
  destruct (relay_step act (relay_start s)) as [r1|] eqn:H1; [|done].
  assert (Hr1 : rl_closed r1 = true /\ rl_state r1 =
    close_outbound (close_inbound (onClose (first_error (act :: acts)) s))).
  { destruct act; simpl in H1; by simplify_eq/=. }
  destruct Hr1 as [Hc Hs]. intros Hr.
  assert (Hend : rl_closed r = true /\ rl_state r = rl_state r1).
  { eapply (run_inv relay_step (fun _ => True) (fun r => rl_closed r = true /\ rl_state r = rl_state r1));
      [|by apply Forall_true|exact Hr|done].
    intros a r2 r3 _ H2 [Hc2 Hs2]. destruct r2 as [st cl w u d]; simpl in *. subst.
    destruct a; simpl in H2; unfold closeAll in H2; simpl in H2; repeat split_match H2; done. }
  destruct Hend as [-> ->]. done.
Qed.

End Relay.

(** ** The packet relay *)

(** [net.Addr] as the relay uses it: [Socksaddr.UDPAddr] and [net.ResolveUDPAddr]. *)
Class NetAddrs (A : Type) := {
  UDPAddr : Socksaddr -> A;
  ResolveUDPAddr : string -> string -> result A
}.

(** A destination and what is in the cache for it. *)
Record cacheEntry (A : Type) := mkCacheEntry { addr : A; expiresAt : Z }.
Arguments mkCacheEntry {A}.
Arguments addr {A} _.
Arguments expiresAt {A} _.

Definition maxCachedDestinations : nat := 256.
(** [30 * time.Second] *)
Definition cacheLifetime : Z := 30 * 1000000000.

(** A packet [inbound.ReadPacket] returned, the clock when its cache entry is looked up and
    when a new one is stored, and what [outbound.WriteTo] will return. *)
Record packet := mkPacket {
  pk_destination : Socksaddr;
  pk_bytes : bytes;
  pk_checked : Z;
  pk_stored : Z;
  pk_write : option error
}.

Section Packets.
Context {A : Type} `{!NetAddrs A} `{!SocksaddrMethods}.

(** uot.go, [resolveUDPAddr]. *)
Definition resolveUDPAddr (destination : Socksaddr) : result A :=
  if netip.IsValid (Addr destination) then Ok (UDPAddr destination)
  else ResolveUDPAddr "udp" (Socksaddr_String destination).

Section Loop.
(** [prepareDestination] at a time: name resolution may answer differently later. *)
Variable prepareDestination : Z -> Socksaddr -> result A.

Definition packet_key (p : packet) : string := Socksaddr_String (pk_destination p).

(** The lookup in [destinationCache], and the check of a destination that is not there or
    no longer valid. *)
Definition cached_destination (p : packet) (destinationCache : gmap string (cacheEntry A))
    : result (cacheEntry A * gmap string (cacheEntry A)) :=
  let check :=
    match prepareDestination (pk_checked p) (pk_destination p) with
    | Err err => Err err
    | Ok a =>
        let destinationCache :=
          if (maxCachedDestinations <=? size destinationCache)%nat then ∅ else destinationCache in
        let cached := mkCacheEntry a (pk_stored p + cacheLifetime) in
        Ok (cached, <[packet_key p := cached]> destinationCache)
    end in
  match destinationCache !! packet_key p with
  | Some cached => if expiresAt cached <? pk_checked p then check else Ok (cached, destinationCache)
  | None => check
  end.

(** uot.go, [proxyUOTToPacket], from its loop on: [reads] are the packets that arrive before
    [ReadPacket] fails with [readErr].  The calls of [WriteTo] in order, the error
    returned, and the cache. *)
Fixpoint proxyUOTToPacket (reads : list packet) (readErr : error)
    (destinationCache : gmap string (cacheEntry A))
    : list (A * bytes) * error * gmap string (cacheEntry A) :=
  match reads with
  | [] => ([], readErr, destinationCache)
  | p :: reads =>
      match cached_destination p destinationCache with
      | Err err => ([], err, destinationCache)
      | Ok (cached, destinationCache) =>
          let write := (addr cached, pk_bytes p) in
          match pk_write p with
          | Some err => ([write], err, destinationCache)
          | None =>
              let '(writes, err, destinationCache) := proxyUOTToPacket reads readErr destinationCache in
              (write :: writes, err, destinationCache)
          end
      end
  end.

(** The same relay without a cache. *)
Fixpoint proxy_uncached (reads : list packet) (readErr : error) : list (A * bytes) * error :=
  match reads with
  | [] => ([], readErr)
  | p :: reads =>
      match prepareDestination (pk_checked p) (pk_destination p) with
      | Err err => ([], err)
      | Ok a =>
          match pk_write p with
          | Some err => ([(a, pk_bytes p)], err)
          | None => let '(writes, err) := proxy_uncached reads readErr in
                    ((a, pk_bytes p) :: writes, err)
          end
      end
  end.

(** *** What is in the cache *)

(** [a] is the checked address of one of the packets of [past], for the key of [p] and
    still valid at [p]. *)
Definition checked_for (past : list packet) (p : packet) (a : A) : Prop :=
  exists p', p' ∈ past /\ packet_key p' = packet_key p /\
    prepareDestination (pk_checked p') (pk_destination p') = Ok a /\
    (p' = p \/ pk_checked p <= pk_stored p' + cacheLifetime).

Record cache_inv (past : list packet) (cache : gmap string (cacheEntry A)) : Prop := {
  cache_entries : forall key e, cache !! key = Some e ->
    exists p', p' ∈ past /\ packet_key p' = key /\
      prepareDestination (pk_checked p') (pk_destination p') = Ok (addr e) /\
      expiresAt e = pk_stored p' + cacheLifetime;
  cache_bound : (size cache <= maxCachedDestinations)%nat
}.

Lemma cache_inv_empty past : cache_inv past ∅.
Proof. split; [by intros ???|]. rewrite map_size_empty. unfold maxCachedDestinations. lia. Qed.

Lemma cached_destination_inv past p cache cached cache' :
  cached_destination p cache = Ok (cached, cache') -> cache_inv past cache ->
  cache_inv (past ++ [p]) cache' /\ checked_for (past ++ [p]) p (addr cached).
Proof.
  intros Hcd [He Hb].
  assert (Hold : cache_inv (past ++ [p]) cache).
  { split; [|done]. intros k e Hk. destruct (He k e Hk) as (p' & Hp' & ?).
    exists p'. split; [apply elem_of_app; by left|done]. }
  assert (Hcheck : forall a,
    prepareDestination (pk_checked p) (pk_destination p) = Ok a ->
    let c0 := if (maxCachedDestinations <=? size cache)%nat then ∅ else cache in
    let e := mkCacheEntry a (pk_stored p + cacheLifetime) in
    cache_inv (past ++ [p]) (<[packet_key p := e]> c0) /\ checked_for (past ++ [p]) p a).
  { intros a Ha c0 e. assert (Hin : p ∈ past ++ [p]) by set_solver. split; [|by exists p; auto].
    assert (Hc0 : cache_inv (past ++ [p]) c0 /\ (size c0 < maxCachedDestinations)%nat).
    { unfold c0. destruct (Nat.leb_spec maxCachedDestinations (size cache)); [|done].
      split; [apply cache_inv_empty|rewrite map_size_empty; unfold maxCachedDestinations; lia]. }
    destruct Hc0 as [[He0 _] Hs0]. split.
    - intros k e' [[<- <-]|[_ Hk]]%lookup_insert_Some; [by exists p|by apply He0].
    - rewrite map_size_insert. case_match; simpl; lia. }
  unfold cached_destination in Hcd. destruct (cache !! packet_key p) as [e|] eqn:Hk.
  - destruct (Z.ltb_spec (expiresAt e) (pk_checked p)) as [Hlt|Hge].
    + destruct (prepareDestination _ _) as [a|err] eqn:Ha; simplify_eq. by apply Hcheck.
    + simplify_eq. split; [done|]. destruct (He _ _ Hk) as (p' & Hp' & Hkey & Hprep & Hexp).
      exists p'. split_and!; [set_solver|done|done|right; lia].
  - destruct (prepareDestination _ _) as [a|err] eqn:Ha; simplify_eq. by apply Hcheck.
Qed.

Lemma proxyUOTToPacket_inv past reads readErr cache writes err cache' :
  proxyUOTToPacket reads readErr cache = (writes, err, cache') -> cache_inv past cache ->
  (size cache' <= maxCachedDestinations)%nat /\
  forall i a bs, writes !! i = Some (a, bs) ->
    exists p, reads !! i = Some p /\ pk_bytes p = bs /\
      checked_for (past ++ take (Datatypes.S i) reads) p a.
Proof.
  revert past cache writes err cache'. induction reads as [|p reads IH]; intros past cache writes err cache' Hp Hinv.
  { simpl in Hp. simplify_eq. by destruct Hinv. }
  cbn [proxyUOTToPacket] in Hp. destruct (cached_destination p cache) as [[cached c1]|e] eqn:Hcd.
  2:{ simplify_eq. by destruct Hinv. }
  destruct (cached_destination_inv _ _ _ _ _ Hcd Hinv) as [Hinv1 Hchk].
  assert (Hhead : forall a bs, Some (addr cached, pk_bytes p) = Some (a, bs) ->
    exists q, (p :: reads) !! 0%nat = Some q /\ pk_bytes q = bs /\
      checked_for (past ++ take 1 (p :: reads)) q a).
  { intros a bs [= <- <-]. exists p. done. }
  destruct (pk_write p) as [werr|].
  { simplify_eq. split; [by destruct Hinv1|]. intros [|i] a bs Hi; [by apply Hhead|done]. }
  destruct (proxyUOTToPacket reads readErr c1) as [[ws e] c2] eqn:Hrec. simplify_eq.
  destruct (IH _ _ _ _ _ Hrec Hinv1) as [Hb Hall]. split; [done|].
  intros [|i] a bs Hi; [by apply Hhead|]. simpl in Hi. destruct (Hall i a bs Hi) as (q & Hq & Hbs & Hck).
  exists q. split_and!; [done..|]. simpl. by rewrite <- app_assoc in Hck.
Qed.

(** A cached answer is the answer. *)
Lemma cached_destination_same p cache past :
  (forall t t' d d', Socksaddr_String d = Socksaddr_String d' ->
     prepareDestination t d = prepareDestination t' d') ->
  cache_inv past cache ->
  match cached_destination p cache with
  | Ok (cached, cache') =>
      prepareDestination (pk_checked p) (pk_destination p) = Ok (addr cached)
  | Err err => prepareDestination (pk_checked p) (pk_destination p) = Err err
  end.
Proof.
  intros Hsame [He _]. unfold cached_destination.
  destruct (prepareDestination (pk_checked p) (pk_destination p)) as [a|err] eqn:Ha;
    destruct (cache !! packet_key p) as [e|] eqn:Hk; try done;
    destruct (expiresAt e <? pk_checked p); try done;
    destruct (He _ _ Hk) as (p' & _ & Hkey & Hprep & _); rewrite <- Hprep, <- Ha; by apply Hsame.
Qed.

End Loop.

(** uot.go, [proxyPacketToUOT]: [reads] are the packets that arrive before [ReadPacketFrom]
    fails, each with the outcome of [WritePacket]; [FromNet] is [M.SocksaddrFromNet]. *)
Fixpoint proxyPacketToUOT (FromNet : A -> Socksaddr) (reads : list (bytes * A * option error))
    (readErr : error) : list (bytes * Socksaddr) * error :=
  match reads with
  | [] => ([], readErr)
  | (bs, a, write) :: reads =>
      match write with
      | Some err => ([(bs, FromNet a)], err)
      | None => let '(writes, err) := proxyPacketToUOT FromNet reads readErr in
                ((bs, FromNet a) :: writes, err)
      end
  end.

Context {Ob Sv : Type} `{!Outbound Ob} `{!UnicodeTables}.

(** handler.go, [preparePacketDestination]; indexing an empty list would panic. *)
Definition preparePacketDestination (lw : ListenerWrapper Ob Sv) (user : string)
    (destination : Socksaddr) : result A :=
  match validatePacketDestination lw user destination with
  | Err err => Err err
  | Ok [] => Err (errors_New "runtime error: index out of range [0] with length 0")
  | Ok (resolved :: _) => resolveUDPAddr resolved
  end.

(** A prepared destination has passed the policy, and the index is in range. *)
Lemma preparePacketDestination_Ok lw user d a :
  compiled lw -> preparePacketDestination lw user d = Ok a ->
  exists s, address_ok lw s /\ Port s = Port d /\ resolveUDPAddr s = Ok a.
Proof.
  intros Hc. unfold preparePacketDestination, validatePacketDestination.
  destruct (validateDestination lw user d) as [[|s ds]|err] eqn:Hv; [done| |done]. intros Ha.
  apply validateDestination_Ok in Hv as [Hres Hok]; [|done].
  apply resolveDestination_spec in Hres as [_ Hport].
  exists s. split_and!; [apply Hok; by left|apply Hport; by left|done].
Qed.

End Packets.

(** ** Properties *)

(** C24.  A relay closes both sides and reports the end exactly once, with the error of whatever
    ended first: the client's side, the target's side or the context; nothing is closed
    before that; and after at most three steps all its goroutines are gone. *)
Theorem relay_closes_once {S} (onClose : option error -> S -> S) (close_inbound close_outbound : S -> S)
    s acts r :
  let step := relay_step onClose close_inbound close_outbound in
  run step acts (relay_start s) = Some r ->
  rl_state r = (match acts with
                | [] => s
                | _ => close_outbound (close_inbound (onClose (first_error acts) s))
                end) /\
  (length acts + relay_left r <= 3)%nat /\
  (acts <> [] -> (forall act, step act r = None) -> relay_left r = 0%nat).
Proof.
  intros step Hr. destruct (relay_first_error _ _ _ _ _ _ Hr) as [Hs Hc]. split_and!.
  - destruct acts as [|act acts]; [by injection Hr as <-|]. by rewrite Hs, Hc.
  - refine (run_measure step (fun _ => True) (fun _ => True) relay_left _ acts (relay_start s) r _ Hr I);
      [|by apply Forall_true].
    intros act r1 r2 _ H _. split; [done|by eapply relay_step_left].
  - intros Hne Hstuck. specialize (Hc Hne).
    pose proof (Hstuck RelaySeesDone) as H1. pose proof (Hstuck (CopyUpEnds None)) as H2.
    pose proof (Hstuck (CopyDownEnds None)) as H3. unfold step, relay_left in *.
    destruct r as [st cl [] [] []]; simpl in *; subst; simpl in *; done.
Qed.

(** C11.  The packet relay sends each datagram of the client, unchanged and in order, and only to
    an address that has passed the destination policy: the policy was applied to a
    destination of the same text, for this packet or at most thirty seconds before it; and
    it remembers at most 256 destinations.  [lw t] is the wrapper as its resolver
    answers at time [t]. *)
Theorem uot_packets_checked {A} `{!NetAddrs A} `{!SocksaddrMethods} {Ob Sv} `{!Outbound Ob}
    `{!UnicodeTables} (lw : Z -> ListenerWrapper Ob Sv) user reads readErr
    (writes : list (A * bytes)) err cache :
  (forall t, compiled (lw t)) ->
  proxyUOTToPacket (fun t => preparePacketDestination (lw t) user) reads readErr ∅
    = (writes, err, cache) ->
  (size cache <= 256)%nat /\
  forall i a bs, writes !! i = Some (a, bs) ->
    exists p p' s, reads !! i = Some p /\ pk_bytes p = bs /\
      p' ∈ take (Datatypes.S i) reads /\ packet_key p' = packet_key p /\
      (p' = p \/ pk_checked p <= pk_stored p' + 30 * 1000000000) /\
      address_ok (lw (pk_checked p')) s /\ Port s = Port (pk_destination p') /\
      resolveUDPAddr s = Ok a.
Proof.
  intros Hc Hp.
  destruct (proxyUOTToPacket_inv _ [] reads readErr ∅ writes err cache Hp (cache_inv_empty _ _))
    as [Hb Hall]. split; [exact Hb|].
  intros i a bs Hi. destruct (Hall i a bs Hi) as (p & Hr & Hbs & p' & Hin & Hk & Hprep & Ht).
  destruct (preparePacketDestination_Ok _ _ _ _ (Hc _) Hprep) as (s & ? & ? & ?).
  exists p, p', s. split_and!; done.
Qed.

(** C27.  The cache is invisible while names keep their addresses: the relay sends the same
    datagrams to the same addresses and ends with the same error as one that checks every
    packet's destination anew. *)
Theorem uot_cache_transparent {A} `{!NetAddrs A} `{!SocksaddrMethods}
    (prepareDestination : Z -> Socksaddr -> result A) reads readErr :
  (forall t t' d d', Socksaddr_String d = Socksaddr_String d' ->
     prepareDestination t d = prepareDestination t' d') ->
  fst (proxyUOTToPacket prepareDestination reads readErr ∅)
    = proxy_uncached prepareDestination reads readErr.
Proof.
  intros Hsame.
  enough (forall past cache, cache_inv prepareDestination past cache ->
    fst (proxyUOTToPacket prepareDestination reads readErr cache)
      = proxy_uncached prepareDestination reads readErr) as Hall
    by (apply (Hall []), cache_inv_empty).
  induction reads as [|p reads IH]; intros past cache Hinv; [done|].
  cbn [proxyUOTToPacket proxy_uncached].
  pose proof (cached_destination_same _ p cache past Hsame Hinv) as Hcd.
  destruct (cached_destination prepareDestination p cache) as [[cached c1]|e] eqn:Hd; rewrite Hcd; [|done].
  destruct (cached_destination_inv _ _ _ _ _ _ Hd Hinv) as [Hinv1 _].
  destruct (pk_write p); [done|]. specialize (IH _ _ Hinv1).
  destruct (proxyUOTToPacket prepareDestination reads readErr c1) as [[ws e] c2]. simpl in IH.
  by rewrite <- IH.
Qed.

(** *** Witnesses *)

#[local] Instance relay_tables : UnicodeTables := { Map_ToLower s := s }.
#[local] Instance relay_methods : SocksaddrMethods := {
  Socksaddr_IsValid d := IsValid (Addr d) || negb (String.eqb (Fqdn d) "");
  Socksaddr_String d := Fqdn d
}.
#[local] Instance relay_addrs : NetAddrs Socksaddr := {
  UDPAddr d := d;
  ResolveUDPAddr _ _ := Err (errors_New "no such host")
}.
#[local] Instance relay_outbound : Outbound unit := {
  DirectOutbound := tt;
  LookupNetIP _ _ host := Ok [Addr_v4 0x5db8d822]
}.

(** The target hangs up; the client's copy fails afterwards. *)
Definition target_first : list relay_action :=
  [CopyDownEnds None; RelaySeesDone; CopyUpEnds (Some (Sentinel net_ErrClosed))].

Lemma relay_closes_once_witness :
  exists r, run (relay_step (fun err l => l ++ ["onClose"]) (fun l => l ++ ["inbound"])
                   (fun l => l ++ ["outbound"])) target_first (relay_start []) = Some r /\
    rl_state r = ["onClose"; "inbound"; "outbound"]%string /\ (3 + relay_left r <= 3)%nat.
Proof.
  eexists. split; [reflexivity|].
  edestruct (relay_closes_once (fun err l => l ++ ["onClose"]) (fun l => l ++ ["inbound"])
    (fun l => l ++ ["outbound"]) [] target_first) as (H1 & H2 & _); [reflexivity|].
  split; [exact H1|exact H2].
Defined.

(** Two packets to one name, the second from the cache, then one that comes too late. *)
Definition game_server : Socksaddr := mkSocksaddr Addr_zero 27015 "game.example.com".
Definition game_packets : list packet :=
  [mkPacket game_server (bytes_of_string "a") 1 2 None;
   mkPacket game_server (bytes_of_string "b") 20000000000 0 None;
   mkPacket game_server (bytes_of_string "c") 40000000000 40000000001 None].

Definition relay_wrapper : ListenerWrapper unit unit := configured zero_Config false.
Definition game_address : Socksaddr := mkSocksaddr (Addr_v4 0x5db8d822) 27015 "".

Definition game_writes : list (Socksaddr * bytes) :=
  [(game_address, bytes_of_string "a"); (game_address, bytes_of_string "b");
   (game_address, bytes_of_string "c")].

Definition game_cache : gmap string (cacheEntry Socksaddr) :=
  {["game.example.com" := mkCacheEntry game_address 70000000001]}.

Lemma game_run :
  proxyUOTToPacket (fun _ => preparePacketDestination relay_wrapper "alice") game_packets
    (Sentinel io_EOF) ∅ = (game_writes, Sentinel io_EOF, game_cache).
Proof. vm_compute. reflexivity. Qed.

Lemma uot_packets_checked_witness :
  compiled relay_wrapper /\ (size game_cache <= 256)%nat /\
  exists p p' s, game_packets !! 1%nat = Some p /\ pk_bytes p = bytes_of_string "b" /\
    p' ∈ take 2 game_packets /\ packet_key p' = packet_key p /\
    (p' = p \/ pk_checked p <= pk_stored p' + 30 * 1000000000) /\
    address_ok relay_wrapper s /\ Port s = Port (pk_destination p') /\
    resolveUDPAddr s = Ok game_address.
Proof.
  assert (Hc : compiled relay_wrapper) by (vm_compute; reflexivity).
  split; [exact Hc|].
  destruct (uot_packets_checked (fun _ => relay_wrapper) "alice" game_packets (Sentinel io_EOF)
    game_writes (Sentinel io_EOF) game_cache (fun _ => Hc) game_run) as [H1 H2].
  split; [exact H1|]. exact (H2 1%nat game_address (bytes_of_string "b") eq_refl).
Defined.

Lemma uot_cache_transparent_witness :
  fst (proxyUOTToPacket (fun _ d => Ok (mkSocksaddr (Addr_v4 1) 53 (Fqdn d))) game_packets
         (Sentinel io_EOF) ∅)
    = proxy_uncached (fun _ d => Ok (mkSocksaddr (Addr_v4 1) 53 (Fqdn d))) game_packets (Sentinel io_EOF).
Proof.
  apply (uot_cache_transparent (A := Socksaddr)). intros t t' d d' Hs. simpl in Hs. congruence.
Defined.
