(* ===== verification/Copy.v ===== *)
(** * Copying between connections

    relay.go, [countingConn] and [proxyCopy], with [io.Copy] of the Go library: what one
    direction of a relay moves, and what the counters of the audit log say of it.  Any
    reader and writer with the laws of [io.Reader] and [io.Writer] will do; a counting
    connection around them is one again. *)

From S2P Require Import Prelude GoErrors GoStrings Conn Limits Relay.

Local Open Scope Z_scope.

(** ** The write side of a connection *)

(** [wr_sent] are the bytes the connection has taken so far. *)
Class Writer (D : Type) := {
  wr_Write : bytes -> D -> Z * option error * D;
  wr_sent : D -> bytes
}.

(** The contract of [io.Writer]. *)
Class WriterLaws (D : Type) `{Writer D} : Prop := {
  wr_step : forall b d n err d',
    wr_Write b d = (n, err, d') ->
    0 <= n <= Z.of_nat (length b) /\ wr_sent d' = wr_sent d ++ take (Z.to_nat n) b /\
    (n < Z.of_nat (length b) -> is_Some err)
}.

(** ** Counting *)

(** The struct [countingConn] around a connection. *)
Record countingConn (C : Type) := mkCountingConn { cc_Conn : C; readBytes : Z; writtenBytes : Z }.
Arguments mkCountingConn {C}.
Arguments cc_Conn {C} _.
Arguments readBytes {C} _.
Arguments writtenBytes {C} _.

Definition newCountingConn {C} (conn : C) : countingConn C := mkCountingConn conn 0 0.

Definition countingConn_Read {C} `{Reader C} (k : nat) (c : countingConn C)
    : bytes * option error * countingConn C :=
  let '(p, err, conn) := rd_Read k (cc_Conn c) in
  (p, err, mkCountingConn conn (wrap64 (readBytes c + Z.of_nat (length p))) (writtenBytes c)).

Definition countingConn_Write {D} `{Writer D} (p : bytes) (c : countingConn D)
    : Z * option error * countingConn D :=
  let '(n, err, conn) := wr_Write p (cc_Conn c) in
  (n, err, mkCountingConn conn (readBytes c) (wrap64 (writtenBytes c + n))).

Definition BytesRead {C} (c : countingConn C) : Z := readBytes c.
Definition BytesWritten {C} (c : countingConn C) : Z := writtenBytes c.

#[export] Instance Reader_countingConn C `{Reader C} : Reader (countingConn C) := {
  rd_Read := countingConn_Read;
  rd_pending c := rd_pending (cc_Conn c);
  rd_open c := rd_open (cc_Conn c);
  rd_final c := rd_final (cc_Conn c);
  rd_work c := rd_work (cc_Conn c)
}.

#[export] Instance Writer_countingConn D `{Writer D} : Writer (countingConn D) := {
  wr_Write := countingConn_Write;
  wr_sent c := wr_sent (cc_Conn c)
}.

#[export] Instance ReaderLaws_countingConn C `{ReaderLaws C} : ReaderLaws (countingConn C).
Proof.
  split. intros k c p err c' Hk Ho Hr. simpl in *. unfold countingConn_Read in Hr.
  destruct (rd_Read k (cc_Conn c)) as [[p1 err1] conn] eqn:Hc. injection Hr as <- <- <-.
  by apply (rd_step k (cc_Conn c) p1 err1 conn).
Qed.

#[export] Instance WriterLaws_countingConn D `{WriterLaws D} : WriterLaws (countingConn D).
Proof.
  split. intros b c n err c' Hw. simpl in *. unfold countingConn_Write in Hw.
  destruct (wr_Write b (cc_Conn c)) as [[n1 err1] conn] eqn:Hc. injection Hw as <- <- <-.
  by apply (wr_step b (cc_Conn c) n1 err1 conn).
Qed.

(** ** [io.Copy] *)

Definition io_ErrShortWrite : error := errors_New "short write".
Definition errInvalidWrite : error := errors_New "invalid write result".

(** The buffer of [io.Copy]: 32 KiB. *)
Definition copyBufferSize : nat := Z.to_nat (32 * 1024).

(** [if er != EOF { err = er }] *)
Definition not_EOF (e : error) : option error :=
  match e with Sentinel io_EOF => None | _ => Some e end.

(** [io.Copy] between values without [WriterTo] and [ReaderFrom]: the bytes written and the
    error, [None] for nil; a turn of the loop per read.  [None] when the fuel runs out. *)
Fixpoint io_Copy {D C} `{Writer D} `{Reader C} (fuel : nat) (dst : D) (src : C) (written : Z)
    : option (Z * option error * D * C) :=
  match fuel with
  | O => None
  | S fuel =>
      let '(buf, er, src) := rd_Read copyBufferSize src in
      let nr := Z.of_nat (length buf) in
      let after written dst :=
        match er with
        | Some e => Some (written, not_EOF e, dst, src)
        | None => io_Copy fuel dst src written
        end in
      if 0 <? nr then
        let '(nw, ew, dst) := wr_Write buf dst in
        let '(nw, ew) := if (nw <? 0) || (nr <? nw)
                         then (0, Some (default errInvalidWrite ew)) else (nw, ew) in
        let written := wrap64 (written + nw) in
        match ew with
        | Some e => Some (written, Some e, dst, src)
        | None => if negb (nr =? nw) then Some (written, Some io_ErrShortWrite, dst, src)
                  else after written dst
        end
      else after written dst
  end.

(** relay.go, [proxyCopy], up to its call of [closeAll], which is the action of the relay. *)
Definition proxyCopy {D C} `{Writer D} `{Reader C} (ends : option error -> relay_action)
    (fuel : nat) (dst : D) (src : C) : option (relay_action * D * C) :=
  match io_Copy fuel dst src 0 with
  | Some (_, err, dst, src) => Some (ends err, dst, src)
  | None => None
  end.

(** ** What a copy moves *)

Lemma wrap64_add a b : wrap64 (wrap64 a + b) = wrap64 (a + b).
Proof.
  unfold wrap64. f_equal.
  replace ((a + 2 ^ 63) mod 2 ^ 64 - 2 ^ 63 + b + 2 ^ 63) with ((a + 2 ^ 63) mod 2 ^ 64 + b) by lia.
  rewrite Zplus_mod_idemp_l. f_equal. lia.
Qed.

Lemma copyBufferSize_pos : (0 < copyBufferSize)%nat.
Proof. unfold copyBufferSize. lia. Qed.

#[global] Opaque copyBufferSize.

Section Copy.
Context {C D : Type} `{ReaderLaws C} `{WriterLaws D}.

(** Why a copy that moved [taken] and wrote [sent] ended with [err]. *)
Definition copy_outcome (dst : D) (src : C) (taken sent : bytes) (err : option error) : Prop :=
  match err with
  | None => sent = taken /\ taken = rd_pending src /\ rd_final src = Sentinel io_EOF
  | Some e => (sent = taken /\ taken = rd_pending src /\ e = rd_final src) \/
              (exists done_ chunk d d' n,
                 taken = done_ ++ chunk /\ sent = done_ ++ take (Z.to_nat n) chunk /\
                 wr_sent d = wr_sent dst ++ done_ /\ wr_Write chunk d = (n, Some e, d'))
  end.

(** A counter that [n] bytes were added to. *)
Definition counted (before after n : Z) : Prop := wrap64 before = before -> after = wrap64 (before + n).

Lemma counted_0 x : counted x x 0.
Proof. intros Hx. by rewrite Z.add_0_r. Qed.

Lemma counted_step x n y m : counted (wrap64 (x + n)) y m -> counted x y (n + m).
Proof.
  intros Hy Hx. rewrite Hy; [by rewrite wrap64_add, Z.add_assoc|].
  pose proof (wrap64_add (x + n) 0) as Hw. by rewrite !Z.add_0_r in Hw.
Qed.

(** What is claimed of a copy from [src] to [dst] that returned [res]. *)
Definition copied (dst : countingConn D) (src : countingConn C)
    (res : option (Z * option error * countingConn D * countingConn C)) : Prop :=
  exists written err dst' src' taken sent,
    res = Some (written, err, dst', src') /\
    rd_pending src = taken ++ rd_pending src' /\ wr_sent dst' = wr_sent dst ++ sent /\
    sent `prefix_of` taken /\ copy_outcome (cc_Conn dst) (cc_Conn src) taken sent err /\
    counted (readBytes src) (readBytes src') (Z.of_nat (length taken)) /\
    counted (writtenBytes dst) (writtenBytes dst') (Z.of_nat (length sent)).

(** One read and one complete write before the rest of the copy. *)
Lemma copied_step dst src dst1 src1 buf res :
  rd_pending src = buf ++ rd_pending src1 -> rd_final src1 = rd_final src ->
  readBytes src1 = wrap64 (readBytes src + Z.of_nat (length buf)) ->
  wr_sent dst1 = wr_sent dst ++ buf ->
  counted (writtenBytes dst) (writtenBytes dst1) (Z.of_nat (length buf)) ->
  (wrap64 (writtenBytes dst) = writtenBytes dst -> wrap64 (writtenBytes dst1) = writtenBytes dst1) ->
  copied dst1 src1 res -> copied dst src res.
Proof.
  intros Hp Hfin Hread Hsent Hcnt Hok (w & err & dst' & src' & taken & sent & -> & Hp1 & Hs1 & Hpre & Ho & Hr & Hw).
  exists w, err, dst', src', (buf ++ taken), (buf ++ sent). split_and!; [done| | | | | |].
  - by rewrite Hp, Hp1, app_assoc.
  - by rewrite Hs1, Hsent, app_assoc.
  - by apply prefix_app.
  - simpl in Hp, Hfin. unfold copy_outcome in *. destruct err as [e|].
    + destruct Ho as [(-> & -> & ->)|(pre & b & d & d' & n & -> & -> & Hd & Hwr)]; [left|right].
      * by rewrite Hp, Hfin.
      * exists (buf ++ pre), b, d, d', n. rewrite <- !app_assoc. split_and!; [done..| |done].
        simpl in Hsent. by rewrite Hd, Hsent, app_assoc.
    + destruct Ho as (-> & -> & <-). by rewrite Hp, Hfin.
  - rewrite length_app, Nat2Z.inj_add. apply counted_step. by rewrite <- Hread.
  - rewrite length_app, Nat2Z.inj_add. intros Hx. rewrite Hw by auto. rewrite (Hcnt Hx).
    by rewrite wrap64_add, Z.add_assoc.
Qed.

(** Nothing is left to do after the last read. *)
Lemma copied_end dst src (er : error) written :
  rd_pending src = [] -> er = rd_final src ->
  copied dst src (Some (written, not_EOF er, dst, src)).
Proof.
  intros Hp ->. exists written, (not_EOF (rd_final src)), dst, src, [], [].
  split_and!; [done|done|by rewrite app_nil_r|done| |apply counted_0|apply counted_0].
  simpl in *. rewrite <- Hp. destruct (rd_final (cc_Conn src)) as [[]| | |] eqn:He; simpl; rewrite ?He; auto.
Qed.

(** A write that fails ends the copy. *)
Lemma copied_write_failed dst src src1 dst1 buf nw (e : error) written :
  rd_pending src = buf ++ rd_pending src1 ->
  readBytes src1 = wrap64 (readBytes src + Z.of_nat (length buf)) ->
  wr_Write buf dst = (nw, Some e, dst1) ->
  copied dst src (Some (written, Some e, dst1, src1)).
Proof.
  intros Hp Hread Hw. destruct (wr_step _ _ _ _ _ Hw) as (Hn & Hsent & _).
  simpl in Hw. unfold countingConn_Write in Hw.
  destruct (wr_Write buf (cc_Conn dst)) as [[n1 err1] conn1] eqn:Hw1. injection Hw as -> -> <-.
  eexists _, (Some e), _, _, buf, (take (Z.to_nat nw) buf).
  split_and!; [done|done|done|apply prefix_take| |by intros _|].
  - right. exists [], buf, (cc_Conn dst), conn1, nw. by rewrite app_nil_r.
  - intros _. simpl. rewrite length_take, Nat.min_l by lia. by rewrite Z2Nat.id by lia.
Qed.

(** A turn of the loop after its read and its write, whichever way it goes on. *)
Lemma copied_after dst src src1 dst1 buf (er : option error) written rest :
  rd_pending src = buf ++ rd_pending src1 -> rd_final src1 = rd_final src ->
  readBytes src1 = wrap64 (readBytes src + Z.of_nat (length buf)) ->
  wr_sent dst1 = wr_sent dst ++ buf ->
  counted (writtenBytes dst) (writtenBytes dst1) (Z.of_nat (length buf)) ->
  (wrap64 (writtenBytes dst) = writtenBytes dst -> wrap64 (writtenBytes dst1) = writtenBytes dst1) ->
  match er with
  | Some e => rd_pending src1 = [] /\ e = rd_final src
  | None => copied dst1 src1 rest
  end ->
  copied dst src
    (match er with Some e => Some (written, not_EOF e, dst1, src1) | None => rest end).
Proof.
  intros Hp Hfin Hr Hs Hc Hok He. eapply (copied_step _ _ _ _ buf); [done..|].
  destruct er as [e|]; [|done]. destruct He as [Hnil ->]. apply copied_end; [done|by rewrite Hfin].
Qed.

Lemma io_Copy_spec fuel (dst : countingConn D) (src : countingConn C) written :
  rd_open src -> (rd_work src < fuel)%nat -> copied dst src (io_Copy fuel dst src written).
Proof.
  revert dst src written. induction fuel as [|fuel IH]; intros dst src written Ho Hf; [lia|].
  cbn [io_Copy]. destruct (rd_Read copyBufferSize src) as [[buf er] src1] eqn:Hr.
  destruct (rd_step _ _ _ _ _ copyBufferSize_pos Ho Hr) as (Ho1 & Hfin & Hp & He).
  assert (Hread : readBytes src1 = wrap64 (readBytes src + Z.of_nat (length buf))).
  { simpl in Hr. unfold countingConn_Read in Hr.
    destruct (rd_Read copyBufferSize (cc_Conn src)) as [[p err] conn]. by injection Hr as -> -> <-. }
  assert (Hrest : forall dst1 w, match er with
    | Some e => rd_pending src1 = [] /\ e = rd_final src
    | None => copied dst1 src1 (io_Copy fuel dst1 src1 w)
    end) by (destruct er; [done|intros; apply IH; [done|lia]]).
  destruct (Z.ltb_spec 0 (Z.of_nat (length buf))) as [Hpos|Hzero].
  - destruct (wr_Write buf dst) as [[nw ew] dst1] eqn:Hw.
    destruct (wr_step _ _ _ _ _ Hw) as (Hn & Hsent & Hshort).
    rewrite (proj2 (Z.ltb_ge nw 0)), (proj2 (Z.ltb_ge (Z.of_nat (length buf)) nw)) by lia. cbv [orb]. cbv iota.
    destruct ew as [e|]; [by eapply copied_write_failed|].
    destruct (Z.eqb_spec (Z.of_nat (length buf)) nw) as [<-|Hne]; [|destruct (Hshort ltac:(lia)); done].
    simpl negb. cbv iota. assert (Hcnt : writtenBytes dst1 = wrap64 (writtenBytes dst + Z.of_nat (length buf))).
    { simpl in Hw. unfold countingConn_Write in Hw.
      destruct (wr_Write buf (cc_Conn dst)) as [[n1 err1] conn1]. by injection Hw as -> -> <-. }
    eapply (copied_after _ _ _ _ buf); [exact Hp|exact Hfin|exact Hread| | | |apply Hrest].
    + rewrite Hsent, take_ge; [done|lia].
    + by intros _.
    + intros _. rewrite Hcnt. pose proof (wrap64_add (writtenBytes dst + Z.of_nat (length buf)) 0) as Hwr.
      by rewrite !Z.add_0_r in Hwr.
  - assert (buf = []) as -> by (destruct buf; [done|simpl in Hzero; lia]).
    eapply (copied_after _ _ _ dst []);
      [exact Hp|exact Hfin|exact Hread|by rewrite app_nil_r|apply counted_0|done|apply Hrest].
Qed.

End Copy.

(** C25.  One direction of a relay moves its bytes faithfully and ends: the target has got a
    prefix, in order, of the bytes read from the source, and all of them unless a write
    failed; the copy ends without error exactly when the source was read to its end of
    file and everything was written; otherwise with the error of the read or write that
    failed.  The counters of the audit log are the numbers of these bytes. *)
Theorem proxyCopy_faithful {C D} `{ReaderLaws C} `{WriterLaws D} (ends : option error -> relay_action)
    fuel (dst : D) (src : C) :
  rd_open src -> (rd_work src < fuel)%nat ->
  exists err dst' src' taken sent,
    proxyCopy ends fuel (newCountingConn dst) (newCountingConn src) = Some (ends err, dst', src') /\
    rd_pending src = taken ++ rd_pending src' /\ wr_sent dst' = wr_sent dst ++ sent /\
    sent `prefix_of` taken /\ copy_outcome dst src taken sent err /\
    BytesRead src' = wrap64 (Z.of_nat (length taken)) /\
    BytesWritten dst' = wrap64 (Z.of_nat (length sent)).
Proof.
  intros Ho Hf.
  destruct (io_Copy_spec fuel (newCountingConn dst) (newCountingConn src) 0 Ho Hf)
    as (w & err & dst' & src' & taken & sent & Hc & Hp & Hs & Hpre & Hout & Hr & Hw).
  exists err, dst', src', taken, sent. unfold proxyCopy. rewrite Hc. split_and!; [done..| |].
  - by apply Hr.
  - by apply Hw.
Qed.

(** ** Witness: a target that takes [room] bytes. *)

Record Sink := mkSink { sk_sent : bytes; sk_room : nat }.

Definition Sink_Write (b : bytes) (s : Sink) : Z * option error * Sink :=
  let n := Nat.min (length b) (sk_room s) in
  (Z.of_nat n, if (n <? length b)%nat then Some (Sentinel net_ErrClosed) else None,
   mkSink (sk_sent s ++ take n b) (sk_room s - n)).

#[local] Instance Writer_Sink : Writer Sink := { wr_Write := Sink_Write; wr_sent := sk_sent }.

#[local] Instance WriterLaws_Sink : WriterLaws Sink.
Proof.
  split. intros b d n err d' [= <- <- <-]. simpl. rewrite Nat2Z.id. split_and!; [lia|lia|done|].
  intros Hn. destruct (Nat.ltb_spec (Nat.min (length b) (sk_room d)) (length b)); [done|lia].
Qed.

(** A request in two segments; the end of the stream comes with the second. *)
Definition two_segments : NetConn :=
  mkNetConn 0 [mkSegment 1 (bytes_of_string "GET "); mkSegment 2 (bytes_of_string "/index")] 3
    (Sentinel io_EOF) true None None false.

(** The target closes after seven bytes. *)
Lemma proxyCopy_faithful_witness :
  exists err dst' src' taken sent,
    proxyCopy CopyUpEnds 20 (newCountingConn (mkSink [] 7)) (newCountingConn two_segments)
      = Some (CopyUpEnds err, dst', src') /\
    rd_pending two_segments = taken ++ rd_pending src' /\ wr_sent dst' = wr_sent (mkSink [] 7) ++ sent /\
    sent `prefix_of` taken /\ copy_outcome (mkSink [] 7) two_segments taken sent err /\
    BytesRead src' = wrap64 (Z.of_nat (length taken)) /\
    BytesWritten dst' = wrap64 (Z.of_nat (length sent)).
Proof.
  apply (proxyCopy_faithful CopyUpEnds 20 (mkSink [] 7) two_segments).
  - vm_compute. split; reflexivity.
  - vm_compute. lia.
Defined.
