(* ===== verification/Handler.v ===== *)
(** * The stream handler

    handler.go, [NewConnectionEx] and [handleUDPOverTCP], with the context values of
    auth.go: one stream of a session, from its slot to the relay.  The handler threads
    the shared counters and the registry through a state monad and records, in order,
    what it does to connections and whom it tells. *)

From S2P Require Import Prelude GoErrors GoStrings Netip Wrapper Registry Limits Provision.
Import netip strings.
From S2P Require Import Policy Dial Relay.

Local Open Scope Z_scope.

(** ** Contexts *)

(** auth.go: the values of a context the package reads.  [ctx_user] is what
    [auth.UserFromContext] finds. *)
Record context := mkContext { ctx_user : option string; ctx_connection_id : option Z }.

#[export] Instance Eta_context : Eta context := record_eta (
  fun c => mkContext (ctx_user c) (ctx_connection_id c)).

Definition userFromContext (ctx : context) : string := default "" (ctx_user ctx).
Definition contextWithConnectionID (ctx : context) (connectionID : Z) : context :=
  ctx <| ctx_connection_id := Some connectionID |>.
Definition connectionIDFromContext (ctx : context) : Z := default 0 (ctx_connection_id ctx).

(** ** What the handler calls *)

(** [uot.Request], the constants of sing's uot package, and [uot.ReadRequest] on a stream. *)
Record Request := mkRequest { rq_IsConnect : bool; rq_Destination : Socksaddr }.

Class UoT := { MagicAddress : string; LegacyMagicAddress : string }.

(** sing's [N.OnceClose]: a state, and whether a call runs the function; its law: the
    first call does, and no later one. *)
Class OnceClose (O : Type) := { once_new : O; once_call : O -> bool * O }.
Class OnceCloseLaws (O : Type) `{OnceClose O} : Prop := {
  once_first : fst (once_call once_new) = true;
  once_later : forall o, fst (once_call (snd (once_call o))) = false
}.

(** [ListenPacket] of an [Outbound]. *)
Class PacketOutbound (Ob : Type) := { ListenPacket : Ob -> string -> string -> result Z }.

(** One stream, as its session hands it over: the context, the destination, whether there is
    a close handler, whether the connection implements [HandshakeFailure] and
    [HandshakeSuccess] and what the latter returns, whether debug logs are on, and what
    [uot.ReadRequest] would return on it. *)
Record stream := mkStream {
  st_ctx : context;
  st_destination : Socksaddr;
  st_onClose : bool;
  st_HandshakeFailure : bool;
  st_HandshakeSuccess : option (option error);
  st_debug : bool;
  st_ReadRequest : result Request
}.

(** ** The handler's monad *)

Inductive stream_event :=
| EvAcquired
| EvReleased
| EvOutboundFailure (protocol reason user outbound : string)
| EvSuccessFailed (protocol : string)
| EvEstablished (protocol user outbound : string)
| EvRelayClosed
| EvHandshakeFailure (err : error)
| EvHandshakeSuccess
| EvOnClose (err : option error)
| EvCloseConn
| EvCloseOutbound (conn : option Z)
| EvClosePacket (conn : Z).

(** The shared counter and registry; the state of [closeOnce]; whether both byte counters
    exist; the events so far. *)
Record streamState (O : Type) := mkStreamState {
  hs_activeStreams : Z;
  hs_sessions : registry;
  hs_once : O;
  hs_counting : bool;
  hs_events : list stream_event
}.
Arguments mkStreamState {O}.
Arguments hs_activeStreams {O} _.
Arguments hs_sessions {O} _.
Arguments hs_once {O} _.
Arguments hs_counting {O} _.
Arguments hs_events {O} _.

#[export] Instance Eta_streamState O : Eta (streamState O) := record_eta (
  fun s : streamState O => mkStreamState (hs_activeStreams s) (hs_sessions s) (hs_once s) (hs_counting s) (hs_events s)).

Definition M (O A : Type) : Type := streamState O -> A * streamState O.
#[export] Instance M_ret O : MRet (M O) := fun A a s => (a, s).
#[export] Instance M_bind O : MBind (M O) := fun A B k m s => let '(a, s) := m s in k a s.
Definition emit {O} (e : stream_event) : M O unit :=
  fun s => (tt, s <| hs_events := hs_events s ++ [e] |>).

(** How the handler returns: with the connection closed, or with a relay running on it. *)
Inductive handled := StreamClosed | RelayTCP (conn : option Z) | RelayUDP (request : Request) (packetConn : Z).

Section Handler.
Context {Ob Sv O : Type} `{!Outbound Ob} `{!PacketOutbound Ob} `{!UnicodeTables}
  `{!SocksaddrMethods} `{!UoT} `{!OnceClose O}.
Variable lw : ListenerWrapper Ob Sv.
(** The state in which the dial loop of a call of [dialContext] ends. *)
Variable dialled : dialState -> dialState.
Variable st : stream.
(** The field [listenPacketFunc] of the wrapper, nil outside of tests. *)
Variable listenPacketFunc : option (string -> string -> result Z).

Notation Mon A := (M O A).

Definition user : string := userFromContext (st_ctx st).
Definition connectionID : Z := connectionIDFromContext (st_ctx st).
Definition outboundName : string := snd (outboundForUser lw user).

(** handler.go, [isUDPOverTCPDestination]. *)
Definition isUDPOverTCPDestination (destination : Socksaddr) : bool :=
  String.eqb (Fqdn destination) MagicAddress || String.eqb (Fqdn destination) LegacyMagicAddress.

(** handler.go, [logOutboundFailure]. *)
Definition logOutboundFailure (destination : Socksaddr) (err : error) : Mon unit :=
  emit (EvOutboundFailure
    (if isUDPOverTCPDestination destination then "udp_over_tcp_v2" else "tcp")
    (dialFailureReason err) user outboundName).

(** handler.go, [reportHandshakeFailure] and [reportHandshakeSuccess]. *)
Definition reportHandshakeFailure (err : error) : Mon unit :=
  if st_HandshakeFailure st then emit (EvHandshakeFailure err) else mret tt.

Definition reportHandshakeSuccess : Mon (option error) :=
  match st_HandshakeSuccess st with
  | None => mret None
  | Some None => emit EvHandshakeSuccess;; mret None
  | Some (Some err) =>
      emit EvHandshakeSuccess;; mret (Some (Errorf "report handshake success: %w" [] [err]))
  end.

(** The registry and the counter. *)
Definition updateUser : Mon unit :=
  fun s => (tt, s <| hs_sessions := updateSessionUser connectionID user (hs_sessions s) |>).

Definition acquireStreamM : Mon bool := fun s =>
  let '(ok, n, r) := acquireStream (config lw) connectionID (hs_activeStreams s) (hs_sessions s) in
  (ok, s <| hs_activeStreams := n |> <| hs_sessions := r |>
         <| hs_events := hs_events s ++ if ok then [EvAcquired] else [] |>).

Definition releaseStreamM : Mon unit := fun s =>
  let '(n, r) := releaseStream (config lw) connectionID (hs_activeStreams s) (hs_sessions s) in
  (tt, s <| hs_activeStreams := n |> <| hs_sessions := r |>
         <| hs_events := hs_events s ++ [EvReleased] |>).

Definition callOnClose (err : option error) : Mon unit :=
  if st_onClose st then emit (EvOnClose err) else mret tt.

(** The close handler [NewConnectionEx] builds with [N.OnceClose]. *)
Definition closeOnce (err : option error) : Mon unit := fun s =>
  let '(runs, o) := once_call (hs_once s) in
  let s := s <| hs_once := o |> in
  if runs then
    (releaseStreamM;;
     (fun s => (if hs_counting s then emit EvRelayClosed else mret tt) s);;
     callOnClose err) s
  else (tt, s).

Definition newCloseOnce : Mon unit :=
  fun s => (tt, s <| hs_once := once_new |> <| hs_counting := false |>).

(** What a failure does once the stream has its slot: tell the client, run the close
    handler, close the connection. *)
Definition fail (destination : Socksaddr) (err : error) : Mon handled :=
  logOutboundFailure destination err;; reportHandshakeFailure err;; closeOnce (Some err);;
  emit EvCloseConn;; mret StreamClosed.

(** handler.go, [readUDPOverTCPRequest]. *)
Definition readUDPOverTCPRequest (destination : Socksaddr) : result Request :=
  if String.eqb (Fqdn destination) MagicAddress then
    match st_ReadRequest st with
    | Err err => Err (Errorf "%w: %w" [] [Sentinel errInvalidUDPOverTCPRequest; err])
    | Ok request =>
        if rq_IsConnect request then
          match validatePacketDestination lw user (rq_Destination request) with
          | Err err => Err err
          | Ok _ => Ok request
          end
        else Ok request
    end
  else if String.eqb (Fqdn destination) LegacyMagicAddress then
    Ok (mkRequest false (mkSocksaddr Addr_zero 0 ""))
  else Err (Errorf "%w: %s" [Socksaddr_String destination] [Sentinel errUnsupportedUDPOverTCP]).

(** handler.go, [listenPacketContext]. *)
Definition listenPacketContext : result Z :=
  match listenPacketFunc with
  | Some f => f "udp" ""
  | None => ListenPacket (fst (outboundForUser lw user)) "udp" ""
  end.

(** handler.go, [handleUDPOverTCP]. *)
Definition handleUDPOverTCP (destination : Socksaddr) : Mon handled :=
  match readUDPOverTCPRequest destination with
  | Err err => fail destination err
  | Ok request =>
      match listenPacketContext with
      | Err err => fail (rq_Destination request) err
      | Ok packetConn =>
          err ← reportHandshakeSuccess;
          match err with
          | Some err =>
              emit (EvSuccessFailed "udp_over_tcp_v2");; emit (EvClosePacket packetConn);;
              closeOnce (Some err);; emit EvCloseConn;; mret StreamClosed
          | None =>
              emit (EvEstablished "udp_over_tcp_v2" user outboundName);;
              mret (RelayUDP request packetConn)
          end
      end
  end.

(** The two results of [dialContext]. *)
Definition dial_result (destination : Socksaddr) : option Z * option error :=
  match dialContext lw user destination with
  | Err err => (None, Some err)
  | Ok s0 =>
      match d_main (dialled s0) with
      | Returned o => returned_value (dialled s0) o
      | _ => (None, None)
      end
  end.

(** handler.go, [NewConnectionEx], up to its relay. *)
Definition NewConnectionEx : Mon handled :=
  updateUser;;
  ok ← acquireStreamM;
  if negb ok then
    let err := Errorf "%w" [] [Sentinel errStreamLimitExceeded] in
    logOutboundFailure (st_destination st) err;; reportHandshakeFailure err;; callOnClose (Some err);;
    emit EvCloseConn;; mret StreamClosed
  else
    newCloseOnce;;
    if isUDPOverTCPDestination (st_destination st) then handleUDPOverTCP (st_destination st)
    else
    match dial_result (st_destination st) with
    | (_, Some err) => fail (st_destination st) err
    | (outbound, None) =>
        (fun s => (tt, s <| hs_counting := st_debug st |>));;
        err ← reportHandshakeSuccess;
        match err with
        | Some err =>
            emit (EvSuccessFailed "tcp");; emit (EvCloseOutbound outbound);;
            closeOnce (Some err);; emit EvCloseConn;; mret StreamClosed
        | None =>
            emit (EvEstablished "tcp" user outboundName);; mret (RelayTCP outbound)
        end
    end.

(** The relay of an established stream, on the same state: its [closeAll] calls [closeOnce]
    and closes both connections. *)
Definition relay_of (h : handled) : relay_action -> relayState (streamState O) -> option (relayState (streamState O)) :=
  relay_step (fun err s => snd (closeOnce err s)) (fun s => snd (emit EvCloseConn s))
    (fun s => snd (match h with
                   | RelayTCP outbound => emit (EvCloseOutbound outbound)
                   | RelayUDP _ packetConn => emit (EvClosePacket packetConn)
                   | StreamClosed => mret tt
                   end s)).

(** ** Lemmas on the handler *)

(** The events of telling the client of a failure, and of the close handler. *)
Definition told_failure (err : error) : list stream_event :=
  if st_HandshakeFailure st then [EvHandshakeFailure err] else [].
Definition told_success : list stream_event :=
  match st_HandshakeSuccess st with None => [] | Some _ => [EvHandshakeSuccess] end.
Definition told_close (err : option error) : list stream_event :=
  if st_onClose st then [EvOnClose err] else [].

(** The first call of [closeOnce] releases the slot and calls the close handler. *)
Definition closes_stream (err : option error) (s s' : streamState O) : Prop :=
  releaseStream (config lw) connectionID (hs_activeStreams s) (hs_sessions s)
    = (hs_activeStreams s', hs_sessions s') /\
  hs_events s' = hs_events s ++ EvReleased :: (if hs_counting s then [EvRelayClosed] else []) ++ told_close err.

Context `{!OnceCloseLaws O}.

Lemma closeOnce_new err s : hs_once s = once_new -> closes_stream err s (snd (closeOnce err s)).
Proof.
  intros Ho. unfold closeOnce, closes_stream, told_close, callOnClose. rewrite Ho.
  pose proof once_first as Hfirst.
  destruct (once_call once_new) as [runs o]. simpl in Hfirst. subst runs.
  unfold mbind, M_bind, releaseStreamM. cbn -[releaseStream].
  destruct (releaseStream _ _ _ _) as [n r]. simpl.
  by destruct (hs_counting s), (st_onClose st); simpl; rewrite <- ?app_assoc.
Qed.

(** A failure after the slot was taken. *)
Lemma fail_new d err s :
  hs_once s = once_new ->
  exists s1, closes_stream (Some err)
    (s <| hs_events := hs_events s ++
            EvOutboundFailure (if isUDPOverTCPDestination d then "udp_over_tcp_v2" else "tcp")
              (dialFailureReason err) user outboundName :: told_failure err |>) s1 /\
  fail d err s = (StreamClosed, s1 <| hs_events := hs_events s1 ++ [EvCloseConn] |>).
Proof.
  intros Ho. unfold fail, logOutboundFailure, reportHandshakeFailure, told_failure.
  set (l := EvOutboundFailure _ _ _ _). unfold mbind, M_bind, emit at 1.
  destruct (st_HandshakeFailure st); unfold emit; simpl; rewrite <- ?app_assoc; simpl;
    set (s0 := mkStreamState _ _ _ _ _); exists (snd (closeOnce (Some err) s0));
    (split; [by apply closeOnce_new|by destruct (closeOnce (Some err) s0)]).
Qed.

(** What a stream that reaches its target opens there. *)
Inductive target := TargetConn (conn : option Z) | TargetPacket (request : Request) (conn : Z).

Definition close_target (t : target) : stream_event :=
  match t with TargetConn conn => EvCloseOutbound conn | TargetPacket _ conn => EvClosePacket conn end.

(** The attempt to reach it: for a failure the destination it is logged for. *)
Definition reach : target + Socksaddr * error :=
  if isUDPOverTCPDestination (st_destination st) then
    match readUDPOverTCPRequest (st_destination st) with
    | Err err => inr (st_destination st, err)
    | Ok request =>
        match listenPacketContext with
        | Err err => inr (rq_Destination request, err)
        | Ok packetConn => inl (TargetPacket request packetConn)
        end
    end
  else
    match dial_result (st_destination st) with
    | (_, Some err) => inr (st_destination st, err)
    | (outbound, None) => inl (TargetConn outbound)
    end.

(** The ways a stream is handled, from a state without events.  [s] is the state once the slot
    was asked for; [ended] the events before the slot is released. *)
Inductive handled_as (s : streamState O) : handled * streamState O -> Prop :=
| handled_refused s' :
    hs_events s = [] -> hs_activeStreams s' = hs_activeStreams s -> hs_sessions s' = hs_sessions s ->
    hs_events s' =
      (let err := Errorf "%w" [] [Sentinel errStreamLimitExceeded] in
       EvOutboundFailure (if isUDPOverTCPDestination (st_destination st) then "udp_over_tcp_v2" else "tcp")
         (dialFailureReason err) user outboundName :: told_failure err ++ told_close (Some err) ++ [EvCloseConn]) ->
    handled_as s (StreamClosed, s')
| handled_failed d err s0 s1 :
    hs_events s = [EvAcquired] -> reach = inr (d, err) ->
    hs_activeStreams s0 = hs_activeStreams s -> hs_sessions s0 = hs_sessions s ->
    hs_events s0 = EvAcquired ::
      EvOutboundFailure (if isUDPOverTCPDestination d then "udp_over_tcp_v2" else "tcp")
        (dialFailureReason err) user outboundName :: told_failure err ->
    closes_stream (Some err) s0 s1 ->
    handled_as s (StreamClosed, s1 <| hs_events := hs_events s1 ++ [EvCloseConn] |>)
| handled_unacknowledged t err s0 s1 protocol :
    hs_events s = [EvAcquired] -> reach = inl t -> st_HandshakeSuccess st = Some (Some err) ->
    hs_activeStreams s0 = hs_activeStreams s -> hs_sessions s0 = hs_sessions s ->
    hs_events s0 = [EvAcquired; EvHandshakeSuccess; EvSuccessFailed protocol; close_target t] ->
    closes_stream (Some (Errorf "report handshake success: %w" [] [err])) s0 s1 ->
    handled_as s (StreamClosed, s1 <| hs_events := hs_events s1 ++ [EvCloseConn] |>)
| handled_established t s' protocol :
    hs_events s = [EvAcquired] -> reach = inl t ->
    (forall err, st_HandshakeSuccess st <> Some (Some err)) ->
    hs_once s' = once_new ->
    hs_activeStreams s' = hs_activeStreams s -> hs_sessions s' = hs_sessions s ->
    hs_events s' = EvAcquired :: told_success ++ [EvEstablished protocol user outboundName] ->
    handled_as s
      (match t with TargetConn conn => RelayTCP conn | TargetPacket request conn => RelayUDP request conn end, s').

(** Telling the client of success, and what follows. *)
Lemma acknowledge s s1 t protocol :
  hs_events s = [EvAcquired] -> reach = inl t ->
  hs_once s1 = once_new -> hs_activeStreams s1 = hs_activeStreams s ->
  hs_sessions s1 = hs_sessions s -> hs_events s1 = [EvAcquired] ->
  handled_as s
    ((err ← reportHandshakeSuccess;
      match err with
      | Some err =>
          emit (EvSuccessFailed protocol);; emit (close_target t);;
          closeOnce (Some err);; emit EvCloseConn;; mret StreamClosed
      | None =>
          emit (EvEstablished protocol user outboundName);;
          mret (match t with
                | TargetConn conn => RelayTCP conn
                | TargetPacket request conn => RelayUDP request conn
                end)
      end) s1).
Proof.
  intros He Hreach Ho Hn Hr He1. unfold reportHandshakeSuccess.
  destruct (st_HandshakeSuccess st) as [[err|]|] eqn:Hs; unfold mbind, M_bind, emit, mret, M_ret; simpl.
  - rewrite <- !app_assoc, He1. simpl. set (s2 := mkStreamState _ _ _ _ _).
    pose proof (closeOnce_new (Some (Errorf "report handshake success: %w" [] [err])) s2 Ho) as Hc.
    destruct (closeOnce _ s2) as [[] s3]. by apply (handled_unacknowledged s t err s2 s3 protocol).
  - rewrite He1. apply (handled_established s t _ protocol); try done; [intros ?; by rewrite Hs|unfold told_success; by rewrite Hs].
  - rewrite He1. apply (handled_established s t _ protocol); try done; [intros ?; by rewrite Hs|unfold told_success; by rewrite Hs].
Qed.

Lemma NewConnectionEx_cases s0 :
  hs_events s0 = [] ->
  exists ok n r s,
    acquireStream (config lw) connectionID (hs_activeStreams s0)
      (updateSessionUser connectionID user (hs_sessions s0)) = (ok, n, r) /\
    hs_activeStreams s = n /\ hs_sessions s = r /\
    hs_events s = (if ok then [EvAcquired] else []) /\
    handled_as s (NewConnectionEx s0).
Proof.
  intros He. unfold NewConnectionEx, mbind, M_bind, updateUser, acquireStreamM. simpl.
  destruct (acquireStream _ _ _ _) as [[ok n] r] eqn:Hacq.
  exists ok, n, r, (s0 <| hs_activeStreams := n |> <| hs_sessions := r |>
                      <| hs_events := if ok then [EvAcquired] else [] |>).
  split_and!; [done..|]. cbn -[negb newCloseOnce]. rewrite He. destruct ok; cbn -[newCloseOnce].
  - set (s1 := mkStreamState _ _ _ _ _). set (s2 := mkStreamState n r once_new false [EvAcquired]).
    change (newCloseOnce s1) with (tt, s2). cbv iota beta.
    pose proof (eq_refl : reach = reach) as Hreach. unfold reach at 2 in Hreach.
    destruct (isUDPOverTCPDestination (st_destination st)) eqn:Hu.
    + unfold handleUDPOverTCP. destruct (readUDPOverTCPRequest _) as [rq|err] eqn:Hrd.
      * destruct listenPacketContext as [pc|err] eqn:Hl.
        -- by apply (acknowledge s1 s2 (TargetPacket rq pc)).
        -- destruct (fail_new (rq_Destination rq) err s2 eq_refl) as (s3 & Hc & ->).
           by refine (handled_failed s1 (rq_Destination rq) err _ s3 eq_refl Hreach _ _ _ Hc).
      * destruct (fail_new (st_destination st) err s2 eq_refl) as (s3 & Hc & ->).
        by refine (handled_failed s1 (st_destination st) err _ s3 eq_refl Hreach _ _ _ Hc).
    + destruct (dial_result _) as [conn [err|]] eqn:Hd.
      * destruct (fail_new (st_destination st) err s2 eq_refl) as (s3 & Hc & ->).
        by refine (handled_failed s1 (st_destination st) err _ s3 eq_refl Hreach _ _ _ Hc).
      * exact (acknowledge s1 (s2 <| hs_counting := st_debug st |>) (TargetConn conn) "tcp"
          eq_refl Hreach eq_refl eq_refl eq_refl eq_refl).
  - unfold logOutboundFailure, reportHandshakeFailure, callOnClose, emit.
    destruct (st_HandshakeFailure st) eqn:Hf, (st_onClose st) eqn:Hc; simpl; apply handled_refused; try done;
      unfold told_failure, told_close; rewrite Hf, Hc; done.
Qed.

(** ** The end of a stream *)

Definition is_acquired (e : stream_event) : bool := match e with EvAcquired => true | _ => false end.
Definition is_released (e : stream_event) : bool := match e with EvReleased => true | _ => false end.
Definition is_CloseConn (e : stream_event) : bool := match e with EvCloseConn => true | _ => false end.
Definition is_OnClose (e : stream_event) : bool := match e with EvOnClose _ => true | _ => false end.
Definition closes_target (e : stream_event) : bool :=
  match e with EvCloseOutbound _ | EvClosePacket _ => true | _ => false end.

(** [s'] is a state in which the stream is over: the handler closed it, or its relay, by then
    some steps on, has ended. *)
Definition stream_over (h : handled) (s1 s' : streamState O) : Prop :=
  match h with
  | StreamClosed => s' = s1
  | _ => exists acts r, acts <> [] /\ run (relay_of h) acts (relay_start s1) = Some r /\ s' = rl_state r
  end.

(** Nothing but its own event is counted where a stream ends. *)
Lemma count_told f err :
  (forall e, f (EvHandshakeFailure e) = false) -> countb f (told_failure err) = 0.
Proof. intros Hf. unfold told_failure. destruct (st_HandshakeFailure st); simpl; by rewrite ?Hf. Qed.

Lemma count_told_close f err :
  countb f (told_close err) = if st_onClose st then (if f (EvOnClose err) then 1 else 0) else 0.
Proof. unfold told_close. destruct (st_onClose st); simpl; lia. Qed.

Lemma count_success f : f EvHandshakeSuccess = false -> countb f told_success = 0.
Proof. intros Hf. unfold told_success. destruct (st_HandshakeSuccess st); simpl; by rewrite ?Hf. Qed.

Lemma count_counting f (b : bool) :
  f EvRelayClosed = false -> countb f (if b then [EvRelayClosed] else []) = 0.
Proof. intros Hf. destruct b; simpl; by rewrite ?Hf. Qed.

(** Counts the events of a stream's life. *)
Ltac count_events :=
  repeat first
    [ rewrite countb_app | rewrite count_told by done | rewrite count_told_close
    | rewrite count_success by done | rewrite count_counting by done
    | progress cbn [countb is_acquired is_released is_CloseConn is_OnClose closes_target close_target] ].

Lemma relay_of_over h s1 acts r :
  acts <> [] -> run (relay_of h) acts (relay_start s1) = Some r -> hs_once s1 = once_new ->
  exists err s2, closes_stream err s1 s2 /\
    rl_state r = s2 <| hs_events := hs_events s2 ++ EvCloseConn ::
      match h with
      | RelayTCP outbound => [EvCloseOutbound outbound]
      | RelayUDP _ packetConn => [EvClosePacket packetConn]
      | StreamClosed => []
      end |>.
Proof.
  intros Hne Hr Ho. destruct (relay_first_error _ _ _ _ _ _ Hr) as [Hs Hc].
  rewrite (Hc Hne) in Hs. exists (first_error acts), (snd (closeOnce (first_error acts) s1)).
  split; [by apply closeOnce_new|]. rewrite Hs.
  destruct h; unfold emit, mret, M_ret; simpl; rewrite <- ?app_assoc; done.
Qed.

Lemma updated_streams (s0 : streamState O) :
  (forall s, hs_sessions s0 !! connectionID = Some s -> 0 <= as_activeStreams s) ->
  forall s, updateSessionUser connectionID user (hs_sessions s0) !! connectionID = Some s ->
  0 <= as_activeStreams s.
Proof.
  intros Hpos s. unfold updateSessionUser.
  destruct (hs_sessions s0 !! connectionID) as [s2|] eqn:Hs; [|congruence].
  rewrite lookup_insert_eq. intros [= <-]. simpl. by apply (Hpos s2).
Qed.

(** C6.  However a stream ends, it ends completely: refused, failed on the way, not acknowledged
    or relayed until a side closes, its slot was released exactly as often as it was
    acquired, the shared counter and the session's count are what they were, the client's
    connection was closed once, the close handler called once, and what was opened at the
    target closed once. *)
Theorem stream_cleanup s0 h s1 s' :
  int_limits (config lw) -> 0 <= hs_activeStreams s0 < 2 ^ 63 ->
  (forall s, hs_sessions s0 !! connectionID = Some s -> 0 <= as_activeStreams s) ->
  hs_events s0 = [] -> NewConnectionEx s0 = (h, s1) -> stream_over h s1 s' ->
  hs_activeStreams s' = hs_activeStreams s0 /\
  hs_sessions s' = updateSessionUser connectionID user (hs_sessions s0) /\
  countb is_released (hs_events s') = countb is_acquired (hs_events s') /\
  countb is_acquired (hs_events s') <= 1 /\
  countb is_CloseConn (hs_events s') = 1 /\
  countb is_OnClose (hs_events s') = (if st_onClose st then 1 else 0) /\
  countb closes_target (hs_events s') =
    countb is_acquired (hs_events s') * (match reach with inl _ => 1 | inr _ => 0 end).
Proof.
  intros Hl Hn Hpos He Hnew Hover.
  destruct (NewConnectionEx_cases s0 He) as (ok & n & r & s & Hacq & <- & <- & Hev & Has).
  rewrite Hnew in Has.
  pose proof (releaseStream_acquireStream (config lw) connectionID (hs_activeStreams s0)
    (updateSessionUser connectionID user (hs_sessions s0)) Hl Hn) as Hback.
  rewrite Hacq in Hback. specialize (Hback (updated_streams s0 Hpos)).
  inversion Has as [s2 Hev1 Hn2 Hr2 Hev2|d err s2 s3 Hev1 Hreach Hn2 Hr2 Hev2 Hcl
    |t err s2 s3 protocol Hev1 Hreach _ Hn2 Hr2 Hev2 Hcl|t s2 protocol Hev1 Hreach _ Ho Hn2 Hr2 Hev2];
    subst h s1.
  - destruct ok; [congruence|]. simpl in Hover. subst s'.
    injection Hback as Hb1 Hb2. rewrite Hn2, Hr2, Hb1, Hb2, Hev2.
    split_and!; try done; count_events; destruct (st_onClose st); simpl; lia.
  - destruct ok; [|congruence]. simpl in Hover. subst s'. simpl.
    destruct Hcl as [Hrel ->]. rewrite Hn2, Hr2, Hback in Hrel. injection Hrel as <- <-.
    rewrite Hev2, Hreach. split_and!; try done; count_events; destruct (st_onClose st); simpl; lia.
  - destruct ok; [|congruence]. simpl in Hover. subst s'. simpl.
    destruct Hcl as [Hrel ->]. rewrite Hn2, Hr2, Hback in Hrel. injection Hrel as <- <-.
    rewrite Hev2, Hreach. split_and!; try done; count_events; destruct t, (st_onClose st); simpl; lia.
  - destruct ok; [|congruence].
    assert (exists acts r, acts <> [] /\ run (relay_of (match t with TargetConn conn => RelayTCP conn
      | TargetPacket request conn => RelayUDP request conn end)) acts (relay_start s2) = Some r /\
      s' = rl_state r) as (acts & r & Hne & Hr & ->) by (by destruct t).
    destruct (relay_of_over _ _ _ _ Hne Hr Ho) as (err & s3 & [Hrel Hev3] & ->). simpl.
    rewrite Hn2, Hr2, Hback in Hrel. injection Hrel as <- <-. rewrite Hev3, Hev2, Hreach.
    split_and!; try done; destruct t; count_events; destruct (st_onClose st); simpl; lia.
Qed.

(** The destination of a connected packet stream was checked. *)
Lemma reach_connect request conn :
  reach = inl (TargetPacket request conn) -> rq_IsConnect request = true ->
  exists ds, validatePacketDestination lw user (rq_Destination request) = Ok ds.
Proof.
  unfold reach, readUDPOverTCPRequest. intros Hr Hc.
  destruct (isUDPOverTCPDestination _); [|by destruct (dial_result _) as [? []]].
  destruct (String.eqb _ _).
  - destruct (st_ReadRequest st) as [rq|err]; [|done].
    destruct (rq_IsConnect rq) eqn:Hrc; [destruct (validatePacketDestination _ _ _) as [ds|] eqn:Hv; [|done]|];
      destruct listenPacketContext; simplify_eq; eauto. congruence.
  - destruct (String.eqb _ _); [|done]. destruct listenPacketContext; by simplify_eq.
Qed.

(** Everybody hears of the same failure: the log, with the error's reason; the client, if it
    listens; the close handler; and then the connection is closed. *)
Definition told (err : error) (evs : list stream_event) : Prop :=
  (exists protocol, EvOutboundFailure protocol (dialFailureReason err) user outboundName ∈ evs) /\
  (st_HandshakeFailure st = true -> EvHandshakeFailure err ∈ evs) /\
  (st_onClose st = true -> EvOnClose (Some err) ∈ evs) /\
  last evs = Some EvCloseConn.

Lemma told_intro err protocol before mid evs :
  evs = (before ++ EvOutboundFailure protocol (dialFailureReason err) user outboundName ::
         told_failure err) ++ mid ++ told_close (Some err) ++ [EvCloseConn] ->
  told err evs.
Proof.
  intros ->. unfold told, told_failure, told_close. split_and!.
  - exists protocol. rewrite !elem_of_app, elem_of_cons. auto.
  - intros ->. rewrite !elem_of_app, elem_of_cons, list_elem_of_singleton. auto.
  - intros ->. rewrite !elem_of_app, list_elem_of_singleton. auto.
  - by rewrite !app_assoc, last_snoc.
Qed.

(** C13.  What becomes of a stream: without a slot it is refused with the limit's error; with one,
    the attempt to reach its target decides: its error is reported to everybody, and
    otherwise the stream is relayed to what was opened, unless the client's connection fails
    to acknowledge, which ends it too; and the fixed destination of a packet stream has
    passed the policy. *)
Theorem stream_outcome s0 h s1 :
  hs_events s0 = [] -> NewConnectionEx s0 = (h, s1) ->
  let '(ok, _, _) := acquireStream (config lw) connectionID (hs_activeStreams s0)
                       (updateSessionUser connectionID user (hs_sessions s0)) in
  if ok then
    match reach, st_HandshakeSuccess st with
    | inr (_, err), _ => h = StreamClosed /\ told err (hs_events s1)
    | inl t, Some (Some err) =>
        h = StreamClosed /\ close_target t ∈ hs_events s1 /\ last (hs_events s1) = Some EvCloseConn /\
        (st_onClose st = true ->
           EvOnClose (Some (Errorf "report handshake success: %w" [] [err])) ∈ hs_events s1)
    | inl t, _ =>
        (exists protocol, last (hs_events s1) = Some (EvEstablished protocol user outboundName)) /\
        match t with
        | TargetConn conn => h = RelayTCP conn
        | TargetPacket request conn =>
            h = RelayUDP request conn /\
            (rq_IsConnect request = true ->
               exists ds, validatePacketDestination lw user (rq_Destination request) = Ok ds)
        end
    end
  else h = StreamClosed /\ told (Errorf "%w" [] [Sentinel errStreamLimitExceeded]) (hs_events s1).
Proof.
  intros He Hnew.
  destruct (NewConnectionEx_cases s0 He) as (ok & n & r & s & -> & _ & _ & Hev & Has).
  rewrite Hnew in Has.
  inversion Has as [s2 Hev1 Hn2 Hr2 Hev2|d err s2 s3 Hev1 Hreach Hn2 Hr2 Hev2 [_ Hcl]
    |t err s2 s3 protocol Hev1 Hreach Hack Hn2 Hr2 Hev2 [_ Hcl]|t s2 protocol Hev1 Hreach Hack Ho Hn2 Hr2 Hev2];
    subst h s1; (destruct ok; [try congruence|try congruence]).
  - split; [done|]. rewrite Hev2. by eapply (told_intro _ (if isUDPOverTCPDestination (st_destination st) then _ else _) [] []).
  - rewrite Hreach. split; [done|]. simpl. rewrite Hcl, Hev2.
    apply (told_intro err (if isUDPOverTCPDestination d then "udp_over_tcp_v2" else "tcp") [EvAcquired]
      (EvReleased :: if hs_counting s2 then [EvRelayClosed] else [])).
    rewrite <- !app_assoc. simpl. by rewrite <- !app_assoc.
  - rewrite Hreach, Hack. simpl. rewrite Hcl, Hev2. split_and!; [done| |by rewrite last_snoc|].
    + rewrite !elem_of_app. left; left. by do 3 right; left.
    + intros Hc. unfold told_close. rewrite Hc.
      apply elem_of_app; left. apply elem_of_app; right. right. apply elem_of_app; right. by left.
  - rewrite Hreach. assert (Hlast : last (hs_events s2) = Some (EvEstablished protocol user outboundName))
      by (rewrite Hev2; apply (last_snoc _ (EvAcquired :: told_success))).
    destruct (st_HandshakeSuccess st) as [[err|]|]; [by destruct (Hack err)|..];
      (split; [by exists protocol|]); destruct t; try done; (split; [done|]); intros Hc; by eapply reach_connect.
Qed.

End Handler.

(** *** Witnesses *)

#[local] Instance handler_tables : UnicodeTables := { Map_ToLower s := s }.
#[local] Instance handler_methods : SocksaddrMethods := {
  Socksaddr_IsValid d := IsValid (Addr d) || negb (String.eqb (Fqdn d) "");
  Socksaddr_String d := Fqdn d
}.
#[local] Instance handler_outbound : Outbound unit := {
  DirectOutbound := tt;
  LookupNetIP _ _ host := Ok [Addr (six (2 ^ 125)); Addr (four 0x5db8d822)]
}.
#[local] Instance handler_packets : PacketOutbound unit := {
  ListenPacket _ _ _ := Err (errors_New "listen udp: too many open files")
}.
#[local] Instance handler_uot : UoT := { MagicAddress := "uot.magic"; LegacyMagicAddress := "uot.legacy" }.
#[local] Instance handler_once : OnceClose bool := { once_new := false; once_call o := (negb o, true) }.
#[local] Instance handler_once_laws : OnceCloseLaws bool.
Proof. by split. Qed.

Definition web_stream : stream :=
  mkStream (mkContext (Some "alice"%string) (Some 7)) (mkSocksaddr Addr_zero 443 "www.example.com")
    true true (Some None) true (Err (Sentinel io_EOF)).

(** A packet stream connected to one server. *)
Definition game_stream : stream :=
  mkStream (mkContext (Some "alice"%string) (Some 7)) (mkSocksaddr Addr_zero 0 "uot.magic")
    true true (Some None) true (Ok (mkRequest true game_server)).

Definition run_dials (s : dialState) : dialState := default s (dial_run slow_first s).

Definition before_stream : streamState bool :=
  mkStreamState 0 (registerSession 7 7 7 0 newSessionRegistry) true false [].

Definition web_result : handled * streamState bool :=
  Eval vm_compute in NewConnectionEx provisioned_default run_dials web_stream None before_stream.
Definition web_relay : relayState (streamState bool) := Eval vm_compute in
  default (relay_start before_stream)
    (run (relay_of provisioned_default web_stream (fst web_result)) target_first (relay_start (snd web_result))).

Lemma web_result_eq : NewConnectionEx provisioned_default run_dials web_stream None before_stream = web_result.
Proof. vm_compute. reflexivity. Qed.

Lemma web_relay_eq :
  run (relay_of provisioned_default web_stream (fst web_result)) target_first
    (relay_start (snd web_result)) = Some web_relay.
Proof. vm_compute. reflexivity. Qed.

Lemma stream_cleanup_witness :
  fst web_result = RelayTCP (Some 6) /\ hs_activeStreams (rl_state web_relay) = 0 /\
  countb is_released (hs_events (rl_state web_relay)) = 1 /\
  countb is_CloseConn (hs_events (rl_state web_relay)) = 1.
Proof.
  destruct (stream_cleanup provisioned_default run_dials web_stream None before_stream (fst web_result)
    (snd web_result) (rl_state web_relay)) as (H1 & _ & H3 & _ & H5 & _).
  - vm_compute. done.
  - simpl. lia.
  - intros s Hs. vm_compute in Hs. injection Hs as <-. simpl. lia.
  - reflexivity.
  - rewrite web_result_eq. reflexivity.
  - exists target_first, web_relay. split; [done|]. split; [exact web_relay_eq|reflexivity].
  - split; [reflexivity|]. split; [exact H1|]. split; [exact H3|exact H5].
Defined.

Definition game_result : handled * streamState bool :=
  Eval vm_compute in NewConnectionEx provisioned_default run_dials game_stream None before_stream.

Lemma game_result_eq : NewConnectionEx provisioned_default run_dials game_stream None before_stream = game_result.
Proof. vm_compute. reflexivity. Qed.

Lemma stream_outcome_witness :
  fst game_result = StreamClosed /\
  told provisioned_default game_stream (errors_New "listen udp: too many open files")
    (hs_events (snd game_result)).
Proof.
  exact (stream_outcome provisioned_default run_dials game_stream None before_stream (fst game_result)
    (snd game_result) eq_refl game_result_eq).
Defined.

(** The log calls the failure of this packet stream one of protocol [tcp], because
    [handleUDPOverTCP] passes the request's destination to [logOutboundFailure]. *)
Lemma packet_failure_logged_as_tcp :
  EvOutboundFailure "tcp" "dial_failed" "alice" "direct" ∈ hs_events (snd game_result).
Proof. by right; left. Qed.
